(* ===== verification/_CoqProject ===== *)
-Q . S2P
Prelude.v
Text.v
Fcs.v
Constants.v
Frame.v
Packet.v
Framer.v
Transport.v
Commands.v
Session.v
SessionSpec.v
SessionProps.v
Values.v
ValuesProps.v
Storage.v
Metrics.v
Config.v
Mqtt.v
Daemon.v
DaemonProps.v
DaemonInv.v
Tasks.v
Calls.v
Pvoutput.v
Main.v
System.v
WireTests.v
FuzzTests.v
ClientTests.v
AppTests.v
