(* ===== verification/Prelude.v ===== *)
(** * hass-sma-rs: a verification library

    hass-sma-rs polls SMA solar inverters over Bluetooth (RFCOMM), publishes
    their readings to Home Assistant over MQTT, archives them, exposes them as
    metrics and uploads them to PVOutput.  This library models the Rust crates
    under [src/crates/] and proves what makes them correct.  It has one file
    per component; the files build on each other as the crates do.

    ** The program and its model

    - [Prelude.v] (this file): what the models share.  A Rust integer is a [Z]
      in the range of its type, a byte string a [list Z].  A body that returns
      a [Result] is an [outcome]: a value, a typed error, or [Panic] (index or
      slice out of range, [expect] on nothing), so that absence of panics is a
      theorem and not an assumption.  A method on [&mut self] is a [prog]: a
      function from the receiver to an outcome and the receiver it leaves,
      errors included.  [wp] is its weakest precondition.
    - [Text.v]: the text the program writes and the numbers behind it: padded
      and fixed-point decimals, [f32]/[f64] as IEEE numbers ([SpecFloat]) with
      the saturating casts to integers, wall-clock times ([DateTime]), and the
      lemmas on splitting and joining strings.
    - [Fcs.v], [Constants.v], [Frame.v], [Packet.v], [Commands.v]: the wire
      protocol ([sma-bt-protocol/src/]).  The table-driven checksum of
      [fcs.rs]; the frame builder, byte stuffing and both parsers of
      [frame.rs]; the packet header codec of [packet.rs]; the query bodies of
      [commands.rs] (Module [Query]) and the logon bodies of [auth.rs] (Module
      [Auth]).
    - [Framer.v], [Transport.v]: the byte stream ([bluez-transport/src/]).
      [FrameReader] of [framer.rs] with its resynchronising recursion; the
      trait of [lib.rs] as the class [Transport], whose laws ([TransportLaws],
      and [TransportLive] for a working link) are what clients are proved
      against; the mock of [mock.rs] (Module [Mock]), the socket of [rfcomm.rs]
      (Module [Rfcomm]) and its addresses (Module [Mac]).  Both implementations
      are instances of the laws.
    - [Session.v], [SessionSpec.v], [SessionProps.v]: [session.rs] of
      [inverter-client/src/], over any transport: receive loops, handshake and
      logon, queries, event log, closing.  [SessionSpec.v] states what each
      method does in terms of the frames sent and consumed ([ttrace]);
      [SessionProps.v] holds the theorems.
    - [Values.v], [ValuesProps.v]: [values.rs], the record iterators and every
      reply parser, with [f32] arithmetic in single precision.
    - [Storage.v]: [storage/src/].  The trait [ReadingSink] as a class, with
      [SinkLaws] for its clients; the CSV files of [csv_sink.rs] (Module [Csv])
      over a disk whose every call may fail, half-written rows included; the
      TimescaleDB writer and schema of [writer.rs] and [schema.rs] (Module
      [Timescale]).  Both are instances.
    - [Metrics.v]: [telemetry/src/]: the registry of [metrics.rs] as maps from
      a family and its labels; the responder [handle] of [server.rs] and the
      accept loop of [serve_metrics] over scripted connections.
    - [Config.v]: [daemon/src/config.rs].  Deserialisation field by field, with
      defaults, over the data model of serde ([Yaml]: what [as_map], [as_str],
      ... make of a value; [YamlBuild] and [YamlLaws] for building one).
    - [Mqtt.v]: [mqtt-discovery/src/]: the sensor catalog, the topics, the
      discovery documents, the publisher over any MQTT client.
    - [Daemon.v], [DaemonProps.v], [DaemonInv.v]: [daemon/src/main.rs], one
      inverter task, [run_inverter]: the persisted client serial, the connect
      ladder, targets, announcement, event log, identity queries, and the poll
      tick with its per-target cooldown.  A [world] holds the session, the
      publisher, the task's variables, the archive sink, the metrics and the
      number of clock readings.  [DaemonProps.v] describes calls by their
      effects on publisher, archive and metrics; [DaemonInv.v] has the step
      relation [world_step] that every call refines, and the invariants it
      keeps.
    - [Tasks.v]: what the inverter tasks share, the metrics and the archive
      ([shared]), and the operations on it as [event]s.  A logic ([emits])
      shows that a run of [run_inverter] amounts to a list of events that does
      not depend on the shared state.
    - [Calls.v]: any transport with counters of its calls ([metered]), and the
      bounds on what each method of the session and the poll tick may use.
    - [Pvoutput.v]: [pvoutput.rs] and [pvoutput_uploader.rs]: the status form,
      its percent encoding, what a tick of the uploader reads from the metrics
      and sends.
    - [Main.v]: the rest of [main.rs]: the choice of the archive, the
      publishers' options and last will, the uploaders and the gauges they
      read, start-up and its errors, the probe, and the command line that
      chooses between them.
    - [System.v]: the running daemon.  A [schedule] is an interleaving of the
      events of the tasks and the reads of the uploaders, cut off after any of
      them (Ctrl-C aborts the tasks).
    - [WireTests.v], [ClientTests.v], [AppTests.v]: the inline tests of the crates
      and the sessions of [inverter-client/tests/mock_session.rs], under their
      own names, as boolean functions that evaluate to true on the models.
      [FuzzTests.v]: the property tests of [fuzz_frame_parse.rs] for all inputs.

    The daemon calls the session, the publisher, the archive and the metrics;
    the session calls a transport, the frame builder, [Frame.parse] and
    [decode_l2]; the socket calls the reassembly; the uploader reads the metrics
    that the daemon writes.  The models call each other in the same way.  In
    [Daemon.v] a task has the metrics and the archive in its [world]; [System.v]
    puts the tasks side by side on one registry and one archive.

    ** What the theorems show

    - Wire format: the checksum is the bit-serial one of RFC 1662 and detects
      every change of one byte; stuffing is transparent; [parse] inverts
      [build] and accepts exactly the images of a declarative description of
      the wire format; neither parser panics on any input, and a changed byte
      in the first four of a built frame is always reported; packet headers,
      queries and logon bodies read back.  [parse] does not verify the checksum
      it strips ([Frame.parse_ignores_fcs]).
    - Stream: [push] implements a specification on the whole stream, for any
      cutting into chunks; it invents no frame and loses no delimited one; what
      the builder emits survives a stream.  The socket delivers the frames of
      the stream in order across errors and timeouts, and leaks no descriptor
      while connecting.
    - Session: contracts of every method on every branch (frames sent, replies
      consumed, state and error left), success on a working link with the right
      replies among bounded noise, safety of any sequence of calls, and a bound
      on the waits of every method ([Calls.waits_are_bounded], with an example
      that reaches it).  Packet ids from 0x8000 on are never answered
      ([SessionProps.no_reply_beyond_15_bits]).
    - Readings: no parser panics; each reading is the one of the last record
      with its identifier; events read back, but not across the fragments the
      session concatenates ([ValuesProps.event_log_reads_back]).
    - Archive: rows are only ever appended, whatever the disk does; on a
      working disk a CSV reader gets back exactly the rows of each day and
      slot, under one header.
    - Configuration: a text is accepted as a configuration exactly when it is a
      document of it, field by field with names, types and defaults
      ([Config.daemon_document]), and what is accepted is in the range of its
      types; a written configuration reads back.
    - MQTT: topics and unique ids are injective; what is announced is what
      values are published on; unknown keys panic; the last will is on the
      topic of availability of a single inverter, but not on those of the devices
      behind a repeater ([Main.last_will_topics]).
    - Daemon: a reply's readings, and nothing else, reach MQTT, the metrics and
      the archive; the waits of the connect ladder and the single offline
      announcement; the client serial survives restarts; the bookkeeping of a
      task stays in range for ever; a poll interval of zero is accepted and
      panics.  The poll tick publishes a key that is not
      in the catalog, so no session survives its first tick
      ([DaemonProps.no_session_survives_a_tick]).
    - Composition: one power frame on the link comes out, with the same value,
      on the MQTT topic, in the gauge, in the archive and in the PVOutput form
      ([Main.power_frame_reaches_all_sinks]); the uploader of a slot reads the
      gauges of the task that polls it; how each failure of start-up ends.
    - Concurrency: under any schedule the metrics of an inverter's slot are
      those its own task alone leaves ([System.tasks_do_not_interfere]); each of
      the four values of an upload is the last one the slot's own task has set
      ([System.uploads_show_polled_values]); the shared CSV archive reads back,
      for each device and day, as the rows of its own task
      ([System.shared_archive_reads_back]).
    - PVOutput: the numbers of a status are in range; the form read back gives
      the status.

    ** Fuel and bounds

    [push_byte] recurses on resynchronisation; its fuel [push_depth] is proved
    enough in [Framer.v] (the buffered bytes shrink at every level).  The
    receive loops of the session have the attempts of the source (12, 16, 32)
    as their fuel.  The record loops of [values.rs] get one round per byte and
    a spare; [run_records_eq] shows that they end by themselves.  [hex_digits]
    has six digits of fuel, enough for any character.  [recv_loop] recurses on the
    script of socket answers, the daemon's [poll_loop] on a number of rounds,
    [run_rounds] on the connect attempts, [upload_loop] on the ticks and
    [accept_loop] on the connections: the source loops for ever, and the
    theorems quantify over all of these.

    ** Parameters

    The Bluetooth kernel interface (answers of the system calls), the answers
    of the file system, the MQTT client ([MqttClient]: [publish] accepts a
    message or fails), the database ([Timescale.Database]: a statement succeeds
    or fails) and its connection, YAML and durations ([Yaml], the parser of
    humantime), the parser of socket addresses, whether the HTTP client of the
    uploader can be built, the exposition text of the metrics library, clocks
    (the n-th reading), the random part of the session id, the text of time
    stamps and of errors.  JSON is modelled as a tree; its serialisation and
    the broker are not.

    ** Not modelled

    Logging and the set-up of tracing ([dump_bytes] of session.rs included),
    sleeping, the parsing of arguments (clap; [main] takes a parsed command
    line), the scheduler of tokio and its timers, the signal itself, the HTTP
    answer to an upload (the source only logs it).  Interleaving is at the
    grain of one registry update, one registry read, one archive write (the
    sink's lock is held for all of it): what the memory model or an abort does
    within one of them is not modelled.  Every task has an MQTT client of its
    own, so nothing is shared there.  Paths of CSV files are plain strings joined as
    [PathBuf] does.  Add-on packaging, scripts and documents hold no program
    logic. *)
From Stdlib Require Export ZArith Lia.
From stdpp Require Export base option list numbers strings.

Local Open Scope Z_scope.

(* ------------------------------------------------------------------ *)
(** ** Machine integers as ranges of [Z]                               *)
(* ------------------------------------------------------------------ *)

(** A Rust [u8]/[u16]/[u32]/[u64] is a [Z] in range; the range is written out
    so that [lia] sees it. *)
Abbreviation is_u8 z := (0 <= z < 256).
Abbreviation is_u16 z := (0 <= z < 65536).
Abbreviation is_u32 z := (0 <= z < 4294967296).
Abbreviation is_u64 z := (0 <= z < 18446744073709551616).
Abbreviation zlen l := (Z.of_nat (length l)).

(** Every element of a [Vec<u8>] / [&[u8]] is a byte. *)
Definition bytes (l : list Z) : Prop := Forall (λ b, is_u8 b) l.

#[export] Instance bytes_dec l : Decision (bytes l).
Proof. unfold bytes. apply Forall_dec. intros b. apply _. Defined.

(* ------------------------------------------------------------------ *)
(** ** Outcomes: a value, a typed error, or a Rust panic               *)
(* ------------------------------------------------------------------ *)

(** [Result<A, E>] plus the third thing a Rust body can do: panic (slice or
    index out of range, [unwrap] on [None]).  Keeping the panic in the model
    makes "never panics" a theorem instead of an assumption. *)
Inductive outcome (E A : Type) : Type :=
  | Ok (a : A)
  | Err (e : E)
  | Panic.
Arguments Ok {E A} a.
Arguments Err {E A} e.
Arguments Panic {E A}.

#[export] Instance outcome_ret {E} : MRet (outcome E) := λ A a, Ok a.
#[export] Instance outcome_bind {E} : MBind (outcome E) := λ A B f m,
  match m with
  | Ok a => f a
  | Err e => Err e
  | Panic => Panic
  end.
#[export] Instance outcome_eq_dec {E A} `{EqDecision E, EqDecision A} :
  EqDecision (outcome E A).
Proof. solve_decision. Defined.

(** [Result::map_err], the conversion that [?] and [map_err] perform. *)
Definition map_err {E F A} (g : E → F) (m : outcome E A) : outcome F A :=
  match m with
  | Ok a => Ok a
  | Err e => Err (g e)
  | Panic => Panic
  end.

(** [Option::ok_or]. *)
Definition ok_or {E A} (o : option A) (e : E) : outcome E A :=
  match o with Some a => Ok a | None => Err e end.

Definition no_panic {E A} (m : outcome E A) : Prop := m ≠ Panic.

(** A [for] loop whose body may fail: the state threaded through the list. *)
Section foldM.
Context {E A B : Type} (f : A → B → outcome E A).
Fixpoint foldM (a : A) (l : list B) : outcome E A :=
  match l with
  | [] => Ok a
  | b :: l => a ← f a b; foldM a l
  end.
End foldM.

(* ------------------------------------------------------------------ *)
(** ** Programs: methods on [&mut self]                                *)
(* ------------------------------------------------------------------ *)

(** A method that changes its receiver and returns a [Result]: the state it
    leaves is there on error too. *)
Definition prog (S E A : Type) : Type := S → outcome E A * S.

#[export] Instance prog_ret {S E} : MRet (prog S E) := λ A a s, (Ok a, s).
#[export] Instance prog_bind {S E} : MBind (prog S E) := λ A B f m s,
  match m s with
  | (Ok a, s) => f a s
  | (Err e, s) => (Err e, s)
  | (Panic, s) => (Panic, s)
  end.

Definition throw {S E A} (e : E) : prog S E A := λ s, (Err e, s).
Definition gets {S E A} (f : S → A) : prog S E A := λ s, (Ok (f s), s).
Definition modify {S E} (f : S → S) : prog S E () := λ s, (Ok (), f s).
Definition lift {S E A} (m : outcome E A) : prog S E A := λ s, (m, s).

(** [match m { Ok(..) => .., Err(..) => .. }]: observe the result. *)
Definition attempt {S E F A} (m : prog S E A) : prog S F (outcome E A) := λ s,
  match m s with
  | (Panic, s) => (Panic, s)
  | (r, s) => (Ok r, s)
  end.

(** [map_err] on a method. *)
Definition map_error {S E F A} (g : E → F) (m : prog S E A) : prog S F A := λ s,
  let '(r, s) := m s in (map_err g r, s).

(** Weakest precondition: what holds of result and final state. *)
Definition wp {S E A} (m : prog S E A) (s : S) (Q : outcome E A → S → Prop) : Prop :=
  Q (m s).1 (m s).2.

(* ------------------------------------------------------------------ *)
(** ** Slices: indexing, sub-slices, little-endian reads               *)
(* ------------------------------------------------------------------ *)

(** [l[i]] *)
Definition index {E A} (l : list A) (i : nat) : outcome E A :=
  match l !! i with Some a => Ok a | None => Panic end.

(** [&l[a..b]] *)
Definition slice {E A} (l : list A) (a b : nat) : outcome E (list A) :=
  if decide (a ≤ b ∧ b ≤ length l)%nat then Ok (take (b - a) (drop a l)) else Panic.

(** [&l[a..]] *)
Definition slice_from {E A} (l : list A) (a : nat) : outcome E (list A) :=
  slice l a (length l).

(** [uN::to_le_bytes] for an [8*n]-bit integer, and [uN::from_le_bytes]. *)
Fixpoint le_encode (n : nat) (z : Z) : list Z :=
  match n with
  | O => []
  | S n => z mod 256 :: le_encode n (z / 256)
  end.

Fixpoint le_decode (l : list Z) : Z :=
  match l with
  | [] => 0
  | b :: l => b + 256 * le_decode l
  end.

(** [LittleEndian::read_uN(buf)] of the byteorder crate: reads the first [n]
    bytes, panics when there are fewer. *)
Definition read_le {E} (n : nat) (l : list Z) : outcome E Z :=
  if decide (n ≤ length l)%nat then Ok (le_decode (take n l)) else Panic.

Definition read_u16 {E} (l : list Z) : outcome E Z := read_le 2 l.
Definition read_u32 {E} (l : list Z) : outcome E Z := read_le 4 l.
Definition read_u64 {E} (l : list Z) : outcome E Z := read_le 8 l.

(** Two's complement reading of a 32-bit word. *)
Definition to_i32 (z : Z) : Z := if z <? 2147483648 then z else z - 4294967296.
Definition read_i32 {E} (l : list Z) : outcome E Z := z ← read_u32 l; Ok (to_i32 z).

(** [b & 0xFF] as a byte and [x >> 8]; used where the source writes the bit
    operations rather than [to_le_bytes]. *)
Definition lo8 (x : Z) : Z := Z.land x 255.
Definition hi8 (x : Z) : Z := Z.land (Z.shiftr x 8) 255.

(* ------------------------------------------------------------------ *)
(** ** Shared lemmas                                                   *)
(* ------------------------------------------------------------------ *)

(** *** Outcomes *)

Lemma bind_Ok {E A B} (m : outcome E A) (f : A → outcome E B) b :
  m ≫= f = Ok b ↔ ∃ a, m = Ok a ∧ f a = Ok b.
Proof. destruct m; cbn; naive_solver. Qed.

Lemma bind_Err {E A B} (m : outcome E A) (f : A → outcome E B) e :
  m ≫= f = Err e ↔ m = Err e ∨ ∃ a, m = Ok a ∧ f a = Err e.
Proof. destruct m; cbn; naive_solver. Qed.

Lemma no_panic_bind {E A B} (m : outcome E A) (f : A → outcome E B) :
  no_panic m → (∀ a, m = Ok a → no_panic (f a)) → no_panic (m ≫= f).
Proof. unfold no_panic. destruct m; naive_solver. Qed.

Lemma no_panic_Ok {E A} (a : A) : no_panic (E:=E) (Ok a).
Proof. done. Qed.

Lemma no_panic_Err {E A} (e : E) : no_panic (A:=A) (Err e).
Proof. done. Qed.

Lemma no_panic_map_err {E F A} (g : E → F) (m : outcome E A) :
  no_panic m → no_panic (map_err g m).
Proof. by destruct m. Qed.

Lemma no_panic_ok_or {E A} (o : option A) (e : E) : no_panic (ok_or o e).
Proof. by destruct o. Qed.

Lemma foldM_app {E A B} (f : A → B → outcome E A) a l1 l2 :
  foldM f a (l1 ++ l2) = a ← foldM f a l1; foldM f a l2.
Proof.
  revert a. induction l1 as [|b l1 IH]; intros a; [done|]. cbn [app foldM].
  destruct (f a b); cbn; auto.
Qed.

(** A loop over a list of chunks is the loop over their concatenation. *)
Lemma foldM_concat {E A B} (f : A → B → outcome E A) a (ls : list (list B)) :
  foldM (foldM f) a ls = foldM f a (concat ls).
Proof.
  revert a. induction ls as [|l ls IH]; intros a; [done|]. cbn [foldM concat].
  rewrite foldM_app. destruct (foldM f a l); cbn; auto.
Qed.

(** Loop rule: an invariant kept by every step, with no step failing. *)
Lemma foldM_invariant {E A B} (f : A → B → outcome E A) (I : A → Prop) a l :
  I a → (∀ a b, I a → b ∈ l → ∃ a', f a b = Ok a' ∧ I a') →
  ∃ a', foldM f a l = Ok a' ∧ I a'.
Proof.
  revert a. induction l as [|b l IH]; intros a Ha Hf; [by exists a|]. cbn [foldM].
  destruct (Hf a b Ha) as (a' & -> & Ha'); [left|]. cbn.
  apply IH; [done|]. intros. apply Hf; [done|by right].
Qed.

(** *** Programs *)

Lemma wp_mono {S E A} (m : prog S E A) s (Q Q' : outcome E A → S → Prop) :
  wp m s Q → (∀ r s', Q r s' → Q' r s') → wp m s Q'.
Proof. unfold wp. auto. Qed.

Lemma wp_bind {S E A B} (m : prog S E A) (f : A → prog S E B) s Q :
  wp m s (λ r s', match r with
                  | Ok a => wp (f a) s' Q
                  | Err e => Q (Err e) s'
                  | Panic => Q Panic s'
                  end) →
  wp (m ≫= f) s Q.
Proof. unfold wp, mbind, prog_bind. by destruct (m s) as [[a|e|] s']. Qed.

Lemma wp_ret {S E A} (a : A) (s : S) (Q : outcome E A → S → Prop) : Q (Ok a) s → wp (mret a) s Q.
Proof. done. Qed.
Lemma wp_throw {S E A} (e : E) (s : S) (Q : outcome E A → S → Prop) : Q (Err e) s → wp (throw e) s Q.
Proof. done. Qed.
Lemma wp_gets {S E A} (f : S → A) s (Q : outcome E A → S → Prop) : Q (Ok (f s)) s → wp (gets f) s Q.
Proof. done. Qed.
Lemma wp_modify {S E} (f : S → S) s (Q : outcome E () → S → Prop) : Q (Ok ()) (f s) → wp (modify f) s Q.
Proof. done. Qed.
Lemma wp_lift {S E A} (m : outcome E A) (s : S) (Q : outcome E A → S → Prop) : Q m s → wp (lift m) s Q.
Proof. done. Qed.

Lemma wp_attempt {S E F A} (m : prog S E A) s (Q : outcome F (outcome E A) → S → Prop) :
  wp m s (λ r s', match r with Panic => Q Panic s' | r => Q (Ok r) s' end) → wp (attempt m) s Q.
Proof. unfold wp, attempt. by destruct (m s) as [[a|e|] s']. Qed.

Lemma wp_map_error {S E F A} (g : E → F) (m : prog S E A) s (Q : outcome F A → S → Prop) :
  wp m s (λ r s', Q (map_err g r) s') → wp (map_error g m) s Q.
Proof. unfold wp, map_error. by destruct (m s) as [r s']. Qed.

Lemma wp_and {S E A} (m : prog S E A) s (Q1 Q2 : outcome E A → S → Prop) :
  wp m s Q1 → wp m s Q2 → wp m s (λ r s', Q1 r s' ∧ Q2 r s').
Proof. by split. Qed.

(** From a run to its postcondition. *)
Lemma wp_det {S E A} (m : prog S E A) s Q r s' : m s = (r, s') → wp m s Q → Q r s'.
Proof. unfold wp. by intros ->. Qed.

(** *** Slices *)

Lemma index_Ok {E A} (l : list A) i a : index (E:=E) l i = Ok a ↔ l !! i = Some a.
Proof. unfold index. destruct (l !! i); naive_solver. Qed.

Lemma slice_Ok {E A} (l : list A) a b :
  (a ≤ b)%nat → (b ≤ length l)%nat → slice (E:=E) l a b = Ok (take (b - a) (drop a l)).
Proof. intros. unfold slice. by rewrite decide_True. Qed.

Lemma slice_from_Ok {E A} (l : list A) a :
  (a ≤ length l)%nat → slice_from (E:=E) l a = Ok (drop a l).
Proof.
  intros. unfold slice_from. rewrite slice_Ok by lia.
  by rewrite take_ge by (rewrite length_drop; lia).
Qed.

Lemma slice_length {E A} (l l' : list A) a b :
  slice (E:=E) l a b = Ok l' → length l' = (b - a)%nat.
Proof.
  unfold slice. case_decide; intros; simplify_eq.
  rewrite length_take, length_drop. lia.
Qed.

Lemma slice_Ok_inv {E A} (l l' : list A) a b :
  slice (E:=E) l a b = Ok l' →
  (a ≤ b ≤ length l)%nat ∧ l' = take (b - a) (drop a l).
Proof. unfold slice. case_decide; naive_solver lia. Qed.

Lemma no_panic_index {E A} (l : list A) i :
  (i < length l)%nat → no_panic (index (E:=E) l i).
Proof. intros [a Ha]%lookup_lt_is_Some. unfold index. by rewrite Ha. Qed.

Lemma no_panic_slice {E A} (l : list A) a b :
  (a ≤ b)%nat → (b ≤ length l)%nat → no_panic (slice (E:=E) l a b).
Proof. intros. rewrite slice_Ok; done. Qed.

Lemma no_panic_read_le {E} n l : (n ≤ length l)%nat → no_panic (read_le (E:=E) n l).
Proof. intros. unfold read_le. by rewrite decide_True. Qed.

Lemma read_le_Ok {E} n l :
  (n ≤ length l)%nat → read_le (E:=E) n l = Ok (le_decode (take n l)).
Proof. intros. unfold read_le. by rewrite decide_True. Qed.

(** *** Bytes *)

Lemma bytes_nil : bytes [].
Proof. constructor. Qed.
Lemma bytes_cons b l : is_u8 b → bytes l → bytes (b :: l).
Proof. by constructor. Qed.
Lemma bytes_cons_inv b l : bytes (b :: l) → is_u8 b ∧ bytes l.
Proof. by inversion 1. Qed.
Lemma bytes_app l1 l2 : bytes (l1 ++ l2) ↔ bytes l1 ∧ bytes l2.
Proof. apply Forall_app. Qed.
Lemma bytes_app_2 l1 l2 : bytes l1 → bytes l2 → bytes (l1 ++ l2).
Proof. intros. by apply bytes_app. Qed.
Lemma bytes_take n l : bytes l → bytes (take n l).
Proof. apply Forall_take. Qed.
Lemma bytes_drop n l : bytes l → bytes (drop n l).
Proof. apply Forall_drop. Qed.
Lemma bytes_lookup l i b : bytes l → l !! i = Some b → is_u8 b.
Proof. intros H Hi. exact (proj1 (Forall_lookup _ _) H _ _ Hi). Qed.
Lemma bytes_replicate n b : is_u8 b → bytes (replicate n b).
Proof. intros. by apply Forall_replicate. Qed.

(** A boolean property of bytes holds of all bytes when it holds of 0..255:
    reduces byte-level facts to one evaluation. *)
Lemma byte_forall (P : Z → bool) :
  forallb P (seqZ 0 256) = true → ∀ b, is_u8 b → P b = true.
Proof.
  intros HP b Hb. rewrite forallb_forall in HP. apply HP.
  apply list_elem_of_In, elem_of_seqZ. lia.
Qed.

(** *** Little-endian coding *)

Lemma le_encode_length n z : length (le_encode n z) = n.
Proof. revert z. induction n; intros; simpl; auto. Qed.

Lemma le_encode_bytes n z : bytes (le_encode n z).
Proof.
  revert z. induction n; intros; simpl; [apply bytes_nil|].
  apply bytes_cons; [apply Z.mod_pos_bound; lia | auto].
Qed.

Lemma le_decode_encode n z : 0 <= z < 256 ^ Z.of_nat n → le_decode (le_encode n z) = z.
Proof.
  revert z. induction n as [|n IH]; intros z Hz; simpl.
  - change (256 ^ Z.of_nat 0) with 1 in Hz. lia.
  - rewrite Nat2Z.inj_succ, Z.pow_succ_r in Hz by lia.
    rewrite IH.
    + pose proof (Z.div_mod z 256). lia.
    + split; [apply Z.div_pos; lia | apply Z.div_lt_upper_bound; lia].
Qed.

Lemma le_decode_bound l : bytes l → 0 <= le_decode l < 256 ^ zlen l.
Proof.
  induction 1 as [|b l Hb Hl IH]; simpl; [lia|].
  rewrite Nat2Z.inj_succ, Z.pow_succ_r by lia. lia.
Qed.

Lemma le_encode_decode n l : bytes l → length l = n → le_encode n (le_decode l) = l.
Proof.
  intros Hl <-. induction Hl as [|b l Hb Hl IH]; simpl; [done|].
  rewrite (Z.mul_comm 256), Z.mod_add, Z.div_add by lia.
  rewrite Z.mod_small, Z.div_small, Z.add_0_l by lia. by rewrite IH.
Qed.

Lemma le_decode_app l1 l2 :
  le_decode (l1 ++ l2) = le_decode l1 + 256 ^ zlen l1 * le_decode l2.
Proof.
  induction l1 as [|b l IH]; cbn [app length le_decode].
  - change (Z.of_nat 0) with 0. lia.
  - rewrite IH, Nat2Z.inj_succ, Z.pow_succ_r by lia. lia.
Qed.

Lemma le_decode_inj l1 l2 :
  bytes l1 → bytes l2 → length l1 = length l2 → le_decode l1 = le_decode l2 → l1 = l2.
Proof.
  intros H1 H2 Hlen Heq.
  rewrite <-(le_encode_decode (length l1) l1), <-(le_encode_decode (length l1) l2) by auto.
  by rewrite Heq.
Qed.

Lemma take_le_encode_app n z l : take n (le_encode n z ++ l) = le_encode n z.
Proof. rewrite take_app_le by (rewrite le_encode_length; lia). apply take_ge. rewrite le_encode_length; lia. Qed.

(** Reading back an encoded field at the front of a buffer. *)
Lemma read_le_encode {E} n z l :
  0 <= z < 256 ^ Z.of_nat n → read_le (E:=E) n (le_encode n z ++ l) = Ok z.
Proof.
  intros Hz. rewrite read_le_Ok by (rewrite length_app, le_encode_length; lia).
  by rewrite take_le_encode_app, le_decode_encode.
Qed.

(** *** Bit operations at a fixed width *)

Lemma lo8_mod x : lo8 x = x mod 256.
Proof. unfold lo8. change 255 with (Z.ones 8). by rewrite Z.land_ones by lia. Qed.

Lemma hi8_div x : hi8 x = (x / 256) mod 256.
Proof. unfold hi8. change 255 with (Z.ones 8). rewrite Z.land_ones, Z.shiftr_div_pow2 by lia. done. Qed.

Lemma lo8_u8 x : is_u8 (lo8 x).
Proof. rewrite lo8_mod. apply Z.mod_pos_bound. lia. Qed.

Lemma hi8_u8 x : is_u8 (hi8 x).
Proof. rewrite hi8_div. apply Z.mod_pos_bound. lia. Qed.

Lemma le_encode_2 z : le_encode 2 z = [lo8 z; hi8 z].
Proof. cbn [le_encode]. by rewrite lo8_mod, hi8_div. Qed.

Lemma lxor_bound n a b : 0 <= n → 0 <= a < 2 ^ n → 0 <= b < 2 ^ n → 0 <= Z.lxor a b < 2 ^ n.
Proof.
  intros Hn Ha Hb.
  assert (Hx : Z.shiftr (Z.lxor a b) n = 0).
  { rewrite Z.shiftr_lxor, !Z.shiftr_div_pow2, !Z.div_small by lia. done. }
  rewrite Z.shiftr_div_pow2 in Hx by lia.
  apply Z.div_small_iff in Hx as [?|?]; [done| |lia].
  assert (0 <= Z.lxor a b) by (apply Z.lxor_nonneg; lia). lia.
Qed.

Lemma lxor_u8 a b : is_u8 a → is_u8 b → is_u8 (Z.lxor a b).
Proof. apply (lxor_bound 8). lia. Qed.
Lemma lxor_u16 a b : is_u16 a → is_u16 b → is_u16 (Z.lxor a b).
Proof. apply (lxor_bound 16). lia. Qed.

Lemma lxor_cancel_r a b : Z.lxor (Z.lxor a b) b = a.
Proof. by rewrite Z.lxor_assoc, Z.lxor_nilpotent, Z.lxor_0_r. Qed.

Lemma lxor_inj_l a b c : Z.lxor a c = Z.lxor b c → a = b.
Proof. intros H. rewrite <-(lxor_cancel_r a c), H. apply lxor_cancel_r. Qed.

Lemma to_i32_bound z : is_u32 z → -2147483648 <= to_i32 z < 2147483648.
Proof. unfold to_i32. destruct (z <? 2147483648) eqn:?; lia. Qed.

(* ------------------------------------------------------------------ *)
(** ** Automation                                                      *)
(* ------------------------------------------------------------------ *)

(** [bytes]: closure of byte lists and byte values under the operations the
    protocol uses. *)
Create HintDb bytes discriminated.
#[export] Hint Resolve bytes_nil bytes_cons bytes_app_2 bytes_take bytes_drop
  le_encode_bytes lo8_u8 hi8_u8 lxor_u8 : bytes.
#[export] Hint Extern 2 (0 <= _ < _) => lia : bytes.
#[export] Hint Extern 2 (bytes _) => (apply bytes_replicate; lia) : bytes.

(** [nopanic]: bodies built from binds, checked indexing and total steps. *)
Create HintDb nopanic discriminated.
#[export] Hint Resolve no_panic_Ok no_panic_Err no_panic_map_err no_panic_ok_or : nopanic.
#[export] Hint Extern 1 (no_panic (index _ _)) => (apply no_panic_index; simpl in *; lia) : nopanic.
#[export] Hint Extern 1 (no_panic (slice _ _ _)) => (apply no_panic_slice; simpl in *; lia) : nopanic.
#[export] Hint Extern 1 (no_panic (read_le _ _)) => (apply no_panic_read_le; simpl in *; lia) : nopanic.

(** Walk a monadic body: one bind at a time, splitting the conditionals. *)
Ltac no_panic_step :=
  match goal with
  | |- no_panic (mbind _ _) => apply no_panic_bind; [|intros ? ?]
  | |- no_panic (if decide ?P then _ else _) => destruct (decide P)
  | |- no_panic (if ?b then _ else _) => destruct b eqn:?
  | |- no_panic (match ?x with _ => _ end) => destruct x eqn:?
  | |- no_panic _ => solve [eauto with nopanic]
  end.

(** Invert a successful monadic body into its successful steps. *)
Ltac ok_inv :=
  repeat match goal with
  | H : mbind _ _ = Ok _ |- _ => apply bind_Ok in H as (? & ? & H)
  | H : Ok _ = Ok _ |- _ => injection H as H; try subst
  | H : Err _ = Ok _ |- _ => discriminate H
  | H : Panic = Ok _ |- _ => discriminate H
  | H : index _ _ = Ok _ |- _ => apply index_Ok in H
  end.

(** Decide a closed proposition by evaluation. *)
Ltac by_decide := apply (bool_decide_unpack _); vm_compute; exact I.

(** Membership in a list written out. *)
Ltac list_in := solve [repeat first [apply list_elem_of_here | apply list_elem_of_further]].
Ltac list_not_in :=
  let H := fresh in intros H;
  repeat (apply elem_of_cons in H as [H|H]; [discriminate H|]); by apply not_elem_of_nil in H.

(** [lia] after turning the boolean comparisons of the source into
    propositions. *)
Ltac zbool :=
  rewrite ?negb_true_iff, ?negb_false_iff, ?andb_true_iff, ?andb_false_iff,
    ?Z.ltb_lt, ?Z.ltb_ge, ?Z.leb_le, ?Z.leb_gt, ?Z.eqb_eq, ?Z.eqb_neq in *.
Ltac zlia := zbool; lia.
