(* ===== verification/Text.v ===== *)
(** * Text and numbers

    What the crates take from the language and its standard library: strings
    and their decompositions, [f32] and [f64] values with their casts and their
    text, calendar time as its accessors.  Floating point is the Standard
    Library's [SpecFloat] at the two formats. *)
From Stdlib Require Import String Ascii SpecFloat.
From stdpp Require Import pretty.
From S2P Require Import Prelude.

Local Open Scope string_scope.
Local Open Scope list_scope.
Local Open Scope Z_scope.

(* ------------------------------------------------------------------ *)
(** ** Numbers as text                                                 *)
(* ------------------------------------------------------------------ *)

(** [f32]: [v as f32], division by a constant. *)
Abbreviation f32 := spec_float.
Definition to_f32 (v : Z) : f32 := binary_normalize 24 128 v 0 false.
Definition f32_div (x : f32) (d : Z) : f32 := SFdiv 24 128 x (to_f32 d).

(** [f64]: [v as f64] of an integer and of an [f32], division. *)
Abbreviation f64 := spec_float.
Definition to_f64 (v : Z) : f64 := binary_normalize 53 1024 v 0 false.
Definition f32_to_f64 (x : f32) : f64 :=
  match x with
  | S754_finite s m e => binary_normalize 53 1024 (if s then Zneg m else Zpos m) e false
  | x => x
  end.
Definition f64_div (x : f64) (d : Z) : f64 := SFdiv 53 1024 x (to_f64 d).

(** [a / b] to the nearest integer, ties to even. *)
Definition div_even (a b : Z) : Z :=
  let q := a / b in
  let r := a mod b in
  if 2 * r <? b then q else if b <? 2 * r then q + 1 else if Z.even q then q else q + 1.

Fixpoint zeros (n : nat) : string := match n with O => "" | S n => String "0" (zeros n) end.

(** [{:.d}]: sign, integer part, [d] decimals of the exact value. *)
Definition show_fixed (d : nat) (x : f64) : string :=
  let sign (s : bool) := if s then "-" else "" in
  let P := 10 ^ Z.of_nat d in
  match x with
  | S754_zero s => sign s +:+ "0." +:+ zeros d
  | S754_infinity s => sign s +:+ "inf"
  | S754_nan => "NaN"
  | S754_finite s m e =>
      let n := if 0 <=? e then Zpos m * 2 ^ e * P else div_even (Zpos m * P) (2 ^ (- e)) in
      let frac := pretty (n mod P) in
      sign s +:+ pretty (n / P) +:+ "." +:+ zeros (d - String.length frac) +:+ frac
  end.

Definition bytes_of (s : string) : list Z := map (λ c, Z.of_nat (nat_of_ascii c)) (list_ascii_of_string s).

(** [x as f32] of an [f64]. *)
Definition f64_to_f32 (x : f64) : f32 :=
  match x with
  | S754_finite s m e => binary_normalize 24 128 (if s then Zneg m else Zpos m) e false
  | x => x
  end.

(** [x as uN]: towards zero, out of range to the nearest bound, not-a-number
    to zero; [max] is [uN::MAX]. *)
Definition to_unsigned (max : Z) (x : f64) : Z :=
  match x with
  | S754_finite false m e => Z.min (if 0 <=? e then Zpos m * 2 ^ e else Zpos m / 2 ^ (- e)) max
  | S754_infinity false => max
  | _ => 0
  end.

(** [x > 0.0] *)
Definition is_positive (x : f64) : bool := SFltb (S754_zero false) x.

(** [{:0n}] of a number that is not negative. *)
Definition pad (n : nat) (z : Z) : string := let s := pretty z in zeros (n - String.length s) +:+ s.

(** [{}] of an [f64]: the shortest decimal that reads back as the number, the
    closest one among those, without exponent. *)
Section display.

(** The double nearest to [n / d]. *)
Definition f64_of_ratio (n d : positive) : f64 :=
  let '(m, e, l) := SFdiv_core_binary 53 1024 (Zpos n) 0 (Zpos d) 0 in binary_round_aux 53 1024 false m e l.

(** The number of decimal places before the point: [10^(k-1) <= n/d < 10^k]. *)
Fixpoint below_one (fuel : nat) (n d : Z) (k : Z) : Z :=
  match fuel with
  | O => k
  | S fuel => if d <=? 10 * n then k else below_one fuel (10 * n) d (k - 1)
  end.
Definition places (n d : Z) : Z := if d <=? n then Z.of_nat (String.length (pretty (n / d))) else below_one 400 n d 0.

(** [c * 10^s] as a double. *)
Definition f64_of_decimal (c s : Z) : f64 :=
  if c <=? 0 then S754_zero false
  else if 0 <=? s then f64_of_ratio (Z.to_pos (c * 10 ^ s)) 1 else f64_of_ratio (Z.to_pos c) (Z.to_pos (10 ^ (- s))).

Definition f64_eqb (x y : f64) : bool :=
  match x, y with
  | S754_finite s m e, S754_finite s' m' e' => Bool.eqb s s' && ((Zpos m =? Zpos m') && (e =? e'))
  | _, _ => false
  end.

(** The digits of [n/d], with the least number [p] of digits that reads back
    as [x]. *)
Fixpoint shortest (fuel : nat) (p : Z) (n d k : Z) (x : f64) : Z * Z :=
  let s := k - p in
  let N := if 0 <=? s then n else n * 10 ^ (- s) in
  let D := if 0 <=? s then d * 10 ^ s else d in
  let lo := N / D in
  let r := N mod D in
  let lo_ok := f64_eqb (f64_of_decimal lo s) x in
  let hi_ok := f64_eqb (f64_of_decimal (lo + 1) s) x in
  match fuel with
  | O => (lo, s)
  | S fuel =>
      if lo_ok && (negb hi_ok || (2 * r <=? D)) then (lo, s)
      else if hi_ok then (lo + 1, s)
      else shortest fuel (p + 1) n d k x
  end.

(** [c * 10^s] without exponent. *)
Definition show_decimal (c s : Z) : string :=
  if 0 <=? s then pretty (c * 10 ^ s)
  else
    let P := 10 ^ (- s) in
    pretty (c / P) +:+ "." +:+ pad (Z.to_nat (- s)) (c mod P).

Definition show_f64 (x : f64) : string :=
  let sign (s : bool) := if s then "-" else "" in
  match x with
  | S754_zero s => sign s +:+ "0"
  | S754_infinity s => sign s +:+ "inf"
  | S754_nan => "NaN"
  | S754_finite s m e =>
      let n := if 0 <=? e then Zpos m * 2 ^ e else Zpos m in
      let d := if 0 <=? e then 1 else 2 ^ (- e) in
      let '(c, k) := shortest 17 1 n d (places n d) (S754_finite false m e) in
      sign s +:+ show_decimal c k
  end.
End display.

Example show_f64_test :
  map show_f64 [to_f64 641; f64_div (to_f64 1) 10; f64_div (to_f64 (-12345)) 1000; to_f64 0; to_f64 (10 ^ 22); f64_div (to_f64 1) 3;
                f32_to_f64 (f32_div (to_f32 4998) 100)]
  = ["641"; "0.1"; "-12.345"; "0"; "10000000000000000000000"; "0.3333333333333333"; "49.97999954223633"].
Proof. vm_compute. reflexivity. Qed.

(** A calendar time (chrono's [DateTime<Utc>]) as what the crates read of it. *)
Record DateTime : Type := mkTime {
  unix_ns : Z;
  year : Z; month : Z; day : Z; hour : Z; minute : Z;
  to_rfc3339 : string
}.

(** What every time satisfies. *)
Definition time_ok (t : DateTime) : Prop :=
  0 <= year t <= 9999 ∧ 1 <= month t <= 12 ∧ 1 <= day t <= 31 ∧ 0 <= hour t < 24 ∧ 0 <= minute t < 60.

(* ------------------------------------------------------------------ *)
(** ** Parts of strings                                                *)
(* ------------------------------------------------------------------ *)

(** [k2] behind a separator ends [k1]. *)
Fixpoint has_suffix (suffix s : string) : bool :=
  String.eqb s suffix || match s with EmptyString => false | String _ s => has_suffix suffix s end.

(** Reading a decimal number back, the digits before it already read as
    [acc]. *)
Definition digit_value (c : ascii) : option Z :=
  let v := Z.of_nat (nat_of_ascii c) - 48 in if (0 <=? v) && (v <=? 9) then Some v else None.
Fixpoint dec_value (s : string) (acc : Z) : option Z :=
  match s with
  | EmptyString => Some acc
  | String c s => d ← digit_value c; dec_value s (acc * 10 + d)
  end.

(** Splitting at every occurrence of a character ([str::split]). *)
Fixpoint split_at (sep : ascii) (s : string) : list string :=
  match s with
  | EmptyString => [""]
  | String c s =>
      if Ascii.eqb c sep then "" :: split_at sep s
      else match split_at sep s with p :: ps => String c p :: ps | [] => [String c ""] end
  end.

Fixpoint join (sep : string) (parts : list string) : string :=
  match parts with
  | [] => ""
  | [p] => p
  | p :: parts => p +:+ sep +:+ join sep parts
  end.

Fixpoint has_char (c : ascii) (s : string) : bool :=
  match s with EmptyString => false | String d s => Ascii.eqb c d || has_char c s end.

(* ------------------------------------------------------------------ *)
(** ** Lemmas: strings                                                 *)
(* ------------------------------------------------------------------ *)

Lemma append_nil (a : string) : "" +:+ a = a.
Proof. done. Qed.
Lemma append_cons x (a b : string) : String x a +:+ b = String x (a +:+ b).
Proof. done. Qed.
Lemma append_nil_r (a : string) : a +:+ "" = a.
Proof. induction a as [|x a IH]; [done|]. by rewrite append_cons, IH. Qed.
Lemma append_assoc (a b c : string) : (a +:+ b) +:+ c = a +:+ (b +:+ c).
Proof. induction a as [|x a IH]; [done|]. by rewrite !append_cons, IH. Qed.

(** Two splits of one string: one of the parts extends the other. *)
Lemma append_split (a b c d : string) :
  a +:+ b = c +:+ d → (∃ k, c = a +:+ k ∧ b = k +:+ d) ∨ (∃ k, a = c +:+ k ∧ d = k +:+ b).
Proof.
  revert c. induction a as [|x a IH]; intros c Heq.
  - left. by exists c.
  - destruct c as [|y c]; [right; by exists (String x a)|]. rewrite !append_cons in Heq.
    injection Heq as -> Heq. destruct (IH c Heq) as [(k & -> & ->)|(k & -> & ->)]; [left|right]; by exists k.
Qed.

Lemma append_inj_l (s a b : string) : s +:+ a = s +:+ b → a = b.
Proof. induction s as [|x s IH]; [done|]. rewrite !append_cons. intros [= H]. auto. Qed.

Lemma append_length (a b : string) : String.length (a +:+ b) = (String.length a + String.length b)%nat.
Proof. induction a as [|x a IH]; [done|]. rewrite append_cons. cbn. by rewrite IH. Qed.

Lemma append_inj_r (a b s : string) : a +:+ s = b +:+ s → a = b.
Proof.
  intros H. destruct (append_split _ _ _ _ H) as [(k & -> & Hs)|(k & -> & Hs)].
  all: apply (f_equal String.length) in Hs; rewrite append_length in Hs.
  all: destruct k; [by rewrite append_nil_r|cbn in Hs; lia].
Qed.

Lemma has_suffix_append suffix a : has_suffix suffix (a +:+ suffix) = true.
Proof.
  induction a as [|x a IH].
  - rewrite append_nil. destruct suffix; cbn [has_suffix]; by rewrite String.eqb_refl.
  - rewrite append_cons. cbn [has_suffix]. by rewrite IH, orb_true_r.
Qed.

(** A separator and a field at the end of a string are determined when no
    field ends in the separator and another field. *)
Lemma last_field (sep : ascii) (a b k1 k2 : string) :
  has_suffix (String sep k2) k1 = false → has_suffix (String sep k1) k2 = false →
  a +:+ String sep k1 = b +:+ String sep k2 → a = b ∧ k1 = k2.
Proof.
  intros H1 H2 Heq. destruct (append_split _ _ _ _ Heq) as [(k & -> & Hk)|(k & -> & Hk)].
  all: destruct k as [|x k]; [rewrite append_nil in Hk|rewrite append_cons in Hk]; injection Hk as ?; subst.
  all: try (by rewrite append_nil_r); by rewrite has_suffix_append in H1 || by rewrite has_suffix_append in H2.
Qed.

Lemma has_char_append c a b : has_char c (a +:+ b) = has_char c a || has_char c b.
Proof. induction a as [|x a IH]; [done|]. rewrite append_cons. cbn [has_char]. by rewrite IH, orb_assoc. Qed.

Lemma has_char_suffix c k s : has_char c s = false → has_suffix (String c k) s = false.
Proof.
  induction s as [|x s IH]; [done|]. cbn [has_char has_suffix]. intros [Hx Hs]%orb_false_iff.
  rewrite IH, orb_false_r by done. cbn. by rewrite Ascii.eqb_sym, Hx.
Qed.

(** A decimal number holds no separator. *)
Lemma pretty_no_underscore (n : Z) : has_char "_" (pretty n) = false.
Proof.
  assert (HN : ∀ m s, has_char "_" s = false → has_char "_" (pretty_N_go m s) = false).
  { intros m. induction (N.lt_wf_0 m) as [m _ IH]. intros s Hs.
    destruct (decide (m = 0)%N) as [->|Hm]; [by rewrite pretty_N_go_0|].
    rewrite pretty_N_go_step by lia. apply IH; [apply N.div_lt; lia|]. cbn [has_char]. rewrite Hs, orb_false_r.
    unfold pretty_N_char. by repeat case_match. }
  assert (Hp : ∀ m : N, has_char "_" (pretty m) = false).
  { intros m. unfold pretty, pretty_N. case_decide; [done|]. by apply HN. }
  destruct n as [|p|p]; [done|exact (Hp (Npos p))|]. cbn. exact (Hp (Npos p)).
Qed.

(* ------------------------------------------------------------------ *)
(** ** Lemmas: decimal text                                            *)
(* ------------------------------------------------------------------ *)

Lemma pretty_Z_N (n : Z) : 0 <= n → pretty n = pretty (Z.to_N n).
Proof. destruct n; [done|done|lia]. Qed.

Lemma digit_value_char (m : N) : (m < 10)%N → digit_value (pretty_N_char m) = Some (Z.of_N m).
Proof.
  intros Hm. assert (m = 0 ∨ m = 1 ∨ m = 2 ∨ m = 3 ∨ m = 4 ∨ m = 5 ∨ m = 6 ∨ m = 7 ∨ m = 8 ∨ m = 9)%N as Hc by lia.
  repeat destruct Hc as [->|Hc]; try reflexivity. by subst.
Qed.

Lemma dec_value_go_0 (m : N) s : dec_value (pretty_N_go m s) 0 = dec_value s (Z.of_N m).
Proof.
  revert s. induction (N.lt_wf_0 m) as [m _ IH]. intros s.
  destruct (decide (m = 0)%N) as [->|Hm]; [by rewrite pretty_N_go_0|].
  rewrite pretty_N_go_step, IH by (try apply N.div_lt; lia). cbn [dec_value].
  rewrite digit_value_char by (apply N.mod_lt; lia). cbn [mbind option_bind]. f_equal.
  rewrite N2Z.inj_div, N2Z.inj_mod. pose proof (Z.div_mod (Z.of_N m) 10). lia.
Qed.

(** A decimal number reads back. *)
Lemma dec_value_pretty (n : Z) : 0 <= n → dec_value (pretty n) 0 = Some n.
Proof.
  intros Hn. rewrite pretty_Z_N by done. unfold pretty, pretty_N. case_decide as H0.
  - assert (n = 0) as -> by lia. reflexivity.
  - rewrite dec_value_go_0. cbn [dec_value]. by rewrite Z2N.id.
Qed.

Lemma dec_value_zeros k s : dec_value (zeros k +:+ s) 0 = dec_value s 0.
Proof. induction k as [|k IH]; [done|]. cbn [zeros]. rewrite append_cons. cbn [dec_value]. exact IH. Qed.

Lemma dec_value_pad k n : 0 <= n → dec_value (pad k n) 0 = Some n.
Proof. intros. unfold pad. by rewrite dec_value_zeros, dec_value_pretty. Qed.

Lemma pretty_go_length (k : nat) (m : N) s :
  (m < 10 ^ N.of_nat k)%N → (String.length (pretty_N_go m s) ≤ k + String.length s)%nat.
Proof.
  revert m s. induction k as [|k IH]; intros m s Hm.
  - assert (m = 0)%N as -> by (cbn in Hm; lia). by rewrite pretty_N_go_0.
  - destruct (decide (m = 0)%N) as [->|H0]; [rewrite pretty_N_go_0; lia|]. rewrite pretty_N_go_step by lia.
    rewrite Nat2N.inj_succ, N.pow_succ_r' in Hm.
    etrans; [apply IH, N.Div0.div_lt_upper_bound, Hm|]. cbn. lia.
Qed.

Lemma zeros_length k : String.length (zeros k) = k.
Proof. induction k as [|k IH]; [done|]. cbn. by rewrite IH. Qed.

(** A padded number has its width. *)
Lemma pad_length (k : nat) (n : Z) : (0 < k)%nat → 0 <= n < 10 ^ Z.of_nat k → String.length (pad k n) = k.
Proof.
  intros Hk Hn. unfold pad. rewrite append_length, zeros_length. rewrite pretty_Z_N by lia.
  assert (String.length (pretty (Z.to_N n)) ≤ k)%nat; [|lia]. unfold pretty, pretty_N.
  case_decide; [cbn; lia|]. etrans; [apply (pretty_go_length k)|cbn; lia].
  apply N2Z.inj_lt. rewrite Z2N.id by lia. rewrite N2Z.inj_pow, nat_N_Z. exact (proj2 Hn).
Qed.

Lemma pad_inj k n m : 0 <= n → 0 <= m → pad k n = pad k m → n = m.
Proof. intros Hn Hm H. apply (f_equal (λ s, dec_value s 0)) in H. rewrite !dec_value_pad in H by done. congruence. Qed.

(** Decimal text is digits, with a sign in front of a negative number. *)
Fixpoint all_chars (p : ascii → bool) (s : string) : bool :=
  match s with EmptyString => true | String c s => p c && all_chars p s end.
Definition is_digit (c : ascii) : bool := match digit_value c with Some _ => true | None => false end.

Lemma all_chars_append p a b : all_chars p (a +:+ b) = all_chars p a && all_chars p b.
Proof. induction a as [|x a IH]; [done|]. rewrite append_cons. cbn. by rewrite IH, andb_assoc. Qed.

Lemma all_chars_no_char p c s : all_chars p s = true → p c = false → has_char c s = false.
Proof.
  intros Hs Hc. induction s as [|x s IH]; [done|]. cbn in *. apply andb_true_iff in Hs as [Hx Hs].
  rewrite IH, orb_false_r by done. destruct (Ascii.eqb_spec c x) as [->|]; congruence.
Qed.

Lemma pretty_go_digits (m : N) s : all_chars is_digit s = true → all_chars is_digit (pretty_N_go m s) = true.
Proof.
  revert s. induction (N.lt_wf_0 m) as [m _ IH]. intros s Hs.
  destruct (decide (m = 0)%N) as [->|Hm]; [by rewrite pretty_N_go_0|].
  rewrite pretty_N_go_step by lia. apply IH; [apply N.div_lt; lia|]. cbn [all_chars]. rewrite Hs, andb_true_r.
  unfold is_digit. by rewrite digit_value_char by (apply N.mod_lt; lia).
Qed.

Lemma pretty_digits (n : Z) : 0 <= n → all_chars is_digit (pretty n) = true.
Proof.
  intros Hn. rewrite pretty_Z_N by done. unfold pretty, pretty_N. case_decide; [done|]. by apply pretty_go_digits.
Qed.

Lemma zeros_digits k : all_chars is_digit (zeros k) = true.
Proof. induction k as [|k IH]; [done|]. exact IH. Qed.

Lemma pad_digits k n : 0 <= n → all_chars is_digit (pad k n) = true.
Proof. intros. unfold pad. by rewrite all_chars_append, zeros_digits, pretty_digits. Qed.

(** *** Splitting and joining *)

Lemma split_at_none sep s : has_char sep s = false → split_at sep s = [s].
Proof.
  induction s as [|c s IH]; [done|]. cbn [has_char split_at]. intros [Hc Hs]%orb_false_iff.
  rewrite Ascii.eqb_sym, Hc, IH by done. done.
Qed.

Lemma split_at_cons sep p rest : has_char sep p = false → split_at sep (p +:+ String sep rest) = p :: split_at sep rest.
Proof.
  induction p as [|c p IH]; intros Hp.
  - rewrite append_nil. cbn. by rewrite Ascii.eqb_refl.
  - rewrite append_cons. cbn [has_char split_at] in *. apply orb_false_iff in Hp as [Hc Hp].
    by rewrite Ascii.eqb_sym, Hc, IH.
Qed.

Lemma split_join sep parts :
  parts ≠ [] → Forall (λ p, has_char sep p = false) parts → split_at sep (join (String sep "") parts) = parts.
Proof.
  intros Hne Hp. induction Hp as [|p parts Hp Hps IH]; [done|]. destruct parts as [|q parts].
  - by apply split_at_none.
  - change (join (String sep "") (p :: q :: parts)) with (p +:+ String sep "" +:+ join (String sep "") (q :: parts)).
    rewrite append_cons, append_nil, split_at_cons by done. by rewrite IH.
Qed.

(** *** Characters that numbers do not hold *)

Lemma pretty_no_char c (n : Z) : is_digit c = false → Ascii.eqb c "-" = false → has_char c (pretty n) = false.
Proof.
  intros Hd Hm. assert (Hp : ∀ m : N, has_char c (pretty m) = false).
  { intros m. apply (all_chars_no_char is_digit); [|done]. pose proof (pretty_digits (Z.of_N m)) as H.
    rewrite pretty_Z_N, N2Z.id in H by lia. apply H. lia. }
  destruct n as [|p|p]; [exact (Hp 0%N)|exact (Hp (Npos p))|].
  change (has_char c (String "-" (pretty (Npos p))) = false). cbn [has_char]. by rewrite Hm, Hp.
Qed.

Lemma zeros_no_char c k : is_digit c = false → has_char c (zeros k) = false.
Proof. apply all_chars_no_char, zeros_digits. Qed.

Lemma pad_no_char c k n : is_digit c = false → Ascii.eqb c "-" = false → has_char c (pad k n) = false.
Proof. intros. unfold pad. rewrite has_char_append, zeros_no_char, pretty_no_char; done. Qed.

(** A separator that occurs in no number: not a digit, sign, point, nor a
    letter of [inf] and [NaN]. *)
Definition separates (c : ascii) : bool :=
  negb (is_digit c) && negb (has_char c "-.infNaN").

Lemma separates_digit c : separates c = true → is_digit c = false ∧ has_char c "-.infNaN" = false.
Proof. unfold separates. rewrite andb_true_iff, !negb_true_iff. done. Qed.

Lemma separates_text c : separates c = true →
  (∀ n : Z, has_char c (pretty n) = false) ∧ (∀ k n, has_char c (pad k n) = false) ∧ (∀ x, has_char c (show_f64 x) = false).
Proof.
  intros [Hd Hs]%separates_digit. cbn [has_char] in Hs. repeat apply orb_false_iff in Hs as [? Hs].
  assert (Hp : ∀ n : Z, has_char c (pretty n) = false) by (intros; by apply pretty_no_char).
  assert (Hq : ∀ k n, has_char c (pad k n) = false) by (intros; by apply pad_no_char).
  split; [done|]. split; [done|]. intros x. unfold show_f64.
  assert (Hsign : ∀ s : bool, has_char c (if s then "-" else "") = false) by (intros []; cbn; by rewrite ?orb_false_r).
  assert (Hdec : ∀ v k, has_char c (show_decimal v k) = false).
  { intros v k. unfold show_decimal. case_match; [apply Hp|]. rewrite !has_char_append, Hp, Hq. cbn. by rewrite !orb_false_r. }
  destruct x as [s|s| |s m e]; cbv zeta; [| | |destruct (shortest _ _ _ _ _ _) as [v k]];
    rewrite ?has_char_append, ?Hsign, ?Hdec; try done; cbn [has_char orb]; try done.
  1: change (Ascii.eqb c "0" || false = false); rewrite orb_false_r; destruct (Ascii.eqb_spec c "0") as [->|]; done.
  all: by repeat (apply orb_false_iff; split).
Qed.

(** Two splits with tails of one length. *)
Lemma append_inj_tail a b c d : String.length b = String.length d → a +:+ b = c +:+ d → a = c ∧ b = d.
Proof.
  intros Hl Heq. destruct (append_split _ _ _ _ Heq) as [(k & -> & ->)|(k & -> & ->)].
  all: rewrite append_length in Hl; destruct k; [by rewrite append_nil_r|cbn in Hl; lia].
Qed.

(** Two splits with heads of one length. *)
Lemma append_inj_head a b c d : String.length a = String.length c → a +:+ b = c +:+ d → a = c ∧ b = d.
Proof.
  intros Hl Heq. apply append_inj_tail; [|done].
  apply (f_equal String.length) in Heq. rewrite !append_length in Heq. lia.
Qed.

(** *** Text and its first part *)

Lemma substring_prefix n s : ∃ rest, s = String.substring 0 n s +:+ rest.
Proof.
  revert n. induction s as [|c s IH]; intros [|n].
  - by exists "".
  - by exists "".
  - by exists (String c s).
  - destruct (IH n) as [rest Hr]. exists rest. cbn [String.substring]. rewrite append_cons. by rewrite <-Hr.
Qed.

(** Fixed-point text holds no separator. *)
Lemma separates_fixed c d x : separates c = true → has_char c (show_fixed d x) = false.
Proof.
  intros Hs. destruct (separates_text c Hs) as (Hp & _ & _). pose proof (separates_digit c Hs) as [Hd Hn].
  pose proof (λ k, zeros_no_char c k Hd) as Hz. cbn [has_char] in Hn. repeat apply orb_false_iff in Hn as [? Hn].
  assert (Hsign : ∀ s : bool, has_char c (if s then "-" else "") = false) by (intros []; cbn; by rewrite ?orb_false_r).
  assert (Hzero : has_char c "0." = false).
  { cbn. rewrite orb_false_r. apply orb_false_iff. split; [|done]. destruct (Ascii.eqb_spec c "0") as [->|]; done. }
  unfold show_fixed. destruct x; cbv zeta; rewrite ?has_char_append, ?Hsign, ?Hzero, ?Hp, ?Hz; cbn; try done.
  all: by repeat (apply orb_false_iff; split).
Qed.

(* ------------------------------------------------------------------ *)
(** ** Lemmas: integers as floating-point numbers                      *)
(* ------------------------------------------------------------------ *)

(** A negative number rounds to one, or to minus zero or infinity. *)
Lemma round_negative prec emax mx ex lx :
  match binary_round_aux prec emax true mx ex lx with
  | S754_zero false | S754_finite false _ _ | S754_infinity false => False
  | _ => True
  end.
Proof. unfold binary_round_aux. repeat case_match; simplify_eq/=; try done. all: unfold binary_overflow in *; by simplify_eq/=. Qed.

Lemma to_unsigned_negative max z : z < 0 → to_unsigned max (to_f64 z) = 0.
Proof.
  intros Hz. destruct z as [|p|p]; [done|done|]. unfold to_f64. cbn [binary_normalize]. unfold binary_round.
  destruct (shl_align _ _ _) as [mz ez]. pose proof (round_negative 53 1024 (Zpos mz) ez loc_Exact) as H.
  by destruct (binary_round_aux _ _ _ _ _ _) as [[]|[]| |[]].
Qed.

Lemma digits2_size m : digits2_pos m = Pos.size m.
Proof. induction m; cbn; by rewrite ?IHm. Qed.

Lemma size_bounds m : 2 ^ (Zpos (digits2_pos m) - 1) <= Zpos m < 2 ^ Zpos (digits2_pos m).
Proof.
  rewrite digits2_size. pose proof (Pos.size_gt m) as Hg. pose proof (Pos.size_le m) as Hl. split.
  - assert (2 * 2 ^ (Zpos (Pos.size m) - 1) <= 2 * Zpos m); [|lia].
    rewrite <-Z.pow_succ_r by lia. replace (Z.succ (Zpos (Pos.size m) - 1)) with (Zpos (Pos.size m)) by lia.
    apply Pos2Z.pos_le_pos in Hl. rewrite Pos2Z.inj_pow in Hl. lia.
  - apply Pos2Z.pos_lt_pos in Hg. by rewrite Pos2Z.inj_pow in Hg.
Qed.

(** A mantissa of full length is not rounded. *)
Lemma round_full m e :
  Zpos (digits2_pos m) = 53 → -1074 <= e <= 971 → binary_round_aux 53 1024 false (Zpos m) e loc_Exact = S754_finite false m e.
Proof.
  intros Hd He. assert (Hs : shr_fexp 53 1024 (Zpos m) e loc_Exact = (Build_shr_record (Zpos m) false false, e)).
  { unfold shr_fexp, fexp, emin. cbn [Zdigits2 shr_record_of_loc]. rewrite Hd.
    replace (Z.max (53 + e - 53) (3 - 1024 - 53) - e) with 0 by lia. reflexivity. }
  unfold binary_round_aux. rewrite Hs. cbn [shr_m loc_of_shr_record round_nearest_even]. rewrite Hs. cbn [shr_m].
  by rewrite (proj2 (Z.leb_le _ _)) by lia.
Qed.

Lemma digits2_shift m k : digits2_pos (Pos.iter xO m k) = (digits2_pos m + k)%positive.
Proof.
  induction k as [|k IH] using Pos.peano_ind; [cbn; lia|]. rewrite Pos.iter_succ. cbn [digits2_pos]. rewrite IH. lia.
Qed.
Lemma shift_value m k : Zpos (Pos.iter xO m k) = Zpos m * 2 ^ Zpos k.
Proof.
  induction k as [|k IH] using Pos.peano_ind; [cbn; lia|]. rewrite Pos.iter_succ, Pos2Z.inj_xO, IH, Pos2Z.inj_succ.
  rewrite Z.pow_succ_r by lia. lia.
Qed.

(** Integers below [2^53] are exact: they come back from a double as they
    went, up to the bound of the integer type. *)
Lemma to_unsigned_exact max z : 0 <= z < 2 ^ 53 → z <= max → to_unsigned max (to_f64 z) = z.
Proof.
  intros Hz Hmax. destruct z as [|p|p]; [done| |lia]. unfold to_f64. cbn [binary_normalize]. unfold binary_round.
  pose proof (size_bounds p) as [Hlo _]. rewrite Z.add_0_r.
  assert (Hd : Zpos (digits2_pos p) <= 53).
  { destruct (Z.le_gt_cases (Zpos (digits2_pos p)) 53) as [|Hgt]; [done|].
    pose proof (Z.pow_le_mono_r 2 53 (Zpos (digits2_pos p) - 1)). lia. }
  assert (Hf : fexp 53 1024 (Zpos (digits2_pos p)) = Zpos (digits2_pos p) - 53) by (unfold fexp, emin; lia).
  rewrite Hf. unfold shl_align. rewrite Z.sub_0_r. destruct (Zpos (digits2_pos p) - 53) as [|k|k] eqn:Hk; [|lia|].
  - rewrite round_full by lia. cbn. lia.
  - rewrite round_full by (rewrite ?digits2_shift; lia). cbn [to_unsigned]. rewrite shift_value.
    change (- Zneg k) with (Zpos k). change (0 <=? Zneg k) with false. cbv iota. rewrite Z.div_mul by lia. lia.
Qed.
