(* ===== verification/Fcs.v ===== *)
(** * FCS-16 (crates/sma-bt-protocol/src/fcs.rs)

    The table-driven PPP checksum: the compile-time table [FCS_TAB], the
    streaming calculator [Fcs16] and the one-call [compute].  The theorems
    relate the table-driven update to the bit-serial shift register of RFC
    1662, give the constant residue a receiver would test for, and show what
    the checksum detects. *)
From S2P Require Import Prelude.

Local Open Scope Z_scope.

(* ------------------------------------------------------------------ *)
(** ** Definitions                                                     *)
(* ------------------------------------------------------------------ *)

(** One iteration of the inner [while i < 8] loop of the table generator. *)
Definition fcs_shift (v : Z) : Z :=
  if Z.land v 1 =? 0 then Z.shiftr v 1 else Z.lxor (Z.shiftr v 1) 33800 (* 0x8408 *).

(** The inner loop: eight shifts starting from the table index. *)
Definition fcs_entry (b : Z) : Z := Nat.iter 8 fcs_shift b.

(** [const FCS_TAB: [u16; 256]]: the outer [while b < 256] loop. *)
Definition FCS_TAB : list Z := Eval vm_compute in map fcs_entry (seqZ 0 256).

(** [FCS_TAB[i]]; the source's index is masked with [0xFF], so it is in range. *)
Definition fcs_tab (i : Z) : Z := default 0 (FCS_TAB !! Z.to_nat i).

(** [Fcs16::new], [update], [update_slice], [finalize], [compute]. *)
Definition Fcs16_new : Z := 65535.

Definition Fcs16_update (fcs byte : Z) : Z :=
  Z.lxor (Z.shiftr fcs 8) (fcs_tab (Z.land (Z.lxor fcs byte) 255)).

Definition Fcs16_update_slice (fcs : Z) (data : list Z) : Z :=
  foldl Fcs16_update fcs data.

Definition Fcs16_finalize (fcs : Z) : Z := Z.lxor fcs 65535.

Definition compute (data : list Z) : Z :=
  Fcs16_finalize (Fcs16_update_slice Fcs16_new data).

(** Reference: the RFC 1662 shift register, one data byte at a time, no table. *)
Definition fcs_serial_update (fcs byte : Z) : Z := Nat.iter 8 fcs_shift (Z.lxor fcs byte).

Definition fcs_serial (data : list Z) : Z :=
  Z.lxor (foldl fcs_serial_update 65535 data) 65535.

(** The two checksum bytes as the frame builder emits them. *)
Definition fcs_trailer (data : list Z) : list Z := [lo8 (compute data); hi8 (compute data)].

(* ------------------------------------------------------------------ *)
(** ** Lemmas                                                          *)
(* ------------------------------------------------------------------ *)

Lemma land_1_testbit v : (Z.land v 1 =? 0) = negb (Z.testbit v 0).
Proof.
  change 1 with (Z.ones 1). rewrite Z.land_ones by lia.
  rewrite Z.bit0_odd, <-Z.negb_even, negb_involutive. change (2 ^ 1) with 2.
  destruct (Z.even v) eqn:Hv.
  - apply Z.even_spec in Hv as [k ->]. rewrite Z.mul_comm, Z.mod_mul by lia. done.
  - pose proof (Zmod_even v) as H. rewrite Hv in H. by rewrite H.
Qed.

(** The register step is linear over xor. *)
Lemma fcs_shift_lxor a b : fcs_shift (Z.lxor a b) = Z.lxor (fcs_shift a) (fcs_shift b).
Proof.
  unfold fcs_shift. rewrite !land_1_testbit, Z.lxor_spec, Z.shiftr_lxor.
  destruct (Z.testbit a 0), (Z.testbit b 0); cbn [xorb negb]; try done.
  - rewrite !Z.lxor_assoc. f_equal. rewrite (Z.lxor_comm 33800), Z.lxor_assoc.
    by rewrite Z.lxor_nilpotent, Z.lxor_0_r.
  - rewrite !Z.lxor_assoc. f_equal. apply Z.lxor_comm.
  - by rewrite Z.lxor_assoc.
Qed.

Lemma fcs_iter_lxor n a b :
  Nat.iter n fcs_shift (Z.lxor a b) = Z.lxor (Nat.iter n fcs_shift a) (Nat.iter n fcs_shift b).
Proof. induction n as [|n IH]; simpl; [done|]. by rewrite IH, fcs_shift_lxor. Qed.

(** On a register whose low [n] bits are clear, [n] steps are a plain shift. *)
Lemma fcs_iter_shiftl (n : nat) a : Nat.iter n fcs_shift (Z.shiftl a (Z.of_nat n)) = a.
Proof.
  induction n as [|n IH]; [by rewrite Z.shiftl_0_r|].
  rewrite Nat.iter_succ_r, <-IH. f_equal. rewrite IH. unfold fcs_shift.
  rewrite land_1_testbit, Z.shiftl_spec_low by lia. cbn [negb].
  rewrite Z.shiftr_shiftl_l by lia. f_equal. lia.
Qed.

Lemma split_word x : x = Z.lxor (Z.shiftl (Z.shiftr x 8) 8) (Z.land x 255).
Proof.
  apply Z.bits_inj'. intros n Hn. change 255 with (Z.ones 8).
  rewrite Z.lxor_spec, Z.land_spec.
  destruct (decide (n < 8)).
  - by rewrite Z.shiftl_spec_low, Z.ones_spec_low, andb_true_r by lia.
  - rewrite Z.shiftl_spec_high, Z.shiftr_spec, Z.ones_spec_high, andb_false_r, xorb_false_r by lia.
    f_equal. lia.
Qed.

Lemma fcs_tab_entry b : is_u8 b → fcs_tab b = fcs_entry b.
Proof.
  intros Hb. apply Z.eqb_eq. revert b Hb.
  apply (byte_forall (λ b, fcs_tab b =? fcs_entry b)). vm_compute. done.
Qed.

(** The table-driven update is eight steps of the shift register. *)
Lemma update_serial fcs byte :
  is_u8 byte → Fcs16_update fcs byte = fcs_serial_update fcs byte.
Proof.
  intros Hb. unfold Fcs16_update, fcs_serial_update.
  assert (Hidx : is_u8 (Z.land (Z.lxor fcs byte) 255)) by apply lo8_u8.
  rewrite fcs_tab_entry by done. unfold fcs_entry.
  rewrite (split_word (Z.lxor fcs byte)) at 2. rewrite fcs_iter_lxor.
  rewrite (fcs_iter_shiftl 8). f_equal.
  rewrite Z.shiftr_lxor, (Z.shiftr_div_pow2 byte), (Z.div_small byte), Z.lxor_0_r by lia. done.
Qed.

Lemma fcs_tab_u16 i : is_u16 (fcs_tab i).
Proof.
  unfold fcs_tab. destruct (FCS_TAB !! Z.to_nat i) as [v|] eqn:Hv; simpl; [|lia].
  assert (Forall (λ v, is_u16 v) FCS_TAB) as HF.
  { apply Forall_forall. intros x Hx%list_elem_of_In.
    assert (Hall : forallb (λ v, (0 <=? v) && (v <? 65536)) FCS_TAB = true) by by vm_compute.
    rewrite forallb_forall in Hall. specialize (Hall x Hx). lia. }
  exact (proj1 (Forall_lookup _ _) HF _ _ Hv).
Qed.

Lemma shiftr8_u16 x : is_u16 x → is_u8 (Z.shiftr x 8).
Proof.
  intros. rewrite Z.shiftr_div_pow2 by lia. change (2 ^ 8) with 256.
  split; [apply Z.div_pos; lia | apply Z.div_lt_upper_bound; lia].
Qed.

Lemma update_u16 fcs byte : is_u16 fcs → is_u16 (Fcs16_update fcs byte).
Proof.
  intros Hf. unfold Fcs16_update. apply lxor_u16; [|apply fcs_tab_u16].
  pose proof (shiftr8_u16 fcs Hf). lia.
Qed.

Lemma update_slice_u16 fcs data : is_u16 fcs → is_u16 (Fcs16_update_slice fcs data).
Proof.
  revert fcs. induction data as [|b data IH]; intros fcs Hf; simpl; [done|].
  apply IH, update_u16, Hf.
Qed.

Lemma compute_u16 data : is_u16 (compute data).
Proof. apply lxor_u16; [apply update_slice_u16; unfold Fcs16_new; lia | lia]. Qed.

Lemma fcs_trailer_length data : length (fcs_trailer data) = 2%nat.
Proof. done. Qed.

Lemma fcs_trailer_bytes data : bytes (fcs_trailer data).
Proof. unfold fcs_trailer. auto with bytes. Qed.
#[export] Hint Resolve fcs_trailer_bytes : bytes.

(** High bytes of the table are pairwise different: the update can be undone. *)
Lemma fcs_tab_hi_inj i j :
  is_u8 i → is_u8 j → Z.shiftr (fcs_tab i) 8 = Z.shiftr (fcs_tab j) 8 → i = j.
Proof.
  intros Hi Hj H.
  assert (Hall : ∀ i, is_u8 i → ∀ j, is_u8 j →
    implb (Z.shiftr (fcs_tab i) 8 =? Z.shiftr (fcs_tab j) 8) (i =? j) = true).
  { clear. intros i Hi. apply byte_forall.
    revert i Hi. apply (byte_forall (λ i, forallb (λ j,
      implb (Z.shiftr (fcs_tab i) 8 =? Z.shiftr (fcs_tab j) 8) (i =? j)) (seqZ 0 256))).
    vm_compute. done. }
  specialize (Hall i Hi j Hj). rewrite H, Z.eqb_refl in Hall. cbn in Hall. lia.
Qed.

Lemma shiftr8_shiftr8 x : is_u16 x → Z.shiftr (Z.shiftr x 8) 8 = 0.
Proof.
  intros Hx%shiftr8_u16. rewrite (Z.shiftr_div_pow2 _ 8), Z.div_small by lia. done.
Qed.

Lemma update_low_inj r1 r2 b1 b2 :
  is_u16 r1 → is_u16 r2 →
  Fcs16_update r1 b1 = Fcs16_update r2 b2 →
  Z.land (Z.lxor r1 b1) 255 = Z.land (Z.lxor r2 b2) 255 ∧ Z.shiftr r1 8 = Z.shiftr r2 8.
Proof.
  intros H1 H2 Heq. unfold Fcs16_update in Heq.
  assert (Hlo : Z.land (Z.lxor r1 b1) 255 = Z.land (Z.lxor r2 b2) 255).
  { apply fcs_tab_hi_inj; [apply lo8_u8..|].
    apply (f_equal (λ x, Z.shiftr x 8)) in Heq.
    rewrite !Z.shiftr_lxor, !shiftr8_shiftr8, !Z.lxor_0_l in Heq by done. done. }
  split; [done|]. rewrite Hlo in Heq. by apply lxor_inj_l in Heq.
Qed.

(** The update is injective in the register for a fixed byte, *)
Lemma update_inj_reg r1 r2 b :
  is_u16 r1 → is_u16 r2 → Fcs16_update r1 b = Fcs16_update r2 b → r1 = r2.
Proof.
  intros H1 H2 [Hlo Hhi]%update_low_inj; [|done..].
  change 255 with (Z.ones 8) in Hlo.
  rewrite (split_word r1), (split_word r2), Hhi. f_equal. change 255 with (Z.ones 8).
  apply Z.bits_inj'. intros n Hn.
  apply (f_equal (λ x, Z.testbit x n)) in Hlo.
  rewrite !Z.land_spec, !Z.lxor_spec in Hlo. rewrite !Z.land_spec.
  destruct (Z.testbit (Z.ones 8) n), (Z.testbit r1 n), (Z.testbit r2 n), (Z.testbit b n); done.
Qed.

(** and injective in the byte for a fixed register. *)
Lemma update_inj_byte r b1 b2 :
  is_u16 r → is_u8 b1 → is_u8 b2 → Fcs16_update r b1 = Fcs16_update r b2 → b1 = b2.
Proof.
  intros Hr H1 H2 [Hlo _]%update_low_inj; [|done..].
  assert (Hl : ∀ b, is_u8 b → Z.land b 255 = b).
  { intros b Hb. change 255 with (Z.ones 8). rewrite Z.land_ones, Z.mod_small by lia. done. }
  rewrite <-(Hl b1), <-(Hl b2) by done. apply Z.bits_inj'. intros n Hn.
  apply (f_equal (λ x, Z.testbit x n)) in Hlo.
  rewrite !Z.land_spec, !Z.lxor_spec in Hlo. rewrite !Z.land_spec.
  destruct (Z.testbit 255 n), (Z.testbit r n), (Z.testbit b1 n), (Z.testbit b2 n); done.
Qed.

Lemma update_slice_inj r1 r2 data :
  is_u16 r1 → is_u16 r2 →
  Fcs16_update_slice r1 data = Fcs16_update_slice r2 data → r1 = r2.
Proof.
  revert r1 r2. induction data as [|b data IH]; intros r1 r2 H1 H2 Heq; simpl in *; [done|].
  apply (update_inj_reg _ _ b); [done..|]. apply IH; [by apply update_u16..|done].
Qed.

Lemma update_slice_app r l1 l2 :
  Fcs16_update_slice r (l1 ++ l2) = Fcs16_update_slice (Fcs16_update_slice r l1) l2.
Proof. apply foldl_app. Qed.

Lemma lo8_lxor a b : lo8 (Z.lxor a b) = Z.lxor (lo8 a) (lo8 b).
Proof.
  unfold lo8. apply Z.bits_inj'. intros n Hn.
  rewrite !Z.lxor_spec, !Z.land_spec, Z.lxor_spec.
  destruct (Z.testbit a n), (Z.testbit b n), (Z.testbit 255 n); done.
Qed.

(** Feeding the register its own complement, low byte then high byte, clears
    every trace of the data. *)
Lemma update_self_residue r :
  is_u16 r →
  Fcs16_update (Fcs16_update r (lo8 (Z.lxor r 65535))) (hi8 (Z.lxor r 65535)) = 61624.
Proof.
  intros Hr.
  assert (Hidem : ∀ x, lo8 (lo8 x) = lo8 x).
  { intros x. rewrite !lo8_mod. apply Z.mod_mod. lia. }
  assert (H1 : Fcs16_update r (lo8 (Z.lxor r 65535)) = Z.lxor (Z.shiftr r 8) 3960).
  { unfold Fcs16_update. fold (lo8 (Z.lxor r (lo8 (Z.lxor r 65535)))).
    by rewrite !lo8_lxor, Hidem, <-Z.lxor_assoc, Z.lxor_nilpotent, Z.lxor_0_l. }
  assert (Hhi : hi8 (Z.lxor r 65535) = Z.lxor (Z.shiftr r 8) 255).
  { unfold hi8. rewrite Z.shiftr_lxor. change (Z.shiftr 65535 8) with 255.
    pose proof (shiftr8_u16 r Hr).
    fold (lo8 (Z.lxor (Z.shiftr r 8) 255)). rewrite lo8_mod.
    apply Z.mod_small, lxor_u8; lia. }
  rewrite H1, Hhi. unfold Fcs16_update.
  rewrite Z.shiftr_lxor, shiftr8_shiftr8, Z.lxor_0_l by done.
  rewrite (Z.lxor_comm (Z.shiftr r 8) 3960), Z.lxor_assoc, <-(Z.lxor_assoc (Z.shiftr r 8)).
  by rewrite Z.lxor_nilpotent.
Qed.

(* ------------------------------------------------------------------ *)
(** ** Properties                                                      *)
(* ------------------------------------------------------------------ *)

(** C36. The table-driven FCS-16 over any byte string is the checksum that the
    bit-serial RFC 1662 shift register (polynomial 0x8408, preset 0xFFFF,
    complemented) computes. *)
Theorem compute_is_rfc1662 data : bytes data → compute data = fcs_serial data.
Proof.
  unfold compute, fcs_serial, Fcs16_finalize, Fcs16_update_slice, Fcs16_new.
  intros Hd. f_equal. generalize 65535. induction Hd as [|b l Hb Hl IH]; intros r; simpl; [done|].
  by rewrite update_serial, IH.
Qed.

Lemma compute_is_rfc1662_witness :
  bytes [49; 50; 51; 52; 53; 54; 55; 56; 57] ∧
  compute [49; 50; 51; 52; 53; 54; 55; 56; 57] = fcs_serial [49; 50; 51; 52; 53; 54; 55; 56; 57].
Proof.
  assert (H : bytes [49; 50; 51; 52; 53; 54; 55; 56; 57]) by by_decide.
  split; [exact H | exact (compute_is_rfc1662 _ H)].
Defined.

(** Appending the checksum as the builder does (low byte, high byte)
    always leaves the same register residue 0xF0B8, whatever the data: the
    constant test a receiver needs. *)
Theorem fcs_good_residue data :
  Fcs16_update_slice Fcs16_new (data ++ fcs_trailer data) = 61624 (* 0xF0B8 *).
Proof.
  rewrite update_slice_app. unfold fcs_trailer, compute, Fcs16_finalize.
  pose proof (update_slice_u16 Fcs16_new data) as Hr. cbn -[Fcs16_update_slice Fcs16_update lo8 hi8].
  apply update_self_residue, Hr. unfold Fcs16_new. lia.
Qed.

(** Replacing any single byte of the data by a different byte always
    changes the checksum. *)
Theorem fcs_detects_byte_error l1 l2 b b' :
  is_u8 b → is_u8 b' → b ≠ b' → compute (l1 ++ b :: l2) ≠ compute (l1 ++ b' :: l2).
Proof.
  intros Hb Hb' Hne Heq. apply Hne. apply lxor_inj_l in Heq.
  rewrite !update_slice_app in Heq. simpl in Heq.
  pose proof (update_slice_u16 Fcs16_new l1 ltac:(unfold Fcs16_new; lia)) as Hr.
  apply update_slice_inj in Heq; [|by apply update_u16..].
  by apply update_inj_byte in Heq.
Qed.

Lemma fcs_detects_byte_error_witness :
  compute ([1; 2] ++ 3 :: [4]) ≠ compute ([1; 2] ++ 7 :: [4]).
Proof. apply (fcs_detects_byte_error [1; 2] [4] 3 7); lia. Defined.
