(* ===== verification/Constants.v ===== *)
(** * Protocol constants (crates/sma-bt-protocol/src/constants.rs and lib.rs) *)
From S2P Require Import Prelude.

Local Open Scope Z_scope.

(** Start/end delimiter. *)
Definition FRAME_DELIMITER : Z := 126. (* 0x7E *)

(** Layer-2 signature; on the wire FF 03 60 65. *)
Definition BT_L2_SIGNATURE : Z := 1700791295. (* 0x656003FF *)
Definition ETH_L2_SIGNATURE : Z := 1700794368. (* 0x65601000 *)

Definition ANY_SUSY_ID : Z := 65535.
Definition ANY_SERIAL : Z := 4294967295.
Definition APP_SUSY_ID : Z := 125.

(** Packet-id bit that marks application-originated packets. *)
Definition APP_PACKET_BIT : Z := 32768. (* 0x8000 *)

Definition RFCOMM_CHANNEL : Z := 1.
Definition BROADCAST_BT : list Z := replicate 6 0.
Definition UNKNOWN_BT : list Z := replicate 6 255.

(** Byte stuffing (lib.rs). *)
Definition STUFF_BYTES : list Z := [125; 126; 17; 18; 19]. (* 7D 7E 11 12 13 *)
Definition STUFF_ESCAPE : Z := 125. (* 0x7D *)
Definition STUFF_XOR : Z := 32. (* 0x20 *)

(** The signature as the four bytes that start an L2 payload. *)
Definition L2_SIG : list Z := [255; 3; 96; 101]. (* FF 03 60 65 *)

Lemma L2_SIG_le : L2_SIG = le_encode 4 BT_L2_SIGNATURE.
Proof. reflexivity. Qed.

Lemma L2_SIG_bytes : bytes L2_SIG.
Proof. by_decide. Qed.

Lemma L2_SIG_decode l : bytes l → length l = 4%nat → le_decode l = BT_L2_SIGNATURE ↔ l = L2_SIG.
Proof.
  intros Hl Hlen. split; [|by intros ->].
  intros H. apply le_decode_inj; [done|apply L2_SIG_bytes|done|exact H].
Qed.
