(* ===== verification/Frame.v ===== *)
(** * Layer-1 frames (crates/sma-bt-protocol/src/frame.rs)

    Byte stuffing, the frame builder, [Frame::parse] with its L1-only, reply
    and push shapes, and [parse_l2_only_blob].  Indexing and slicing keep
    their panics, so that the absence of panics is proved.  [wire_frame] is
    the declarative description of the wire that the parser is proved to
    implement. *)
From S2P Require Import Prelude Constants Fcs.

Local Open Scope Z_scope.

(* ------------------------------------------------------------------ *)
(** ** Data                                                            *)
(* ------------------------------------------------------------------ *)

Definition MIN_FRAME_LEN : nat := 18.

Inductive ParseError : Type :=
  | TooShort (got need : nat)
  | MissingStart (byte : Z)
  | MissingEnd (byte : Z)
  | LengthMismatch (declared : Z) (actual : nat)
  | HeaderChecksum (got expected : Z)
  | TruncatedEscape.

#[export] Instance ParseError_eq_dec : EqDecision ParseError.
Proof. solve_decision. Defined.

Inductive FrameKind : Type := L1Only | L2Wrapped.

#[export] Instance FrameKind_eq_dec : EqDecision FrameKind.
Proof. solve_decision. Defined.

Record Frame : Type := mkFrame {
  kind : FrameKind;
  local_bt : list Z;
  dest_bt : list Z;
  control : Z;
  payload : list Z
}.

#[export] Instance Frame_eq_dec : EqDecision Frame.
Proof. solve_decision. Defined.

Record FrameBuilder : Type := mkFrameBuilder {
  fb_kind : FrameKind;
  fb_local_bt : list Z;
  fb_dest_bt : list Z;
  fb_control : Z;
  fb_payload : list Z
}.

(* ------------------------------------------------------------------ *)
(** ** Byte stuffing                                                   *)
(* ------------------------------------------------------------------ *)

(** [fn stuff] *)
Definition stuff_byte (b : Z) : list Z :=
  if decide (b ∈ STUFF_BYTES) then [STUFF_ESCAPE; Z.lxor b STUFF_XOR] else [b].

Definition stuff (data : list Z) : list Z := data ≫= stuff_byte.

(** [fn unstuff] *)
Fixpoint unstuff (data : list Z) : outcome ParseError (list Z) :=
  match data with
  | [] => Ok []
  | b :: rest =>
      if b =? STUFF_ESCAPE then
        match rest with
        | n :: rest => out ← unstuff rest; Ok (Z.lxor n STUFF_XOR :: out)
        | [] => Err TruncatedEscape
        end
      else out ← unstuff rest; Ok (b :: out)
  end.

(* ------------------------------------------------------------------ *)
(** ** Building                                                        *)
(* ------------------------------------------------------------------ *)

Definition new_with_kind (kind : FrameKind) (local dest : list Z) (control : Z) : FrameBuilder :=
  mkFrameBuilder kind local dest control [].

Definition new_builder (local dest : list Z) (control : Z) : FrameBuilder :=
  new_with_kind L2Wrapped local dest control.

Definition extend (fb : FrameBuilder) (bs : list Z) : FrameBuilder :=
  mkFrameBuilder (fb_kind fb) (fb_local_bt fb) (fb_dest_bt fb) (fb_control fb)
    (fb_payload fb ++ bs).

(** The 18 header bytes both shapes start with: delimiter, the low 16 bits of
    the total length, their checksum, the two addresses, the control word. *)
Definition l1_header (total_len : nat) (local dest : list Z) (control : Z) : list Z :=
  let len_lo := lo8 (Z.of_nat total_len) in
  let len_hi := hi8 (Z.of_nat total_len) in
  [FRAME_DELIMITER; len_lo; len_hi; Z.lxor (Z.lxor FRAME_DELIMITER len_lo) len_hi]
  ++ local ++ dest ++ [lo8 control; hi8 control].

Definition build_l1_only (fb : FrameBuilder) : list Z :=
  let total_len := (18 + length (fb_payload fb))%nat in
  l1_header total_len (fb_local_bt fb) (fb_dest_bt fb) (fb_control fb) ++ fb_payload fb.

Definition build_l2_wrapped (fb : FrameBuilder) : list Z :=
  let fcs_val := compute (fb_payload fb) in
  let stuffable := fb_payload fb ++ [lo8 fcs_val; hi8 fcs_val] in
  let stuffed := stuff stuffable in
  let total_len := (18 + 1 + length stuffed + 1)%nat in
  l1_header total_len (fb_local_bt fb) (fb_dest_bt fb) (fb_control fb)
  ++ [FRAME_DELIMITER] ++ stuffed ++ [FRAME_DELIMITER].

Definition build (fb : FrameBuilder) : list Z :=
  match fb_kind fb with
  | L1Only => build_l1_only fb
  | L2Wrapped => build_l2_wrapped fb
  end.

(* ------------------------------------------------------------------ *)
(** ** Parsing                                                         *)
(* ------------------------------------------------------------------ *)

(** Does [&raw[off..off+4]] read as the L2 signature? *)
Definition signature_at (raw : list Z) (off : nat) : outcome ParseError bool :=
  s ← slice raw off (off + 4); v ← read_u32 s; Ok (v =? BT_L2_SIGNATURE).

(** The [l2_sig_offset] computation of [Frame::parse]. *)
Definition l2_sig_offset (raw : list Z) : outcome ParseError (option nat) :=
  no_sep ← (if decide (22 ≤ length raw)%nat then signature_at raw 18 else Ok false);
  if no_sep : bool then Ok (Some 18%nat) else
  sep ← (if decide (23 ≤ length raw)%nat then
           b ← index raw 18;
           if b =? FRAME_DELIMITER then signature_at raw 19 else Ok false
         else Ok false);
  Ok (if sep : bool then Some 19%nat else None).

(** The L2 branch of [Frame::parse]: from the signature to the payload. *)
Definition l2_payload (raw : list Z) (sig_off : nat) : outcome ParseError (list Z) :=
  last_byte ← match last raw with Some b => Ok b | None => Panic end;
  let has_trailer := last_byte =? FRAME_DELIMITER in
  let stuffed_end := if has_trailer then (length raw - 1)%nat else length raw in
  stuffed ← slice raw sig_off stuffed_end;
  unstuffed ← unstuff stuffed;
  if has_trailer then
    if decide (length unstuffed < 2)%nat then Err (TooShort (length unstuffed) 2)
    else slice unstuffed 0 (length unstuffed - 2)
  else Ok unstuffed.

(** [Frame::parse] *)
Definition parse (raw : list Z) : outcome ParseError Frame :=
  if decide (length raw < MIN_FRAME_LEN)%nat then Err (TooShort (length raw) MIN_FRAME_LEN) else
  start ← index raw 0;
  if negb (start =? FRAME_DELIMITER) then Err (MissingStart start) else
  len_lo ← index raw 1;
  len_hi ← index raw 2;
  let declared_len := le_decode [len_lo; len_hi] in
  hdr_cks ← index raw 3;
  let expected_cks := Z.lxor (Z.lxor FRAME_DELIMITER len_lo) len_hi in
  if negb (hdr_cks =? expected_cks) then Err (HeaderChecksum hdr_cks expected_cks) else
  local ← slice raw 4 10;
  dest ← slice raw 10 16;
  ctrl_lo ← index raw 16;
  ctrl_hi ← index raw 17;
  let ctrl := le_decode [ctrl_lo; ctrl_hi] in
  sig ← l2_sig_offset raw;
  match sig with
  | Some sig_off =>
      if negb (declared_len =? zlen raw) then Err (LengthMismatch declared_len (length raw)) else
      body ← l2_payload raw sig_off;
      Ok (mkFrame L2Wrapped local dest ctrl body)
  | None =>
      if negb (declared_len =? zlen raw) then Err (LengthMismatch declared_len (length raw)) else
      body ← (if decide (18 < length raw)%nat then slice_from raw 18 else Ok []);
      Ok (mkFrame L1Only local dest ctrl body)
  end.

(** Index of the first delimiter at or after position 5. *)
Definition find_end (raw : list Z) : option nat :=
  (λ p, 5 + p.1)%nat <$> list_find (λ b, b = FRAME_DELIMITER) (drop 5 raw).

(** [parse_l2_only_blob] *)
Definition parse_l2_only_blob (raw : list Z) : outcome ParseError (list Z) :=
  if decide (length raw < 6)%nat then Err (TooShort (length raw) 6) else
  start ← index raw 0;
  if negb (start =? FRAME_DELIMITER) then Err (MissingStart start) else
  sig ← slice raw 1 5;
  if negb (bool_decide (sig = L2_SIG)) then
    got ← index raw 1; Err (HeaderChecksum got 255)
  else
  end_ ← ok_or (find_end raw) (MissingEnd 0);
  stuffed ← slice raw 1 end_;
  unstuffed ← unstuff stuffed;
  if decide (length unstuffed < 2)%nat then Err (TooShort (length unstuffed) 2)
  else slice unstuffed 0 (length unstuffed - 2).

(* ------------------------------------------------------------------ *)
(** ** Specification of the wire                                       *)
(* ------------------------------------------------------------------ *)

(** The two 6-byte addresses of a header. *)
Definition addr_ok (a : list Z) : Prop := length a = 6%nat ∧ bytes a.

(** What follows the header starts an L2 payload (with or without the
    separator). *)
Definition starts_l2 (rest : list Z) : Prop :=
  L2_SIG `prefix_of` rest ∨ (FRAME_DELIMITER :: L2_SIG) `prefix_of` rest.

(** The wire image of a frame: an L1-only frame is header and raw payload; a
    reply is header, optional separator, a stuffed signature-led payload with
    two trailing (arbitrary) checksum bytes, and the delimiter; a push has
    neither checksum nor closing delimiter. *)
Inductive wire_frame : list Z → Frame → Prop :=
  | wire_l1 local dest ctrl body :
      addr_ok local → addr_ok dest → is_u16 ctrl → ¬ starts_l2 body →
      18 + zlen body < 65536 →
      wire_frame (l1_header (18 + length body) local dest ctrl ++ body)
        (mkFrame L1Only local dest ctrl body)
  | wire_reply local dest ctrl sep stuffed body fcs :
      addr_ok local → addr_ok dest → is_u16 ctrl →
      (sep = [] ∨ sep = [FRAME_DELIMITER]) →
      L2_SIG `prefix_of` stuffed →
      unstuff stuffed = Ok (body ++ fcs) → length fcs = 2%nat →
      18 + zlen (sep ++ stuffed) + 1 < 65536 →
      wire_frame
        (l1_header (18 + length (sep ++ stuffed) + 1) local dest ctrl
         ++ sep ++ stuffed ++ [FRAME_DELIMITER])
        (mkFrame L2Wrapped local dest ctrl body)
  | wire_push local dest ctrl sep stuffed body :
      addr_ok local → addr_ok dest → is_u16 ctrl →
      (sep = [] ∨ sep = [FRAME_DELIMITER]) →
      L2_SIG `prefix_of` stuffed →
      unstuff stuffed = Ok body → last stuffed ≠ Some FRAME_DELIMITER →
      18 + zlen (sep ++ stuffed) < 65536 →
      wire_frame
        (l1_header (18 + length (sep ++ stuffed)) local dest ctrl ++ sep ++ stuffed)
        (mkFrame L2Wrapped local dest ctrl body).

(* ------------------------------------------------------------------ *)
(** ** Lemmas: byte stuffing                                           *)
(* ------------------------------------------------------------------ *)

Lemma escape_is_stuffed : STUFF_ESCAPE ∈ STUFF_BYTES.
Proof. by_decide. Qed.

Lemma stuff_cons b data : stuff (b :: data) = stuff_byte b ++ stuff data.
Proof. done. Qed.

Lemma stuff_app d1 d2 : stuff (d1 ++ d2) = stuff d1 ++ stuff d2.
Proof. apply bind_app. Qed.

(** Unstuffing consumes one stuffed byte at a time. *)
Lemma unstuff_stuff_byte b rest :
  unstuff (stuff_byte b ++ rest) = out ← unstuff rest; Ok (b :: out).
Proof.
  unfold stuff_byte. case_decide as Hb; cbn [app unstuff].
  - rewrite Z.eqb_refl, lxor_cancel_r. done.
  - destruct (b =? STUFF_ESCAPE) eqn:He; [|done].
    apply Z.eqb_eq in He as ->. destruct Hb. apply escape_is_stuffed.
Qed.

Lemma unstuff_stuff_app d rest :
  unstuff (stuff d ++ rest) = out ← unstuff rest; Ok (d ++ out).
Proof.
  induction d as [|b d IH]; [cbn; by destruct (unstuff rest)|].
  rewrite stuff_cons, <-app_assoc, unstuff_stuff_byte, IH. by destruct (unstuff rest).
Qed.

Lemma unstuff_stuff d : unstuff (stuff d) = Ok d.
Proof. rewrite <-(app_nil_r (stuff d)), unstuff_stuff_app. cbn. by rewrite app_nil_r. Qed.

Lemma stuff_byte_clean b c : c ∈ stuff_byte b → c ∈ STUFF_BYTES → c = STUFF_ESCAPE.
Proof.
  unfold stuff_byte. case_decide as Hb; intros Hc Hs;
    [|by apply list_elem_of_singleton in Hc as ->].
  apply elem_of_cons in Hc as [->|Hc]; [done|]. apply list_elem_of_singleton in Hc as ->.
  exfalso. revert Hs. unfold STUFF_BYTES in Hb. rewrite !elem_of_cons in Hb.
  destruct Hb as [->|[->|[->|[->|[->|[]%elem_of_nil]]]]]; by_decide.
Qed.

(** A stuffed body holds none of the five control bytes except as escape. *)
Lemma stuff_clean d c : c ∈ stuff d → c ∈ STUFF_BYTES → c = STUFF_ESCAPE.
Proof.
  unfold stuff. intros (b & Hc & _)%list_elem_of_bind. eauto using stuff_byte_clean.
Qed.

Lemma stuff_no_delimiter d : FRAME_DELIMITER ∉ stuff d.
Proof.
  intros H. assert (FRAME_DELIMITER = STUFF_ESCAPE) by (eapply stuff_clean; [done|by_decide]).
  discriminate.
Qed.

Lemma stuff_byte_bytes b : is_u8 b → bytes (stuff_byte b).
Proof.
  intros Hb. unfold stuff_byte. case_decide; repeat apply bytes_cons; try apply bytes_nil;
    [unfold STUFF_ESCAPE; lia | apply lxor_u8; unfold STUFF_XOR; lia | done].
Qed.

Lemma stuff_bytes d : bytes d → bytes (stuff d).
Proof.
  induction 1 as [|b l Hb Hl IH]; [constructor|].
  rewrite stuff_cons. apply bytes_app_2; [by apply stuff_byte_bytes|done].
Qed.
#[export] Hint Resolve stuff_bytes : bytes.

Lemma stuff_length d : (length (stuff d) ≤ 2 * length d)%nat.
Proof.
  induction d as [|b d IH]; [done|]. rewrite stuff_cons, length_app. unfold stuff_byte.
  case_decide; simpl in *; lia.
Qed.

Lemma stuff_sig d : stuff (L2_SIG ++ d) = L2_SIG ++ stuff d.
Proof. rewrite stuff_app. f_equal. Qed.

Lemma stuff_sig_prefix d : L2_SIG `prefix_of` d → L2_SIG `prefix_of` stuff d.
Proof. intros [k ->]. rewrite stuff_sig. by apply prefix_app_r. Qed.

Lemma no_panic_unstuff d : no_panic (unstuff d).
Proof.
  remember (length d) as n eqn:Hn. revert d Hn.
  induction (lt_wf n) as [n _ IH]; intros [|b d] Hn; cbn [unstuff]; [done|].
  simpl in Hn. case_match.
  - destruct d as [|m d]; [done|]. apply no_panic_bind; [|done].
    apply (IH (length d)); [simpl in Hn; lia|done].
  - apply no_panic_bind; [|done]. apply (IH (length d)); [lia|done].
Qed.
#[export] Hint Resolve no_panic_unstuff : nopanic.

Lemma unstuff_sig rest : unstuff (L2_SIG ++ rest) = out ← unstuff rest; Ok (L2_SIG ++ out).
Proof. apply (unstuff_stuff_app L2_SIG). Qed.

Lemma unstuff_bytes d out : bytes d → unstuff d = Ok out → bytes out.
Proof.
  remember (length d) as n eqn:Hn. revert d out Hn.
  induction (lt_wf n) as [n _ IH]; intros [|b d] out Hn Hd Hu; cbn [unstuff] in Hu.
  - ok_inv. apply bytes_nil.
  - apply bytes_cons_inv in Hd as [Hb Hd]. simpl in Hn. case_match.
    + destruct d as [|m d]; [done|]. apply bytes_cons_inv in Hd as [Hm Hd].
      apply bind_Ok in Hu as (o & Ho & Hu). simplify_eq.
      apply bytes_cons; [apply lxor_u8; unfold STUFF_XOR; lia|].
      apply (IH (length d)) in Ho; simpl; auto; lia.
    + apply bind_Ok in Hu as (o & Ho & Hu). simplify_eq.
      apply bytes_cons; [done|]. apply (IH (length d)) in Ho; auto; lia.
Qed.

(* ------------------------------------------------------------------ *)
(** ** Lemmas: the parser after the header                             *)
(* ------------------------------------------------------------------ *)

(** Where the L2 payload starts relative to the end of the header. *)
Definition sig_class (rest : list Z) : option nat :=
  if decide (L2_SIG `prefix_of` rest) then Some 0%nat
  else if decide ((FRAME_DELIMITER :: L2_SIG) `prefix_of` rest) then Some 1%nat
  else None.

(** The L2 branch on the bytes from the signature on. *)
Definition l2_rest (s : list Z) : outcome ParseError (list Z) :=
  if decide (last s = Some FRAME_DELIMITER) then
    u ← unstuff (take (length s - 1) s);
    if decide (length u < 2)%nat then Err (TooShort (length u) 2)
    else Ok (take (length u - 2) u)
  else unstuff s.

(** [Frame::parse] once the header has been read off. *)
Definition parse_rest (declared : Z) (local dest : list Z) (ctrl : Z) (rest : list Z) :
    outcome ParseError Frame :=
  if negb (declared =? 18 + zlen rest) then Err (LengthMismatch declared (18 + length rest)) else
  match sig_class rest with
  | Some k => body ← l2_rest (drop k rest); Ok (mkFrame L2Wrapped local dest ctrl body)
  | None => Ok (mkFrame L1Only local dest ctrl rest)
  end.

Lemma prefix_take (p l : list Z) : p `prefix_of` l ↔ take (length p) l = p.
Proof.
  split.
  - intros [k ->]. by rewrite take_app_length.
  - intros H. exists (drop (length p) l). rewrite <-H at 1. by rewrite take_drop.
Qed.

Lemma signature_at_app h rest :
  bytes rest → (4 ≤ length rest)%nat →
  signature_at (h ++ rest) (length h) = Ok (bool_decide (L2_SIG `prefix_of` rest)).
Proof.
  intros Hb Hlen. unfold signature_at. rewrite slice_Ok by (rewrite ?length_app; lia). cbn [mbind outcome_bind].
  replace (length h + 4 - length h)%nat with 4%nat by lia.
  rewrite drop_app_length. unfold read_u32.
  rewrite read_le_Ok by (rewrite length_take; lia). cbn [mbind outcome_bind].
  rewrite take_take. change (4 `min` 4)%nat with 4%nat. f_equal.
  apply Bool.eq_iff_eq_true. rewrite Z.eqb_eq, bool_decide_eq_true, prefix_take.
  change (length L2_SIG) with 4%nat. apply L2_SIG_decode; [auto with bytes|].
  rewrite length_take. lia.
Qed.

Lemma l2_sig_offset_app h rest :
  length h = 18%nat → bytes rest →
  l2_sig_offset (h ++ rest) = Ok ((λ k, 18 + k)%nat <$> sig_class rest).
Proof.
  intros Hh Hb. unfold l2_sig_offset, sig_class. rewrite length_app, Hh.
  assert (H0 : (if decide (22 ≤ 18 + length rest)%nat then signature_at (h ++ rest) 18 else Ok false)
    = Ok (bool_decide (L2_SIG `prefix_of` rest))).
  { case_decide.
    - rewrite <-Hh. apply signature_at_app; [done|lia].
    - f_equal. symmetry. apply bool_decide_eq_false. intros Hp%prefix_length. simpl in Hp. lia. }
  rewrite H0. cbn [mbind outcome_bind]. clear H0.
  destruct (decide (L2_SIG `prefix_of` rest)) as [Hp|Hp].
  { by rewrite bool_decide_true. }
  rewrite bool_decide_false by done.
  assert (H1 : (if decide (23 ≤ 18 + length rest)%nat then
       b ← index (h ++ rest) 18; if b =? FRAME_DELIMITER then signature_at (h ++ rest) 19 else Ok false
     else Ok false) = Ok (bool_decide ((FRAME_DELIMITER :: L2_SIG) `prefix_of` rest))).
  { case_decide as Hlen.
    - destruct rest as [|b rest]; [simpl in Hlen; lia|]. apply bytes_cons_inv in Hb as [_ Hb].
      unfold index. rewrite lookup_app_r, Hh by lia. cbn [mbind outcome_bind lookup list_lookup Nat.sub].
      destruct (b =? FRAME_DELIMITER) eqn:Hd.
      + apply Z.eqb_eq in Hd as ->.
        replace (h ++ FRAME_DELIMITER :: rest) with ((h ++ [FRAME_DELIMITER]) ++ rest)
          by by rewrite <-app_assoc.
        replace 19%nat with (length (h ++ [FRAME_DELIMITER])) by (rewrite length_app; simpl; lia).
        rewrite signature_at_app by (simpl in *; auto; lia). f_equal.
        apply bool_decide_ext. split; [apply prefix_cons|apply prefix_cons_inv_2].
      + f_equal. symmetry. apply bool_decide_eq_false. intros Hq%prefix_cons_inv_1. lia.
    - f_equal. symmetry. apply bool_decide_eq_false. intros Hq%prefix_length. simpl in Hq. lia. }
  rewrite H1. cbn [mbind outcome_bind].
  by destruct (decide ((FRAME_DELIMITER :: L2_SIG) `prefix_of` rest)); case_bool_decide.
Qed.

Lemma sig_class_length rest k :
  sig_class rest = Some k → (k ≤ 1)%nat ∧ L2_SIG `prefix_of` drop k rest.
Proof.
  unfold sig_class. intros H. case_decide as H0; [simplify_eq; by split; [lia|]|].
  case_decide as H1; simplify_eq. split; [lia|].
  destruct rest as [|b rest]; [by apply prefix_nil_inv in H1|]. by apply prefix_cons_inv_2 in H1.
Qed.

Lemma last_app_nonempty (l1 l2 : list Z) : l2 ≠ [] → last (l1 ++ l2) = last l2.
Proof. intros. rewrite last_app. destruct (last l2) eqn:E; [done|]. by apply last_None in E. Qed.

Lemma l2_payload_app h s :
  L2_SIG `prefix_of` s → l2_payload (h ++ s) (length h) = l2_rest s.
Proof.
  intros Hp. assert (Hs : (4 ≤ length s)%nat) by (apply prefix_length in Hp; done).
  unfold l2_payload, l2_rest. rewrite last_app_nonempty by (intros ->; simpl in Hs; lia).
  destruct (last s) as [b|] eqn:Hl; [|apply last_None in Hl; subst; simpl in Hs; lia].
  cbn [mbind outcome_bind]. rewrite length_app.
  destruct (b =? FRAME_DELIMITER) eqn:Hb.
  - apply Z.eqb_eq in Hb as ->. rewrite decide_True by done.
    rewrite slice_Ok by (rewrite ?length_app; lia). cbn [mbind outcome_bind].
    rewrite drop_app_length. replace (length h + length s - 1 - length h)%nat with (length s - 1)%nat by lia.
    destruct (unstuff _) as [u| |]; cbn [mbind outcome_bind]; [|done..].
    case_decide; [done|]. rewrite slice_Ok by lia. by rewrite Nat.sub_0_r, drop_0.
  - rewrite decide_False by (intros [= ->]; lia).
    rewrite slice_Ok by (rewrite ?length_app; lia). cbn [mbind outcome_bind].
    rewrite drop_app_length, take_ge by lia. by destruct (unstuff s).
Qed.

(** [Frame::parse] of at least 18 bytes, in closed form. *)
Lemma parse_eq a0 a1 a2 a3 a4 a5 a6 a7 a8 a9 a10 a11 a12 a13 a14 a15 a16 a17 rest :
  bytes rest →
  parse (a0 :: a1 :: a2 :: a3 :: a4 :: a5 :: a6 :: a7 :: a8 :: a9 :: a10 :: a11
         :: a12 :: a13 :: a14 :: a15 :: a16 :: a17 :: rest) =
  if negb (a0 =? FRAME_DELIMITER) then Err (MissingStart a0) else
  if negb (a3 =? Z.lxor (Z.lxor FRAME_DELIMITER a1) a2)
  then Err (HeaderChecksum a3 (Z.lxor (Z.lxor FRAME_DELIMITER a1) a2)) else
  parse_rest (le_decode [a1; a2]) [a4; a5; a6; a7; a8; a9] [a10; a11; a12; a13; a14; a15]
    (le_decode [a16; a17]) rest.
Proof.
  intros Hb.
  set (h := [a0; a1; a2; a3; a4; a5; a6; a7; a8; a9; a10; a11; a12; a13; a14; a15; a16; a17]).
  assert (Hh : length h = 18%nat) by done.
  change (a0 :: _) with (h ++ rest). unfold parse.
  rewrite decide_False by (rewrite length_app; unfold MIN_FRAME_LEN; lia).
  cbn [h app index lookup list_lookup mbind outcome_bind].
  case_match; [done|]. case_match; [done|].
  rewrite !slice_Ok by (cbn; lia). cbn [mbind outcome_bind].
  change (a0 :: _) with (h ++ rest). rewrite l2_sig_offset_app by done.
  cbn [mbind outcome_bind]. rewrite length_app. change (length h) with 18%nat.
  unfold parse_rest. rewrite Nat2Z.inj_add. change (Z.of_nat 18) with 18.
  destruct (sig_class rest) as [k|] eqn:Hk; cbn [fmap option_fmap option_map].
  - case_match; [done|]. apply sig_class_length in Hk as [Hk1 Hk2].
    assert (Heq : h ++ rest = (h ++ take k rest) ++ drop k rest)
      by by rewrite <-app_assoc, take_drop.
    assert (Hkl : (k ≤ length rest)%nat).
    { apply prefix_length in Hk2. rewrite length_drop in Hk2. simpl in Hk2. lia. }
    rewrite Heq. replace (18 + k)%nat with (length (h ++ take k rest))
      by (rewrite length_app, length_take; lia).
    by rewrite l2_payload_app.
  - case_match; [done|]. case_decide.
    + rewrite slice_from_Ok by (rewrite length_app; lia). cbn [mbind outcome_bind].
      by rewrite <-Hh, drop_app_length.
    + destruct rest; [done|simpl in *; lia].
Qed.

(** A list with 18 elements or more, opened up to its header bytes. *)
Lemma open_header (raw : list Z) :
  (18 ≤ length raw)%nat →
  ∃ a0 a1 a2 a3 a4 a5 a6 a7 a8 a9 a10 a11 a12 a13 a14 a15 a16 a17 rest,
    raw = a0 :: a1 :: a2 :: a3 :: a4 :: a5 :: a6 :: a7 :: a8 :: a9 :: a10 :: a11
         :: a12 :: a13 :: a14 :: a15 :: a16 :: a17 :: rest.
Proof.
  intros H. do 18 (destruct raw as [|? raw]; [simpl in H; lia|]). repeat eexists.
Qed.

Lemma addr_open a : addr_ok a → ∃ b0 b1 b2 b3 b4 b5, a = [b0; b1; b2; b3; b4; b5].
Proof. intros [H _]. do 7 (destruct a as [|? a]; try done). repeat eexists. Qed.

Lemma l1_header_bytes n local dest ctrl :
  bytes local → bytes dest → bytes (l1_header n local dest ctrl).
Proof.
  intros. unfold l1_header. repeat first [apply bytes_cons | apply bytes_app_2]; auto with bytes.
  - unfold FRAME_DELIMITER; lia.
  - apply lxor_u8; [apply lxor_u8; unfold FRAME_DELIMITER; auto with bytes; lia | auto with bytes].
Qed.

Lemma l1_header_length n local dest ctrl :
  addr_ok local → addr_ok dest → length (l1_header n local dest ctrl) = 18%nat.
Proof.
  intros (?&?&?&?&?&?&->)%addr_open (?&?&?&?&?&?&->)%addr_open. done.
Qed.

(** Parsing behind a well-formed header. *)
Lemma parse_header n local dest ctrl rest :
  addr_ok local → addr_ok dest → is_u16 ctrl → bytes rest →
  parse (l1_header n local dest ctrl ++ rest) =
  parse_rest (Z.of_nat n mod 65536) local dest ctrl rest.
Proof.
  intros (?&?&?&?&?&?&->)%addr_open (?&?&?&?&?&?&->)%addr_open Hc Hb.
  unfold l1_header. cbn [app]. rewrite parse_eq by done. rewrite !Z.eqb_refl. cbn [negb].
  f_equal.
  - rewrite <-le_encode_2. change 65536 with (256 * 256). cbn [le_encode le_decode].
    rewrite Z.mul_0_r, Z.add_0_r, Z.rem_mul_r by lia. done.
  - rewrite <-le_encode_2. apply le_decode_encode. change (256 ^ Z.of_nat 2) with 65536. lia.
Qed.

(** The converse: a buffer whose header passes the parser's tests is a header
    built from its own fields. *)
Lemma header_shape a0 a1 a2 a3 l0 l1 l2 l3 l4 l5 d0 d1 d2 d3 d4 d5 c0 c1 rest n :
  bytes [a1; a2] → bytes [c0; c1] → a0 = FRAME_DELIMITER →
  a3 = Z.lxor (Z.lxor FRAME_DELIMITER a1) a2 → le_decode [a1; a2] = Z.of_nat n →
  a0 :: a1 :: a2 :: a3 :: l0 :: l1 :: l2 :: l3 :: l4 :: l5 :: d0 :: d1 :: d2 :: d3
    :: d4 :: d5 :: c0 :: c1 :: rest =
  l1_header n [l0; l1; l2; l3; l4; l5] [d0; d1; d2; d3; d4; d5] (le_decode [c0; c1]) ++ rest.
Proof.
  intros Ha Hc -> -> Hn. unfold l1_header. cbn [app].
  assert (H1 : [a1; a2] = [lo8 (Z.of_nat n); hi8 (Z.of_nat n)])
    by (rewrite <-le_encode_2, <-Hn; symmetry; by apply le_encode_decode).
  assert (H2 : [c0; c1] = [lo8 (le_decode [c0; c1]); hi8 (le_decode [c0; c1])])
    by (rewrite <-le_encode_2; symmetry; by apply le_encode_decode).
  remember (le_decode [c0; c1]) as cc eqn:Hcc. clear Hcc.
  injection H1 as Ha1 Ha2. injection H2 as Hc0 Hc1. by rewrite <-Ha1, <-Ha2, <-Hc0, <-Hc1.
Qed.

Lemma l2_rest_reply stuffed body fcs :
  unstuff stuffed = Ok (body ++ fcs) → length fcs = 2%nat →
  l2_rest (stuffed ++ [FRAME_DELIMITER]) = Ok body.
Proof.
  intros Hu Hf. unfold l2_rest. rewrite last_snoc, decide_True by done.
  rewrite length_app, Nat.add_sub, take_app_length, Hu. cbn [mbind outcome_bind].
  rewrite length_app, Hf, decide_False by lia. by rewrite Nat.add_sub, take_app_length.
Qed.

Lemma sig_class_sep sep s :
  sep = [] ∨ sep = [FRAME_DELIMITER] → L2_SIG `prefix_of` s →
  sig_class (sep ++ s) = Some (length sep).
Proof.
  intros Hsep Hp. unfold sig_class. destruct Hsep as [->| ->]; cbn [app length].
  - by case_decide.
  - case_decide as H; [by apply prefix_cons_inv_1 in H|].
    case_decide as H'; [done|]. destruct H'. by apply prefix_cons.
Qed.

Lemma sig_class_None rest : sig_class rest = None ↔ ¬ starts_l2 rest.
Proof. unfold sig_class, starts_l2. repeat case_decide; naive_solver. Qed.

(** A frame that carries any two bytes in the checksum position parses the
    same: the body of [wire_reply] for the shape the builder emits. *)
Lemma parse_reply n local dest ctrl sep stuffed body fcs :
  addr_ok local → addr_ok dest → is_u16 ctrl → bytes stuffed →
  sep = [] ∨ sep = [FRAME_DELIMITER] → L2_SIG `prefix_of` stuffed →
  unstuff stuffed = Ok (body ++ fcs) → length fcs = 2%nat →
  n = (18 + length (sep ++ stuffed) + 1)%nat →
  parse (l1_header n local dest ctrl ++ sep ++ stuffed ++ [FRAME_DELIMITER]) =
  if Z.of_nat n <? 65536 then Ok (mkFrame L2Wrapped local dest ctrl body)
  else Err (LengthMismatch (Z.of_nat n mod 65536) n).
Proof.
  intros Hl Hd Hc Hb Hsep Hp Hu Hf Hn.
  assert (Hbs : bytes sep) by (destruct Hsep as [->| ->]; by_decide).
  rewrite parse_header by (try done; repeat apply bytes_app_2; auto; by_decide).
  unfold parse_rest. assert (Hlen : length (sep ++ stuffed ++ [FRAME_DELIMITER]) = (n - 18)%nat)
    by (rewrite !length_app in *; simpl; lia).
  rewrite Hlen. replace (18 + Z.of_nat (n - 18)) with (Z.of_nat n) by lia.
  replace (18 + (n - 18))%nat with n by lia.
  destruct (Z.of_nat n <? 65536) eqn:Hlt.
  - rewrite Z.mod_small, Z.eqb_refl by lia. cbn [negb].
    rewrite sig_class_sep; [|done|by apply prefix_app_r].
    by rewrite drop_app_length, (l2_rest_reply _ body fcs).
  - destruct (_ =? _) eqn:He; [|done]. apply Z.eqb_eq in He.
    pose proof (Z.mod_pos_bound (Z.of_nat n) 65536). lia.
Qed.

(** Well-formed arguments of a builder. *)
Definition builder_ok (fb : FrameBuilder) : Prop :=
  addr_ok (fb_local_bt fb) ∧ addr_ok (fb_dest_bt fb) ∧ is_u16 (fb_control fb) ∧ bytes (fb_payload fb).

#[export] Instance builder_ok_dec fb : Decision (builder_ok fb).
Proof. unfold builder_ok, addr_ok. apply _. Defined.

(** The frame a receiver should see. *)
Definition built_frame (fb : FrameBuilder) : Frame :=
  mkFrame (fb_kind fb) (fb_local_bt fb) (fb_dest_bt fb) (fb_control fb) (fb_payload fb).

Lemma build_bytes fb : builder_ok fb → bytes (build fb).
Proof.
  intros ([_ ?] & [_ ?] & ? & ?). unfold build, build_l1_only, build_l2_wrapped.
  destruct (fb_kind fb).
  - apply bytes_app_2; [by apply l1_header_bytes|done].
  - apply bytes_app_2; [by apply l1_header_bytes|].
    apply bytes_app_2; [by_decide|]. apply bytes_app_2; [|by_decide].
    apply stuff_bytes, bytes_app_2; [done|apply (fcs_trailer_bytes (fb_payload fb))].
Qed.

Lemma build_length fb :
  builder_ok fb →
  length (build fb) =
    match fb_kind fb with
    | L1Only => 18 + length (fb_payload fb)
    | L2Wrapped => 20 + length (stuff (fb_payload fb ++ fcs_trailer (fb_payload fb)))
    end%nat.
Proof.
  intros (Hl & Hd & _). unfold build. destruct (fb_kind fb).
  - unfold build_l1_only. by rewrite length_app, l1_header_length.
  - unfold build_l2_wrapped, fcs_trailer. rewrite !length_app, l1_header_length by done.
    cbn [length]. lia.
Qed.

Lemma build_prefix fb : ∃ rest, build fb = FRAME_DELIMITER :: rest.
Proof. unfold build, build_l1_only, build_l2_wrapped. destruct (fb_kind fb); eexists; done. Qed.

(** Round trip of L2 frames, overflow of the 16-bit length field included. *)
Lemma parse_build_l2 fb :
  builder_ok fb → fb_kind fb = L2Wrapped → L2_SIG `prefix_of` fb_payload fb →
  parse (build fb) =
  if zlen (build fb) <? 65536 then Ok (built_frame fb)
  else Err (LengthMismatch (zlen (build fb) mod 65536) (length (build fb))).
Proof.
  intros Hok Hk Hp. pose proof (build_length fb Hok) as Hlen. rewrite Hk in Hlen.
  pose proof Hok as (Hl & Hd & Hc & Hb). rewrite Hlen. unfold build, build_l2_wrapped, built_frame.
  rewrite Hk. fold (fcs_trailer (fb_payload fb)).
  rewrite (parse_reply _ _ _ _ [FRAME_DELIMITER] _ (fb_payload fb) (fcs_trailer (fb_payload fb)));
    auto with bytes.
  - replace (18 + 1 + _ + 1)%nat with
      (20 + length (stuff (fb_payload fb ++ fcs_trailer (fb_payload fb))))%nat by lia. done.
  - apply stuff_sig_prefix. by apply prefix_app_r.
  - apply unstuff_stuff.
Qed.

(** Round trip of L1-only frames. *)
Lemma parse_build_l1 fb :
  builder_ok fb → fb_kind fb = L1Only → ¬ starts_l2 (fb_payload fb) →
  parse (build fb) =
  if zlen (build fb) <? 65536 then Ok (built_frame fb)
  else Err (LengthMismatch (zlen (build fb) mod 65536) (length (build fb))).
Proof.
  intros Hok Hk Hp. pose proof (build_length fb Hok) as Hlen. rewrite Hk in Hlen.
  pose proof Hok as (Hl & Hd & Hc & Hb). rewrite Hlen. unfold build, build_l1_only, built_frame.
  rewrite Hk, parse_header by done. unfold parse_rest.
  rewrite Nat2Z.inj_add. change (Z.of_nat 18) with 18.
  destruct (18 + zlen (fb_payload fb) <? 65536) eqn:Hlt.
  - rewrite Z.mod_small, Z.eqb_refl by lia. cbn [negb]. apply sig_class_None in Hp. by rewrite Hp.
  - destruct (_ =? _) eqn:He; [|done]. apply Z.eqb_eq in He.
    pose proof (Z.mod_pos_bound (18 + zlen (fb_payload fb)) 65536). lia.
Qed.

(** The payload is of the sort the kind announces: signature-led for an L2
    frame, not to be taken for one in an L1 frame. *)
Definition payload_fits_kind (fb : FrameBuilder) : Prop :=
  match fb_kind fb with
  | L2Wrapped => L2_SIG `prefix_of` fb_payload fb
  | L1Only => ¬ starts_l2 (fb_payload fb)
  end.

#[export] Instance payload_fits_kind_dec fb : Decision (payload_fits_kind fb).
Proof. unfold payload_fits_kind, starts_l2. destruct (fb_kind fb); apply _. Defined.

Lemma parse_build fb :
  builder_ok fb → payload_fits_kind fb →
  parse (build fb) =
  if zlen (build fb) <? 65536 then Ok (built_frame fb)
  else Err (LengthMismatch (zlen (build fb) mod 65536) (length (build fb))).
Proof.
  unfold payload_fits_kind. intros Hok Hp. destruct (fb_kind fb) eqn:Hk;
    [by apply parse_build_l1|by apply parse_build_l2].
Qed.

(** Soundness and completeness against the wire description. *)
Lemma prefix_sig_snoc s b :
  b ≠ 101 → L2_SIG `prefix_of` s ++ [b] → L2_SIG `prefix_of` s.
Proof.
  intros Hb [r Hr]. apply prefix_take. change (length L2_SIG) with 4%nat.
  destruct (decide (4 ≤ length s)%nat) as [Hle|Hlt].
  - apply (f_equal (take 4)) in Hr. by rewrite take_app_le in Hr.
  - exfalso. assert (Hlen : length (s ++ [b]) = length (L2_SIG ++ r)) by by rewrite Hr.
    rewrite !length_app in Hlen. cbn [length L2_SIG] in Hlen.
    destruct r; [|simpl in Hlen; lia]. rewrite app_nil_r in Hr.
    apply (f_equal last) in Hr. rewrite last_snoc in Hr. naive_solver.
Qed.

Lemma l2_rest_sound s body :
  L2_SIG `prefix_of` s → l2_rest s = Ok body →
  (∃ s' fcs, s = s' ++ [FRAME_DELIMITER] ∧ L2_SIG `prefix_of` s' ∧
     unstuff s' = Ok (body ++ fcs) ∧ length fcs = 2%nat) ∨
  (last s ≠ Some FRAME_DELIMITER ∧ unstuff s = Ok body).
Proof.
  intros Hp. unfold l2_rest. case_decide as Hlast; [|by right].
  intros (u & Hu & Hr)%bind_Ok. left. case_decide as Hlen; [done|]. injection Hr as <-.
  induction s as [|y s' _] using rev_ind; [done|].
  rewrite last_snoc in Hlast. injection Hlast as ->.
  rewrite length_app, Nat.add_sub, take_app_length in Hu.
  exists s', (drop (length u - 2) u). split_and!; [done| | |].
  - by apply prefix_sig_snoc in Hp.
  - by rewrite take_drop.
  - rewrite length_drop. lia.
Qed.

Lemma sig_class_split rest k :
  sig_class rest = Some k →
  ∃ sep s, (sep = [] ∨ sep = [FRAME_DELIMITER]) ∧ rest = sep ++ s ∧ drop k rest = s ∧
    L2_SIG `prefix_of` s.
Proof.
  intros Hk. apply sig_class_length in Hk as Hk'. destruct Hk' as [_ Hp].
  unfold sig_class in Hk. case_decide; simplify_eq; [exists [], rest; naive_solver|].
  case_decide as Hq; simplify_eq. destruct Hq as [r ->].
  exists [FRAME_DELIMITER], (L2_SIG ++ r). naive_solver.
Qed.

Lemma parse_rest_sound n local dest ctrl rest f :
  addr_ok local → addr_ok dest → is_u16 ctrl → bytes rest → 0 <= n < 65536 →
  parse_rest n local dest ctrl rest = Ok f →
  n = 18 + zlen rest ∧ wire_frame (l1_header (18 + length rest) local dest ctrl ++ rest) f.
Proof.
  intros Hl Hd Hc Hb Hn. unfold parse_rest. case_match eqn:Hlen; [done|].
  apply negb_false_iff, Z.eqb_eq in Hlen. intros H. split; [done|].
  destruct (sig_class rest) as [k|] eqn:Hk.
  - apply sig_class_split in Hk as (sep & s & Hsep & -> & Hs & Hp). rewrite Hs in H.
    apply bind_Ok in H as (body & H & Hf). injection Hf as <-.
    apply l2_rest_sound in H as [(s' & fcs & -> & Hp' & Hu & Hfl)|[Hlast Hu]]; [..|done].
    + rewrite !length_app, !Nat.add_assoc. change (length [FRAME_DELIMITER]) with 1%nat.
      rewrite <-(Nat.add_assoc 18), <-length_app.
      apply (wire_reply _ _ _ _ _ _ fcs); auto.
      rewrite app_assoc, (length_app _ [FRAME_DELIMITER]) in Hlen.
      change (length [FRAME_DELIMITER]) with 1%nat in Hlen. lia.
    + apply wire_push; auto. lia.
  - injection H as <-. apply sig_class_None in Hk. apply wire_l1; auto. lia.
Qed.

Lemma parse_sound raw f : bytes raw → parse raw = Ok f → wire_frame raw f.
Proof.
  intros Hb Hp. destruct (decide (length raw < MIN_FRAME_LEN)%nat) as [Hs|Hs].
  { unfold parse in Hp. by rewrite decide_True in Hp. }
  unfold MIN_FRAME_LEN in Hs.
  destruct (open_header raw) as (a0&a1&a2&a3&a4&a5&a6&a7&a8&a9&a10&a11&a12&a13&a14&a15&a16&a17&rest&->); [lia|].
  assert (Hbr : bytes rest) by (apply (bytes_drop 18) in Hb; exact Hb).
  rewrite parse_eq in Hp by done.
  case_match eqn:H0; [done|]. case_match eqn:H3; [done|].
  apply negb_false_iff, Z.eqb_eq in H0. apply negb_false_iff, Z.eqb_eq in H3.
  assert (Ha : bytes [a1; a2]) by exact (bytes_take 2 _ (bytes_drop 1 _ Hb)).
  assert (Hc : bytes [a16; a17]) by exact (bytes_take 2 _ (bytes_drop 16 _ Hb)).
  pose proof (le_decode_bound _ Ha). pose proof (le_decode_bound _ Hc).
  change (256 ^ zlen [a1; a2]) with 65536 in *. change (256 ^ zlen [a16; a17]) with 65536 in *.
  apply parse_rest_sound in Hp as [Hn Hw]; try done.
  - rewrite (header_shape _ _ _ _ _ _ _ _ _ _ _ _ _ _ _ _ _ _ _ (18 + length rest)); [done..|lia].
  - split; [done|]. exact (bytes_take 6 _ (bytes_drop 4 _ Hb)).
  - split; [done|]. exact (bytes_take 6 _ (bytes_drop 10 _ Hb)).
Qed.

Lemma parse_complete raw f : bytes raw → wire_frame raw f → parse raw = Ok f.
Proof.
  intros Hb Hw. destruct Hw as [l d c body Hl Hd Hc Hns Hlen
    |l d c sep s body fcs Hl Hd Hc Hsep Hp Hu Hf Hlen
    |l d c sep s body Hl Hd Hc Hsep Hp Hu Hlast Hlen].
  - apply bytes_app in Hb as [_ Hb]. rewrite parse_header by done. unfold parse_rest.
    rewrite Z.mod_small, Nat2Z.inj_add by lia. change (Z.of_nat 18) with 18.
    rewrite Z.eqb_refl. cbn [negb]. apply sig_class_None in Hns. by rewrite Hns.
  - apply bytes_app in Hb as [_ Hb]. apply bytes_app in Hb as [_ Hb]. apply bytes_app in Hb as [Hb _].
    rewrite (parse_reply _ _ _ _ _ _ body fcs) by done.
    destruct (_ <? _) eqn:?; [done|zlia].
  - apply bytes_app in Hb as [_ Hb]. rewrite parse_header by done. unfold parse_rest.
    rewrite Z.mod_small, Nat2Z.inj_add by lia. change (Z.of_nat 18) with 18.
    rewrite Z.eqb_refl. cbn [negb]. rewrite sig_class_sep, drop_app_length by done.
    unfold l2_rest. by rewrite decide_False, Hu.
Qed.

Lemma no_panic_l2_rest s : no_panic (l2_rest s).
Proof. unfold l2_rest. repeat no_panic_step. Qed.
#[export] Hint Resolve no_panic_l2_rest : nopanic.

Lemma no_panic_parse raw : bytes raw → no_panic (parse raw).
Proof.
  intros Hb. destruct (decide (length raw < MIN_FRAME_LEN)%nat) as [Hs|Hs].
  { unfold parse. by rewrite decide_True. }
  unfold MIN_FRAME_LEN in Hs.
  destruct (open_header raw) as (a0&a1&a2&a3&a4&a5&a6&a7&a8&a9&a10&a11&a12&a13&a14&a15&a16&a17&rest&->); [lia|].
  rewrite parse_eq by (apply (bytes_drop 18) in Hb; exact Hb). unfold parse_rest.
  repeat no_panic_step.
Qed.

(** What a parsed frame holds is in range. *)
Lemma parse_in_range raw f :
  bytes raw → parse raw = Ok f → bytes (payload f) ∧ addr_ok (local_bt f) ∧ addr_ok (dest_bt f).
Proof.
  intros Hb Hp. apply parse_sound in Hp; [|done].
  destruct Hp as [l d c body Hl Hd _ _ _
    |l d c sep st body fcs Hl Hd _ _ _ Hu _ _|l d c sep st body Hl Hd _ _ _ Hu _ _];
    (split; [|done]); apply bytes_app in Hb as [_ Hb]; [done|..];
    apply bytes_app in Hb as [_ Hb].
  - apply bytes_app in Hb as [Hb _]. apply unstuff_bytes in Hu; [|done]. by apply bytes_app in Hu as [? _].
  - by apply unstuff_bytes in Hu.
Qed.

Lemma find_end_Some raw i :
  find_end raw = Some i → (5 ≤ i < length raw)%nat ∧ raw !! i = Some FRAME_DELIMITER.
Proof.
  unfold find_end. intros ([j x] & Hj & ->)%fmap_Some. cbn [fst].
  apply list_find_Some in Hj as (Hj & -> & _). rewrite lookup_drop in Hj.
  split; [|done]. apply lookup_lt_Some in Hj. lia.
Qed.

Lemma no_panic_parse_l2_only_blob raw : no_panic (parse_l2_only_blob raw).
Proof.
  unfold parse_l2_only_blob. no_panic_step; [done|].
  repeat first [no_panic_step | progress intros].
  unfold ok_or in *. destruct (find_end raw) eqn:Hf; simplify_eq.
  apply find_end_Some in Hf as [? _]. apply no_panic_slice; lia.
Qed.

(** The blob the builder's frame leaves once its header is stripped, followed
    by anything. *)
Lemma find_end_stuffed s junk :
  FRAME_DELIMITER ∉ s → (4 ≤ length s)%nat →
  find_end (FRAME_DELIMITER :: s ++ FRAME_DELIMITER :: junk) = Some (S (length s)).
Proof.
  intros Hs Hlen. unfold find_end. cbn [drop].
  rewrite drop_app_le by done.
  rewrite list_find_app_r.
  - cbn [list_find]. rewrite decide_True by done. cbn [fmap option_fmap option_map prod_map fst snd].
    rewrite length_drop. f_equal. lia.
  - apply list_find_None, Forall_forall. intros x Hx ->. apply Hs. by apply (subseteq_drop 4).
Qed.

(* ------------------------------------------------------------------ *)
(** ** Properties                                                      *)
(* ------------------------------------------------------------------ *)

(** Byte stuffing loses nothing: unstuffing a stuffed buffer gives it
    back, and the stuffed buffer holds none of 0x7D 0x7E 0x11 0x12 0x13 except
    0x7D as escape, so a delimiter never occurs inside a stuffed body. *)
Theorem stuffing_transparent d :
  unstuff (stuff d) = Ok d ∧ ∀ c, c ∈ stuff d → c ∈ STUFF_BYTES → c = STUFF_ESCAPE.
Proof. split; [apply unstuff_stuff | apply stuff_clean]. Qed.

(** C21. [Frame::parse] accepts a buffer and returns a frame exactly when the
    buffer is a wire image of that frame: L1-only, reply (with or without the
    separator) or push, with matching length field and header checksum. *)
Theorem parse_iff_wire_frame raw f : bytes raw → parse raw = Ok f ↔ wire_frame raw f.
Proof. intros Hb. split; [by apply parse_sound|by apply parse_complete]. Qed.

(** Neither parser panics: on every byte string they return a value or a
    typed error, so no index or slice is out of range. *)
Theorem parsers_never_panic raw :
  bytes raw → no_panic (parse raw) ∧ no_panic (parse_l2_only_blob raw).
Proof. intros Hb. split; [by apply no_panic_parse|apply no_panic_parse_l2_only_blob]. Qed.

(** C20. Parsing what the builder serializes gives the frame back, for both
    kinds (the payload of an L2 frame starts with the signature, that of an
    L1 frame does not), as long as the wire image fits the 16-bit length
    field; beyond that the length field wraps and the parser reports the
    mismatch. *)
Theorem build_parse_roundtrip fb :
  builder_ok fb → payload_fits_kind fb →
  parse (build fb) =
  if zlen (build fb) <? 65536 then Ok (built_frame fb)
  else Err (LengthMismatch (zlen (build fb) mod 65536) (length (build fb))).
Proof. apply parse_build. Qed.

(** The "L2-only blob" (the frame the builder emits without its 18 header
    bytes, with any junk after it) parses to the payload. *)
Theorem blob_roundtrip fb junk :
  builder_ok fb → fb_kind fb = L2Wrapped → L2_SIG `prefix_of` fb_payload fb →
  parse_l2_only_blob (drop 18 (build fb) ++ junk) = Ok (fb_payload fb).
Proof.
  intros (Hl & Hd & _ & _) Hk Hp. unfold build. rewrite Hk. unfold build_l2_wrapped.
  fold (fcs_trailer (fb_payload fb)). rewrite drop_app_length' by by rewrite l1_header_length.
  set (s := stuff (fb_payload fb ++ fcs_trailer (fb_payload fb))).
  assert (Hs : L2_SIG `prefix_of` s) by (apply stuff_sig_prefix; by apply prefix_app_r).
  assert (Hs4 : (4 ≤ length s)%nat) by (apply prefix_length in Hs; done).
  rewrite <-!app_assoc. cbn [app]. unfold parse_l2_only_blob.
  rewrite decide_False by (cbn [length]; rewrite length_app; simpl; lia).
  cbn [index lookup list_lookup mbind outcome_bind]. rewrite Z.eqb_refl. cbn [negb].
  rewrite slice_Ok by (cbn [length]; rewrite ?length_app; lia). cbn [mbind outcome_bind drop Nat.sub].
  rewrite drop_0, take_app_le by done. apply prefix_take in Hs. change (length L2_SIG) with 4%nat in Hs.
  rewrite Hs, bool_decide_true by done. cbn [negb].
  rewrite find_end_stuffed by (try done; apply stuff_no_delimiter). cbn [ok_or mbind outcome_bind].
  rewrite slice_Ok by (cbn [length]; rewrite ?length_app; lia). cbn [mbind outcome_bind drop].
  rewrite drop_0. replace (S (length s) - 1)%nat with (length s) by lia.
  rewrite take_app_length. unfold s. rewrite unstuff_stuff. cbn [mbind outcome_bind].
  rewrite length_app, fcs_trailer_length, decide_False by lia.
  rewrite slice_Ok by (rewrite ?length_app, ?fcs_trailer_length; lia).
  by rewrite Nat.sub_0_r, drop_0, Nat.add_sub, take_app_length.
Qed.

(** C35. The receive path never looks at the FCS-16: whatever two bytes stand
    in the checksum position of a reply (stuffed like the rest), the frame
    parses to the same payload. *)
Theorem parse_ignores_fcs local dest ctrl body f1 f2 :
  addr_ok local → addr_ok dest → is_u16 ctrl → bytes body → L2_SIG `prefix_of` body →
  is_u8 f1 → is_u8 f2 → 2 * zlen body + 24 < 65536 →
  let stuffed := stuff (body ++ [f1; f2]) in
  parse (l1_header (20 + length stuffed) local dest ctrl
         ++ [FRAME_DELIMITER] ++ stuffed ++ [FRAME_DELIMITER])
  = Ok (mkFrame L2Wrapped local dest ctrl body).
Proof.
  intros Hl Hd Hc Hb Hp H1 H2 Hlen stuffed.
  assert (Hbs : bytes (body ++ [f1; f2])) by auto 6 with bytes.
  assert (Hst : bytes stuffed) by by apply stuff_bytes.
  rewrite (parse_reply _ _ _ _ _ _ body [f1; f2]); auto with bytes.
  - pose proof (stuff_length (body ++ [f1; f2])) as Hsl. rewrite length_app in Hsl. simpl in Hsl.
    destruct (_ <? _) eqn:?; [done|]. subst stuffed. zlia.
  - apply stuff_sig_prefix. by apply prefix_app_r.
  - apply unstuff_stuff.
  - cbn [app length]. lia.
Qed.

(* ------------------------------------------------------------------ *)
(** ** Witnesses                                                       *)
(* ------------------------------------------------------------------ *)

(** The [ver] discovery frame and a small L2 frame. *)
Definition sample_l1 : FrameBuilder :=
  mkFrameBuilder L1Only (replicate 6 0) [1; 0; 0; 0; 0; 0] 513 [118; 101; 114; 13; 10].
Definition sample_l2 : FrameBuilder :=
  mkFrameBuilder L2Wrapped [17; 34; 51; 68; 85; 102] (replicate 6 255) 1
    (L2_SIG ++ [1; 126; 125; 17]).

Lemma parse_iff_wire_frame_witness :
  bytes (build sample_l1) ∧ wire_frame (build sample_l1) (built_frame sample_l1).
Proof.
  assert (H : bytes (build sample_l1)) by by_decide. split; [exact H|].
  apply (proj1 (parse_iff_wire_frame _ _ H)). vm_compute. reflexivity.
Defined.

Lemma parsers_never_panic_witness : no_panic (parse [126; 18; 0]).
Proof. apply (proj1 (parsers_never_panic [126; 18; 0] ltac:(by_decide))). Defined.

Lemma build_parse_roundtrip_witness :
  zlen (build sample_l2) < 65536 ∧ parse (build sample_l2) = Ok (built_frame sample_l2).
Proof.
  split; [vm_compute; reflexivity|].
  exact (build_parse_roundtrip sample_l2 ltac:(by_decide) ltac:(by_decide)).
Defined.

Lemma blob_roundtrip_witness :
  parse_l2_only_blob (drop 18 (build sample_l2) ++ [1; 2]) = Ok (fb_payload sample_l2).
Proof.
  exact (blob_roundtrip sample_l2 [1; 2] ltac:(by_decide) eq_refl
    (prefix_app_r _ _ _ (reflexivity _))).
Defined.

Lemma parse_ignores_fcs_witness :
  parse (l1_header (20 + length (stuff ((L2_SIG ++ [1; 2]) ++ [0; 0]))) (replicate 6 0) (replicate 6 255) 1
         ++ [FRAME_DELIMITER] ++ stuff ((L2_SIG ++ [1; 2]) ++ [0; 0]) ++ [FRAME_DELIMITER])
  = Ok (mkFrame L2Wrapped (replicate 6 0) (replicate 6 255) 1 (L2_SIG ++ [1; 2])).
Proof.
  apply (parse_ignores_fcs (replicate 6 0) (replicate 6 255) 1 (L2_SIG ++ [1; 2]) 0 0);
    [split; [reflexivity|by_decide] | split; [reflexivity|by_decide] | lia | by_decide
    | apply prefix_app_r; reflexivity | lia | lia | vm_compute; reflexivity].
Defined.
