(* ===== verification/Packet.v ===== *)
(** * Layer-2 packets (crates/sma-bt-protocol/src/packet.rs)

    The 28-byte L2 header, [encode_l2], [decode_l2] and the header of each
    packet the client sends. *)
From S2P Require Import Prelude Constants.

Local Open Scope Z_scope.

(* ------------------------------------------------------------------ *)
(** ** Definitions                                                     *)
(* ------------------------------------------------------------------ *)

Record L2Header : Type := mkL2Header {
  longwords : Z;     (* u8 *)
  ctrl : Z;          (* u8 *)
  dst_susy_id : Z;   (* u16 *)
  dst_serial : Z;    (* u32 *)
  ctrl2 : Z;         (* u16 *)
  app_susy_id : Z;   (* u16 *)
  app_serial : Z;    (* u32 *)
  error_code : Z;    (* u16 *)
  pkt_id : Z         (* u16 *)
}.

#[export] Instance L2Header_eq_dec : EqDecision L2Header.
Proof. solve_decision. Defined.

(** Every field is in the range of its Rust type. *)
Definition header_ok (h : L2Header) : Prop :=
  is_u8 (longwords h) ∧ is_u8 (ctrl h) ∧ is_u16 (dst_susy_id h) ∧ is_u32 (dst_serial h) ∧
  is_u16 (ctrl2 h) ∧ is_u16 (app_susy_id h) ∧ is_u32 (app_serial h) ∧
  is_u16 (error_code h) ∧ is_u16 (pkt_id h).

#[export] Instance header_ok_dec h : Decision (header_ok h).
Proof. unfold header_ok. apply _. Defined.

(** [encode_l2] *)
Definition encode_l2 (h : L2Header) (body : list Z) : list Z :=
  le_encode 4 BT_L2_SIGNATURE
  ++ [longwords h]
  ++ [ctrl h]
  ++ le_encode 2 (dst_susy_id h)
  ++ le_encode 4 (dst_serial h)
  ++ le_encode 2 (ctrl2 h)
  ++ le_encode 2 (app_susy_id h)
  ++ le_encode 4 (app_serial h)
  ++ le_encode 2 (ctrl2 h)
  ++ le_encode 2 (error_code h)
  ++ [0; 0]
  ++ le_encode 2 (Z.lor (pkt_id h) APP_PACKET_BIT)
  ++ body.

(** [decode_l2]: [None] on a short buffer or a foreign signature. *)
Definition decode_l2 {E} (data : list Z) : outcome E (option (L2Header * list Z)) :=
  if decide (length data < 28)%nat then Ok None else
  s ← slice data 0 4; sig ← read_u32 s;
  if negb (sig =? BT_L2_SIGNATURE) then Ok None else
  lw ← index data 4;
  ct ← index data 5;
  s ← slice data 6 8; dsu ← read_u16 s;
  s ← slice data 8 12; dse ← read_u32 s;
  s ← slice data 12 14; c2 ← read_u16 s;
  s ← slice data 14 16; asu ← read_u16 s;
  s ← slice data 16 20; ase ← read_u32 s;
  s ← slice data 22 24; ec ← read_u16 s;
  s ← slice data 26 28; pid ← read_u16 s;
  rest ← slice_from data 28;
  Ok (Some (mkL2Header lw ct dsu dse c2 asu ase ec (Z.land pid 32767 (* !APP_PACKET_BIT *)), rest)).

(** The constructors of [impl L2Header]. *)
Definition hdr_discovery (pkt_id app_serial : Z) : L2Header :=
  mkL2Header 0 0 ANY_SUSY_ID ANY_SERIAL 0 APP_SUSY_ID app_serial 0 pkt_id.
Definition hdr_logon (pkt_id app_serial : Z) : L2Header :=
  mkL2Header 14 160 ANY_SUSY_ID ANY_SERIAL 256 APP_SUSY_ID app_serial 0 pkt_id.
Definition hdr_query (pkt_id app_serial dst_susy_id dst_serial : Z) : L2Header :=
  mkL2Header 9 160 dst_susy_id dst_serial 0 APP_SUSY_ID app_serial 0 pkt_id.
Definition hdr_init (pkt_id app_serial : Z) : L2Header :=
  mkL2Header 9 160 ANY_SUSY_ID ANY_SERIAL 0 APP_SUSY_ID app_serial 0 pkt_id.
Definition hdr_event_log_query (pkt_id app_serial dst_susy_id dst_serial : Z) : L2Header :=
  mkL2Header 9 224 dst_susy_id dst_serial 256 APP_SUSY_ID app_serial 0 pkt_id.
Definition hdr_logoff (pkt_id app_serial : Z) : L2Header :=
  mkL2Header 8 160 ANY_SUSY_ID ANY_SERIAL 768 APP_SUSY_ID app_serial 0 pkt_id.

(** The header a receiver reads back: the packet id loses its top bit. *)
Definition wire_header (h : L2Header) : L2Header :=
  mkL2Header (longwords h) (ctrl h) (dst_susy_id h) (dst_serial h) (ctrl2 h)
    (app_susy_id h) (app_serial h) (error_code h) (pkt_id h mod 32768).

(* ------------------------------------------------------------------ *)
(** ** Lemmas                                                          *)
(* ------------------------------------------------------------------ *)

Lemma pkt_id_mask p : is_u16 p → Z.land (Z.lor p APP_PACKET_BIT) 32767 = p mod 32768.
Proof.
  intros Hp. change 32767 with (Z.ones 15). change 32768 with (2 ^ 15).
  rewrite <-Z.land_ones by lia.
  apply Z.bits_inj'. intros n Hn. rewrite !Z.land_spec, Z.lor_spec.
  destruct (decide (n < 15)) as [Hlt|Hge].
  - replace (Z.testbit APP_PACKET_BIT n) with false; [by rewrite orb_false_r|].
    change APP_PACKET_BIT with (2 ^ 15). by rewrite Z.pow2_bits_false by lia.
  - by rewrite Z.ones_spec_high, !andb_false_r by lia.
Qed.

Lemma pkt_id_bit_u16 p : is_u16 p → is_u16 (Z.lor p APP_PACKET_BIT).
Proof.
  intros Hp. split; [apply Z.lor_nonneg; unfold APP_PACKET_BIT; lia|].
  destruct (decide (Z.lor p APP_PACKET_BIT = 0)) as [->|Hne]; [lia|].
  assert (0 <= Z.lor p APP_PACKET_BIT) by (apply Z.lor_nonneg; unfold APP_PACKET_BIT; lia).
  apply (Z.log2_lt_pow2 _ 16); [lia|]. rewrite Z.log2_lor by (unfold APP_PACKET_BIT; lia).
  change (Z.log2 APP_PACKET_BIT) with 15. apply Z.max_lub_lt; [|lia].
  destruct (decide (p = 0)) as [->|]; [done|]. apply Z.log2_lt_pow2; lia.
Qed.

Lemma encode_l2_length h body : length (encode_l2 h body) = (28 + length body)%nat.
Proof. unfold encode_l2. rewrite !length_app, !le_encode_length. done. Qed.

Lemma encode_l2_bytes h body : header_ok h → bytes body → bytes (encode_l2 h body).
Proof.
  intros (?&?&_) Hb. unfold encode_l2.
  repeat (apply bytes_app_2; [first [apply le_encode_bytes | by_decide | auto with bytes]|]). done.
Qed.
#[export] Hint Resolve encode_l2_bytes : bytes.

Lemma encode_l2_sig h body : L2_SIG `prefix_of` encode_l2 h body.
Proof. unfold encode_l2. rewrite <-L2_SIG_le. by apply prefix_app_r. Qed.

(** Decoding in closed form: the buffer opened up to its 28 header bytes. *)
Lemma decode_l2_eq {E} s0 s1 s2 s3 lw ct a0 a1 b0 b1 b2 b3 c0 c1 d0 d1 e0 e1 e2 e3
    x0 x1 f0 f1 y0 y1 p0 p1 body :
  decode_l2 (E:=E) (s0 :: s1 :: s2 :: s3 :: lw :: ct :: a0 :: a1 :: b0 :: b1 :: b2 :: b3
    :: c0 :: c1 :: d0 :: d1 :: e0 :: e1 :: e2 :: e3 :: x0 :: x1 :: f0 :: f1 :: y0 :: y1
    :: p0 :: p1 :: body) =
  if le_decode [s0; s1; s2; s3] =? BT_L2_SIGNATURE then
    Ok (Some (mkL2Header lw ct (le_decode [a0; a1]) (le_decode [b0; b1; b2; b3])
      (le_decode [c0; c1]) (le_decode [d0; d1]) (le_decode [e0; e1; e2; e3])
      (le_decode [f0; f1]) (Z.land (le_decode [p0; p1]) 32767), body))
  else Ok None.
Proof.
  unfold decode_l2. rewrite decide_False by (cbn [length]; lia).
  rewrite !slice_Ok by (cbn [length]; lia). cbn [mbind outcome_bind Nat.sub drop take].
  unfold read_u32, read_u16. rewrite !read_le_Ok by (cbn [length]; lia).
  cbn [mbind outcome_bind take index lookup list_lookup].
  destruct (le_decode [s0; s1; s2; s3] =? BT_L2_SIGNATURE); [|done]. cbn [negb].
  rewrite slice_from_Ok by (cbn [length]; lia). done.
Qed.

Lemma open_l2 (data : list Z) :
  (28 ≤ length data)%nat →
  ∃ s0 s1 s2 s3 lw ct a0 a1 b0 b1 b2 b3 c0 c1 d0 d1 e0 e1 e2 e3 x0 x1 f0 f1 y0 y1 p0 p1 body,
    data = s0 :: s1 :: s2 :: s3 :: lw :: ct :: a0 :: a1 :: b0 :: b1 :: b2 :: b3
    :: c0 :: c1 :: d0 :: d1 :: e0 :: e1 :: e2 :: e3 :: x0 :: x1 :: f0 :: f1 :: y0 :: y1
    :: p0 :: p1 :: body.
Proof.
  intros H. do 28 (destruct data as [|? data]; [simpl in H; lia|]). repeat eexists.
Qed.

Lemma decode_l2_short {E} data : (length data < 28)%nat → decode_l2 (E:=E) data = Ok None.
Proof. intros. unfold decode_l2. by rewrite decide_True. Qed.

Lemma no_panic_decode_l2 {E} data : no_panic (decode_l2 (E:=E) data).
Proof.
  destruct (decide (length data < 28)%nat); [by rewrite decode_l2_short|].
  destruct (open_l2 data) as (?&?&?&?&?&?&?&?&?&?&?&?&?&?&?&?&?&?&?&?&?&?&?&?&?&?&?&?&?&->); [lia|].
  rewrite decode_l2_eq. by case_match.
Qed.
#[export] Hint Resolve no_panic_decode_l2 : nopanic.

Lemma decode_l2_returns {E} data : ∃ o, decode_l2 (E:=E) data = Ok o.
Proof.
  destruct (decide (length data < 28)%nat); [eexists; by apply decode_l2_short|].
  destruct (open_l2 data) as (?&?&?&?&?&?&?&?&?&?&?&?&?&?&?&?&?&?&?&?&?&?&?&?&?&?&?&?&?&->); [lia|].
  rewrite decode_l2_eq. case_match; by eexists.
Qed.

(** The decoded packet id has 15 bits. *)
Lemma decode_l2_pkt_id {E} data h body :
  decode_l2 (E:=E) data = Ok (Some (h, body)) → 0 <= pkt_id h < 32768.
Proof.
  destruct (decide (length data < 28)%nat); [by rewrite decode_l2_short|].
  destruct (open_l2 data) as (?&?&?&?&?&?&?&?&?&?&?&?&?&?&?&?&?&?&?&?&?&?&?&?&?&?&?&?&?&->); [lia|].
  rewrite decode_l2_eq. case_match; [|done]. intros [= <- _]. cbn [pkt_id].
  change 32767 with (Z.ones 15). rewrite Z.land_ones by lia. apply Z.mod_pos_bound. lia.
Qed.

Lemma decode_encode_l2 {E} h body :
  header_ok h → decode_l2 (E:=E) (encode_l2 h body) = Ok (Some (wire_header h, body)).
Proof.
  intros (H1&H2&H3&H4&H5&H6&H7&H8&H9). unfold encode_l2, wire_header.
  pose proof (le_decode_encode 2 (Z.lor (pkt_id h) APP_PACKET_BIT) (pkt_id_bit_u16 _ H9)) as Hp.
  pose proof (le_decode_encode 2 _ H3) as E3. pose proof (le_decode_encode 4 _ H4) as E4.
  pose proof (le_decode_encode 2 _ H5) as E5. pose proof (le_decode_encode 2 _ H6) as E6.
  pose proof (le_decode_encode 4 _ H7) as E7. pose proof (le_decode_encode 2 _ H8) as E8.
  rewrite <-L2_SIG_le. cbn [le_encode app L2_SIG] in *. rewrite decode_l2_eq.
  change (le_decode [255; 3; 96; 101] =? BT_L2_SIGNATURE) with true.
  rewrite E3, E4, E5, E6, E7, E8, Hp. by rewrite pkt_id_mask.
Qed.

Lemma decode_l2_Some {E} data h body :
  bytes data → decode_l2 (E:=E) data = Ok (Some (h, body)) →
  header_ok h ∧ pkt_id h < 32768 ∧ length data = (28 + length body)%nat ∧
  body = drop 28 data ∧ L2_SIG `prefix_of` data.
Proof.
  intros Hb. destruct (decide (length data < 28)%nat); [by rewrite decode_l2_short|].
  destruct (open_l2 data) as (s0&s1&s2&s3&lw&ct&a0&a1&b0&b1&b2&b3&c0&c1&d0&d1&e0&e1&e2&e3
    &x0&x1&f0&f1&y0&y1&p0&p1&bd&->); [lia|].
  rewrite decode_l2_eq. case_match eqn:Hs; [|done]. intros [= <- <-].
  assert (Hsub : ∀ a n, bytes (take n (drop a (s0 :: s1 :: s2 :: s3 :: lw :: ct :: a0 :: a1 :: b0
    :: b1 :: b2 :: b3 :: c0 :: c1 :: d0 :: d1 :: e0 :: e1 :: e2 :: e3 :: x0 :: x1 :: f0 :: f1
    :: y0 :: y1 :: p0 :: p1 :: bd)))) by (intros; by apply bytes_take, bytes_drop).
  assert (Hpid : 0 <= Z.land (le_decode [p0; p1]) 32767 < 32768).
  { change 32767 with (Z.ones 15). rewrite Z.land_ones by lia. apply Z.mod_pos_bound. lia. }
  refine (conj _ (conj (proj2 Hpid) (conj eq_refl (conj eq_refl _)))).
  - unfold header_ok; cbn [longwords ctrl dst_susy_id dst_serial ctrl2 app_susy_id app_serial error_code pkt_id].
    assert (Hp16 : is_u16 (Z.land (le_decode [p0; p1]) 32767))
      by exact (conj (proj1 Hpid) (Z.lt_trans _ _ 65536 (proj2 Hpid) eq_refl)).
    repeat (refine (conj _ _); [first
      [ exact (bytes_lookup _ 4 _ Hb eq_refl) | exact (bytes_lookup _ 5 _ Hb eq_refl)
      | exact (le_decode_bound [a0; a1] (Hsub 6 2)%nat)
      | exact (le_decode_bound [b0; b1; b2; b3] (Hsub 8 4)%nat)
      | exact (le_decode_bound [c0; c1] (Hsub 12 2)%nat)
      | exact (le_decode_bound [d0; d1] (Hsub 14 2)%nat)
      | exact (le_decode_bound [e0; e1; e2; e3] (Hsub 16 4)%nat)
      | exact (le_decode_bound [f0; f1] (Hsub 22 2)%nat) ]|]).
    exact Hp16.
  - apply Z.eqb_eq, L2_SIG_decode in Hs; [|exact (Hsub 0 4)%nat|done].
    injection Hs as -> -> -> ->. eexists. reflexivity.
Qed.

Lemma decode_l2_None {E} data :
  bytes data → decode_l2 (E:=E) data = Ok None ↔ (length data < 28)%nat ∨ ¬ L2_SIG `prefix_of` data.
Proof.
  intros Hb. destruct (decide (length data < 28)%nat) as [Hl|Hl].
  { rewrite decode_l2_short by done. naive_solver. }
  split.
  - intros Hd. right. intros [r ->]. rewrite length_app in Hl. simpl in Hl.
    destruct (open_l2 (L2_SIG ++ r)) as (?&?&?&?&?&?&?&?&?&?&?&?&?&?&?&?&?&?&?&?&?&?&?&?&?&?&?&?&?&Heq);
      [rewrite length_app; simpl; lia|].
    rewrite Heq, decode_l2_eq in Hd. injection Heq as <- <- <- <- _. done.
  - intros [?|Hp]; [done|]. destruct (decode_l2 (E:=E) data) as [[[h b]|]| |] eqn:Hd; [|done|..].
    + by apply decode_l2_Some in Hd as (_&_&_&_&?).
    + exfalso. revert Hd.
      destruct (open_l2 data) as (?&?&?&?&?&?&?&?&?&?&?&?&?&?&?&?&?&?&?&?&?&?&?&?&?&?&?&?&?&->); [lia|].
      rewrite decode_l2_eq. by case_match.
    + by apply no_panic_decode_l2 in Hd.
Qed.

(* ------------------------------------------------------------------ *)
(** ** Properties                                                      *)
(* ------------------------------------------------------------------ *)

(** C37. Decoding an encoded packet returns the body and every header field,
    except that the packet id comes back without its top bit: ids up to 0x7FFF
    survive the round trip and no other id does. *)
Theorem l2_roundtrip (h : L2Header) (body : list Z) :
  header_ok h →
  decode_l2 (E:=Empty_set) (encode_l2 h body) = Ok (Some (wire_header h, body)) ∧
  (wire_header h = h ↔ pkt_id h < 32768).
Proof.
  intros Hok. split; [by apply decode_encode_l2|]. destruct Hok as (_&_&_&_&_&_&_&_&Hp).
  destruct h as [lw ct ds de c2 su se ec p]. unfold wire_header. cbn in *. split.
  - intros [= He]. pose proof (Z.mod_pos_bound p 32768). lia.
  - intros. rewrite Z.mod_small by lia. done.
Qed.

(** [decode_l2] is total: it returns [None] exactly on buffers shorter
    than the header or without the signature, and otherwise a header whose
    fields are in range, whose packet id has 15 bits, and the bytes after the
    header as body. *)
Theorem decode_l2_total (data : list Z) :
  bytes data →
  (decode_l2 (E:=Empty_set) data = Ok None ∧ ((length data < 28)%nat ∨ ¬ L2_SIG `prefix_of` data)) ∨
  (∃ h, decode_l2 (E:=Empty_set) data = Ok (Some (h, drop 28 data)) ∧ header_ok h ∧ pkt_id h < 32768 ∧
    (28 ≤ length data)%nat ∧ L2_SIG `prefix_of` data).
Proof.
  intros Hb. destruct (decode_l2 (E:=Empty_set) data) as [[[h b]|]| e |] eqn:Hd.
  - right. apply decode_l2_Some in Hd as (?&?&?&->&?); [|done]. exists h. repeat (split; [by auto|]). split; [lia|done].
  - left. split; [done|]. by apply decode_l2_None in Hd.
  - done.
  - by apply no_panic_decode_l2 in Hd.
Qed.

(* ------------------------------------------------------------------ *)
(** ** Witnesses                                                       *)
(* ------------------------------------------------------------------ *)

Definition sample_header : L2Header :=
  mkL2Header 14 160 ANY_SUSY_ID ANY_SERIAL 256 APP_SUSY_ID 900123456 0 66.

Lemma l2_roundtrip_witness :
  decode_l2 (E:=Empty_set) (encode_l2 sample_header [12; 4; 253; 255]) = Ok (Some (sample_header, [12; 4; 253; 255])).
Proof. exact (proj1 (l2_roundtrip sample_header [12; 4; 253; 255] ltac:(by_decide))). Defined.

Lemma decode_l2_total_witness :
  decode_l2 (E:=Empty_set) [255; 3; 96] = Ok None.
Proof.
  destruct (decode_l2_total [255; 3; 96] ltac:(by_decide)) as [[H _]|(h & H & _)];
    [exact H | vm_compute in H; discriminate].
Defined.
