(* ===== verification/Framer.v ===== *)
(** * Stream reassembly (crates/bluez-transport/src/framer.rs)

    [FrameReader] as a state machine fed one byte at a time, against [scan],
    the specification that cuts a whole stream at once.  The recursion of
    [push_byte] (the resync replays the three bytes after a false start) runs
    on fuel; depth two is proved enough. *)
From S2P Require Import Prelude Constants Fcs Frame.

Local Open Scope Z_scope.

(* ------------------------------------------------------------------ *)
(** ** The reader                                                      *)
(* ------------------------------------------------------------------ *)

Definition HEADER_LEN : nat := 4.
Definition MIN_FRAME_LEN : Z := 18.
Definition MAX_FRAME_LEN : Z := 2048.

Record FrameReader : Type := mkFrameReader {
  in_progress : list Z;
  expected_len : option nat;
  completed : list (list Z)
}.

(** [FrameReader::new] *)
Definition FrameReader_new : FrameReader := mkFrameReader [] None [].

(** The [valid] test of [push_byte]. *)
Definition header_valid (len_lo len_hi hdr_cks : Z) : bool :=
  let declared := le_decode [len_lo; len_hi] in
  let expected_cks := Z.lxor (Z.lxor FRAME_DELIMITER len_lo) len_hi in
  (hdr_cks =? expected_cks) && ((MIN_FRAME_LEN <=? declared) && (declared <=? MAX_FRAME_LEN)).

(** [FrameReader::push_byte]; running out of fuel stands for exhausting the
    stack, a failed [debug_assert_eq] or index for a panic. *)
Fixpoint push_byte (fuel : nat) (r : FrameReader) (b : Z) : outcome Empty_set FrameReader :=
  match fuel with
  | O => Panic
  | S fuel =>
    if decide (in_progress r = []) then
      if b =? FRAME_DELIMITER then Ok (mkFrameReader [b] (expected_len r) (completed r)) else Ok r
    else
      let ip := in_progress r ++ [b] in
      match expected_len r with
      | None =>
          if decide (length ip = HEADER_LEN) then
            len_lo ← index ip 1;
            len_hi ← index ip 2;
            hdr_cks ← index ip 3;
            if negb (header_valid len_lo len_hi hdr_cks) then
              let tail := drop 1 ip in
              foldM (push_byte fuel) (mkFrameReader [] None (completed r)) tail
            else
              let declared := le_decode [len_lo; len_hi] in
              Ok (mkFrameReader ip (Some (Z.to_nat declared)) (completed r))
          else Ok (mkFrameReader ip None (completed r))
      | Some want =>
          if decide (want ≤ length ip)%nat then
            if decide (length ip = want) then
              Ok (mkFrameReader [] None (completed r ++ [ip]))
            else Panic
          else Ok (mkFrameReader ip (Some want) (completed r))
      end
  end.

(** Depth of the recursion: one resync, whose replay cannot resync again. *)
Definition push_depth : nat := 2.

(** [FrameReader::push] *)
Definition push (r : FrameReader) (data : list Z) : outcome Empty_set FrameReader :=
  foldM (push_byte push_depth) r data.

(** [FrameReader::pop_frame], [FrameReader::has_frame] *)
Definition pop_frame (r : FrameReader) : option (list Z) * FrameReader :=
  match completed r with
  | [] => (None, r)
  | f :: fs => (Some f, mkFrameReader (in_progress r) (expected_len r) fs)
  end.

Definition has_frame (r : FrameReader) : bool := negb (bool_decide (completed r = [])).

(* ------------------------------------------------------------------ *)
(** ** Specification: cutting a stream                                 *)
(* ------------------------------------------------------------------ *)

(** The length a header announces, when the first four bytes are one. *)
Definition header_len (s : list Z) : option nat :=
  match s with
  | d :: lo :: hi :: cks :: _ =>
      if (d =? FRAME_DELIMITER) && header_valid lo hi cks
      then Some (Z.to_nat (le_decode [lo; hi])) else None
  | _ => None
  end.

(** Frames of a stream, and the bytes that may still become one. *)
Fixpoint scan_fuel (fuel : nat) (s : list Z) : list (list Z) * list Z :=
  match fuel with
  | O => ([], s)
  | S fuel =>
      match s with
      | [] => ([], [])
      | d :: t =>
          if negb (d =? FRAME_DELIMITER) then scan_fuel fuel t
          else if decide (length s < HEADER_LEN)%nat then ([], s)
          else match header_len s with
               | None => scan_fuel fuel t
               | Some n =>
                   if decide (n ≤ length s)%nat then
                     let '(fs, rest) := scan_fuel fuel (drop n s) in (take n s :: fs, rest)
                   else ([], s)
               end
      end
  end.

Definition scan (s : list Z) : list (list Z) * list Z := scan_fuel (length s) s.
Arguments scan : simpl never.

(** The states of the reader: the bytes it keeps are a residue (no frame or
    false start can be cut off them), and the expected length is what their
    header announces. *)
Definition residual (ip : list Z) : Prop := scan ip = ([], ip).

Definition reader_ok (r : FrameReader) : Prop :=
  residual (in_progress r) ∧ expected_len r = header_len (in_progress r).

(** The state [push] must reach: what [scan] says of the kept bytes followed
    by the new ones. *)
Definition advance (r : FrameReader) (data : list Z) : FrameReader :=
  let '(fs, rest) := scan (in_progress r ++ data) in
  mkFrameReader rest (header_len rest) (completed r ++ fs).

(** A frame as the reader delivers it. *)
Definition delimited (f : list Z) : Prop := header_len f = Some (length f).

(** A stream cut into skipped bytes, delivered frames and a remainder. *)
Inductive cut : list Z → list (list Z) → list Z → Prop :=
  | cut_rest s : cut s [] s
  | cut_skip d s fs rest : cut s fs rest → cut (d :: s) fs rest
  | cut_frame f s fs rest : delimited f → cut s fs rest → cut (f ++ s) (f :: fs) rest.

(** Frames with delimiter-free junk in front of each. *)
Fixpoint interleave (js fs : list (list Z)) : list Z :=
  match js, fs with
  | j :: js, f :: fs => j ++ f ++ interleave js fs
  | _, _ => []
  end.

(* ------------------------------------------------------------------ *)
(** ** Lemmas: the specification                                       *)
(* ------------------------------------------------------------------ *)

Lemma header_valid_bounds lo hi cks :
  header_valid lo hi cks = true →
  (18 ≤ Z.to_nat (le_decode [lo; hi]))%nat ∧ Z.of_nat (Z.to_nat (le_decode [lo; hi])) <= 2048.
Proof. unfold header_valid, MIN_FRAME_LEN, MAX_FRAME_LEN. rewrite !andb_true_iff. intros. zlia. Qed.

Lemma header_len_Some s n :
  header_len s = Some n →
  head s = Some FRAME_DELIMITER ∧ (18 ≤ n)%nat ∧ Z.of_nat n <= 2048 ∧ (4 ≤ length s)%nat.
Proof.
  destruct s as [|d [|lo [|hi [|c s]]]]; try done. cbn [header_len].
  destruct (_ && _) eqn:Hv; [|done]. apply andb_true_iff in Hv as [Hd Hv].
  intros [= <-]. apply Z.eqb_eq in Hd as ->. pose proof (header_valid_bounds _ _ _ Hv).
  simpl length. naive_solver lia.
Qed.

Lemma header_len_app s t : (4 ≤ length s)%nat → header_len (s ++ t) = header_len s.
Proof. destruct s as [|d [|lo [|hi [|c s]]]]; simpl; try lia. done. Qed.

Lemma scan_fuel_enough n m s :
  (length s ≤ n)%nat → (length s ≤ m)%nat → scan_fuel n s = scan_fuel m s.
Proof.
  revert m s. induction n as [|n IH]; intros m s Hn Hm.
  { destruct s; [|simpl in Hn; lia]. by destruct m. }
  destruct m as [|m]; [destruct s; [done|simpl in Hm; lia]|].
  destruct s as [|d t]; [done|]. simpl in Hn, Hm. cbn [scan_fuel].
  destruct (negb (d =? FRAME_DELIMITER)); [apply IH; lia|]. case_decide; [done|].
  destruct (header_len (d :: t)) as [k|] eqn:Hk; [|apply IH; lia].
  apply header_len_Some in Hk as (_ & ? & _). case_decide; [|done].
  rewrite (IH m); [done|..]; rewrite length_drop; simpl; lia.
Qed.

(** The unfolding equation. *)
Lemma scan_cons d t :
  scan (d :: t) =
  if negb (d =? FRAME_DELIMITER) then scan t
  else if decide (length (d :: t) < HEADER_LEN)%nat then ([], d :: t)
  else match header_len (d :: t) with
       | None => scan t
       | Some n =>
           if decide (n ≤ length (d :: t))%nat then
             (take n (d :: t) :: (scan (drop n (d :: t))).1, (scan (drop n (d :: t))).2)
           else ([], d :: t)
       end.
Proof.
  unfold scan. cbn [length scan_fuel].
  destruct (negb (d =? FRAME_DELIMITER)); [done|]. case_decide; [done|].
  destruct (header_len (d :: t)) as [k|] eqn:Hk; [|done].
  apply header_len_Some in Hk as (_ & ? & _). case_decide; [|done].
  rewrite (scan_fuel_enough (length t) (length (drop k (d :: t)))) by
    (rewrite ?length_drop; simpl; lia).
  by destruct (scan_fuel _ _).
Qed.

Lemma scan_nil : scan [] = ([], []).
Proof. done. Qed.

(** Cutting a stream in two steps: the residue of the first part is put in
    front of the second. *)
Lemma scan_app s t :
  scan (s ++ t) = ((scan s).1 ++ (scan ((scan s).2 ++ t)).1, (scan ((scan s).2 ++ t)).2).
Proof.
  remember (length s) as n eqn:Hn. revert s Hn.
  induction (lt_wf n) as [n _ IH]; intros s ->.
  destruct s as [|d s]; [apply surjective_pairing|].
  rewrite (scan_cons d s). cbn [app].
  destruct (negb (d =? FRAME_DELIMITER)) eqn:Hd.
  { rewrite scan_cons, Hd. apply (IH (length s)); [simpl; lia|done]. }
  case_decide as Hlen; [cbn [fst snd app]; by destruct (scan (d :: s ++ t))|].
  assert (Hl4 : (4 ≤ length (d :: s))%nat) by (unfold HEADER_LEN in Hlen; lia).
  pose proof (header_len_app (d :: s) t Hl4) as Hh. cbn [app] in Hh.
  destruct (header_len (d :: s)) as [k|] eqn:Hk.
  - apply header_len_Some in Hk as Hk'. destruct Hk' as (_ & Hk18 & _).
    case_decide as Hkl; [|apply surjective_pairing].
    rewrite scan_cons, Hd, Hh.
    rewrite decide_False by (simpl in *; rewrite length_app; lia).
    rewrite decide_True by (simpl in *; rewrite length_app; lia).
    change (d :: s ++ t) with ((d :: s) ++ t).
    rewrite take_app_le, drop_app_le by done.
    rewrite (IH (length (drop k (d :: s)))); [done| |done].
    rewrite length_drop. simpl. lia.
  - rewrite scan_cons, Hd, Hh, decide_False by (simpl in *; rewrite length_app; lia).
    apply (IH (length s)); [simpl; lia|done].
Qed.

Lemma scan_residual s : residual (scan s).2.
Proof.
  unfold residual. pose proof (scan_app s []) as H. rewrite !app_nil_r in H.
  destruct (scan s) as [fs r]. cbn [fst snd] in *. injection H as H1 H2.
  rewrite (surjective_pairing (scan r)). rewrite <-H2. f_equal.
  apply (app_inv_head fs). by rewrite app_nil_r.
Qed.

Lemma scan_short s : head s = Some FRAME_DELIMITER → (length s < 4)%nat → scan s = ([], s).
Proof.
  destruct s as [|d t]; [done|]. intros [= ->] Hl. rewrite scan_cons. cbn [negb].
  by rewrite decide_True.
Qed.

Lemma scan_partial s n : header_len s = Some n → (length s < n)%nat → scan s = ([], s).
Proof.
  intros Hn Hl. apply header_len_Some in Hn as Hn'. destruct Hn' as (Hd & _ & _ & H4).
  destruct s as [|d t]; [done|]. injection Hd as ->. rewrite scan_cons, Hn. cbn [negb].
  rewrite decide_False by (unfold HEADER_LEN; lia). by rewrite decide_False by lia.
Qed.

Lemma scan_complete s n :
  header_len s = Some n → (n ≤ length s)%nat →
  scan s = (take n s :: (scan (drop n s)).1, (scan (drop n s)).2).
Proof.
  intros Hn Hl. apply header_len_Some in Hn as Hn'. destruct Hn' as (Hd & _ & _ & H4).
  destruct s as [|d t]; [done|]. injection Hd as ->. rewrite scan_cons, Hn. cbn [negb].
  rewrite decide_False by (unfold HEADER_LEN; lia). by rewrite decide_True by lia.
Qed.

Lemma scan_rest_length s : (length (scan s).2 ≤ length s)%nat.
Proof.
  remember (length s) as m eqn:Hm. revert s Hm.
  induction (lt_wf m) as [m _ IH]; intros [|e u] ->; [done|]. rewrite scan_cons.
  assert (IHu : (length (scan u).2 ≤ length u)%nat) by (apply (IH (length u)); simpl; lia).
  destruct (negb _); [simpl; lia|]. case_decide; [done|].
  destruct (header_len _) as [k|] eqn:Hk; [|simpl; lia].
  apply header_len_Some in Hk as (_ & ? & _). case_decide; [|done]. cbn [snd].
  specialize (IH (length (drop k (e :: u))) ltac:(rewrite length_drop; simpl; lia) _ eq_refl).
  rewrite length_drop in IH. lia.
Qed.

(** The three shapes of the kept bytes. *)
Lemma residual_inv ip :
  residual ip →
  ip = [] ∨ head ip = Some FRAME_DELIMITER ∧
    ((length ip < 4)%nat ∧ header_len ip = None ∨
     ∃ n, header_len ip = Some n ∧ (4 ≤ length ip < n)%nat).
Proof.
  destruct ip as [|d t]; [by left|]. intros Hr. right. unfold residual in Hr. rewrite scan_cons in Hr.
  assert (Hno : ∀ fs, scan t = (fs, d :: t) → False).
  { intros fs Ht. pose proof (scan_rest_length t) as Hlen. rewrite Ht in Hlen. simpl in Hlen. lia. }
  destruct (d =? FRAME_DELIMITER) eqn:Hd; cbn [negb] in Hr; [|by apply Hno in Hr].
  apply Z.eqb_eq in Hd as ->. split; [done|]. unfold HEADER_LEN in Hr.
  case_decide as Hl.
  - left. split; [done|]. by destruct t as [|? [|? [|??]]]; simpl in Hl; try lia.
  - destruct (header_len _) as [n|] eqn:Hn; [|by apply Hno in Hr]. right. exists n.
    split; [done|]. case_decide; [by injection Hr|lia].
Qed.

(* ------------------------------------------------------------------ *)
(** ** Lemmas: the reader follows the specification                    *)
(* ------------------------------------------------------------------ *)

Lemma advance_nil r : reader_ok r → advance r [] = r.
Proof.
  intros [Hr He]. unfold advance. rewrite app_nil_r, Hr, <-He, app_nil_r. by destruct r.
Qed.

Lemma advance_ok r data : reader_ok (advance r data).
Proof.
  unfold advance, reader_ok. pose proof (scan_residual (in_progress r ++ data)).
  by destruct (scan _) as [fs rest].
Qed.

Lemma advance_app r d1 d2 : advance (advance r d1) d2 = advance r (d1 ++ d2).
Proof.
  unfold advance. rewrite app_assoc, (scan_app (in_progress r ++ d1) d2).
  destruct (scan (in_progress r ++ d1)) as [fs rest]. cbn [in_progress completed fst snd].
  destruct (scan (rest ++ d2)) as [fs' rest']. cbn [fst snd]. by rewrite app_assoc.
Qed.

Lemma advance_length r data :
  (length (in_progress (advance r data)) ≤ length (in_progress r) + length data)%nat.
Proof.
  unfold advance. pose proof (scan_rest_length (in_progress r ++ data)) as H.
  rewrite length_app in H. by destruct (scan _).
Qed.

(** A loop of steps that each advance the reader advances it by all bytes. *)
Lemma foldM_advance (f : FrameReader → Z → outcome Empty_set FrameReader) (ok : FrameReader → list Z → Prop) r l :
  (∀ r b l, ok r (b :: l) → reader_ok r → f r b = Ok (advance r [b]) ∧ ok (advance r [b]) l) →
  ok r l → reader_ok r → foldM f r l = Ok (advance r l).
Proof.
  intros Hf. revert r. induction l as [|b l IH]; intros r Hok Hr; cbn [foldM].
  - by rewrite advance_nil.
  - destruct (Hf _ _ _ Hok Hr) as [-> Hok']. cbn. rewrite IH by (done || apply advance_ok).
    by rewrite advance_app.
Qed.

Ltac use_scan H := unfold advance; cbn [in_progress completed]; rewrite H; cbn [fst snd].

Lemma push_byte_idle f r b :
  reader_ok r → in_progress r = [] → push_byte (S f) r b = Ok (advance r [b]).
Proof.
  intros [Hr He] Hip. cbn [push_byte]. rewrite decide_True by done.
  unfold advance. rewrite Hip in *. cbn [app]. destruct (b =? FRAME_DELIMITER) eqn:Hb.
  - apply Z.eqb_eq in Hb as ->. rewrite scan_short by (simpl; done || lia).
    by rewrite app_nil_r, He.
  - rewrite scan_cons, Hb. cbn [negb]. rewrite scan_nil, app_nil_r. destruct r; cbn in *. by subst.
Qed.

(** Inside the first three bytes nothing is decided yet. *)
Lemma push_byte_short f r b :
  reader_ok r → (length (in_progress r) < 3)%nat → push_byte (S f) r b = Ok (advance r [b]).
Proof.
  intros Hok Hl. destruct (residual_inv _ (proj1 Hok)) as [Hip|(Hd & [[_ Hn]|(n & _ & ?)])];
    [by apply push_byte_idle| |lia].
  destruct Hok as [Hr He]. cbn [push_byte]. destruct r as [ip e fs]. cbn in *. rewrite He, Hn.
  rewrite decide_False by (by intros ->).
  rewrite decide_False by (rewrite length_app; unfold HEADER_LEN; simpl; lia).
  unfold advance. cbn [in_progress completed].
  rewrite scan_short by (destruct ip; simpl in *; rewrite ?length_app; simpl; done || lia).
  rewrite app_nil_r. destruct ip as [|? [|? [|??]]]; simpl in *; done || lia.
Qed.

Lemma push_short f r l :
  reader_ok r → (length (in_progress r) + length l ≤ 3)%nat →
  foldM (push_byte (S f)) r l = Ok (advance r l).
Proof.
  intros Hok Hl. apply (foldM_advance _ (λ r l, (length (in_progress r) + length l ≤ 3)%nat)); auto.
  clear. intros r b l Hl Hok. simpl in Hl. rewrite push_byte_short by (done || lia). split; [done|].
  pose proof (advance_length r [b]). simpl in *. lia.
Qed.

(** The fourth byte: accept the header, or replay the other three. *)
Lemma push_byte_header f r b :
  reader_ok r → length (in_progress r) = 3%nat → push_byte (S (S f)) r b = Ok (advance r [b]).
Proof.
  intros Hok Hl. destruct (residual_inv _ (proj1 Hok)) as [Hip|(Hd & [[_ Hn]|(n & _ & ?)])];
    [by rewrite Hip in Hl| |lia].
  destruct Hok as [Hr He]. destruct r as [ip e fs]. cbn in Hl, Hd, Hr, He, Hn. subst e.
  destruct ip as [|d [|lo [|hi [|]]]]; try discriminate. injection Hd as ->.
  replace (push_byte (S (S f)) _ b) with
    (if negb (header_valid lo hi b) then foldM (push_byte (S f)) (mkFrameReader [] None fs) [lo; hi; b]
     else Ok (mkFrameReader [FRAME_DELIMITER; lo; hi; b] (Some (Z.to_nat (le_decode [lo; hi]))) fs))
    by reflexivity.
  unfold advance. cbn [in_progress completed app].
  assert (Hh : header_len [FRAME_DELIMITER; lo; hi; b] =
    if header_valid lo hi b then Some (Z.to_nat (le_decode [lo; hi])) else None) by done.
  destruct (header_valid lo hi b) eqn:Hv; cbn [negb].
  - pose proof (header_valid_bounds _ _ _ Hv) as [? _].
    rewrite (scan_partial _ _ Hh) by (simpl length; lia). by rewrite Hh, app_nil_r.
  - rewrite push_short by (done || simpl; lia). unfold advance. cbn [in_progress completed app].
    rewrite (scan_cons FRAME_DELIMITER), Hh. done.
Qed.

(** Past the header: buffer up to the announced length. *)
Lemma push_byte_body f r b n :
  reader_ok r → header_len (in_progress r) = Some n → push_byte (S f) r b = Ok (advance r [b]).
Proof.
  intros Hok Hn. destruct (residual_inv _ (proj1 Hok)) as [Hip|(Hd & [[_ ?]|(n' & Hn' & Hl)])];
    [by rewrite Hip in Hn|congruence|].
  rewrite Hn in Hn'. injection Hn' as <-. destruct Hok as [Hr He]. cbn [push_byte].
  destruct r as [ip e fs]. cbn in *. rewrite He, Hn. rewrite decide_False by (by intros ->).
  pose proof (header_len_app ip [b] (proj1 Hl)) as Hh. rewrite Hn in Hh.
  unfold advance. cbn [in_progress completed]. case_decide as Hw.
  - assert (Hlen : length (ip ++ [b]) = n) by (rewrite length_app in *; simpl in *; lia).
    rewrite decide_True by done. rewrite (scan_complete _ _ Hh) by lia.
    rewrite take_ge, drop_ge by lia. done.
  - rewrite (scan_partial _ _ Hh) by lia. by rewrite Hh, app_nil_r.
Qed.

Lemma push_byte_ok f r b : reader_ok r → push_byte (S (S f)) r b = Ok (advance r [b]).
Proof.
  intros Hok. destruct (residual_inv _ (proj1 Hok)) as [Hip|(Hd & [[? Hn]|(n & Hn & Hl)])].
  - by apply push_byte_idle.
  - destruct (decide (length (in_progress r) = 3%nat)); [by apply push_byte_header|].
    apply push_byte_short; [done|lia].
  - by eapply push_byte_body.
Qed.

Lemma push_ok r data : reader_ok r → push r data = Ok (advance r data).
Proof.
  intros Hok. apply (foldM_advance _ (λ _ _, True)); [|done..].
  intros r' b l _ Hr. split; [exact (push_byte_ok 0 r' b Hr)|done].
Qed.

Lemma reader_ok_new : reader_ok FrameReader_new.
Proof. done. Qed.

Lemma scan_cut s : cut s (scan s).1 (scan s).2.
Proof.
  remember (length s) as m eqn:Hm. revert s Hm.
  induction (lt_wf m) as [m _ IH]; intros [|d t] ->; [constructor|]. rewrite scan_cons.
  assert (IHt : cut t (scan t).1 (scan t).2) by (apply (IH (length t)); simpl; lia).
  destruct (negb _); [by constructor|]. case_decide; [constructor|].
  destruct (header_len _) as [n|] eqn:Hn; [|by constructor]. case_decide as Hl; [|constructor].
  apply header_len_Some in Hn as Hn'. destruct Hn' as (_ & H18 & _). cbn [fst snd].
  rewrite <-(take_drop n (d :: t)) at 1. constructor.
  - unfold delimited. rewrite <-(take_drop n (d :: t)), header_len_app in Hn
      by (rewrite length_take; lia). rewrite Hn, length_take. f_equal. lia.
  - apply (IH (length (drop n (d :: t)))); [rewrite length_drop; simpl; lia|done].
Qed.

Lemma cut_delimited s fs rest : cut s fs rest → Forall delimited fs.
Proof. induction 1; [constructor|done|by constructor]. Qed.

Lemma scan_skip j s : FRAME_DELIMITER ∉ j → scan (j ++ s) = scan s.
Proof.
  induction j as [|d j IH]; [done|]. intros [Hd Hj]%not_elem_of_cons. cbn [app]. rewrite scan_cons.
  destruct (d =? FRAME_DELIMITER) eqn:E; [by apply Z.eqb_eq in E|]. by apply IH.
Qed.

Lemma scan_delimited f s : delimited f → scan (f ++ s) = (f :: (scan s).1, (scan s).2).
Proof.
  intros Hf. apply header_len_Some in Hf as Hf'. destruct Hf' as (_ & _ & _ & H4).
  rewrite (scan_complete _ (length f)).
  - by rewrite take_app_length, drop_app_length.
  - by rewrite header_len_app.
  - rewrite length_app. lia.
Qed.

Lemma scan_interleave js fs :
  length js = length fs → Forall (λ j, FRAME_DELIMITER ∉ j) js → Forall delimited fs →
  scan (interleave js fs) = (fs, []).
Proof.
  revert fs. induction js as [|j js IH]; intros [|f fs] Hl Hj Hf; try discriminate; [done|].
  inversion_clear Hj as [|?? Hj1 Hj2]. inversion_clear Hf as [|?? Hf1 Hf2].
  cbn [interleave]. rewrite scan_skip, scan_delimited, IH by (done || (simpl in Hl; lia)). done.
Qed.

Lemma push_chunks r chunks :
  reader_ok r → foldM push r chunks = Ok (advance r (concat chunks)).
Proof. intros. unfold push. rewrite foldM_concat. by apply push_ok. Qed.

(** A frame of the builder within the reader's bounds is delimited. *)
Lemma l1_header_len n local dest ctrl rest :
  (18 ≤ n)%nat → Z.of_nat n <= 2048 → header_len (l1_header n local dest ctrl ++ rest) = Some n.
Proof.
  intros H1 H2. unfold l1_header. cbn [app header_len].
  assert (Hd : le_decode [lo8 (Z.of_nat n); hi8 (Z.of_nat n)] = Z.of_nat n).
  { rewrite <-le_encode_2. apply le_decode_encode. change (256 ^ Z.of_nat 2) with 65536. lia. }
  assert (Hv : header_valid (lo8 (Z.of_nat n)) (hi8 (Z.of_nat n))
    (Z.lxor (Z.lxor FRAME_DELIMITER (lo8 (Z.of_nat n))) (hi8 (Z.of_nat n))) = true).
  { unfold header_valid. rewrite Hd, !Z.eqb_refl. unfold MIN_FRAME_LEN, MAX_FRAME_LEN. zlia. }
  rewrite Hv, Hd, Z.eqb_refl. cbn [andb]. by rewrite Nat2Z.id.
Qed.

Lemma build_delimited fb : builder_ok fb → zlen (build fb) <= 2048 → delimited (build fb).
Proof.
  intros Hok Hlen. pose proof (build_length fb Hok) as Hl. unfold delimited. rewrite Hl in *.
  unfold build, build_l1_only, build_l2_wrapped. destruct (fb_kind fb).
  - apply l1_header_len; lia.
  - fold (fcs_trailer (fb_payload fb)). rewrite l1_header_len; [f_equal; lia|lia|lia].
Qed.

Lemma delimited_bounds f :
  delimited f → head f = Some FRAME_DELIMITER ∧ (18 ≤ length f)%nat ∧ zlen f <= 2048.
Proof. by intros (?&?&?&_)%header_len_Some. Qed.

Lemma interleave_nil fs : interleave (replicate (length fs) []) fs = concat fs.
Proof. induction fs as [|f fs IH]; [done|]. cbn. by rewrite IH. Qed.

(* ------------------------------------------------------------------ *)
(** ** Properties                                                      *)
(* ------------------------------------------------------------------ *)

(** C3. Feeding bytes to the reader in any legal state neither panics (the
    resync recursion is at most two deep, the [debug_assert] holds, no index is
    out of range) nor loses anything: it delivers exactly the frames that the
    whole-stream specification cuts off the kept bytes followed by the new
    ones, keeps the specification's residue, and ends in a legal state. *)
Theorem push_refines_scan r data :
  reader_ok r →
  ∃ r', push r data = Ok r' ∧ reader_ok r' ∧
    completed r' = completed r ++ (scan (in_progress r ++ data)).1 ∧
    in_progress r' = (scan (in_progress r ++ data)).2.
Proof.
  intros Hok. exists (advance r data). rewrite push_ok by done.
  split; [done|]. split; [apply advance_ok|]. unfold advance. by destruct (scan _).
Qed.

(** Whatever arrives, in whatever chunks, the reader invents nothing: the
    stream is a sequence of skipped bytes and the delivered frames in order,
    followed by the kept bytes; every delivered frame starts with the
    delimiter, has a valid header, the length it announces, and between 18 and
    2048 bytes; fewer than 2048 bytes are kept. *)
Theorem reader_sound chunks r :
  foldM push FrameReader_new chunks = Ok r →
  cut (concat chunks) (completed r) (in_progress r) ∧
  Forall (λ f, delimited f ∧ head f = Some FRAME_DELIMITER ∧ 18 <= zlen f <= 2048) (completed r) ∧
  zlen (in_progress r) < 2048.
Proof.
  rewrite push_chunks by apply reader_ok_new. intros [= <-].
  pose proof (advance_ok FrameReader_new (concat chunks)) as [Hres _].
  assert (Hcut : cut (concat chunks) (completed (advance FrameReader_new (concat chunks)))
    (in_progress (advance FrameReader_new (concat chunks)))).
  { unfold advance. cbn [FrameReader_new in_progress completed app].
    pose proof (scan_cut (concat chunks)). by destruct (scan _). }
  split; [done|]. split.
  - eapply Forall_impl; [by eapply cut_delimited|]. intros f Hf. split; [done|].
    apply delimited_bounds in Hf. naive_solver lia.
  - apply residual_inv in Hres as [->|(_ & [[? _]|(n & (_&_&?&_)%header_len_Some & ?)])];
      [simpl; lia|lia|lia].
Qed.

(** Nothing is lost either: from a stream of delimited frames, each with
    any delimiter-free junk in front, split into chunks anywhere, the reader
    delivers exactly those frames in order and is idle again. *)
Theorem reader_complete js fs chunks :
  length js = length fs → Forall (λ j, FRAME_DELIMITER ∉ j) js → Forall delimited fs →
  concat chunks = interleave js fs →
  foldM push FrameReader_new chunks = Ok (mkFrameReader [] None fs).
Proof.
  intros Hl Hj Hf Hc. rewrite push_chunks, Hc by apply reader_ok_new. unfold advance.
  cbn [FrameReader_new in_progress completed app]. by rewrite scan_interleave.
Qed.

(** C14. End to end: frames serialized by the builder (at most 2048 bytes),
    concatenated and cut into chunks anywhere, come out of the reader in order
    and parse to what was built, although L1 frames have no end delimiter. *)
Theorem built_frames_survive_the_stream fbs chunks :
  Forall (λ fb, builder_ok fb ∧ payload_fits_kind fb ∧ zlen (build fb) <= 2048) fbs →
  concat chunks = concat (map build fbs) →
  ∃ r, foldM push FrameReader_new chunks = Ok r ∧
    map parse (completed r) = map (λ fb, Ok (built_frame fb)) fbs.
Proof.
  intros Hall Hc. eexists. rewrite push_chunks, Hc by apply reader_ok_new. split; [reflexivity|].
  unfold advance. cbn [FrameReader_new in_progress completed app].
  rewrite <-interleave_nil, scan_interleave; cbn [completed].
  - rewrite map_map. apply map_ext_Forall. eapply Forall_impl; [exact Hall|].
    intros fb (Hok & Hp & Hlen). rewrite parse_build by done. by destruct (_ <? _) eqn:?; [|zlia].
  - by rewrite length_replicate.
  - apply Forall_replicate, not_elem_of_nil.
  - apply Forall_map. eapply Forall_impl; [exact Hall|]. intros fb (Hok & _ & Hlen). by apply build_delimited.
Qed.

(* ------------------------------------------------------------------ *)
(** ** Witnesses                                                       *)
(* ------------------------------------------------------------------ *)

(** The tests of the source: a false start in front of a real frame. *)
Definition false_start : list Z := [126; 0; 0; 255].

Example resync_finds_the_frame :
  push FrameReader_new (false_start ++ build sample_l1) = Ok (mkFrameReader [] None [build sample_l1]).
Proof. vm_compute. reflexivity. Qed.

Lemma push_refines_scan_witness :
  ∃ r', push FrameReader_new (false_start ++ build sample_l1) = Ok r' ∧ completed r' = [build sample_l1].
Proof.
  destruct (push_refines_scan FrameReader_new (false_start ++ build sample_l1)) as (r' & H & _ & Hc & _).
  - split; reflexivity.
  - exists r'. split; [exact H|]. rewrite Hc. vm_compute. reflexivity.
Defined.

Lemma reader_sound_witness : cut (build sample_l1) [build sample_l1] [].
Proof.
  exact (proj1 (reader_sound [build sample_l1] (mkFrameReader [] None [build sample_l1])
    ltac:(vm_compute; reflexivity))).
Defined.

Lemma reader_complete_witness :
  foldM push FrameReader_new [[0; 17]; build sample_l1 ++ take 7 (build sample_l2); drop 7 (build sample_l2)]
  = Ok (mkFrameReader [] None [build sample_l1; build sample_l2]).
Proof.
  apply (reader_complete [[0; 17]; []] [build sample_l1; build sample_l2]).
  - reflexivity.
  - by_decide.
  - unfold delimited. by_decide.
  - vm_compute. reflexivity.
Defined.

Lemma built_frames_survive_the_stream_witness :
  ∃ r, foldM push FrameReader_new [build sample_l1; build sample_l2] = Ok r ∧
    map parse (completed r) = [Ok (built_frame sample_l1); Ok (built_frame sample_l2)].
Proof.
  apply (built_frames_survive_the_stream [sample_l1; sample_l2]); [by_decide|reflexivity].
Defined.
