(* ===== verification/Transport.v ===== *)
(** * Transports (crates/bluez-transport/src/lib.rs, mock.rs, rfcomm.rs)

    The [Transport] trait as a class, the laws its implementations promise to
    the session ([TransportLaws]: a log of what was sent and the queue of
    frames still to be received), and the two implementations: the scripted
    [MockTransport] and the RFCOMM socket, whose kernel side is a script of
    answers to [send] and [recv]. *)
From S2P Require Import Prelude Constants Fcs Frame Framer.

Local Open Scope Z_scope.

(* ------------------------------------------------------------------ *)
(** ** The trait                                                       *)
(* ------------------------------------------------------------------ *)

Inductive TransportError : Type :=
  | Io (errno : Z)
  | Closed
  | Timeout (timeout_ms : Z)
  | MockExhausted.

#[export] Instance TransportError_eq_dec : EqDecision TransportError.
Proof. solve_decision. Defined.

Class Transport (T : Type) := {
  send_frame : list Z → prog T TransportError Z;
  recv_frame : Z → prog T TransportError (list Z);
  close_transport : prog T TransportError ()
}.

(** What a transport promises: it never panics; a successful send appends the
    frame to the log and a failed one does not; a successful receive takes the
    next frame of the inbox, a failed one loses none. *)
Class TransportLaws (T : Type) `{Transport T} := {
  sent_log : T → list (list Z);
  inbox : T → list (list Z);
  transport_ok : T → Prop;
  inbox_bytes t : transport_ok t → Forall bytes (inbox t);
  send_law d t : transport_ok t →
    wp (send_frame d) t (λ r t', transport_ok t' ∧ inbox t' = inbox t ∧
      match r with
      | Ok _ => sent_log t' = sent_log t ++ [d]
      | Err _ => sent_log t' = sent_log t
      | Panic => False
      end);
  recv_law ms t : transport_ok t →
    wp (recv_frame ms) t (λ r t', transport_ok t' ∧ sent_log t' = sent_log t ∧
      match r with
      | Ok f => inbox t = f :: inbox t'
      | Err _ => inbox t' = inbox t
      | Panic => False
      end);
  close_law t : transport_ok t →
    wp close_transport t (λ r t', transport_ok t' ∧ sent_log t' = sent_log t ∧
      inbox t' = inbox t ∧ r ≠ Panic)
}.

(** A transport in good health: sends succeed and queued frames arrive. *)
Class TransportLive (T : Type) `{TransportLaws T} := {
  alive : T → Prop;
  send_live d t : transport_ok t → alive t →
    wp (send_frame d) t (λ r t', alive t' ∧ ∃ n, r = Ok n);
  recv_live ms t : transport_ok t → alive t →
    wp (recv_frame ms) t (λ r t', alive t' ∧
      match inbox t with [] => ∃ e, r = Err e | f :: _ => r = Ok f end)
}.

(* ------------------------------------------------------------------ *)
(** ** The mock                                                        *)
(* ------------------------------------------------------------------ *)

Module Mock.

Record MockTransport : Type := mkMock {
  replies : list (list Z);
  sent : list (list Z);
  closed : bool
}.

Definition new : MockTransport := mkMock [] [] false.
Definition queue_reply (frame : list Z) (t : MockTransport) : MockTransport :=
  mkMock (replies t ++ [frame]) (sent t) (closed t).
Definition queue_replies (iter : list (list Z)) (t : MockTransport) : MockTransport :=
  foldl (λ t f, queue_reply f t) t iter.
Definition sent_frames (t : MockTransport) : list (list Z) := sent t.

Definition mock_send (data : list Z) : prog MockTransport TransportError Z := λ t,
  if closed t then (Err Closed, t)
  else (Ok (zlen data), mkMock (replies t) (sent t ++ [data]) (closed t)).

Definition mock_recv (_timeout_ms : Z) : prog MockTransport TransportError (list Z) := λ t,
  if closed t then (Err Closed, t)
  else match replies t with
       | [] => (Err MockExhausted, t)
       | f :: fs => (Ok f, mkMock fs (sent t) (closed t))
       end.

Definition mock_close : prog MockTransport TransportError () := λ t,
  (Ok (), mkMock (replies t) (sent t) true).

#[global] Instance mock_transport : Transport MockTransport :=
  {| send_frame := mock_send; recv_frame := mock_recv; close_transport := mock_close |}.

End Mock.

(* ------------------------------------------------------------------ *)
(** ** The RFCOMM socket                                               *)
(* ------------------------------------------------------------------ *)

Module Rfcomm.

(** What the kernel answers to [libc::recv]: [n > 0] bytes, after which the
    clock reads [dt] later; end of stream; or an error.  When the script has
    run out nothing arrives any more, and the [SO_RCVTIMEO] of
    [connect_blocking] makes the call fail with [EAGAIN]. *)
Inductive RecvAnswer : Type :=
  | Chunk (bs : list Z) (dt : Z)
  | Eof
  | RecvErr (errno : Z).

Inductive SendAnswer : Type := SendOk (n : Z) | SendErr (errno : Z).

Definition EAGAIN : Z := 11.

Record RfcommTransport : Type := mkRfcomm {
  fd : option Z;
  reader : FrameReader;
  (* the world *)
  recv_script : list RecvAnswer;
  send_script : list SendAnswer;
  now : Z;
  accepted : list (list Z);       (* buffers a successful [send] was given *)
  closed_fds : list Z             (* [libc::close] calls *)
}.

(** [send_frame] *)
Definition rfcomm_send (data : list Z) : prog RfcommTransport TransportError Z := λ t,
  match fd t with
  | None => (Err Closed, t)
  | Some raw =>
      let '(ans, rest) := match send_script t with [] => (SendOk (zlen data), []) | a :: l => (a, l) end in
      match ans with
      | SendOk n => (Ok n, mkRfcomm (fd t) (reader t) (recv_script t) rest (now t) (accepted t ++ [data]) (closed_fds t))
      | SendErr e => (Err (Io e), mkRfcomm (fd t) (reader t) (recv_script t) rest (now t) (accepted t) (closed_fds t))
      end
  end.

(** The loop of [recv_frame], one round per answer of the kernel. *)
Fixpoint recv_loop (timeout_ms : Z) (deadline : option Z) (script : list RecvAnswer) :
    prog RfcommTransport TransportError (list Z) := λ t,
  let leave r clock rest := mkRfcomm (fd t) r rest (send_script t) clock (accepted t) (closed_fds t) in
  match fd t with
  | None => (Err Closed, t)
  | Some raw =>
      match script with
      | [] => (Err (Io EAGAIN), leave (reader t) (now t) [])
      | RecvErr e :: script => (Err (Io e), leave (reader t) (now t) script)
      | Eof :: script => (Err Closed, leave (reader t) (now t) script)
      | Chunk bs dt :: script =>
          match push (reader t) bs with
          | Ok r =>
              match pop_frame r with
              | (Some f, r) => (Ok f, leave r (now t + dt) script)
              | (None, r) =>
                  let t := leave r (now t + dt) script in
                  match deadline with
                  | Some d => if d <? now t then (Err (Timeout timeout_ms), t)
                              else recv_loop timeout_ms deadline script t
                  | None => recv_loop timeout_ms deadline script t
                  end
              end
          | _ => (Panic, t)
          end
      end
  end.

(** [recv_frame] *)
Definition rfcomm_recv (timeout_ms : Z) : prog RfcommTransport TransportError (list Z) := λ t,
  match pop_frame (reader t) with
  | (Some f, r) => (Ok f, mkRfcomm (fd t) r (recv_script t) (send_script t) (now t) (accepted t) (closed_fds t))
  | (None, _) =>
      let deadline := if 0 <? timeout_ms then Some (now t + timeout_ms) else None in
      recv_loop timeout_ms deadline (recv_script t) t
  end.

(** [close]: [take] the descriptor, close it when there is one. *)
Definition rfcomm_close : prog RfcommTransport TransportError () := λ t,
  (Ok (), mkRfcomm None (reader t) (recv_script t) (send_script t) (now t) (accepted t)
            (match fd t with Some raw => closed_fds t ++ [raw] | None => closed_fds t end)).

#[global] Instance rfcomm_transport : Transport RfcommTransport :=
  {| send_frame := rfcomm_send; recv_frame := rfcomm_recv; close_transport := rfcomm_close |}.

(** *** Connecting *)

(** Return values of the system calls of [connect_blocking] ([os_errno] is
    what [last_os_error] reads after a failed one). *)
Record OsAnswers : Type := mkOs {
  os_socket : Z; os_bind : Z; os_connect : Z; os_setsockopt : Z; os_errno : Z
}.

Inductive Sys : Type :=
  | SysSocket
  | SysBind (fd : Z) (bdaddr : list Z) (channel : Z)
  | SysConnect (fd : Z) (bdaddr : list Z) (channel : Z)
  | SysSetRecvTimeout (fd : Z) (secs : Z)
  | SysClose (fd : Z).

(** [connect_blocking]: result and system calls in order; [script], [sends]
    and [clock] are the world behind the new socket. *)
Definition connect_blocking (os : OsAnswers) (remote_mac : list Z) (local_mac : option (list Z))
    (script : list RecvAnswer) (sends : list SendAnswer) (clock : Z) :
    outcome TransportError RfcommTransport * list Sys :=
  let fd := os_socket os in
  if fd <? 0 then (Err (Io (os_errno os)), [SysSocket]) else
  let bound := match local_mac with
               | Some local => ([SysBind fd local 1], os_bind os <? 0)
               | None => ([], false)
               end in
  if bound.2 then (Err (Io (os_errno os)), SysSocket :: bound.1 ++ [SysClose fd]) else
  if os_connect os <? 0 then
    (Err (Io (os_errno os)), SysSocket :: bound.1 ++ [SysConnect fd remote_mac 1; SysClose fd])
  else
    (Ok (mkRfcomm (Some fd) FrameReader_new script sends clock [] []),
     SysSocket :: bound.1 ++ [SysConnect fd remote_mac 1; SysSetRecvTimeout fd 15]).

End Rfcomm.

(* ------------------------------------------------------------------ *)
(** ** Device addresses                                                *)
(* ------------------------------------------------------------------ *)

Module Mac.

(** [str::split] on one character; strings are their bytes. *)
Fixpoint split_on (sep : Z) (s : list Z) : list (list Z) :=
  match s with
  | [] => [[]]
  | c :: s =>
      if c =? sep then [] :: split_on sep s
      else match split_on sep s with
           | p :: ps => (c :: p) :: ps
           | [] => [[c]]
           end
  end.

Definition hex_value (c : Z) : option Z :=
  if (48 <=? c) && (c <=? 57) then Some (c - 48)
  else if (65 <=? c) && (c <=? 70) then Some (c - 55)
  else if (97 <=? c) && (c <=? 102) then Some (c - 87)
  else None.

(** [u8::from_str_radix(_, 16)]: an optional plus sign, at least one digit,
    no overflow. *)
Definition u8_from_hex (s : list Z) : option Z :=
  let digits := match s with 43 :: (_ :: _) as r => drop 1 s | _ => s end in
  match digits with
  | [] => None
  | _ => foldl (λ acc c, a ← acc; d ← hex_value c;
                  if a * 16 + d <? 256 then Some (a * 16 + d) else None) (Some 0) digits
  end.

(** The loop of [parse_bt_mac]: [out[5 - i] = ..]. *)
Fixpoint mac_fill (i : nat) (parts : list (list Z)) (out : list Z) : option (list Z) :=
  match parts with
  | [] => Some out
  | p :: parts => b ← u8_from_hex p; mac_fill (S i) parts (<[(5 - i)%nat := b]> out)
  end.

(** [parse_bt_mac] *)
Definition parse_bt_mac (s : list Z) : option (list Z) :=
  let parts := split_on 58 s in
  if decide (length parts = 6%nat) then mac_fill 0 parts (replicate 6 0) else None.

(** [{:02X}] *)
Definition hex_upper (d : Z) : Z := if d <? 10 then 48 + d else 55 + d.
Definition hex_02X (b : Z) : list Z := [hex_upper (b / 16); hex_upper (b mod 16)].

(** [format_bt_mac] *)
Definition format_bt_mac (addr : list Z) : list Z :=
  let at_ i := hex_02X (default 0 (addr !! i)) in
  at_ 5%nat ++ [58] ++ at_ 4%nat ++ [58] ++ at_ 3%nat ++ [58] ++ at_ 2%nat ++ [58]
  ++ at_ 1%nat ++ [58] ++ at_ 0%nat.

End Mac.

(* ------------------------------------------------------------------ *)
(** ** Lemmas: the mock keeps the laws                                 *)
(* ------------------------------------------------------------------ *)

Definition mock_ok (t : Mock.MockTransport) : Prop := Forall bytes (Mock.replies t).

#[export] Program Instance mock_laws : TransportLaws Mock.MockTransport := {|
  sent_log := Mock.sent;
  inbox := Mock.replies;
  transport_ok := mock_ok
|}.
Next Obligation. done. Qed.
Next Obligation.
  intros d t Hok. unfold wp, send_frame; cbn. unfold Mock.mock_send. destruct (Mock.closed t); done.
Qed.
Next Obligation.
  intros ms t Hok. unfold wp, recv_frame; cbn. unfold Mock.mock_recv, mock_ok in *.
  destruct (Mock.closed t); [done|]. destruct t as [[|f fs] s c]; cbn in *; [done|].
  by apply Forall_cons in Hok as [_ ?].
Qed.
Next Obligation. intros t Hok. unfold wp, close_transport; cbn. done. Qed.

#[export] Program Instance mock_live : TransportLive Mock.MockTransport := {|
  alive t := Mock.closed t = false
|}.
Next Obligation.
  intros d t _ Ha. unfold wp, send_frame; cbn. unfold Mock.mock_send. rewrite Ha. cbn. eauto.
Qed.
Next Obligation.
  intros ms t _ Ha. unfold wp, recv_frame; cbn. unfold Mock.mock_recv. rewrite Ha.
  destruct (Mock.replies t); cbn; eauto.
Qed.

(* ------------------------------------------------------------------ *)
(** ** Lemmas: the socket keeps the laws                               *)
(* ------------------------------------------------------------------ *)

Section rfcomm.
Import Rfcomm.

Definition answer_ok (a : RecvAnswer) : Prop := match a with Chunk bs _ => bytes bs | _ => True end.

Definition chunk_bytes (script : list RecvAnswer) : list Z :=
  script ≫= λ a, match a with Chunk bs _ => bs | _ => [] end.

Definition frames_of (r : FrameReader) (script : list RecvAnswer) : list (list Z) :=
  completed r ++ (scan (in_progress r ++ chunk_bytes script)).1.

Definition rfcomm_ok (t : RfcommTransport) : Prop :=
  reader_ok (reader t) ∧ bytes (in_progress (reader t)) ∧ Forall bytes (completed (reader t)) ∧
  Forall answer_ok (recv_script t).

Lemma cut_bytes s fs rest : cut s fs rest → bytes s → Forall bytes fs ∧ bytes rest.
Proof.
  induction 1 as [s|d s fs rest _ IH|f s fs rest _ _ IH]; intros Hb.
  - by split; [constructor|].
  - apply IH. by apply bytes_cons_inv in Hb as [_ ?].
  - apply bytes_app in Hb as [Hf Hs]. destruct (IH Hs). split; [by constructor|done].
Qed.

Lemma scan_bytes s : bytes s → Forall bytes (scan s).1 ∧ bytes (scan s).2.
Proof. apply cut_bytes, scan_cut. Qed.

Lemma chunk_bytes_ok script : Forall answer_ok script → bytes (chunk_bytes script).
Proof.
  unfold chunk_bytes. induction 1 as [|a script Ha _ IH]; [apply bytes_nil|]. cbn.
  apply bytes_app_2; [|done]. destruct a; [done|apply bytes_nil..].
Qed.

Lemma frames_of_chunk r bs dt script :
  frames_of (advance r bs) script = frames_of r (Chunk bs dt :: script).
Proof.
  unfold frames_of, advance. cbn. rewrite app_assoc, (scan_app (in_progress r ++ bs)).
  destruct (scan (in_progress r ++ bs)) as [fs rest]. cbn. by rewrite app_assoc.
Qed.

Lemma advance_bytes r bs :
  bytes (in_progress r) → Forall bytes (completed r) → bytes bs →
  bytes (in_progress (advance r bs)) ∧ Forall bytes (completed (advance r bs)).
Proof.
  intros Hi Hc Hb. unfold advance.
  destruct (scan_bytes (in_progress r ++ bs)) as [H1 H2]; [by apply bytes_app_2|].
  destruct (scan _) as [fs rest]. cbn in *. split; [done|]. by apply Forall_app.
Qed.

Definition recv_post (t : RfcommTransport) (r : outcome TransportError (list Z)) (t' : RfcommTransport) : Prop :=
  rfcomm_ok t' ∧ accepted t' = accepted t ∧
  match r with
  | Ok f => frames_of (reader t) (recv_script t) = f :: frames_of (reader t') (recv_script t')
  | Err _ => frames_of (reader t') (recv_script t') = frames_of (reader t) (recv_script t)
  | Panic => False
  end.

Lemma recv_loop_ok ms deadline script t :
  rfcomm_ok t → completed (reader t) = [] → recv_script t = script →
  wp (recv_loop ms deadline script) t (recv_post t).
Proof.
  revert t. induction script as [|a script IH]; intros t Hok Hc Hs; unfold wp; cbn [recv_loop].
  - destruct (fd t); [|by split]. unfold recv_post. cbn. rewrite Hs. destruct Hok as (?&?&?&?).
    split; [|done]. unfold rfcomm_ok. cbn. auto using Forall_nil_2.
  - destruct (fd t) as [raw|] eqn:Hfd; [|by split]. pose proof Hok as (Hr & Hi & Hcb & Ha).
    rewrite Hs in Ha. apply Forall_cons in Ha as [Ha Has].
    assert (Hleave : ∀ r clock, reader_ok r → bytes (in_progress r) → Forall bytes (completed r) →
      rfcomm_ok (mkRfcomm (fd t) r script (send_script t) clock (accepted t) (closed_fds t)))
      by (intros; unfold rfcomm_ok; cbn; auto).
    destruct a as [bs dt| |e].
    + rewrite push_ok by done. destruct (advance_bytes _ bs Hi Hcb Ha) as [Hi' Hc'].
      pose proof (advance_ok (reader t) bs) as Hr'.
      pose proof (frames_of_chunk (reader t) bs dt script) as Hf. rewrite <-Hs in Hf.
      unfold pop_frame. destruct (completed (advance (reader t) bs)) as [|f fs] eqn:Hfs.
      * rewrite Hfd in Hleave.
        assert (Hgo : wp (recv_loop ms deadline script)
          (mkRfcomm (Some raw) (advance (reader t) bs) script (send_script t) (now t + dt) (accepted t) (closed_fds t))
          (recv_post t)).
        { eapply wp_mono; [apply IH; [by apply Hleave; rewrite ?Hfs|done|done]|].
          unfold recv_post. cbn. intros r t' (? & ? & H). rewrite Hf in H. auto. }
        destruct deadline as [d|]; [|exact Hgo]. cbn. case_match; [|exact Hgo].
        unfold recv_post. cbn. split; [|split; [done|exact Hf]]. apply Hleave; rewrite ?Hfs; done.
      * unfold recv_post. cbn. rewrite Hfd in Hleave. split; [|split; [done|]].
        -- apply Forall_cons in Hc' as [_ Hc']. by apply Hleave.
        -- rewrite <-Hf. unfold frames_of. by rewrite Hfs.
    + unfold recv_post. cbn. rewrite Hs, <-Hfd. split; [by apply Hleave|done].
    + unfold recv_post. cbn. rewrite Hs, <-Hfd. split; [by apply Hleave|done].
Qed.

#[export] Program Instance rfcomm_laws : TransportLaws RfcommTransport := {|
  sent_log := accepted;
  inbox t := frames_of (reader t) (recv_script t);
  transport_ok := rfcomm_ok
|}.
Next Obligation.
  intros t (Hr & Hi & Hc & Ha). unfold frames_of. apply Forall_app. split; [done|].
  apply scan_bytes, bytes_app_2; [done|by apply chunk_bytes_ok].
Qed.
Next Obligation.
  intros d t Hok. unfold wp, send_frame; cbn. unfold rfcomm_send.
  destruct (fd t); [|done]. by destruct (send_script t) as [|[]].
Qed.
Next Obligation.
  intros ms t Hok. unfold wp, recv_frame; cbn. unfold rfcomm_recv, pop_frame.
  destruct (completed (reader t)) as [|f fs] eqn:Hc.
  - apply recv_loop_ok; done.
  - cbn. destruct Hok as (Hr & Hi & Hcb & Ha). rewrite Hc in Hcb. apply Forall_cons in Hcb as [? ?].
    unfold frames_of. rewrite Hc. done.
Qed.
Next Obligation. intros t Hok. unfold wp, close_transport; cbn. done. Qed.

End rfcomm.

(* ------------------------------------------------------------------ *)
(** ** Lemmas: any transport                                           *)
(* ------------------------------------------------------------------ *)

(** Successive [recv_frame] calls: the frames they returned, and the state. *)
Fixpoint recv_all `{Transport T} (timeouts : list Z) (t : T) : list (list Z) * T :=
  match timeouts with
  | [] => ([], t)
  | ms :: timeouts =>
      let '(r, t) := recv_frame ms t in
      let '(fs, t) := recv_all timeouts t in
      (match r with Ok f => f :: fs | _ => fs end, t)
  end.

Lemma recv_all_inbox `{TransportLaws T} timeouts t :
  transport_ok t →
  transport_ok (recv_all timeouts t).2 ∧ (recv_all timeouts t).1 ++ inbox (recv_all timeouts t).2 = inbox t.
Proof.
  revert t. induction timeouts as [|ms l IH]; intros t Hok; [done|]. cbn [recv_all].
  pose proof (recv_law ms t Hok) as Hr. unfold wp in Hr. destruct (recv_frame ms t) as [r t1].
  cbn in Hr. destruct Hr as (Hok1 & _ & Hr). destruct (IH t1 Hok1) as [Hok2 Hf].
  destruct (recv_all l t1) as [fs t2]. cbn in *. split; [done|].
  destruct r as [f|e|]; [|by rewrite Hf|done]. by rewrite Hr, <-Hf.
Qed.

(* ------------------------------------------------------------------ *)
(** ** Lemmas: addresses                                               *)
(* ------------------------------------------------------------------ *)

Section mac.
Import Mac.

(** One byte printed with two digits: it reads back, and holds no colon. *)
Lemma hex_02X_spec b :
  is_u8 b → u8_from_hex (hex_02X b) = Some b ∧ (58 ∉ hex_02X b) ∧ length (hex_02X b) = 2%nat.
Proof.
  intros Hb. apply (proj1 (bool_decide_eq_true _)). revert b Hb.
  apply byte_forall. vm_compute. reflexivity.
Qed.

Lemma split_on_no_sep sep p : sep ∉ p → split_on sep p = [p].
Proof.
  induction p as [|c p IH]; [done|]. intros [Hc Hp]%not_elem_of_cons. cbn.
  rewrite (proj2 (Z.eqb_neq c sep)) by congruence. by rewrite IH.
Qed.

Lemma split_on_app sep p s : sep ∉ p → split_on sep (p ++ sep :: s) = p :: split_on sep s.
Proof.
  induction p as [|c p IH]; intros Hp; cbn; [by rewrite Z.eqb_refl|].
  apply not_elem_of_cons in Hp as [Hc Hp].
  rewrite (proj2 (Z.eqb_neq c sep)) by congruence. by rewrite IH.
Qed.

Lemma hex_value_bound c d : hex_value c = Some d → 0 <= d < 16.
Proof. unfold hex_value. repeat case_match; intros; simplify_eq; zlia. Qed.

Lemma u8_from_hex_u8 s b : u8_from_hex s = Some b → is_u8 b.
Proof.
  unfold u8_from_hex. generalize (match s with 43 :: (_ :: _) as r => drop 1 s | _ => s end).
  intros [|c l]; [done|]. generalize (c :: l). clear.
  intros l. assert (H0 : ∀ z, Some 0 = Some z → is_u8 z) by (intros ? [= <-]; lia).
  revert H0. generalize (Some 0). induction l as [|c l IH]; intros acc Hacc; cbn [foldl]; [auto|].
  apply IH. intros z. destruct acc as [a|]; [|done]. cbn. specialize (Hacc a eq_refl).
  destruct (hex_value c) as [d|] eqn:Hd; [|done]. cbn. apply hex_value_bound in Hd.
  case_match; intros; simplify_eq; zlia.
Qed.

Lemma mac_fill_ok i parts out a :
  mac_fill i parts out = Some a → bytes out → bytes a ∧ length a = length out.
Proof.
  revert i out. induction parts as [|p parts IH]; intros i out; cbn; [by intros [= <-]|].
  destruct (u8_from_hex p) as [b|] eqn:Hb; [|done]. cbn. intros Hf Hout.
  apply IH in Hf as [? Hl].
  - split; [done|]. by rewrite Hl, length_insert.
  - apply Forall_insert; [done|]. by eapply u8_from_hex_u8.
Qed.

Lemma parse_bt_mac_ok s a : parse_bt_mac s = Some a → addr_ok a.
Proof.
  unfold parse_bt_mac. case_decide; [|done]. intros Hf.
  apply mac_fill_ok in Hf as [? Hl]; [by split|by_decide].
Qed.

Lemma parse_format_mac a : addr_ok a → parse_bt_mac (format_bt_mac a) = Some a.
Proof.
  intros Ha. pose proof Ha as [_ Hb].
  apply addr_open in Ha as (a0 & a1 & a2 & a3 & a4 & a5 & ->).
  unfold bytes in Hb. rewrite !Forall_cons in Hb. destruct Hb as (H0 & H1 & H2 & H3 & H4 & H5 & _).
  destruct (hex_02X_spec _ H0) as (E0 & N0 & _), (hex_02X_spec _ H1) as (E1 & N1 & _),
    (hex_02X_spec _ H2) as (E2 & N2 & _), (hex_02X_spec _ H3) as (E3 & N3 & _),
    (hex_02X_spec _ H4) as (E4 & N4 & _), (hex_02X_spec _ H5) as (E5 & N5 & _).
  unfold parse_bt_mac, format_bt_mac. cbn [lookup list_lookup default from_option id].
  cbn [app]. rewrite !split_on_app, split_on_no_sep by done. rewrite decide_True by done.
  cbn [mac_fill]. rewrite E5; cbn [mbind option_bind]. rewrite E4; cbn [mbind option_bind].
  rewrite E3; cbn [mbind option_bind]. rewrite E2; cbn [mbind option_bind].
  rewrite E1; cbn [mbind option_bind]. rewrite E0; cbn [mbind option_bind]. done.
Qed.

End mac.

(* ------------------------------------------------------------------ *)
(** ** Lemmas: connecting                                              *)
(* ------------------------------------------------------------------ *)

Lemma connect_Ok os remote local script sends clock t tr :
  Rfcomm.connect_blocking os remote local script sends clock = (Ok t, tr) →
  t = Rfcomm.mkRfcomm (Some (Rfcomm.os_socket os)) FrameReader_new script sends clock [] [] ∧
  Rfcomm.SysConnect (Rfcomm.os_socket os) remote 1 ∈ tr ∧ ∀ d, Rfcomm.SysClose d ∉ tr.
Proof.
  unfold Rfcomm.connect_blocking. intros Hc. destruct (Rfcomm.os_socket os <? 0); [done|].
  destruct local as [l|]; cbn in Hc; [destruct (Rfcomm.os_bind os <? 0); [done|]|];
    (destruct (Rfcomm.os_connect os <? 0); [done|]); injection Hc as <- <-;
    (split; [done|]); (split; [list_in|]); intros d; list_not_in.
Qed.

Lemma fresh_ok sock script sends clock :
  Forall answer_ok script →
  transport_ok (Rfcomm.mkRfcomm (Some sock) FrameReader_new script sends clock [] []).
Proof.
  intros. split; [apply reader_ok_new|]. cbn. split; [apply bytes_nil|]. split; [constructor|done].
Qed.

(* ------------------------------------------------------------------ *)
(** ** Properties                                                      *)
(* ------------------------------------------------------------------ *)

(** C19. However the kernel cuts the byte stream and whichever errors, end of
    stream and timeouts come in between, the frames that successive
    [recv_frame] calls on a connected socket return are, in order, the frames
    of the received stream: an error or a timeout loses no byte and no frame,
    and what was not returned yet is still to come. *)
Theorem rfcomm_delivers_stream os remote local script sends clock t tr timeouts :
  Rfcomm.connect_blocking os remote local script sends clock = (Ok t, tr) →
  Forall answer_ok script →
  let '(fs, t') := recv_all timeouts t in
  fs ++ inbox t' = (scan (chunk_bytes script)).1.
Proof.
  intros (-> & _)%connect_Ok Ha.
  pose proof (recv_all_inbox timeouts _ (fresh_ok (Rfcomm.os_socket os) script sends clock Ha)) as Hr.
  destruct (recv_all _ _) as [fs t']. apply Hr.
Qed.

(** [connect_blocking] leaks no descriptor: on every error path after the
    socket was created the descriptor is closed exactly once, as the last
    system call; on success it is the transport's, connected to the remote
    device on channel 1, and not closed. *)
Theorem connect_leaks_no_fd os remote local script sends clock :
  let '(r, tr) := Rfcomm.connect_blocking os remote local script sends clock in
  let sock := Rfcomm.os_socket os in
  match r with
  | Ok t => Rfcomm.fd t = Some sock ∧ Rfcomm.SysConnect sock remote 1 ∈ tr ∧
            (∀ d, Rfcomm.SysClose d ∉ tr)
  | Err e => e = Io (Rfcomm.os_errno os) ∧
             (sock < 0 ∧ tr = [Rfcomm.SysSocket] ∨
              ∃ tr', tr = tr' ++ [Rfcomm.SysClose sock] ∧ ∀ d, Rfcomm.SysClose d ∉ tr')
  | Panic => False
  end.
Proof.
  destruct (Rfcomm.connect_blocking _ _ _ _ _ _) as [[t|e|] tr] eqn:Hc; cbv zeta.
  - apply connect_Ok in Hc as (-> & H & Hcl). done.
  - unfold Rfcomm.connect_blocking in Hc.
    destruct (Rfcomm.os_socket os <? 0) eqn:Hs; [injection Hc as <- <-; split; [done|left; split; [zlia|done]]|].
    destruct local as [l|]; cbn in Hc; [destruct (Rfcomm.os_bind os <? 0);
      [|destruct (Rfcomm.os_connect os <? 0); [|discriminate Hc]]
      |destruct (Rfcomm.os_connect os <? 0); [|discriminate Hc]];
      injection Hc as <- <-; (split; [done|right]).
    + exists [Rfcomm.SysSocket; Rfcomm.SysBind (Rfcomm.os_socket os) l 1]. split; [done|]. intros d; list_not_in.
    + exists [Rfcomm.SysSocket; Rfcomm.SysBind (Rfcomm.os_socket os) l 1; Rfcomm.SysConnect (Rfcomm.os_socket os) remote 1].
      split; [done|]. intros d; list_not_in.
    + exists [Rfcomm.SysSocket; Rfcomm.SysConnect (Rfcomm.os_socket os) remote 1].
      split; [done|]. intros d; list_not_in.
  - unfold Rfcomm.connect_blocking in Hc. repeat case_match; discriminate.
Qed.

(** Every address that parses has six bytes, and formatting an address
    then parsing it gives it back. *)
Theorem mac_roundtrip a s :
  (addr_ok a → Mac.parse_bt_mac (Mac.format_bt_mac a) = Some a) ∧
  (Mac.parse_bt_mac s = Some a → addr_ok a).
Proof. split; [apply parse_format_mac|apply parse_bt_mac_ok]. Qed.

(* ------------------------------------------------------------------ *)
(** ** Witnesses                                                       *)
(* ------------------------------------------------------------------ *)

Definition sample_os : Rfcomm.OsAnswers := Rfcomm.mkOs 7 0 0 0 0.
Definition sample_script : list Rfcomm.RecvAnswer :=
  [Rfcomm.Chunk (take 5 (build sample_l1)) 1; Rfcomm.RecvErr 4; Rfcomm.Chunk (drop 5 (build sample_l1)) 1].

Lemma rfcomm_delivers_stream_witness :
  ∃ t tr, Rfcomm.connect_blocking sample_os (replicate 6 1) None sample_script [] 0 = (Ok t, tr) ∧
    (recv_all [1000; 1000] t).1 ++ inbox (recv_all [1000; 1000] t).2 = [build sample_l1].
Proof.
  eexists _, _. split; [reflexivity|].
  pose proof (rfcomm_delivers_stream sample_os (replicate 6 1) None sample_script [] 0 _ _ [1000; 1000]
    eq_refl) as H.
  assert (Ha : Forall answer_ok sample_script) by (unfold sample_script; repeat constructor; by_decide).
  specialize (H Ha). destruct (recv_all _ _) as [fs t']. exact H.
Defined.

Lemma mac_roundtrip_witness :
  Mac.parse_bt_mac (Mac.format_bt_mac [53; 50; 33; 37; 128; 0]) = Some [53; 50; 33; 37; 128; 0].
Proof. apply (mac_roundtrip [53; 50; 33; 37; 128; 0] []). split; [reflexivity|by_decide]. Defined.
