(* ===== verification/Commands.v ===== *)
(** * Commands and authentication (crates/sma-bt-protocol/src/commands.rs, auth.rs)

    [Module Query]: the query kinds, their opcode table and the two query
    bodies.  [Module Auth]: user groups, the password encoding and the init,
    logoff and logon bodies. *)
From S2P Require Import Prelude Constants Packet.

Local Open Scope Z_scope.

(* ------------------------------------------------------------------ *)
(** ** Definitions                                                     *)
(* ------------------------------------------------------------------ *)

Module Query.

Inductive QueryKind : Type :=
  | SpotAcTotalPower | SpotAcPower | SpotAcVoltage | SpotGridFrequency
  | SpotDcPower | SpotDcVoltage | EnergyProduction | OperationTime
  | InverterTemperature | DeviceStatus | GridRelayStatus | TypeLabel
  | SoftwareVersion | BatteryChargeStatus | BatteryInfo | MeteringGridTotalW
  | SpotCosPhi | MaxFeedInPower | NominalAcPower.

#[export] Instance QueryKind_eq_dec : EqDecision QueryKind.
Proof. solve_decision. Defined.

Definition all_kinds : list QueryKind :=
  [SpotAcTotalPower; SpotAcPower; SpotAcVoltage; SpotGridFrequency; SpotDcPower;
   SpotDcVoltage; EnergyProduction; OperationTime; InverterTemperature; DeviceStatus;
   GridRelayStatus; TypeLabel; SoftwareVersion; BatteryChargeStatus; BatteryInfo;
   MeteringGridTotalW; SpotCosPhi; MaxFeedInPower; NominalAcPower].

(** [QueryKind::opcode]: (command, first LRI, last LRI). *)
Definition opcode (k : QueryKind) : Z * Z * Z :=
  match k with
  | SpotAcTotalPower => (0x51000200, 0x00263F00, 0x00263FFF)
  | SpotAcPower => (0x51000200, 0x00464000, 0x004642FF)
  | SpotAcVoltage => (0x51000200, 0x00464800, 0x004655FF)
  | SpotGridFrequency => (0x51000200, 0x00465700, 0x004657FF)
  | SpotDcPower => (0x53800200, 0x00251E00, 0x00251EFF)
  | SpotDcVoltage => (0x53800200, 0x00451F00, 0x004521FF)
  | EnergyProduction => (0x54000200, 0x00260100, 0x002622FF)
  | OperationTime => (0x54000200, 0x00462E00, 0x00462FFF)
  | InverterTemperature => (0x52000200, 0x00237700, 0x002377FF)
  | DeviceStatus => (0x51800200, 0x00214800, 0x002148FF)
  | GridRelayStatus => (0x51800200, 0x00416400, 0x004164FF)
  | TypeLabel => (0x58000200, 0x00821E00, 0x008220FF)
  | SoftwareVersion => (0x58000200, 0x00823400, 0x008234FF)
  | BatteryChargeStatus => (0x51000200, 0x00295A00, 0x00295AFF)
  | BatteryInfo => (0x51000200, 0x00491E00, 0x00495DFF)
  | MeteringGridTotalW => (0x51000200, 0x00463600, 0x00463669)
  | SpotCosPhi => (0x51000200, 0x00237400, 0x004748FF)
  | MaxFeedInPower => (0x51000200, 0x00411F00, 0x00411F19)
  | NominalAcPower => (0x51000200, 0x00411E00, 0x00411E19)
  end%Z.

(** [build_query_body] *)
Definition build_query_body (kind : QueryKind) (pkt_id app_serial dst_susy_id dst_serial : Z) : list Z :=
  let '(cmd, first, last) := opcode kind in
  let body := le_encode 4 cmd ++ le_encode 4 first ++ le_encode 4 last in
  encode_l2 (hdr_query pkt_id app_serial dst_susy_id dst_serial) body.

(** [build_event_log_body] *)
Definition build_event_log_body (pkt_id app_serial dst_susy_id dst_serial start_unix end_unix : Z) : list Z :=
  let body := le_encode 4 0x70100200 ++ le_encode 4 start_unix ++ le_encode 4 end_unix in
  encode_l2 (hdr_event_log_query pkt_id app_serial dst_susy_id dst_serial) body.

End Query.

Module Auth.

Inductive UserGroup : Type := User | Installer.

#[export] Instance UserGroup_eq_dec : EqDecision UserGroup.
Proof. solve_decision. Defined.

(** [UserGroup::key], [UserGroup::code] *)
Definition key (g : UserGroup) : Z := match g with User => 0x88 | Installer => 0xBB end%Z.
Definition code (g : UserGroup) : Z := match g with User => 7 | Installer => 10 end.

(** The loop of [encode_password]: [out[i] = b.wrapping_add(key)]. *)
Fixpoint fill (key : Z) (i : nat) (bs : list Z) (out : list Z) : list Z :=
  match bs with
  | [] => out
  | b :: bs => fill key (S i) bs (<[i := (b + key) mod 256]> out)
  end.

(** [encode_password]; the password as its bytes. *)
Definition encode_password (pwd : list Z) (group : UserGroup) : list Z :=
  fill (key group) 0 (take 12 pwd) (replicate 12 (key group)).

(** [build_init_body], [build_logoff_body], [build_logon_body] *)
Definition build_init_body (pkt_id app_serial : Z) : list Z :=
  let cmd := le_encode 4 0x200 ++ replicate 4 0 ++ replicate 4 0 in
  encode_l2 (hdr_init pkt_id app_serial) cmd.

Definition build_logoff_body (pkt_id app_serial : Z) : list Z :=
  let cmd := le_encode 4 0xFFFD010E ++ le_encode 4 0xFFFFFFFF in
  encode_l2 (hdr_logoff pkt_id app_serial) cmd.

Definition logon_cmd (pwd : list Z) (group : UserGroup) (now_epoch : Z) : list Z :=
  le_encode 4 0xFFFD040C ++ le_encode 4 (code group) ++ le_encode 4 0x384
  ++ le_encode 4 now_epoch ++ replicate 4 0 ++ encode_password pwd group.

Definition build_logon_body (pwd : list Z) (group : UserGroup) (pkt_id app_serial now_epoch : Z) : list Z :=
  encode_l2 (hdr_logon pkt_id app_serial) (logon_cmd pwd group now_epoch).

End Auth.
Import Query Auth.

(* ------------------------------------------------------------------ *)
(** ** Lemmas                                                          *)
(* ------------------------------------------------------------------ *)

Lemma all_kinds_spec k : k ∈ all_kinds.
Proof. destruct k; by_decide. Qed.

Lemma key_u8 g : is_u8 (key g).
Proof. destruct g; cbn; lia. Qed.

Lemma fill_app k i bs done_ pad :
  length done_ = i → (length bs ≤ length pad)%nat →
  fill k i bs (done_ ++ pad) = done_ ++ map (λ b, (b + k) mod 256) bs ++ drop (length bs) pad.
Proof.
  revert i done_ pad. induction bs as [|b bs IH]; intros i d pad Hi Hl; cbn [fill map length]; [done|].
  destruct pad as [|p pad]; [simpl in Hl; lia|]. cbn [drop].
  rewrite insert_app_r_alt by lia. rewrite Hi, Nat.sub_diag. cbn [insert list_insert].
  replace (d ++ (b + k) mod 256 :: pad) with ((d ++ [(b + k) mod 256]) ++ pad) by by rewrite <-app_assoc.
  rewrite IH by (rewrite ?length_app; simpl in *; lia). by rewrite <-app_assoc.
Qed.

(** The encoding in closed form. *)
Lemma encode_password_eq pwd g :
  encode_password pwd g =
  map (λ b, (b + key g) mod 256) (take 12 pwd) ++ replicate (12 - length pwd) (key g).
Proof.
  unfold encode_password.
  pose proof (fill_app (key g) 0 (take 12 pwd) [] (replicate 12 (key g)) eq_refl) as H.
  cbn [app] in H. rewrite H by (rewrite length_take, length_replicate; lia).
  rewrite drop_replicate, length_take. do 2 f_equal. lia.
Qed.

Lemma encode_password_length pwd g : length (encode_password pwd g) = 12%nat.
Proof. rewrite encode_password_eq, length_app, length_map, length_take, length_replicate. lia. Qed.

Lemma encode_password_bytes pwd g : bytes (encode_password pwd g).
Proof.
  rewrite encode_password_eq. apply bytes_app_2.
  - unfold bytes. apply Forall_map, Forall_true. intros. apply Z.mod_pos_bound. lia.
  - apply bytes_replicate, key_u8.
Qed.
#[export] Hint Resolve encode_password_bytes : bytes.

Lemma header_query_ok p a s d :
  is_u16 p → is_u32 a → is_u16 s → is_u32 d → header_ok (hdr_query p a s d).
Proof. intros. unfold header_ok, hdr_query, APP_SUSY_ID; cbn. lia. Qed.
Lemma header_event_ok p a s d :
  is_u16 p → is_u32 a → is_u16 s → is_u32 d → header_ok (hdr_event_log_query p a s d).
Proof. intros. unfold header_ok, hdr_event_log_query, APP_SUSY_ID; cbn. lia. Qed.
Lemma header_init_ok p a : is_u16 p → is_u32 a → header_ok (hdr_init p a).
Proof. intros. unfold header_ok, hdr_init, APP_SUSY_ID, ANY_SUSY_ID, ANY_SERIAL; cbn. lia. Qed.
Lemma header_logoff_ok p a : is_u16 p → is_u32 a → header_ok (hdr_logoff p a).
Proof. intros. unfold header_ok, hdr_logoff, APP_SUSY_ID, ANY_SUSY_ID, ANY_SERIAL; cbn. lia. Qed.
Lemma header_logon_ok p a : is_u16 p → is_u32 a → header_ok (hdr_logon p a).
Proof. intros. unfold header_ok, hdr_logon, APP_SUSY_ID, ANY_SUSY_ID, ANY_SERIAL; cbn. lia. Qed.

Lemma opcode_u32 k : let '(c, f, l) := opcode k in is_u32 c ∧ is_u32 f ∧ is_u32 l ∧ f <= l.
Proof. destruct k; cbn; lia. Qed.

Lemma build_query_body_bytes k p a s d :
  is_u16 p → is_u32 a → is_u16 s → is_u32 d → bytes (build_query_body k p a s d).
Proof.
  intros. unfold build_query_body. destruct (opcode k) as [[c f] l].
  apply encode_l2_bytes; [by apply header_query_ok|auto with bytes].
Qed.

Lemma build_event_log_body_bytes p a s d t1 t2 :
  is_u16 p → is_u32 a → is_u16 s → is_u32 d → bytes (build_event_log_body p a s d t1 t2).
Proof. intros. apply encode_l2_bytes; [by apply header_event_ok|auto with bytes]. Qed.

Lemma build_init_body_bytes p a : is_u16 p → is_u32 a → bytes (build_init_body p a).
Proof. intros. apply encode_l2_bytes; [by apply header_init_ok|by_decide]. Qed.

Lemma build_logoff_body_bytes p a : is_u16 p → is_u32 a → bytes (build_logoff_body p a).
Proof. intros. apply encode_l2_bytes; [by apply header_logoff_ok|by_decide]. Qed.

Lemma build_logon_body_bytes pwd g p a t : is_u16 p → is_u32 a → bytes (build_logon_body pwd g p a t).
Proof.
  intros. apply encode_l2_bytes; [by apply header_logon_ok|]. unfold logon_cmd.
  repeat (apply bytes_app_2; [first [apply le_encode_bytes|by_decide]|]). auto with bytes.
Qed.

Lemma take_12_inj (p q : list Z) k :
  (length p ≤ 12)%nat → (length q ≤ 12)%nat → bytes p → bytes q → 0 ∉ p → 0 ∉ q → is_u8 k →
  map (λ b, (b + k) mod 256) p ++ replicate (12 - length p) k =
  map (λ b, (b + k) mod 256) q ++ replicate (12 - length q) k → p = q.
Proof.
  assert (Hz : ∀ b, is_u8 b → is_u8 k → (b + k) mod 256 = k → b = 0).
  { intros b Hb Hk He. destruct (decide (b + k < 256)).
    - rewrite Z.mod_small in He by lia. lia.
    - rewrite <-(Z.mod_add _ (-1)), Z.mod_small in He by lia. lia. }
  assert (Hi : ∀ b c, is_u8 b → is_u8 c → is_u8 k → (b + k) mod 256 = (c + k) mod 256 → b = c).
  { intros b c Hb Hc Hk He.
    apply (f_equal (λ x, (x - k) mod 256)) in He. rewrite !Zminus_mod_idemp_l in He.
    replace (b + k - k) with b in He by lia. replace (c + k - k) with c in He by lia.
    rewrite !Z.mod_small in He by lia. done. }
  generalize 12%nat as n. intros n. revert q n.
  induction p as [|b p IH]; intros [|c q] n Hp Hq Bp Bq Zp Zq Hk Heq; [done|..].
  - exfalso. simpl in Hq. destruct n as [|n]; [lia|]. cbn in Heq. injection Heq as He _.
    apply bytes_cons_inv in Bq as [Bc _]. apply Zq. rewrite (Hz c) by auto. left.
  - exfalso. simpl in Hp. destruct n as [|n]; [lia|]. cbn in Heq. injection Heq as He _.
    apply bytes_cons_inv in Bp as [Bb _]. apply Zp. rewrite (Hz b) by auto. left.
  - simpl in Hp, Hq. destruct n as [|n]; [lia|]. cbn in Heq. injection Heq as He Heq.
    apply bytes_cons_inv in Bp as [Bb Bp]. apply bytes_cons_inv in Bq as [Bc Bq].
    apply not_elem_of_cons in Zp as [_ Zp]. apply not_elem_of_cons in Zq as [_ Zq].
    f_equal; [by apply Hi|]. apply (IH q n); auto; lia.
Qed.

(** Reading back the three 32-bit words of a command body. *)
Lemma cmd_words a b c :
  is_u32 a → is_u32 b → is_u32 c →
  let body := le_encode 4 a ++ le_encode 4 b ++ le_encode 4 c in
  le_decode (take 4 body) = a ∧ le_decode (take 4 (drop 4 body)) = b ∧
  le_decode (drop 8 body) = c ∧ length body = 12%nat.
Proof.
  intros Ha Hb Hc body. subst body.
  pose proof (le_decode_encode 4 a Ha). pose proof (le_decode_encode 4 b Hb).
  pose proof (le_decode_encode 4 c Hc). auto.
Qed.

Lemma opcode_inj k1 k2 : opcode k1 = opcode k2 → k1 = k2.
Proof. destruct k1, k2; intros H; first [done | discriminate H]. Qed.

(* ------------------------------------------------------------------ *)
(** ** Properties                                                      *)
(* ------------------------------------------------------------------ *)

(** A query packet, decoded by the receiver, is addressed to the given
    device (SUSy id and serial), carries the client's serial and the packet id
    (15 bits of it), and its 12-byte body is command, first and last LRI of
    the query kind; different kinds give different bodies. *)
Theorem query_body_decodes (k : QueryKind) (pkt app susy serial : Z) :
  is_u16 pkt → is_u32 app → is_u16 susy → is_u32 serial →
  ∃ h cmd,
    decode_l2 (E:=Empty_set) (build_query_body k pkt app susy serial) = Ok (Some (h, cmd)) ∧
    dst_susy_id h = susy ∧ dst_serial h = serial ∧ app_serial h = app ∧
    app_susy_id h = APP_SUSY_ID ∧ pkt_id h = pkt mod 32768 ∧
    length cmd = 12%nat ∧
    opcode k = (le_decode (take 4 cmd), le_decode (take 4 (drop 4 cmd)), le_decode (drop 8 cmd)) ∧
    ∀ k', build_query_body k' pkt app susy serial = build_query_body k pkt app susy serial → k' = k.
Proof.
  intros Hp Ha Hs Hd. pose proof (header_query_ok pkt app susy serial Hp Ha Hs Hd) as Hok.
  assert (Hwords : ∀ k', let '(c, f, l) := opcode k' in
    let cmd := le_encode 4 c ++ le_encode 4 f ++ le_encode 4 l in
    decode_l2 (E:=Empty_set) (build_query_body k' pkt app susy serial) =
      Ok (Some (wire_header (hdr_query pkt app susy serial), cmd)) ∧
    length cmd = 12%nat ∧
    opcode k' = (le_decode (take 4 cmd), le_decode (take 4 (drop 4 cmd)), le_decode (drop 8 cmd))).
  { intros k'. pose proof (opcode_u32 k') as Ho. unfold build_query_body.
    destruct (opcode k') as [[c f] l]. destruct Ho as (Hc & Hf & Hl & _).
    destruct (cmd_words c f l Hc Hf Hl) as (E1 & E2 & E3 & E4).
    split; [by apply decode_encode_l2|]. split; [done|]. by rewrite E1, E2, E3. }
  pose proof (Hwords k) as Hk. destruct (opcode k) as [[c f] l] eqn:Hop.
  destruct Hk as (Hdec & Hlen & Hwk).
  exists (wire_header (hdr_query pkt app susy serial)), (le_encode 4 c ++ le_encode 4 f ++ le_encode 4 l).
  repeat (split; [done|]). intros k' Heq. apply opcode_inj. rewrite Hop.
  pose proof (Hwords k') as Hk'. destruct (opcode k') as [[c' f'] l']. destruct Hk' as (Hdec' & _ & Hw').
  rewrite Heq, Hdec in Hdec'. injection Hdec' as Hcmd.
  assert (Hcmd' : le_encode 4 c ++ le_encode 4 f ++ le_encode 4 l =
    le_encode 4 c' ++ le_encode 4 f' ++ le_encode 4 l') by (cbn; congruence).
  by rewrite Hw', Hwk, Hcmd'.
Qed.

Lemma query_body_decodes_witness :
  ∃ h cmd, decode_l2 (E:=Empty_set) (build_query_body SpotDcPower 66 900000000 125 2120121246) = Ok (Some (h, cmd))
    ∧ dst_serial h = 2120121246.
Proof.
  destruct (query_body_decodes SpotDcPower 66 900000000 125 2120121246) as (h & cmd & H & _ & Hs & _);
    [lia..|]. exists h, cmd. split; [exact H|exact Hs].
Defined.

(** The init, logoff and logon packets decode to broadcast headers with
    the client's serial and packet id; the logon command carries the user
    group code, the 900 s timeout, the clock value and the 12-byte encoded
    password at offset 20. *)
Theorem auth_bodies_decode (pwd : list Z) (g : UserGroup) (pkt app now : Z) :
  is_u16 pkt → is_u32 app → is_u32 now →
  decode_l2 (E:=Empty_set) (build_init_body pkt app) =
    Ok (Some (wire_header (hdr_init pkt app), [0; 2; 0; 0; 0; 0; 0; 0; 0; 0; 0; 0])) ∧
  decode_l2 (E:=Empty_set) (build_logoff_body pkt app) =
    Ok (Some (wire_header (hdr_logoff pkt app), [14; 1; 253; 255; 255; 255; 255; 255])) ∧
  ∃ cmd,
    decode_l2 (E:=Empty_set) (build_logon_body pwd g pkt app now) = Ok (Some (wire_header (hdr_logon pkt app), cmd)) ∧
    take 4 cmd = [12; 4; 253; 255] ∧ le_decode (take 4 (drop 4 cmd)) = code g ∧
    le_decode (take 4 (drop 8 cmd)) = 900 ∧ le_decode (take 4 (drop 12 cmd)) = now ∧
    drop 20 cmd = encode_password pwd g ∧ length cmd = 32%nat.
Proof.
  intros Hp Ha Hn. split; [|split].
  - unfold build_init_body. by rewrite decode_encode_l2 by by apply header_init_ok.
  - unfold build_logoff_body. by rewrite decode_encode_l2 by by apply header_logoff_ok.
  - exists (logon_cmd pwd g now). unfold build_logon_body.
    rewrite decode_encode_l2 by by apply header_logon_ok.
    split; [done|]. split; [done|]. split; [by destruct g|]. split; [done|].
    split; [exact (le_decode_encode 4 now Hn)|]. split; [done|].
    unfold logon_cmd. rewrite !length_app, encode_password_length. done.
Qed.

Lemma auth_bodies_decode_witness :
  decode_l2 (E:=Empty_set) (build_init_body 1 900000001) =
    Ok (Some (wire_header (hdr_init 1 900000001), [0; 2; 0; 0; 0; 0; 0; 0; 0; 0; 0; 0])).
Proof. apply (auth_bodies_decode [48; 48; 48; 48] User 1 900000001 1700000000); lia. Defined.

(** The encoded password has 12 bytes, depends only on the first 12 bytes
    of the password, and loses nothing else: passwords of at most 12 bytes
    without NUL are determined by their encoding. *)
Theorem password_encoding (p q : list Z) (g : UserGroup) :
  length (encode_password p g) = 12%nat ∧
  encode_password p g = encode_password (take 12 p) g ∧
  (bytes p → bytes q → 0 ∉ p → 0 ∉ q → (length p ≤ 12)%nat → (length q ≤ 12)%nat →
   encode_password p g = encode_password q g → p = q).
Proof.
  split; [apply encode_password_length|]. split.
  - rewrite !encode_password_eq, take_take, length_take. do 2 f_equal. lia.
  - intros Bp Bq Zp Zq Lp Lq. rewrite !encode_password_eq, !(take_ge _ 12) by lia.
    apply take_12_inj; auto. apply key_u8.
Qed.

Lemma password_encoding_witness : length (encode_password [97; 98] User) = 12%nat ∧ [97; 98] = take 12 [97; 98].
Proof.
  split; [apply (password_encoding [97; 98] [97; 98] User)|].
  apply (password_encoding [97; 98] (take 12 [97; 98]) User); by_decide.
Defined.
