(* ===== verification/Session.v ===== *)
(** * Sessions (crates/inverter-client/src/session.rs)

    The session over any [Transport]: receive loops, handshake and logon,
    queries, event log, closing.  Every method is a [prog] on the session
    record, so the state a failed method leaves behind is part of the model.
    The wall clock is an argument ([current_epoch_u32] of a time); the sleeps
    change nothing the session sees. *)
From Stdlib Require Import String.
From S2P Require Import Prelude Text Constants Fcs Frame Packet Framer Transport Commands.
Import Query Auth.

Local Open Scope string_scope.
Local Open Scope list_scope.
Local Open Scope Z_scope.

(* ------------------------------------------------------------------ *)
(** ** Data                                                            *)
(* ------------------------------------------------------------------ *)

Inductive SessionError : Type :=
  | TransportErr (e : TransportError)
  | Parse (e : ParseError)
  | LogonFailed (code : Z)
  | FirmwareTooOld (version : Z)
  | Protocol (phase : string)
  | Silent (phase : string).

#[export] Instance SessionError_eq_dec : EqDecision SessionError.
Proof. solve_decision. Defined.

(** [SessionError::is_session_fatal] *)
Definition is_session_fatal (e : SessionError) : bool :=
  match e with
  | TransportErr _ => true
  | Parse _ => true
  | LogonFailed _ => true
  | FirmwareTooOld _ => true
  | Protocol phase => negb (bool_decide (phase = "query" ∨ phase = "event-log"))
  | Silent phase => negb (bool_decide (phase = "query" ∨ phase = "event-log"))
  end.

Record L2Reply : Type := mkL2Reply {
  r_pkt_id : Z;
  r_error_code : Z;
  r_app_susy_id : Z;
  r_app_serial : Z;
  r_body : list Z
}.

Record SessionConfig : Type := mkSessionConfig {
  inverter_bt : list Z;
  cfg_local_bt : list Z;
  password : list Z;
  user_group : UserGroup;
  timeout_ms : Z;
  mis_enabled : bool
}.

Inductive SessionState : Type :=
  Disconnected | Handshaking | Enumerating | LoggedIn | Degraded.

#[export] Instance SessionState_eq_dec : EqDecision SessionState.
Proof. solve_decision. Defined.

Record Session (T : Type) : Type := mkSession {
  transport : T;
  cfg : SessionConfig;
  state : SessionState;
  s_app_serial : Z;
  pcktid : Z;
  inverter_susy_id : Z;
  inverter_serial : Z
}.
Arguments mkSession {T}.
Arguments transport {T}. Arguments cfg {T}. Arguments state {T}. Arguments s_app_serial {T}.
Arguments pcktid {T}. Arguments inverter_susy_id {T}. Arguments inverter_serial {T}.

Definition reply_of (h : L2Header) (data : list Z) : L2Reply :=
  mkL2Reply (pkt_id h) (error_code h) (app_susy_id h) (app_serial h) data.

(* ------------------------------------------------------------------ *)
(** ** Operations                                                      *)
(* ------------------------------------------------------------------ *)

Section session.
Context {T : Type} `{Transport T}.
Notation sprog := (prog (Session T) SessionError).

(** [Session::new_with_app_serial] *)
Definition new_with_app_serial (t : T) (c : SessionConfig) (app_serial : Z) : Session T :=
  mkSession t c Disconnected app_serial 0 0 0.

(** The clock in whole seconds; before the epoch it reads 0. *)
Definition current_epoch_u32 (now : DateTime) : Z :=
  if unix_ns now <? 0 then 0 else (unix_ns now / 1000000000) mod 4294967296.

(** [session_id], [Session::new]: [random] is the number drawn below
    100 million. *)
Definition session_id (random : Z) : Z := (900000000 + random) mod 4294967296.
Definition new_session (t : T) (c : SessionConfig) (random : Z) : Session T :=
  new_with_app_serial t c (session_id random).

Definition set_transport (t : T) (s : Session T) : Session T :=
  mkSession t (cfg s) (state s) (s_app_serial s) (pcktid s) (inverter_susy_id s) (inverter_serial s).
Definition set_state (st : SessionState) (s : Session T) : Session T :=
  mkSession (transport s) (cfg s) st (s_app_serial s) (pcktid s) (inverter_susy_id s) (inverter_serial s).
Definition set_pcktid (p : Z) (s : Session T) : Session T :=
  mkSession (transport s) (cfg s) (state s) (s_app_serial s) p (inverter_susy_id s) (inverter_serial s).
Definition set_inverter (susy serial : Z) (s : Session T) : Session T :=
  mkSession (transport s) (cfg s) (state s) (s_app_serial s) (pcktid s) susy serial.

(** A call on [self.transport]. *)
Definition on_transport {A} (m : prog T TransportError A) : prog (Session T) TransportError A := λ s,
  let '(r, t) := m (transport s) in (r, set_transport t s).

(** [self.transport.send_frame(..).await?] *)
Definition send (data : list Z) : sprog () :=
  map_error TransportErr (on_transport (send_frame data));; mret ().

(** [self.transport.recv_frame(self.cfg.timeout_ms).await.map_err(..)?]: a
    timeout becomes [Silent]. *)
Definition recv_error (phase : string) (e : TransportError) : SessionError :=
  match e with Timeout _ => Silent phase | other => TransportErr other end.
Definition recv (phase : string) : sprog (list Z) :=
  c ← gets cfg;
  map_error (recv_error phase) (on_transport (recv_frame (timeout_ms c))).

(** [Session::next_pcktid]: [wrapping_add(1).max(1)] on a [u16]. *)
Definition pcktid_succ (p : Z) : Z := Z.max ((p + 1) mod 65536) 1.
Definition next_pcktid : sprog Z :=
  p ← gets pcktid;
  modify (set_pcktid (pcktid_succ p));;
  gets pcktid.

(** [recv_until_l1_ctrl]; [attempts] is 12 at the call sites. *)
Definition L1_ATTEMPTS : nat := 12.
Fixpoint recv_until_l1_ctrl (attempts : nat) (want_ctrl : Z) (phase : string) : sprog (list Z) :=
  match attempts with
  | O => throw (Silent phase)
  | S attempts =>
      bytes ← recv phase;
      match parse bytes with
      | Ok frame =>
          if control frame =? want_ctrl then mret bytes
          else recv_until_l1_ctrl attempts want_ctrl phase
      | Err _ => recv_until_l1_ctrl attempts want_ctrl phase
      | Panic => lift Panic
      end
  end.

(** [recv_l2_with_pkt_id] *)
Definition L2_ATTEMPTS : nat := 16.
Fixpoint recv_l2_with_pkt_id (attempts : nat) (want_pkt_id : Z) (phase : string) : sprog (list Z * L2Reply) :=
  match attempts with
  | O => throw (Silent phase)
  | S attempts =>
      bytes ← recv phase;
      match parse bytes with
      | Ok frame =>
          if negb (bool_decide (kind frame = L2Wrapped)) then recv_l2_with_pkt_id attempts want_pkt_id phase else
          x ← lift (decode_l2 (payload frame));
          match x with
          | None => recv_l2_with_pkt_id attempts want_pkt_id phase
          | Some (hdr, data) =>
              if pkt_id hdr =? want_pkt_id then mret (bytes, reply_of hdr data)
              else recv_l2_with_pkt_id attempts want_pkt_id phase
          end
      | Err _ => recv_l2_with_pkt_id attempts want_pkt_id phase
      | Panic => lift Panic
      end
  end.

(** [recv_init_from_target] *)
Fixpoint recv_init_from_target (attempts : nat) (want_pkt_id : Z) (target_bt : list Z) : sprog L2Reply :=
  match attempts with
  | O => throw (Silent "init")
  | S attempts =>
      bytes ← recv_until_l1_ctrl L1_ATTEMPTS 0x0001 "init";
      match parse bytes with
      | Ok frame =>
          x ← lift (decode_l2 (payload frame));
          match x with
          | None => recv_init_from_target attempts want_pkt_id target_bt
          | Some (hdr, data) =>
              if negb (pkt_id hdr =? want_pkt_id) then recv_init_from_target attempts want_pkt_id target_bt
              else if negb (bool_decide (local_bt frame = target_bt)) then
                recv_init_from_target attempts want_pkt_id target_bt
              else mret (reply_of hdr data)
          end
      | Err _ => recv_init_from_target attempts want_pkt_id target_bt
      | Panic => lift Panic
      end
  end.

(** The frames of the handshake. *)
Definition ver_frame : list Z :=
  build (extend (new_with_kind L1Only (replicate 6 0) [1; 0; 0; 0; 0; 0] 0x0201) [118; 101; 114; 13; 10]).
Definition echo_frame (net_id : Z) (inverter_bt : list Z) : list Z :=
  build (extend (new_with_kind L1Only (replicate 6 0) inverter_bt 0x0002)
    (le_encode 4 0x00700400 ++ [net_id] ++ le_encode 4 0 ++ le_encode 4 1)).
Definition l2_frame (c : SessionConfig) (body : list Z) : list Z :=
  build (extend (new_builder (cfg_local_bt c) (replicate 6 255) 0x0001) body).

(** The peers listed in the topology frame (logged only); 8 bytes each. *)
Fixpoint topology_peers (fuel : nat) (payload : list Z) (ptr : nat) (peers : list (list Z * string)) :
    outcome SessionError (list (list Z * string)) :=
  match fuel with
  | O => Panic
  | S fuel =>
      if decide (ptr + 8 ≤ length payload)%nat then
        mac ← slice payload ptr (ptr + 6);
        flags_lo ← index payload (ptr + 6);
        flags_hi ← index payload (ptr + 7);
        let kind := if (flags_lo =? 1) && (flags_hi =? 1) then "inverter"
                    else if (flags_lo =? 2) && (flags_hi =? 1) then "host/local" else "unknown" in
        topology_peers fuel payload (ptr + 8) (peers ++ [(Mac.format_bt_mac mac, kind)])
      else Ok peers
  end.
Definition log_topology (topology_bytes : list Z) : outcome SessionError (list (list Z * string)) :=
  if decide (18 < length topology_bytes)%nat then
    payload ← slice_from topology_bytes 18;
    topology_peers (S (length payload)) payload 0 []
  else Ok [].

(** The reply loop of step 7: [(logged_in, last_reject)]. *)
Fixpoint logon_loop (rounds : nat) (pkt : Z) (last_reject : option L2Reply) :
    sprog (option L2Reply * option L2Reply) :=
  match rounds with
  | O => mret (None, last_reject)
  | S rounds =>
      r ← attempt (recv_until_l1_ctrl L1_ATTEMPTS 0x0001 "logon");
      match r with
      | Panic => lift Panic
      | Err _ => mret (None, last_reject)
      | Ok bytes =>
          match parse bytes with
          | Panic => lift Panic
          | Err _ => logon_loop rounds pkt last_reject
          | Ok frame =>
              x ← lift (decode_l2 (payload frame));
              match x with
              | None => logon_loop rounds pkt last_reject
              | Some (hdr, data) =>
                  if negb (pkt_id hdr =? pkt) then logon_loop rounds pkt last_reject else
                  let reply := reply_of hdr data in
                  if r_error_code reply =? 0 then mret (Some reply, last_reject)
                  else logon_loop rounds pkt (Some reply)
              end
          end
      end
  end.

(** Steps 0 to 2: discovery, hello, echo. *)
Definition hello_phase : sprog (Z * list Z) :=
  send ver_frame;;
  hello_bytes ← recv "hello";
  hello ← lift (map_err Parse (parse hello_bytes));
  if negb (control hello =? 0x0002) then throw (Protocol "hello-ctrl") else
  if decide (length hello_bytes < 23)%nat then throw (Protocol "hello-short") else
  fw ← lift (index hello_bytes 19);
  if fw <? 4 then throw (FirmwareTooOld fw) else
  net_id ← lift (index hello_bytes 22);
  send (echo_frame net_id (local_bt hello));;
  mret (net_id, local_bt hello).

(** The end of step 7: logged in, rejected, or no reply at all. *)
Definition logon_verdict (logged_in last_reject : option L2Reply) : sprog () :=
  match logged_in with
  | Some _ => modify (set_state LoggedIn)
  | None =>
      match last_reject with
      | Some rej => if r_error_code rej =? 0x0100 then throw (LogonFailed 0x0100)
                    else throw (LogonFailed (r_error_code rej))
      | None => throw (Silent "logon")
      end
  end.

(** [Session::handshake_and_logon] *)
Definition handshake_and_logon (now_epoch : Z) : sprog () :=
  modify (set_state Handshaking);;
  c ← gets cfg;
  app ← gets s_app_serial;
  '(net_id, inverter_bt) ← hello_phase;
  topology_bytes ← recv_until_l1_ctrl L1_ATTEMPTS 0x0005 "topology";
  lift (log_topology topology_bytes);;
  modify (set_state Enumerating);;
  pkt ← next_pcktid;
  send (l2_frame c (build_init_body pkt app));;
  init_reply ← recv_init_from_target 16 pkt inverter_bt;
  modify (set_inverter (r_app_susy_id init_reply) (r_app_serial init_reply));;
  pkt ← next_pcktid;
  send (l2_frame c (build_logoff_body pkt app));;
  pkt ← next_pcktid;
  send (l2_frame c (build_logon_body (password c) (user_group c) pkt app now_epoch));;
  '(logged_in, last_reject) ← logon_loop 16 pkt None;
  logon_verdict logged_in last_reject.

(** [Session::query_for_device], [Session::query] *)
Definition query_for_device (susy_id serial : Z) (kind : QueryKind) : sprog (list Z) :=
  st ← gets state;
  if negb (bool_decide (st = LoggedIn)) then throw (Protocol "query-not-logged-in") else
  pkt ← next_pcktid;
  c ← gets cfg;
  app ← gets s_app_serial;
  send (l2_frame c (build_query_body kind pkt app susy_id serial));;
  '(_, reply) ← recv_l2_with_pkt_id L2_ATTEMPTS pkt "query";
  mret (r_body reply).

Definition query (kind : QueryKind) : sprog (list Z) :=
  susy ← gets inverter_susy_id;
  serial ← gets inverter_serial;
  query_for_device susy serial kind.

(** The fragment loop of the event log. *)
Definition MAX_FRAGMENTS : nat := 32.
Fixpoint collect_fragments (fragments : nat) (pkt : Z) (aggregated : list Z) : sprog (list Z) :=
  match fragments with
  | O => mret aggregated
  | S fragments =>
      '(_, reply) ← recv_l2_with_pkt_id L2_ATTEMPTS pkt "event-log";
      if negb (r_error_code reply =? 0) then throw (Protocol "event-log-retcode") else
      let aggregated := aggregated ++ r_body reply in
      if decide (length (r_body reply) < 12)%nat then mret aggregated else
      if decide (length (r_body reply) = 12%nat) then mret aggregated else
      collect_fragments fragments pkt aggregated
  end.

(** [Session::query_event_log_for_device] *)
Definition query_event_log_for_device (susy_id serial start_unix end_unix : Z) : sprog (list Z) :=
  st ← gets state;
  if negb (bool_decide (st = LoggedIn)) then throw (Protocol "event-log-not-logged-in") else
  pkt ← next_pcktid;
  c ← gets cfg;
  app ← gets s_app_serial;
  send (l2_frame c (build_event_log_body pkt app susy_id serial start_unix end_unix));;
  collect_fragments MAX_FRAGMENTS pkt [].

(** [Session::close] *)
Definition close : sprog () :=
  modify (set_state Disconnected);;
  map_error TransportErr (on_transport close_transport).

(** [Session::graceful_close] *)
Definition graceful_close : sprog () :=
  st ← gets state;
  (if bool_decide (st = LoggedIn) then
     pkt ← next_pcktid;
     c ← gets cfg;
     app ← gets s_app_serial;
     attempt (E:=SessionError) (send (l2_frame c (build_logoff_body pkt app)));;
     mret ()
   else mret ());;
  close.

End session.

(* ------------------------------------------------------------------ *)
(** ** The scripted sessions of tests/mock_session.rs                  *)
(* ------------------------------------------------------------------ *)

Definition test_local : list Z := [17; 34; 51; 68; 85; 102].
Definition test_inverter : list Z := [170; 187; 204; 221; 238; 255].
Definition test_cfg : SessionConfig :=
  mkSessionConfig test_inverter test_local [48; 48; 48; 48] User 1000 false.

Definition fake_hello : list Z :=
  build (extend (new_with_kind L1Only test_inverter test_local 2) [0; 4; 112; 0; 2; 0; 0; 0; 0; 1; 0; 0; 0]).
Definition fake_topology : list Z :=
  build (extend (new_with_kind L1Only test_inverter test_local 5) (replicate 32 0)).
Definition fake_reply (lw ctrl2 err pkt : Z) (body : list Z) : list Z :=
  build (extend (new_builder test_inverter test_local 1)
    (encode_l2 (mkL2Header lw 160 APP_SUSY_ID 900123456 ctrl2 101 2120121246 err pkt) body)).
Definition fake_init_reply : list Z := fake_reply 9 0 0 1 (replicate 16 0).
Definition fake_logon_reply : list Z := fake_reply 14 256 0 3 (replicate 12 0).
Definition test_session (replies : list (list Z)) : Session Mock.MockTransport :=
  new_session (Mock.queue_replies replies Mock.new) test_cfg 123456.

Example happy_path_example :
  let s := test_session [fake_hello; fake_topology; fake_init_reply; fake_logon_reply;
                         fake_reply 9 0 0 4 [1; 2; 3]] in
  let s1 := (handshake_and_logon 1700000000 s).2 in
  let '(r, s2) := query SpotAcTotalPower s1 in
  (handshake_and_logon 1700000000 s).1 = Ok () ∧ state s1 = LoggedIn ∧
  inverter_susy_id s1 = 101 ∧ inverter_serial s1 = 2120121246 ∧
  r = Ok [1; 2; 3] ∧ length (Mock.sent (transport s2)) = 6%nat ∧ state (close s2).2 = Disconnected.
Proof. vm_compute. auto 10. Qed.

Example logon_failure_example :
  (handshake_and_logon 0 (test_session
    [fake_hello; fake_topology; fake_init_reply; fake_reply 14 256 256 3 (replicate 12 0)])).1
  = Err (LogonFailed 256).
Proof. vm_compute. reflexivity. Qed.
