(* ===== verification/SessionSpec.v ===== *)
(** * What a session promises (inverter-client/src/session.rs)

    Weakest-precondition rules for the receive loops of [Session.v] over any
    transport that keeps [TransportLaws], and the theorems on handshake,
    queries, event log and closing.  A run is described by [ttrace]: the
    frames it sent and the frames of the inbox it consumed. *)
From Stdlib Require Import String.
From S2P Require Import Prelude Constants Fcs Frame Packet Framer Transport Commands Session.
Import Query Auth.

Local Open Scope string_scope.
Local Open Scope list_scope.
Local Open Scope Z_scope.

(* ------------------------------------------------------------------ *)
(** ** What the loops look for                                         *)
(* ------------------------------------------------------------------ *)

Definition ctrl_of (b : list Z) : option Z :=
  match parse b with Ok f => Some (control f) | _ => None end.

(** Frame, L2 header and body of a received buffer. *)
Definition l2_of (b : list Z) : option (Frame * L2Header * list Z) :=
  match parse b with
  | Ok f => match decode_l2 (E:=SessionError) (payload f) with
            | Ok (Some (h, d)) => Some (f, h, d)
            | _ => None
            end
  | _ => None
  end.

Definition l2_match (want : Z) (b : list Z) : option L2Reply :=
  '(f, h, d) ← l2_of b;
  if decide (kind f = L2Wrapped ∧ pkt_id h = want) then Some (reply_of h d) else None.

Definition init_match (want : Z) (bt : list Z) (b : list Z) : option L2Reply :=
  '(f, h, d) ← l2_of b;
  if decide (control f = 1 ∧ pkt_id h = want ∧ local_bt f = bt) then Some (reply_of h d) else None.

Definition logon_match (want : Z) (b : list Z) : option L2Reply :=
  '(f, h, d) ← l2_of b;
  if decide (control f = 1 ∧ pkt_id h = want) then Some (reply_of h d) else None.

(** Errors of the receive side: transport trouble or silence in a phase. *)
Definition recv_failure (phase : string) (e : SessionError) : Prop :=
  e = Silent phase ∨ ∃ te, e = TransportErr te.

(* ------------------------------------------------------------------ *)
(** ** Lemmas: primitive steps                                         *)
(* ------------------------------------------------------------------ *)

Lemma parse_cases b : bytes b → (∃ f, parse b = Ok f) ∨ (∃ e, parse b = Err e).
Proof. intros Hb. pose proof (no_panic_parse b Hb). destruct (parse b); [by left; eexists|by right; eexists|done]. Qed.

Lemma recv_error_failure phase e : recv_failure phase (recv_error phase e).
Proof. destruct e; cbn; unfold recv_failure; eauto. Qed.

#[local] Opaque ver_frame echo_frame l2_frame pcktid_succ parse decode_l2 build_init_body
  build_logoff_body build_logon_body build_query_body build_event_log_body.

(** Reduce the session record and its updates, and nothing else. *)
Ltac len := cbn [length app] in *; rewrite ?length_app in *; cbn [length app] in *; lia.
Ltac list_mid := repeat (rewrite elem_of_app || rewrite elem_of_cons); tauto.
Ltac sess :=
  cbn [transport cfg state s_app_serial pcktid inverter_susy_id inverter_serial
       set_transport set_state set_pcktid set_inverter app] in *.

Section spec.
Context {T : Type} `{TransportLaws T}.

(** From transport [t] to [t']: [fs] were sent, [cs] were received. *)
Record ttrace (t t' : T) (fs cs : list (list Z)) : Prop := mkTrace {
  tr_ok : transport_ok t';
  tr_sent : sent_log t' = sent_log t ++ fs;
  tr_inbox : inbox t = cs ++ inbox t'
}.

Lemma ttrace_refl t : transport_ok t → ttrace t t [] [].
Proof. intros. split; by rewrite ?app_nil_r. Qed.

Implicit Types (s : Session T) (t : T).

Lemma wp_send t0 fs cs d s Q :
  ttrace t0 (transport s) fs cs →
  (∀ t', ttrace t0 t' (fs ++ [d]) cs → Q (Ok ()) (set_transport t' s)) →
  (∀ e t', ttrace t0 t' fs cs → Q (Err (TransportErr e)) (set_transport t' s)) →
  wp (send d) s Q.
Proof.
  intros [Ho Hs Hi] HOk HErr. unfold send. apply wp_bind, wp_map_error.
  pose proof (send_law d _ Ho) as Hl. unfold wp, on_transport in *.
  destruct (send_frame d (transport s)) as [r t']. cbn in *. destruct Hl as (Ho' & Hi' & Hr).
  destruct r as [n|e|]; [|by apply HErr; split; rewrite ?Hr, ?Hi'|done].
  apply HOk. split; [done| |by rewrite Hi']. by rewrite Hr, Hs, app_assoc.
Qed.

Lemma wp_recv t0 fs cs phase s Q :
  ttrace t0 (transport s) fs cs →
  (∀ b t', bytes b → ttrace t0 t' fs (cs ++ [b]) → Q (Ok b) (set_transport t' s)) →
  (∀ e t', ttrace t0 t' fs cs → recv_failure phase e → Q (Err e) (set_transport t' s)) →
  wp (recv phase) s Q.
Proof.
  intros [Ho Hs Hi] HOk HErr. unfold recv. apply wp_bind, wp_gets, wp_map_error.
  pose proof (recv_law (timeout_ms (cfg s)) _ Ho) as Hl. pose proof (inbox_bytes _ Ho) as Hb.
  unfold wp, on_transport in *.
  destruct (recv_frame _ (transport s)) as [r t']. cbn in *. destruct Hl as (Ho' & Hs' & Hr).
  destruct r as [b|e|]; [..|done].
  - rewrite Hr in Hb. apply Forall_cons in Hb as [Hb _]. apply HOk; [done|].
    split; [done|by rewrite Hs'|]. by rewrite Hi, Hr, <-app_assoc.
  - apply HErr; [|apply recv_error_failure]. split; [done|by rewrite Hs'|by rewrite Hr].
Qed.

Lemma set_transport_set t t' s : set_transport t (set_transport t' s) = set_transport t s.
Proof. done. Qed.

(** [recv_until_l1_ctrl] skips the frames without the control word. *)
Lemma wp_recv_until t0 fs cs n want phase s (Q : outcome SessionError (list Z) → Session T → Prop) :
  ttrace t0 (transport s) fs cs →
  (∀ skipped b t', bytes b → ctrl_of b = Some want → Forall (λ b, ctrl_of b ≠ Some want) skipped →
     (length skipped < n)%nat → ttrace t0 t' fs (cs ++ skipped ++ [b]) → Q (Ok b) (set_transport t' s)) →
  (∀ skipped e t', Forall (λ b, ctrl_of b ≠ Some want) skipped → (length skipped ≤ n)%nat →
     ttrace t0 t' fs (cs ++ skipped) → recv_failure phase e → Q (Err e) (set_transport t' s)) →
  wp (recv_until_l1_ctrl n want phase) s Q.
Proof.
  revert s cs. induction n as [|n IH]; intros s cs Htr HOk HErr; cbn [recv_until_l1_ctrl].
  - apply wp_throw. replace s with (set_transport (transport s) s) by by destruct s.
    apply (HErr []); [constructor|simpl; lia|by rewrite app_nil_r|by left].
  - apply wp_bind. eapply wp_recv; [exact Htr|..].
    + intros b t' Hb Htr'.
      assert (Hskip : ctrl_of b ≠ Some want → wp (recv_until_l1_ctrl n want phase) (set_transport t' s) Q).
      { intros Hne. eapply IH; [exact Htr'|..].
        - intros sk b' t2 Hb' Hc Hsk Hl Ht. apply (HOk (b :: sk)); [done|done|by constructor|simpl; lia|].
          by rewrite <-app_assoc in Ht.
        - intros sk e t2 Hsk Hl Ht He. apply (HErr (b :: sk)); [by constructor|simpl; lia| |done].
          by rewrite <-app_assoc in Ht. }
      unfold ctrl_of in Hskip at 1.
      destruct (parse_cases b Hb) as [[f Hp]|[e Hp]]; rewrite Hp in *; [|by apply Hskip].
      destruct (control f =? want) eqn:Hc.
      * apply wp_ret. apply Z.eqb_eq in Hc as Hc'.
        apply (HOk []); [done|unfold ctrl_of; by rewrite Hp, Hc'|constructor|simpl; lia|done].
      * apply Hskip. intros [= ?]. zlia.
    + intros e t' Htr' He. apply (HErr []); [constructor|simpl; lia|by rewrite app_nil_r|done].
Qed.

(** [recv_l2_with_pkt_id] skips everything but L2 replies to the packet. *)
Lemma wp_recv_l2 t0 fs cs n want phase s (Q : outcome SessionError (list Z * L2Reply) → Session T → Prop) :
  ttrace t0 (transport s) fs cs →
  (∀ skipped b reply t', l2_match want b = Some reply → Forall (λ b, l2_match want b = None) skipped →
     (length skipped < n)%nat → ttrace t0 t' fs (cs ++ skipped ++ [b]) →
     Q (Ok (b, reply)) (set_transport t' s)) →
  (∀ skipped e t', Forall (λ b, l2_match want b = None) skipped → (length skipped ≤ n)%nat →
     ttrace t0 t' fs (cs ++ skipped) → recv_failure phase e → Q (Err e) (set_transport t' s)) →
  wp (recv_l2_with_pkt_id n want phase) s Q.
Proof.
  revert s cs. induction n as [|n IH]; intros s cs Htr HOk HErr; cbn [recv_l2_with_pkt_id].
  - apply wp_throw. replace s with (set_transport (transport s) s) by by destruct s.
    apply (HErr []); [constructor|simpl; lia|by rewrite app_nil_r|by left].
  - apply wp_bind. eapply wp_recv; [exact Htr|..].
    + intros b t' Hb Htr'.
      assert (Hskip : l2_match want b = None → wp (recv_l2_with_pkt_id n want phase) (set_transport t' s) Q).
      { intros Hne. eapply IH; [exact Htr'|..].
        - intros sk b' r t2 Hm Hsk Hl Ht. apply (HOk (b :: sk)); [done|by constructor|simpl; lia|].
          by rewrite <-app_assoc in Ht.
        - intros sk e t2 Hsk Hl Ht He. apply (HErr (b :: sk)); [by constructor|simpl; lia| |done].
          by rewrite <-app_assoc in Ht. }
      assert (Hmatch : ∀ r, l2_match want b = Some r → Q (Ok (b, r)) (set_transport t' s)).
      { intros r Hr. apply (HOk []); [done|constructor|simpl; lia|done]. }
      clear HOk HErr IH. unfold l2_match, l2_of in Hskip, Hmatch.
      destruct (parse_cases b Hb) as [[f Hp]|[e Hp]]; rewrite Hp in *; [|by apply Hskip].
      destruct (decode_l2_returns (E:=SessionError) (payload f)) as [o Ho]. rewrite Ho in *.
      destruct (bool_decide (kind f = L2Wrapped)) eqn:Hk; cbn [negb].
      * apply bool_decide_eq_true in Hk. apply wp_bind, wp_lift. destruct o as [[h d]|]; [|by apply Hskip].
        cbn [mbind option_bind] in *. destruct (Z.eqb_spec (pkt_id h) want) as [He|He];
          [apply wp_ret, Hmatch; by rewrite decide_True|apply Hskip; by rewrite decide_False by (intros []; done)].
      * apply bool_decide_eq_false in Hk. apply Hskip. destruct o as [[h d]|]; [|done].
        cbn [mbind option_bind]. case_decide; naive_solver.
    + intros e t' Htr' He. apply (HErr []); [constructor|simpl; lia|by rewrite app_nil_r|done].
Qed.

(** [recv_init_from_target] skips replies to other packets and from other
    devices. *)
Lemma init_match_ctrl want bt b : ctrl_of b ≠ Some 1 → init_match want bt b = None.
Proof.
  unfold ctrl_of, init_match, l2_of. destruct (parse b) as [f| |]; [|done..].
  destruct (decode_l2 _) as [[[h d]|]| |]; [|done..]. cbn. intros Hne.
  rewrite decide_False; [done|]. intros (Hc & _). by rewrite Hc in Hne.
Qed.
Lemma logon_match_ctrl want b : ctrl_of b ≠ Some 1 → logon_match want b = None.
Proof.
  unfold ctrl_of, logon_match, l2_of. destruct (parse b) as [f| |]; [|done..].
  destruct (decode_l2 _) as [[[h d]|]| |]; [|done..]. cbn. intros Hne.
  rewrite decide_False; [done|]. intros (Hc & _). by rewrite Hc in Hne.
Qed.

Lemma wp_recv_init t0 fs cs n want bt s (Q : outcome SessionError L2Reply → Session T → Prop) :
  ttrace t0 (transport s) fs cs →
  (∀ skipped b reply t', init_match want bt b = Some reply →
     Forall (λ b, init_match want bt b = None) skipped →
     (length skipped < n * 12)%nat → ttrace t0 t' fs (cs ++ skipped ++ [b]) →
     Q (Ok reply) (set_transport t' s)) →
  (∀ skipped e t', Forall (λ b, init_match want bt b = None) skipped → (length skipped ≤ n * 12)%nat →
     ttrace t0 t' fs (cs ++ skipped) → recv_failure "init" e → Q (Err e) (set_transport t' s)) →
  wp (recv_init_from_target n want bt) s Q.
Proof.
  revert s cs. induction n as [|n IH]; intros s cs Htr HOk HErr; cbn [recv_init_from_target].
  - apply wp_throw. replace s with (set_transport (transport s) s) by by destruct s.
    apply (HErr []); [constructor|simpl; lia|by rewrite app_nil_r|by left].
  - apply wp_bind. eapply wp_recv_until; [exact Htr|..].
    + intros sk b t' Hb Hc Hsk Hl Htr'.
      assert (Hsk' : Forall (λ b, init_match want bt b = None) sk).
      { eapply Forall_impl; [exact Hsk|]. intros; by apply init_match_ctrl. }
      unfold L1_ATTEMPTS in Hl.
      assert (Hskip : init_match want bt b = None → wp (recv_init_from_target n want bt) (set_transport t' s) Q).
      { intros Hne. eapply IH; [exact Htr'|..].
        - intros sk2 b' r t2 Hm Hsk2 Hl2 Ht. apply (HOk ((sk ++ [b]) ++ sk2) b'); [done|..].
          + rewrite !Forall_app. auto.
          + rewrite !length_app. simpl. lia.
          + by rewrite <-!app_assoc in Ht |- *.
        - intros sk2 e t2 Hsk2 Hl2 Ht He. apply (HErr ((sk ++ [b]) ++ sk2)); [..|done].
          + rewrite !Forall_app. auto.
          + rewrite !length_app. simpl. lia.
          + by rewrite (app_assoc cs). }
      assert (Hmatch : ∀ r, init_match want bt b = Some r → Q (Ok r) (set_transport t' s)).
      { intros r Hr. apply (HOk sk b); [done|done|lia|done]. }
      clear HOk HErr IH. unfold init_match, l2_of in Hskip, Hmatch. unfold ctrl_of in Hc.
      destruct (parse_cases b Hb) as [[f Hp]|[e Hp]]; rewrite Hp in *; [|done]. injection Hc as Hc.
      destruct (decode_l2_returns (E:=SessionError) (payload f)) as [o Ho]. rewrite Ho in *.
      apply wp_bind, wp_lift. destruct o as [[h d]|]; [|by apply Hskip].
      cbn [mbind option_bind] in *. destruct (Z.eqb_spec (pkt_id h) want) as [He|He]; cbn [negb].
      * destruct (bool_decide (local_bt f = bt)) eqn:Hbt; cbn [negb].
        -- apply bool_decide_eq_true in Hbt. apply wp_ret, Hmatch. by rewrite decide_True.
        -- apply bool_decide_eq_false in Hbt. apply Hskip. by rewrite decide_False by (intros (?&?&?); done).
      * apply Hskip. by rewrite decide_False by (intros (?&?&?); done).
    + intros sk e t' Hsk Hl Htr' He. unfold L1_ATTEMPTS in Hl. apply (HErr sk); [|lia|done|done].
      eapply Forall_impl; [exact Hsk|]. intros; by apply init_match_ctrl.
Qed.

(* ------------------------------------------------------------------ *)
(** ** Lemmas: the phases of the handshake                             *)
(* ------------------------------------------------------------------ *)

(** The logon loop keeps the last rejecting reply it saw. *)
Definition last_reject_of (pkt : Z) (acc : option L2Reply) (cs : list (list Z)) : option L2Reply :=
  foldl (λ acc b, match logon_match pkt b with Some r => Some r | None => acc end) acc cs.

Definition rejects (pkt : Z) (cs : list (list Z)) : Prop :=
  Forall (λ b, ∀ r, logon_match pkt b = Some r → r_error_code r ≠ 0) cs.

(** What the logon loop says of the frames it consumed. *)
Definition logon_says (pkt : Z) (acc : option L2Reply) (cs : list (list Z))
    (res : option L2Reply * option L2Reply) : Prop :=
  match res with
  | (Some reply, _) => ∃ skipped b, cs = skipped ++ [b] ∧ rejects pkt skipped ∧
      logon_match pkt b = Some reply ∧ r_error_code reply = 0
  | (None, rej) => rejects pkt cs ∧ rej = last_reject_of pkt acc cs
  end.

Lemma rejects_ctrl pkt sk : Forall (λ b, ctrl_of b ≠ Some 1) sk → rejects pkt sk.
Proof.
  intros Hsk. eapply Forall_impl; [exact Hsk|]. intros b Hb r. by rewrite logon_match_ctrl.
Qed.

Lemma last_reject_ctrl pkt acc sk :
  Forall (λ b, ctrl_of b ≠ Some 1) sk → last_reject_of pkt acc sk = acc.
Proof. induction 1 as [|b sk Hb _ IH]; [done|]. cbn. by rewrite logon_match_ctrl. Qed.

Lemma logon_says_more pkt acc sk res cs :
  rejects pkt sk → logon_says pkt (last_reject_of pkt acc sk) cs res →
  logon_says pkt acc (sk ++ cs) res.
Proof.
  intros Hsk. destruct res as [[reply|] rej]; cbn.
  - intros (sk' & b & -> & Hr & Hm & He). exists (sk ++ sk'), b. rewrite <-app_assoc.
    split; [done|]. split; [by apply Forall_app|done].
  - intros [Hr ->]. split; [by apply Forall_app|]. unfold last_reject_of. by rewrite foldl_app.
Qed.

Lemma wp_logon_loop t0 fs cs n pkt acc s (Q : outcome SessionError _ → Session T → Prop) :
  ttrace t0 (transport s) fs cs →
  (∀ consumed res t', ttrace t0 t' fs (cs ++ consumed) → (length consumed ≤ n * 12)%nat →
     logon_says pkt acc consumed res → Q (Ok res) (set_transport t' s)) →
  wp (logon_loop n pkt acc) s Q.
Proof.
  revert s cs acc. induction n as [|n IH]; intros s cs acc Htr HOk; cbn [logon_loop].
  - apply wp_ret. replace s with (set_transport (transport s) s) by by destruct s.
    apply (HOk []); [by rewrite app_nil_r|simpl; lia|split; constructor].
  - apply wp_bind, wp_attempt. eapply wp_recv_until; [exact Htr|..].
    + intros sk b t' Hb Hc Hsk Hl Htr'. unfold L1_ATTEMPTS in Hl.
      pose proof (rejects_ctrl pkt sk Hsk) as Hrej. pose proof (last_reject_ctrl pkt acc sk Hsk) as Hlast.
      assert (Hmore : ∀ acc', (∀ r, logon_match pkt b = Some r → r_error_code r ≠ 0) →
        acc' = last_reject_of pkt acc (sk ++ [b]) →
        wp (logon_loop n pkt acc') (set_transport t' s) Q).
      { intros acc' Hno ->. eapply IH; [exact Htr'|].
        intros cs2 res t2 Ht Hl2 Hsays. rewrite set_transport_set. apply (HOk ((sk ++ [b]) ++ cs2)).
        - by rewrite (app_assoc cs).
        - rewrite !length_app. simpl. lia.
        - apply logon_says_more; [|done]. apply Forall_app. by repeat constructor. }
      assert (Hnone : logon_match pkt b = None → wp (logon_loop n pkt acc) (set_transport t' s) Q).
      { intros Hno. apply Hmore; [by rewrite Hno|]. unfold last_reject_of. rewrite foldl_app.
        fold (last_reject_of pkt acc sk). cbn. by rewrite Hno. }
      assert (Hhit : ∀ r, logon_match pkt b = Some r → r_error_code r = 0 →
        Q (Ok (Some r, acc)) (set_transport t' s)).
      { intros r Hm He. apply (HOk (sk ++ [b])); [done|rewrite length_app; simpl; lia|].
        exists sk, b. done. }
      assert (Hrejd : ∀ r, logon_match pkt b = Some r → r_error_code r ≠ 0 →
        wp (logon_loop n pkt (Some r)) (set_transport t' s) Q).
      { intros r Hm He. apply Hmore; [intros r'; rewrite Hm; by intros [= <-]|].
        unfold last_reject_of. rewrite foldl_app. cbn. by rewrite Hm. }
      clear HOk IH Hmore. unfold logon_match, l2_of in Hnone, Hhit, Hrejd. unfold ctrl_of in Hc.
      destruct (parse_cases b Hb) as [[f Hp]|[e Hp]]; rewrite Hp in *; [|done]. injection Hc as Hc.
      destruct (decode_l2_returns (E:=SessionError) (payload f)) as [o Ho]. rewrite Ho in *.
      apply wp_bind, wp_lift. destruct o as [[h d]|]; [|by apply Hnone].
      cbn [mbind option_bind] in *. destruct (Z.eqb_spec (pkt_id h) pkt) as [He|He]; cbn [negb].
      * rewrite decide_True in Hhit, Hrejd by done.
        destruct (Z.eqb_spec (r_error_code (reply_of h d)) 0) as [Hz|Hz]; [by apply Hhit|by apply Hrejd].
      * apply Hnone. by rewrite decide_False by (intros []; done).
    + intros sk e t' Hsk Hl Htr' _. unfold L1_ATTEMPTS in Hl. cbn beta iota.
      apply wp_ret, (HOk sk); [done|simpl; lia|].
      split; [by apply rejects_ctrl|by rewrite last_reject_ctrl].
Qed.

(** The topology listing: one entry per 8 bytes, never out of range. *)
Lemma topology_peers_ok fuel payload ptr peers :
  (ptr ≤ length payload < ptr + 8 * fuel)%nat →
  ∃ peers', topology_peers fuel payload ptr peers = Ok (peers ++ peers') ∧
    length peers' = ((length payload - ptr) / 8)%nat.
Proof.
  revert ptr peers. induction fuel as [|fuel IH]; intros ptr peers Hf; [lia|]. cbn [topology_peers].
  case_decide as Hle.
  - rewrite slice_Ok by lia. cbn [mbind outcome_bind].
    destruct (lookup_lt_is_Some_2 payload (ptr + 6)) as [lo Hlo]; [lia|].
    destruct (lookup_lt_is_Some_2 payload (ptr + 7)) as [hi Hhi]; [lia|].
    unfold index. rewrite Hlo, Hhi. cbn [mbind outcome_bind].
    match goal with |- context [peers ++ [?x]] => destruct (IH (ptr + 8)%nat (peers ++ [x])) as (ps & E & Hl) end; [lia|].
    eexists (_ :: ps). rewrite E, <-app_assoc. split; [done|]. cbn [length]. rewrite Hl.
    replace (length payload - ptr)%nat with (length payload - (ptr + 8) + 1 * 8)%nat by lia.
    rewrite Nat.div_add by lia. lia.
  - exists []. rewrite app_nil_r. split; [done|]. rewrite Nat.div_small by lia. done.
Qed.

Lemma log_topology_Ok b : ∃ peers, log_topology b = Ok peers ∧ length peers = ((length b - 18) / 8)%nat.
Proof.
  unfold log_topology. case_decide as Hl.
  - rewrite slice_from_Ok by lia. cbn [mbind outcome_bind].
    destruct (topology_peers_ok (S (length (drop 18 b))) (drop 18 b) 0 []) as (ps & -> & Hps); [lia|].
    exists ps. split; [done|]. by rewrite Hps, length_drop, Nat.sub_0_r.
  - exists []. split; [done|]. rewrite Nat.div_small by lia. done.
Qed.

(** The hello frame: its control word, firmware byte and NetID. *)
Definition hello_ok (b : list Z) (f : Frame) (net_id : Z) : Prop :=
  parse b = Ok f ∧ control f = 2 ∧ b !! 22%nat = Some net_id ∧ ∃ fw, b !! 19%nat = Some fw ∧ 4 <= fw.

(** Failures before the logon replies are judged. *)
Definition early_failure (e : SessionError) : Prop :=
  is_session_fatal e = true ∧ ∀ code, e ≠ LogonFailed code.

Lemma recv_failure_early phase e :
  recv_failure phase e → phase ≠ "query" → phase ≠ "event-log" → early_failure e.
Proof.
  intros [->|[te ->]] Hq Hl; (split; [|done]); [|done]. cbn.
  by rewrite bool_decide_false by (intros [?|?]; done).
Qed.

Lemma wp_hello_phase t0 s (Q : outcome SessionError (Z * list Z) → Session T → Prop) :
  ttrace t0 (transport s) [] [] →
  (∀ b f net_id t', hello_ok b f net_id → bytes b →
     ttrace t0 t' [ver_frame; echo_frame net_id (local_bt f)] [b] →
     Q (Ok (net_id, local_bt f)) (set_transport t' s)) →
  (∀ fs cs e t', ttrace t0 t' fs cs → fs = [] ∨ fs = [ver_frame] → (length cs ≤ 1)%nat →
     early_failure e → Q (Err e) (set_transport t' s)) →
  wp hello_phase s Q.
Proof.
  intros Htr HOk HErr. unfold hello_phase. apply wp_bind. eapply wp_send; [exact Htr|..].
  2:{ intros e t' Ht. apply (HErr [] []); [done|by left|simpl; lia|done]. }
  intros t1 Ht1. apply wp_bind. eapply wp_recv; [exact Ht1|..].
  2:{ intros e t' Ht He. apply (HErr [ver_frame] []); [done|by right|simpl; lia|].
      by eapply recv_failure_early. }
  intros b t2 Hb Ht2. apply wp_bind, wp_lift.
  assert (Hfail : ∀ e, early_failure e → Q (Err e) (set_transport t2 (set_transport t1 s))).
  { intros e He. apply (HErr [ver_frame] [b]); [done|by right|simpl; lia|done]. }
  destruct (parse_cases b Hb) as [[f Hp]|[e Hp]]; rewrite Hp; cbn [map_err]; [|by apply Hfail].
  destruct (Z.eqb_spec (control f) 2) as [Hc|Hc]; cbn [negb]; [|by apply wp_throw, Hfail].
  case_decide as Hl; [by apply wp_throw, Hfail|].
  destruct (lookup_lt_is_Some_2 b 19) as [fw Hfw]; [lia|].
  destruct (lookup_lt_is_Some_2 b 22) as [net Hnet]; [lia|].
  unfold index. rewrite Hfw, Hnet. apply wp_bind, wp_lift.
  destruct (fw <? 4) eqn:Hlt; [by apply wp_throw, Hfail|]. apply Z.ltb_ge in Hlt.
  apply wp_bind, wp_lift, wp_bind. eapply wp_send; [exact Ht2|..].
  - intros t3 Ht3. apply wp_ret. eapply HOk; [|done|exact Ht3]. split; [done|]. eauto.
  - intros e t3 Ht3. apply (HErr [ver_frame] [b]); [done|by right|simpl; lia|done].
Qed.

(* ------------------------------------------------------------------ *)
(** ** The handshake                                                   *)
(* ------------------------------------------------------------------ *)

(** The five frames of a handshake, the packet ids following [p]. *)
Definition handshake_frames (c : SessionConfig) (app p net_id : Z) (bt : list Z) (now : Z) : list (list Z) :=
  let p1 := pcktid_succ p in let p2 := pcktid_succ p1 in let p3 := pcktid_succ p2 in
  [ver_frame; echo_frame net_id bt;
   l2_frame c (build_init_body p1 app); l2_frame c (build_logoff_body p2 app);
   l2_frame c (build_logon_body (password c) (user_group c) p3 app now)].

(** The replies that make a handshake succeed, in order, each preceded by
    frames that do not qualify. *)
Definition handshake_replies (p : Z) (b : list Z) (f : Frame) (net_id : Z) (init : L2Reply)
    (cs : list (list Z)) : Prop :=
  ∃ sk1 topo sk2 ib sk3 lb lr,
    hello_ok b f net_id ∧
    cs = [b] ++ (sk1 ++ [topo]) ++ (sk2 ++ [ib]) ++ (sk3 ++ [lb]) ∧
    Forall (λ b, ctrl_of b ≠ Some 5) sk1 ∧ ctrl_of topo = Some 5 ∧
    Forall (λ b, init_match (pcktid_succ p) (local_bt f) b = None) sk2 ∧
    init_match (pcktid_succ p) (local_bt f) ib = Some init ∧
    rejects (pcktid_succ (pcktid_succ (pcktid_succ p))) sk3 ∧
    logon_match (pcktid_succ (pcktid_succ (pcktid_succ p))) lb = Some lr ∧ r_error_code lr = 0.

(** How far an unfinished handshake got: packet ids used, and the inverter's
    ids when its reply was seen. *)
Definition handshake_partial s s' (bt : list Z) (cs : list (list Z)) : Prop :=
  (∃ j, (j ≤ 3)%nat ∧ pcktid s' = Nat.iter j pcktid_succ (pcktid s)) ∧
  (inverter_susy_id s' = inverter_susy_id s ∧ inverter_serial s' = inverter_serial s ∨
   ∃ ib init, ib ∈ cs ∧ init_match (pcktid_succ (pcktid s)) bt ib = Some init ∧
     inverter_susy_id s' = r_app_susy_id init ∧ inverter_serial s' = r_app_serial init).

Definition handshake_post (now : Z) (s : Session T) (r : outcome SessionError ()) (s' : Session T) : Prop :=
  cfg s' = cfg s ∧ s_app_serial s' = s_app_serial s ∧
  ∃ net_id bt k cs,
    ttrace (transport s) (transport s')
      (take k (handshake_frames (cfg s) (s_app_serial s) (pcktid s) net_id bt now)) cs ∧
    (length cs ≤ 397)%nat ∧ addr_ok bt ∧ is_u8 net_id ∧
    match r with
    | Ok _ => state s' = LoggedIn ∧ k = 5%nat ∧
        pcktid s' = pcktid_succ (pcktid_succ (pcktid_succ (pcktid s))) ∧
        ∃ b f init, handshake_replies (pcktid s) b f net_id init cs ∧ bt = local_bt f ∧
          inverter_susy_id s' = r_app_susy_id init ∧ inverter_serial s' = r_app_serial init
    | Err e => (state s' = Handshaking ∨ state s' = Enumerating) ∧ is_session_fatal e = true ∧
        handshake_partial s s' bt cs ∧
        ∀ code, e = LogonFailed code →
          let p3 := pcktid_succ (pcktid_succ (pcktid_succ (pcktid s))) in
          ∃ cs0 cs3 rej, cs = cs0 ++ cs3 ∧ rejects p3 cs3 ∧
            last_reject_of p3 None cs3 = Some rej ∧ r_error_code rej = code
    | Panic => False
    end.

Lemma wp_next_pcktid s (Q : outcome SessionError Z → Session T → Prop) :
  Q (Ok (pcktid_succ (pcktid s))) (set_pcktid (pcktid_succ (pcktid s)) s) →
  wp next_pcktid s Q.
Proof. intros HQ. unfold next_pcktid. apply wp_bind, wp_gets, wp_bind, wp_modify, wp_gets. done. Qed.

Lemma addr_ok_zero : addr_ok (replicate 6 0).
Proof. split; [done|by_decide]. Qed.

(** A failure after the first [k] frames, in whatever state of the handshake. *)
Lemma handshake_fails now s s' net_id bt k fs cs e :
  cfg s' = cfg s → s_app_serial s' = s_app_serial s → addr_ok bt → is_u8 net_id →
  ttrace (transport s) (transport s') fs cs →
  fs = take k (handshake_frames (cfg s) (s_app_serial s) (pcktid s) net_id bt now) →
  (length cs ≤ 397)%nat → (state s' = Handshaking ∨ state s' = Enumerating) →
  handshake_partial s s' bt cs → early_failure e → handshake_post now s (Err e) s'.
Proof.
  intros ? ? ? ? ? -> ? ? ? [? Hno]. split; [done|]. split; [done|]. exists net_id, bt, k, cs.
  repeat (split; [done|]). intros code ->. by destruct (Hno code).
Qed.

Lemma partial_none j s s' bt cs :
  (j ≤ 3)%nat → pcktid s' = Nat.iter j pcktid_succ (pcktid s) →
  inverter_susy_id s' = inverter_susy_id s → inverter_serial s' = inverter_serial s →
  handshake_partial s s' bt cs.
Proof. intros. split; [eauto|by left]. Qed.

Lemma partial_some j ib init s s' bt cs :
  (j ≤ 3)%nat → pcktid s' = Nat.iter j pcktid_succ (pcktid s) → ib ∈ cs →
  init_match (pcktid_succ (pcktid s)) bt ib = Some init →
  inverter_susy_id s' = r_app_susy_id init → inverter_serial s' = r_app_serial init →
  handshake_partial s s' bt cs.
Proof. intros. split; [eauto|right; by exists ib, init]. Qed.

(** The logon, after the init reply [ib]: what was received before is [b], the
    topology after [sk1], and [ib] after [sk2]. *)
Lemma handshake_logon now t c st asr p su se b f net sk1 topo sk2 ib init t6 :
  let p3 := pcktid_succ (pcktid_succ (pcktid_succ p)) in
  let cs := b :: (sk1 ++ [topo]) ++ sk2 ++ [ib] in
  addr_ok (local_bt f) → is_u8 net → hello_ok b f net → ctrl_of topo = Some 5 →
  Forall (λ b, ctrl_of b ≠ Some 5) sk1 → (length sk1 < 12)%nat →
  init_match (pcktid_succ p) (local_bt f) ib = Some init →
  Forall (λ b, init_match (pcktid_succ p) (local_bt f) b = None) sk2 → (length sk2 < 16 * 12)%nat →
  ttrace t t6 (handshake_frames c asr p net (local_bt f) now) cs →
  wp (logon_loop 16 p3 None ≫= λ '(logged_in, last_reject), logon_verdict logged_in last_reject)
    (mkSession t6 c Enumerating asr p3 (r_app_susy_id init) (r_app_serial init))
    (handshake_post now (mkSession t c st asr p su se)).
Proof.
  intros p3 cs Hbt Hnet Hhello Htopo Hsk1 Hl1 Hinit Hsk2 Hl2 Ht6. apply wp_bind. eapply wp_logon_loop; [exact Ht6|].
  intros cs3 res t7 Ht7 Hl3 Hsays. sess.
  assert (Hlen : (length (b :: (sk1 ++ [topo]) ++ (sk2 ++ [ib]) ++ cs3) ≤ 397)%nat) by len.
  unfold cs in Ht7. cbn [app] in Ht7. rewrite <-!app_assoc in Ht7.
  destruct res as [[reply|] rej]; cbn in Hsays.
  - apply wp_modify. sess. destruct Hsays as (sk3 & lb & -> & Hrej & Hm & Hz).
    split; [done|]. split; [done|]. exists net, (local_bt f), 5%nat, (b :: (sk1 ++ [topo]) ++ (sk2 ++ [ib]) ++ sk3 ++ [lb]).
    cbn. rewrite <-!app_assoc in *. split; [exact Ht7|]. split; [exact Hlen|]. repeat (split; [done|]).
    exists b, f, init. split; [|done]. exists sk1, topo, sk2, ib, sk3, lb, reply. cbn. by rewrite <-!app_assoc.
  - destruct Hsays as [Hrej Hlast].
    assert (Hend : ∀ e, is_session_fatal e = true →
      (∀ code, e = LogonFailed code → ∃ r, rej = Some r ∧ r_error_code r = code) →
      handshake_post now (mkSession t c st asr p su se) (Err e)
        (mkSession t7 c Enumerating asr (pcktid_succ (pcktid_succ (pcktid_succ p)))
           (r_app_susy_id init) (r_app_serial init))).
    { intros e He Hcode. split; [done|]. split; [done|].
      exists net, (local_bt f), 5%nat, (b :: (sk1 ++ [topo]) ++ (sk2 ++ [ib]) ++ cs3). sess.
      split; [by rewrite <-!app_assoc in *|]. split; [exact Hlen|]. split; [done|]. split; [done|].
      split; [by right|]. split; [done|].
      split; [eapply (partial_some 3 ib init); [lia|done|list_mid|done..]|]. intros code Hc. destruct (Hcode code Hc) as (r & -> & Hr).
      exists (b :: (sk1 ++ [topo]) ++ (sk2 ++ [ib])), cs3, r. by rewrite <-app_comm_cons, <-!app_assoc. }
    unfold logon_verdict. destruct rej as [rej|]; [|by apply wp_throw, Hend].
    destruct (Z.eqb_spec (r_error_code rej) 256) as [Hr|Hr]; apply wp_throw, Hend; try done;
      intros code [= <-]; eauto.
Qed.

Lemma handshake_spec now s :
  transport_ok (transport s) → wp (handshake_and_logon now) s (handshake_post now s).
Proof.
  intros Hok. destruct s as [t c st asr p su se]. sess.
  pose proof (handshake_fails now (mkSession t c st asr p su se)) as Hfail. sess.
  unfold handshake_and_logon. apply wp_bind, wp_modify, wp_bind, wp_gets, wp_bind, wp_gets, wp_bind.
  eapply (wp_hello_phase t); [by apply ttrace_refl|..].
  2:{ intros fs cs e t' Ht Hfs Hl Hf. destruct Hfs as [-> | ->].
      - eapply (Hfail _ 0 (replicate 6 0) 0%nat); sess; try done; first [apply addr_ok_zero|lia|by left|(apply (partial_none 0); done || lia)|len].
      - eapply (Hfail _ 0 (replicate 6 0) 1%nat); sess; try done; first [apply addr_ok_zero|lia|by left|(apply (partial_none 0); done || lia)|len]. }
  intros b f net t1 Hhello Hb Ht1. sess. apply wp_bind.
  assert (Hbt : addr_ok (local_bt f)) by by apply (parse_in_range b f Hb (proj1 Hhello)).
  assert (Hnet : is_u8 net) by (destruct Hhello as (_ & _ & Hn & _); by apply (bytes_lookup _ _ _ Hb Hn)).
  eapply wp_recv_until; [exact Ht1|..].
  2:{ intros sk e t' Hsk Hl Ht He. unfold L1_ATTEMPTS in Hl.
      eapply (Hfail _ net (local_bt f) 2%nat); sess; try done; [len|by left|(apply (partial_none 0); done || lia)|].
      by eapply recv_failure_early. }
  intros sk1 topo t2 Htb Htopo Hsk1 Hl1 Ht2. unfold L1_ATTEMPTS in Hl1. sess.
  apply wp_bind, wp_lift. destruct (log_topology_Ok topo) as (peers & -> & _).
  apply wp_bind, wp_modify, wp_bind, wp_next_pcktid. sess. apply wp_bind.
  eapply wp_send; [exact Ht2|..].
  2:{ intros e t' Ht. eapply (Hfail _ net (local_bt f) 2%nat); sess; try done;
        [len|by right|apply (partial_none 1); done || lia]. }
  intros t3 Ht3. apply wp_bind. eapply wp_recv_init; [exact Ht3|..].
  2:{ intros sk e t' Hsk Hl Ht He. eapply (Hfail _ net (local_bt f) 3%nat); sess; try done;
        [len|by right|apply (partial_none 1); done || lia|by eapply recv_failure_early]. }
  intros sk2 ib init t4 Hinit Hsk2 Hl2 Ht4. sess.
  apply wp_bind, wp_modify, wp_bind, wp_next_pcktid. sess. apply wp_bind.
  eapply wp_send; [exact Ht4|..].
  2:{ intros e t' Ht. eapply (Hfail _ net (local_bt f) 3%nat); sess; try done;
        [len|by right|eapply (partial_some 2 ib init); [lia|done|list_mid|done..]]. }
  intros t5 Ht5. apply wp_bind, wp_next_pcktid. sess. apply wp_bind.
  eapply wp_send; [exact Ht5|..].
  2:{ intros e t' Ht. eapply (Hfail _ net (local_bt f) 4%nat); sess; try done;
        [len|by right|eapply (partial_some 3 ib init); [lia|done|list_mid|done..]]. }
  intros t6 Ht6. by eapply handshake_logon.
Qed.

(* ------------------------------------------------------------------ *)
(** ** Queries                                                         *)
(* ------------------------------------------------------------------ *)

(** Everything but the transport and the packet id is as before. *)
Definition unchanged s s' : Prop :=
  cfg s' = cfg s ∧ state s' = state s ∧ s_app_serial s' = s_app_serial s ∧
  inverter_susy_id s' = inverter_susy_id s ∧ inverter_serial s' = inverter_serial s.

Definition query_frame s (kind : QueryKind) (susy serial : Z) : list Z :=
  l2_frame (cfg s) (build_query_body kind (pcktid_succ (pcktid s)) (s_app_serial s) susy serial).

Definition query_post (kind : QueryKind) (susy serial : Z) s (r : outcome SessionError (list Z)) s' : Prop :=
  let p := pcktid_succ (pcktid s) in
  unchanged s s' ∧ pcktid s' = p ∧
  ∃ fs cs, ttrace (transport s) (transport s') fs cs ∧ (length cs ≤ 16)%nat ∧
    match r with
    | Ok body => fs = [query_frame s kind susy serial] ∧
        ∃ skipped b reply, cs = skipped ++ [b] ∧ Forall (λ b, l2_match p b = None) skipped ∧
          l2_match p b = Some reply ∧ body = r_body reply
    | Err e => Forall (λ b, l2_match p b = None) cs ∧
        (fs = [query_frame s kind susy serial] ∧ recv_failure "query" e ∨
         fs = [] ∧ cs = [] ∧ ∃ te, e = TransportErr te)
    | Panic => False
    end.

Lemma query_spec kind susy serial s :
  transport_ok (transport s) → state s = LoggedIn →
  wp (query_for_device susy serial kind) s (query_post kind susy serial s).
Proof.
  intros Hok Hst. destruct s as [t c st asr p su se]. sess. subst st.
  unfold query_for_device. apply wp_bind, wp_gets. sess. rewrite bool_decide_true by done. cbn [negb].
  apply wp_bind, wp_next_pcktid. sess. apply wp_bind, wp_gets, wp_bind, wp_gets, wp_bind. sess.
  eapply wp_send; [by apply (ttrace_refl t)|..].
  - intros t1 Ht1. sess. apply wp_bind. eapply wp_recv_l2; [exact Ht1|..].
    + intros sk b reply t2 Hm Hsk Hl Ht2. unfold L2_ATTEMPTS in Hl. apply wp_ret. split; [done|]. split; [done|].
      exists [query_frame (mkSession t c LoggedIn asr p su se) kind susy serial], (sk ++ [b]).
      split; [done|]. split; [len|]. split; [done|]. by exists sk, b, reply.
    + intros sk e t2 Hsk Hl Ht2 He. unfold L2_ATTEMPTS in Hl. split; [done|]. split; [done|].
      exists [query_frame (mkSession t c LoggedIn asr p su se) kind susy serial], sk.
      split; [done|]. split; [len|]. split; [done|]. by left.
  - intros e t1 Ht1. sess. split; [done|]. split; [done|]. exists [], [].
    split; [done|]. split; [simpl; lia|]. split; [constructor|]. right. by eauto.
Qed.

(* ------------------------------------------------------------------ *)
(** ** The event log                                                   *)
(* ------------------------------------------------------------------ *)

Definition fragments_of (pkt : Z) (cs : list (list Z)) : list L2Reply := omap (l2_match pkt) cs.

(** When collecting stops: after [n] fragments, or at the first whose body
    has at most 12 bytes. *)
Fixpoint stops_at (n : nat) (rs : list L2Reply) : Prop :=
  match n, rs with
  | O, [] => True
  | S n, r :: rs => r_error_code r = 0 ∧
      if decide (length (r_body r) ≤ 12)%nat then rs = [] else stops_at n rs
  | _, _ => False
  end.

Lemma fragments_skip pkt sk cs :
  Forall (λ b, l2_match pkt b = None) sk → fragments_of pkt (sk ++ cs) = fragments_of pkt cs.
Proof. induction 1 as [|b sk Hb _ IH]; [done|]. cbn. unfold fragments_of in *. cbn. by rewrite Hb. Qed.

Lemma fragments_one pkt b r : l2_match pkt b = Some r → fragments_of pkt [b] = [r].
Proof. intros Hb. unfold fragments_of. cbn. by rewrite Hb. Qed.

Definition collect_failure (rs : list L2Reply) (e : SessionError) : Prop :=
  recv_failure "event-log" e ∨
  e = Protocol "event-log-retcode" ∧ ∃ r, last rs = Some r ∧ r_error_code r ≠ 0.

Lemma wp_collect t0 fs cs n pkt acc s (Q : outcome SessionError (list Z) → Session T → Prop) :
  ttrace t0 (transport s) fs cs →
  (∀ consumed t', ttrace t0 t' fs (cs ++ consumed) → (length consumed ≤ n * 16)%nat →
     stops_at n (fragments_of pkt consumed) →
     Q (Ok (acc ++ concat (map r_body (fragments_of pkt consumed)))) (set_transport t' s)) →
  (∀ consumed e t', ttrace t0 t' fs (cs ++ consumed) → (length consumed ≤ n * 16)%nat →
     collect_failure (fragments_of pkt consumed) e → Q (Err e) (set_transport t' s)) →
  wp (collect_fragments n pkt acc) s Q.
Proof.
  revert s cs acc. induction n as [|n IH]; intros s cs acc Htr HOk HErr; cbn [collect_fragments].
  - apply wp_ret. replace s with (set_transport (transport s) s) by by destruct s.
    specialize (HOk [] (transport s)). cbn [app fragments_of omap list_omap map concat] in HOk.
    rewrite !app_nil_r in HOk. apply HOk; [done|simpl; lia|done].
  - apply wp_bind. eapply wp_recv_l2; [exact Htr|..].
    + intros sk b reply t' Hm Hsk Hl Htr'. unfold L2_ATTEMPTS in Hl.
      assert (Hfr : ∀ cs2, fragments_of pkt ((sk ++ [b]) ++ cs2) = reply :: fragments_of pkt cs2).
      { intros cs2. rewrite <-app_assoc, fragments_skip by done. unfold fragments_of. cbn. by rewrite Hm. }
      assert (Hfr0 : fragments_of pkt (sk ++ [b]) = [reply]).
      { rewrite <-(app_nil_r (sk ++ [b])), Hfr. done. }
      destruct (Z.eqb_spec (r_error_code reply) 0) as [Hz|Hz]; cbn [negb].
      2:{ apply wp_throw, (HErr (sk ++ [b])); [done|len|]. right. split; [done|]. rewrite Hfr0. by exists reply. }
      assert (Hstop : (length (r_body reply) ≤ 12)%nat → Q (Ok (acc ++ r_body reply)) (set_transport t' s)).
      { intros Hle. specialize (HOk (sk ++ [b]) t'). rewrite Hfr0 in HOk. cbn [map concat] in HOk.
        rewrite app_nil_r in HOk. apply HOk; [done|len|]. cbn. by rewrite decide_True. }
      case_decide as H12; [apply wp_ret, Hstop; lia|]. case_decide as H12'; [apply wp_ret, Hstop; lia|].
      eapply IH; [exact Htr'|..].
      * intros cs2 t2 Ht Hl2 Hst. rewrite <-app_assoc, set_transport_set. specialize (HOk ((sk ++ [b]) ++ cs2) t2).
        rewrite Hfr in HOk. cbn [map concat] in HOk. apply HOk; [by rewrite (app_assoc cs)|len|].
        cbn. rewrite decide_False by lia. done.
      * intros cs2 e t2 Ht Hl2 He. rewrite set_transport_set. apply (HErr ((sk ++ [b]) ++ cs2)); [by rewrite (app_assoc cs)|len|].
        rewrite Hfr. destruct He as [He|(-> & r & Hlast & Hr)]; [by left|]. right. split; [done|]. exists r.
        split; [|done]. destruct (fragments_of pkt cs2); [done|]. exact Hlast.
    + intros sk e t' Hsk Hl Htr' He. unfold L2_ATTEMPTS in Hl. apply (HErr sk); [done|lia|by left].
Qed.

Definition event_log_frame s (susy serial from until : Z) : list Z :=
  l2_frame (cfg s) (build_event_log_body (pcktid_succ (pcktid s)) (s_app_serial s) susy serial from until).

Definition event_log_post (susy serial from until : Z) s (r : outcome SessionError (list Z)) s' : Prop :=
  let p := pcktid_succ (pcktid s) in
  unchanged s s' ∧ pcktid s' = p ∧
  ∃ fs cs, ttrace (transport s) (transport s') fs cs ∧ (length cs ≤ 512)%nat ∧
    match r with
    | Ok body => fs = [event_log_frame s susy serial from until] ∧ stops_at 32 (fragments_of p cs) ∧
        body = concat (map r_body (fragments_of p cs))
    | Err e =>
        fs = [event_log_frame s susy serial from until] ∧ collect_failure (fragments_of p cs) e ∨
        fs = [] ∧ cs = [] ∧ ∃ te, e = TransportErr te
    | Panic => False
    end.

Lemma event_log_spec susy serial from until s :
  transport_ok (transport s) → state s = LoggedIn →
  wp (query_event_log_for_device susy serial from until) s (event_log_post susy serial from until s).
Proof.
  intros Hok Hst. destruct s as [t c st asr p su se]. sess. subst st.
  unfold query_event_log_for_device. apply wp_bind, wp_gets. sess. rewrite bool_decide_true by done. cbn [negb].
  apply wp_bind, wp_next_pcktid. sess. apply wp_bind, wp_gets, wp_bind, wp_gets, wp_bind. sess.
  set (fr := l2_frame c _).
  eapply wp_send; [by apply (ttrace_refl t)|..].
  - intros t3 Ht3. sess. eapply wp_collect; [exact Ht3|..].
    + intros cs t4 Ht4 Hl Hst. split; [done|]. split; [done|]. exists [fr], cs. unfold MAX_FRAGMENTS in *.
      split; [done|]. split; [lia|]. done.
    + intros cs e t4 Ht4 Hl He. split; [done|]. split; [done|]. exists [fr], cs. unfold MAX_FRAGMENTS in *.
      split; [done|]. split; [lia|]. by left.
  - intros e t3 Ht3. sess. split; [done|]. split; [done|]. exists [], [].
    split; [done|]. split; [simpl; lia|]. right. by eauto.
Qed.

(* ------------------------------------------------------------------ *)
(** ** Closing                                                         *)
(* ------------------------------------------------------------------ *)

Lemma wp_close t0 fs cs s (Q : outcome SessionError () → Session T → Prop) :
  ttrace t0 (transport s) fs cs →
  (∀ r t', r ≠ Panic → ttrace t0 t' fs cs → Q r (set_transport t' (set_state Disconnected s))) →
  wp close s Q.
Proof.
  intros [Ho Hs Hi] HQ. unfold close. apply wp_bind, wp_modify, wp_map_error.
  pose proof (close_law (transport s) Ho) as Hl. unfold wp, on_transport in *. sess.
  destruct (close_transport (transport s)) as [r t']. cbn in *. destruct Hl as (Ho' & Hs' & Hi' & Hr).
  apply HQ; [by destruct r|]. split; [done|by rewrite Hs'|by rewrite Hi'].
Qed.

Definition logoff_frame s : list Z :=
  l2_frame (cfg s) (build_logoff_body (pcktid_succ (pcktid s)) (s_app_serial s)).

Definition graceful_post s (r : outcome SessionError ()) s' : Prop :=
  r ≠ Panic ∧ state s' = Disconnected ∧ cfg s' = cfg s ∧ s_app_serial s' = s_app_serial s ∧
  inverter_susy_id s' = inverter_susy_id s ∧ inverter_serial s' = inverter_serial s ∧
  pcktid s' = (if decide (state s = LoggedIn) then pcktid_succ (pcktid s) else pcktid s) ∧
  ∃ fs, ttrace (transport s) (transport s') fs [] ∧
    (fs = [] ∨ fs = [logoff_frame s] ∧ state s = LoggedIn).

Lemma graceful_close_spec s :
  transport_ok (transport s) → wp graceful_close s (graceful_post s).
Proof.
  intros Hok. destruct s as [t c st asr p su se]. sess.
  unfold graceful_close. apply wp_bind, wp_gets, wp_bind. sess.
  destruct (decide (st = LoggedIn)) as [->|Hst].
  - rewrite bool_decide_true by done. apply wp_bind, wp_next_pcktid. sess.
    apply wp_bind, wp_gets, wp_bind, wp_gets, wp_bind, wp_attempt. sess.
    eapply wp_send; [by apply (ttrace_refl t)|..].
    + intros t1 Ht1. cbn beta iota. apply wp_ret. eapply wp_close; [exact Ht1|].
      intros r t2 Hr Ht2. sess. repeat (split; [done|]). eexists. split; [exact Ht2|]. by right.
    + intros e t1 Ht1. cbn beta iota. apply wp_ret. eapply wp_close; [exact Ht1|].
      intros r t2 Hr Ht2. sess. repeat (split; [done|]). eexists. split; [exact Ht2|]. by left.
  - rewrite bool_decide_false by done. apply wp_ret. eapply wp_close; [by apply (ttrace_refl t)|].
    intros r t2 Hr Ht2. sess. repeat (split; [done|]). split; [by rewrite decide_False|].
    eexists. split; [exact Ht2|]. by left.
Qed.

End spec.
