(* ===== verification/SessionProps.v ===== *)
(** * Theorems on sessions (inverter-client/src/session.rs)

    The properties of [Session.v], from the rules of [SessionSpec.v]:
    what success and failure of each method mean on every transport, that a
    healthy transport carrying the right replies makes them succeed, the
    packet-id defect, and the invariant of all call sequences. *)
From Stdlib Require Import String.
From S2P Require Import Prelude Constants Fcs Frame Packet Framer Transport Commands Session SessionSpec.
Import Query Auth.

Local Open Scope string_scope.
Local Open Scope list_scope.
Local Open Scope Z_scope.

#[local] Opaque ver_frame echo_frame l2_frame pcktid_succ parse decode_l2 build_init_body
  build_logoff_body build_logon_body build_query_body build_event_log_body.

(* ------------------------------------------------------------------ *)
(** ** Lemmas: a healthy transport                                     *)
(* ------------------------------------------------------------------ *)

Section live.
Context {T : Type} `{TransportLive T}.
Implicit Types (s : Session T).

(** [t] works and has exactly the frames [l] still to deliver. *)
Definition live (t : T) (l : list (list Z)) : Prop := transport_ok t ∧ alive t ∧ inbox t = l.

Lemma bind_run {A B} (m : prog (Session T) SessionError A) (f : A → prog (Session T) SessionError B) s a s' :
  m s = (Ok a, s') → (m ≫= f) s = f a s'.
Proof. unfold mbind, prog_bind. by intros ->. Qed.

Lemma modify_run {B} g (f : () → prog (Session T) SessionError B) s : (modify g ≫= f) s = f () (g s).
Proof. done. Qed.
Lemma gets_run {A B} g (f : A → prog (Session T) SessionError B) s : (gets g ≫= f) s = f (g s) s.
Proof. done. Qed.
Lemma next_run {B} (f : Z → prog (Session T) SessionError B) s :
  (next_pcktid ≫= f) s = f (pcktid_succ (pcktid s)) (set_pcktid (pcktid_succ (pcktid s)) s).
Proof. done. Qed.

Lemma attempt_run {A} (m : prog (Session T) SessionError A) s a s' :
  m s = (Ok a, s') → attempt (F:=SessionError) m s = (Ok (Ok a), s').
Proof. unfold attempt. by intros ->. Qed.

Lemma send_run d s l :
  live (transport s) l → ∃ t', send d s = (Ok (), set_transport t' s) ∧ live t' l.
Proof.
  intros (Ho & Ha & Hi). pose proof (send_law d _ Ho) as Hlaw. pose proof (send_live d _ Ho Ha) as Hlive.
  unfold send, mbind, prog_bind, map_error, on_transport, wp in *.
  destruct (send_frame d (transport s)) as [r t']. cbn in *. destruct Hlive as (Ha' & n & ->).
  exists t'. split; [done|]. destruct Hlaw as (?&?&?). split; [done|]. split; [done|congruence].
Qed.

Lemma recv_run phase s b l :
  live (transport s) (b :: l) → ∃ t', recv phase s = (Ok b, set_transport t' s) ∧ live t' l.
Proof.
  intros (Ho & Ha & Hi). unfold recv, mbind, prog_bind, map_error, on_transport, gets.
  pose proof (recv_law (timeout_ms (cfg s)) _ Ho) as Hlaw.
  pose proof (recv_live (timeout_ms (cfg s)) _ Ho Ha) as Hlive. rewrite Hi in *. unfold wp in *.
  destruct (recv_frame _ (transport s)) as [r t']. cbn in *. destruct Hlive as (Ha' & ->).
  exists t'. split; [done|]. destruct Hlaw as (?&?&Hin). split; [done|]. split; [done|congruence].
Qed.

Lemma recv_until_run n want phase s sk b l :
  live (transport s) (sk ++ b :: l) → Forall bytes (sk ++ [b]) →
  Forall (λ b, ctrl_of b ≠ Some want) sk → ctrl_of b = Some want → (length sk < n)%nat →
  ∃ t', recv_until_l1_ctrl n want phase s = (Ok b, set_transport t' s) ∧ live t' l.
Proof.
  revert s sk. induction n as [|n IH]; intros s sk Hl Hbs Hsk Hb Hn; [lia|]. cbn [recv_until_l1_ctrl].
  destruct sk as [|x sk].
  - destruct (recv_run phase s b l Hl) as (t' & Hr & Hl'). rewrite (bind_run _ _ _ _ _ Hr).
    unfold ctrl_of in Hb. destruct (parse b) as [f| |]; [|done..]. injection Hb as Hb.
    rewrite (proj2 (Z.eqb_eq _ _) Hb). by exists t'.
  - inversion_clear Hbs as [|?? Hx Hbs']. inversion_clear Hsk as [|?? Hx' Hsk']. simpl in Hn.
    destruct (recv_run phase s x (sk ++ b :: l) Hl) as (t' & Hr & Hl'). rewrite (bind_run _ _ _ _ _ Hr).
    destruct (IH (set_transport t' s) sk) as (t2 & Hrun & Hl2); [done..|lia|].
    exists t2. split; [|done]. rewrite set_transport_set in Hrun.
    unfold ctrl_of in Hx'. destruct (parse_cases x Hx) as [[f ->]|[e ->]] in Hx' |- *; [|done].
    rewrite (proj2 (Z.eqb_neq _ _)) by (intros ?; by apply Hx'; f_equal). done.
Qed.

Lemma recv_l2_run n want phase s sk b r l :
  live (transport s) (sk ++ b :: l) → Forall bytes (sk ++ [b]) →
  Forall (λ b, l2_match want b = None) sk → l2_match want b = Some r → (length sk < n)%nat →
  ∃ t', recv_l2_with_pkt_id n want phase s = (Ok (b, r), set_transport t' s) ∧ live t' l.
Proof.
  revert s sk. induction n as [|n IH]; intros s sk Hl Hbs Hsk Hb Hn; [lia|]. cbn [recv_l2_with_pkt_id].
  destruct sk as [|x sk].
  - destruct (recv_run phase s b l Hl) as (t' & Hr & Hl'). rewrite (bind_run _ _ _ _ _ Hr).
    unfold l2_match, l2_of in Hb. destruct (parse b) as [f| |]; [|done..].
    destruct (decode_l2_returns (E:=SessionError) (payload f)) as [o Ho]. rewrite Ho in Hb.
    destruct o as [[h d]|]; [|done]. cbn [mbind option_bind] in Hb. case_decide as Hd; [|done].
    injection Hb as <-. destruct Hd as [Hk Hp]. rewrite bool_decide_true by done. cbn [negb].
    erewrite bind_run by (unfold lift; by rewrite ?Ho). cbn beta iota. rewrite (proj2 (Z.eqb_eq _ _) Hp). by exists t'.
  - inversion_clear Hbs as [|?? Hx Hbs']. inversion_clear Hsk as [|?? Hx' Hsk']. simpl in Hn.
    destruct (recv_run phase s x (sk ++ b :: l) Hl) as (t' & Hr & Hl'). rewrite (bind_run _ _ _ _ _ Hr).
    destruct (IH (set_transport t' s) sk) as (t2 & Hrun & Hl2); [done..|lia|].
    exists t2. split; [|done]. rewrite set_transport_set in Hrun.
    unfold l2_match, l2_of in Hx'. destruct (parse_cases x Hx) as [[f Hf]|[e Hf]]; rewrite Hf in *; [|done].
    destruct (decode_l2_returns (E:=SessionError) (payload f)) as [o Ho]. rewrite Ho in *.
    destruct (bool_decide (kind f = L2Wrapped)) eqn:Hk; cbn [negb]; [|done].
    apply bool_decide_eq_true in Hk. erewrite bind_run by (unfold lift; by rewrite ?Ho). cbn beta iota.
    destruct o as [[h d]|]; [|done]. cbn [mbind option_bind] in Hx'. case_decide as Hd; [done|]. cbn beta iota.
    rewrite (proj2 (Z.eqb_neq _ _)) by (intros ?; by apply Hd). done.
Qed.

(** The first frame with control word 1 of a list that holds one. *)
Lemma first_ctrl sk b :
  ctrl_of b = Some 1 →
  ∃ sk1 x sk2, sk ++ [b] = sk1 ++ x :: sk2 ∧ Forall (λ b, ctrl_of b ≠ Some 1) sk1 ∧ ctrl_of x = Some 1 ∧
    (sk = sk1 ∧ x = b ∧ sk2 = [] ∨ ∃ sk2', sk = sk1 ++ x :: sk2' ∧ sk2 = sk2' ++ [b]).
Proof.
  intros Hb. induction sk as [|y sk IH].
  - exists [], b, []. split; [done|]. split; [constructor|]. split; [done|]. by left.
  - destruct (decide (ctrl_of y = Some 1)) as [Hy|Hy].
    + exists [], y, (sk ++ [b]). split; [done|]. split; [constructor|]. split; [done|]. right. by exists sk.
    + destruct IH as (sk1 & x & sk2 & Heq & Hn1 & Hx & Hcase). exists (y :: sk1), x, sk2.
      split; [by rewrite <-app_comm_cons, Heq|]. split; [by constructor|]. split; [done|].
      destruct Hcase as [(-> & ? & ?)|(sk2' & -> & ?)]; [by left|right; by exists sk2'].
Qed.

Lemma match_ctrl {A} (o : option A) (b : list Z) (f : Frame * L2Header * list Z → option A) :
  (l2_of b ≫= f) = o → (∀ x, f x ≠ None → control x.1.1 = 1) → o ≠ None → ctrl_of b = Some 1.
Proof.
  unfold l2_of, ctrl_of. destruct (parse b) as [fr| |]; [|by intros <-..].
  destruct (decode_l2 _) as [[[h d]|]| |]; [|by intros <-..]. cbn. intros <- Hf Hne.
  f_equal. exact (Hf (fr, h, d) Hne).
Qed.

Lemma init_match_is_ctrl want bt b r : init_match want bt b = Some r → ctrl_of b = Some 1.
Proof.
  intros Hm. eapply match_ctrl; [exact Hm| |done]. intros [[f h] d] Hne. cbn in *.
  case_decide; [naive_solver|done].
Qed.
Lemma logon_match_is_ctrl want b r : logon_match want b = Some r → ctrl_of b = Some 1.
Proof.
  intros Hm. eapply match_ctrl; [exact Hm| |done]. intros [[f h] d] Hne. cbn in *.
  case_decide; [naive_solver|done].
Qed.

(** One attempt of the loops that wait for control word 1 consumes everything
    up to the first such frame. *)
Lemma until_first_ctrl phase s sk b l :
  live (transport s) (sk ++ b :: l) → Forall bytes (sk ++ [b]) → ctrl_of b = Some 1 →
  (length sk < 12)%nat →
  (∃ t', recv_until_l1_ctrl L1_ATTEMPTS 1 phase s = (Ok b, set_transport t' s) ∧ live t' l) ∨
  (∃ sk1 x sk2 t', sk = sk1 ++ x :: sk2 ∧ bytes x ∧ ctrl_of x = Some 1 ∧
     Forall (λ b, ctrl_of b ≠ Some 1) sk1 ∧
     recv_until_l1_ctrl L1_ATTEMPTS 1 phase s = (Ok x, set_transport t' s) ∧ live t' (sk2 ++ b :: l)).
Proof.
  intros Hl Hbs Hb Hlen. destruct (first_ctrl sk b Hb) as (sk1 & x & sk2 & Heq & Hn1 & Hx & Hcase).
  destruct Hcase as [(-> & -> & ->)|(sk2' & -> & ->)].
  - left. by apply recv_until_run with sk1.
  - right. rewrite <-app_assoc, <-app_comm_cons in Hl. rewrite <-app_assoc, <-app_comm_cons in Hbs.
    apply Forall_app in Hbs as [Hb1 Hbs]. apply Forall_cons in Hbs as [Hbx _].
    destruct (recv_until_run L1_ATTEMPTS 1 phase s sk1 x (sk2' ++ b :: l)) as (t' & Hr & Hl').
    + done.
    + apply Forall_app. by repeat constructor.
    + done.
    + done.
    + rewrite length_app in Hlen. unfold L1_ATTEMPTS. lia.
    + by exists sk1, x, sk2', t'.
Qed.

Lemma recv_init_run n want bt s sk b r l :
  live (transport s) (sk ++ b :: l) → Forall bytes (sk ++ [b]) →
  Forall (λ b, init_match want bt b = None) sk → init_match want bt b = Some r →
  (length sk < 12)%nat → (length sk < n)%nat →
  ∃ t', recv_init_from_target n want bt s = (Ok r, set_transport t' s) ∧ live t' l.
Proof.
  revert s sk. induction n as [|n IH]; intros s sk Hl Hbs Hsk Hb H12 Hn; [lia|]. cbn [recv_init_from_target].
  destruct (until_first_ctrl "init" s sk b l) as [(t' & Hr & Hl')|(sk1 & x & sk2 & t' & -> & Hxb & Hx & _ & Hr & Hl')];
    [done|done|by eapply init_match_is_ctrl|done|..]; rewrite (bind_run _ _ _ _ _ Hr).
  - unfold init_match, l2_of in Hb. destruct (parse b) as [f| |]; [|done..].
    destruct (decode_l2_returns (E:=SessionError) (payload f)) as [o Ho]. rewrite Ho in Hb.
    destruct o as [[h d]|]; [|done]. cbn [mbind option_bind] in Hb. case_decide as Hd; [|done].
    injection Hb as <-. destruct Hd as (Hk & Hp & Hbt).
    erewrite bind_run by (unfold lift; by rewrite ?Ho). cbn beta iota.
    rewrite (proj2 (Z.eqb_eq _ _) Hp), bool_decide_true by done. by exists t'.
  - apply Forall_app in Hsk as [_ Hsk]. apply Forall_cons in Hsk as [Hxn Hsk].
    rewrite <-app_assoc in Hbs. apply Forall_app in Hbs as [_ Hbs]. apply Forall_cons in Hbs as [_ Hbs].
    rewrite length_app in H12, Hn. simpl in H12, Hn.
    destruct (IH (set_transport t' s) sk2) as (t2 & Hrun & Hl2); [done|done|done|done|lia|lia|].
    exists t2. split; [|done]. rewrite set_transport_set in Hrun.
    unfold init_match, l2_of in Hxn. unfold ctrl_of in Hx.
    destruct (parse_cases x Hxb) as [[f Hf]|[e Hf]]; rewrite Hf in *; [|done]. injection Hx as Hx.
    destruct (decode_l2_returns (E:=SessionError) (payload f)) as [o Ho]. rewrite Ho in *.
    erewrite bind_run by (unfold lift; by rewrite ?Ho). cbn beta iota.
    destruct o as [[h d]|]; [|done]. cbn [mbind option_bind] in Hxn. case_decide as Hd; [done|].
    destruct (Z.eqb_spec (pkt_id h) want); [|done]. cbn [negb].
    destruct (decide (local_bt f = bt)); [by destruct Hd|]. by rewrite bool_decide_false.
Qed.

Lemma logon_run n pkt acc s sk b r l :
  live (transport s) (sk ++ b :: l) → Forall bytes (sk ++ [b]) →
  rejects pkt sk → logon_match pkt b = Some r → r_error_code r = 0 →
  (length sk < 12)%nat → (length sk < n)%nat →
  ∃ t' rej, logon_loop n pkt acc s = (Ok (Some r, rej), set_transport t' s) ∧ live t' l.
Proof.
  revert s sk acc. induction n as [|n IH]; intros s sk acc Hl Hbs Hsk Hb Hz H12 Hn; [lia|]. cbn [logon_loop].
  destruct (until_first_ctrl "logon" s sk b l) as [(t' & Hr & Hl')|(sk1 & x & sk2 & t' & -> & Hxb & Hx & _ & Hr & Hl')];
    [done|done|by eapply logon_match_is_ctrl|done|..]; rewrite (bind_run _ _ _ _ _ (attempt_run _ _ _ _ Hr)); cbn beta iota.
  - unfold logon_match, l2_of in Hb. destruct (parse b) as [f| |]; [|done..].
    destruct (decode_l2_returns (E:=SessionError) (payload f)) as [o Ho]. rewrite Ho in Hb.
    destruct o as [[h d]|]; [|done]. cbn [mbind option_bind] in Hb. case_decide as Hd; [|done].
    injection Hb as <-. destruct Hd as (Hk & Hp).
    erewrite bind_run by (unfold lift; by rewrite ?Ho). cbn beta iota zeta.
    rewrite (proj2 (Z.eqb_eq _ _) Hp), (proj2 (Z.eqb_eq _ _) Hz). cbn [negb]. by exists t', acc.
  - apply Forall_app in Hsk as [_ Hsk]. apply Forall_cons in Hsk as [Hxn Hsk].
    rewrite <-app_assoc in Hbs. apply Forall_app in Hbs as [_ Hbs]. apply Forall_cons in Hbs as [_ Hbs].
    rewrite length_app in H12, Hn. simpl in H12, Hn.
    assert (Hrun : ∀ acc, ∃ t2 rej, logon_loop n pkt acc (set_transport t' s) = (Ok (Some r, rej), set_transport t2 s) ∧ live t2 l).
    { intros acc'. destruct (IH (set_transport t' s) sk2 acc') as (t2 & rej & Hrun & Hl2); [done|done|done|done|done|lia|lia|].
      exists t2, rej. by rewrite set_transport_set in Hrun. }
    unfold logon_match, l2_of in Hxn. unfold ctrl_of in Hx.
    destruct (parse_cases x Hxb) as [[f Hf]|[e Hf]]; rewrite Hf in *; [|done]. injection Hx as Hx.
    destruct (decode_l2_returns (E:=SessionError) (payload f)) as [o Ho]. rewrite Ho in *.
    erewrite bind_run by (unfold lift; by rewrite ?Ho). cbn beta iota.
    destruct o as [[h d]|]; [|apply Hrun]. cbn [mbind option_bind] in Hxn.
    destruct (Z.eqb_spec (pkt_id h) pkt) as [Hp|]; [|apply Hrun]. cbn [negb]. cbv zeta.
    rewrite decide_True in Hxn by done. rewrite (proj2 (Z.eqb_neq _ _) (Hxn _ eq_refl)). apply Hrun.
Qed.

Lemma hello_run s b f net l :
  live (transport s) (b :: l) → hello_ok b f net →
  ∃ t', hello_phase s = (Ok (net, local_bt f), set_transport t' s) ∧ live t' l.
Proof.
  intros Hl (Hp & Hc & Hn & fw & Hfw & Hge). unfold hello_phase.
  destruct (send_run ver_frame s _ Hl) as (t1 & Hr1 & Hl1). rewrite (bind_run _ _ _ _ _ Hr1).
  destruct (recv_run "hello" (set_transport t1 s) b l Hl1) as (t2 & Hr2 & Hl2).
  rewrite (bind_run _ _ _ _ _ Hr2), set_transport_set.
  rewrite (bind_run _ _ _ f (set_transport t2 s)) by (unfold lift; by rewrite Hp).
  rewrite (proj2 (Z.eqb_eq _ _) Hc). cbn [negb]. pose proof (lookup_lt_Some _ _ _ Hn).
  rewrite decide_False by lia.
  rewrite (bind_run _ _ _ fw (set_transport t2 s)) by (unfold lift, index; by rewrite Hfw).
  rewrite (proj2 (Z.ltb_ge _ _) Hge).
  rewrite (bind_run _ _ _ net (set_transport t2 s)) by (unfold lift, index; by rewrite Hn).
  destruct (send_run (echo_frame net (local_bt f)) (set_transport t2 s) l Hl2) as (t3 & Hr3 & Hl3).
  rewrite (bind_run _ _ _ _ _ Hr3). by exists t3.
Qed.
End live.

(* ------------------------------------------------------------------ *)
(** ** Lemmas: what goes out                                           *)
(* ------------------------------------------------------------------ *)

(** A frame the inverter can read: one of the two L1 frames of the handshake,
    or an L2 frame that decodes to a request of this client. *)
Definition readable (app : Z) (b : list Z) : Prop :=
  ∃ f, parse b = Ok f ∧
    (kind f = L1Only ∧ (control f = 513 ∨ control f = 2) ∨
     kind f = L2Wrapped ∧ control f = 1 ∧ dest_bt f = replicate 6 255 ∧
     ∃ h d, decode_l2 (E:=Empty_set) (payload f) = Ok (Some (h, d)) ∧
       app_serial h = app ∧ app_susy_id h = APP_SUSY_ID ∧ error_code h = 0).

Definition cfg_ok (c : SessionConfig) : Prop := addr_ok (cfg_local_bt c).

#[local] Transparent l2_frame ver_frame echo_frame.

Lemma l2_frame_readable c app h d :
  cfg_ok c → header_ok h → bytes d → (length d ≤ 1000)%nat →
  app_serial h = app → app_susy_id h = APP_SUSY_ID → error_code h = 0 →
  readable app (l2_frame c (encode_l2 h d)).
Proof.
  intros Hc Hh Hd Hl Ha Hs He. unfold l2_frame.
  set (fb := extend _ _).
  assert (Hok : builder_ok fb).
  { split; [exact Hc|]. split; [split; [done|by_decide]|]. split; [simpl; lia|].
    by apply encode_l2_bytes. }
  assert (Hp : payload_fits_kind fb) by exact (encode_l2_sig h d).
  exists (built_frame fb). split.
  - rewrite parse_build by done. pose proof (build_length fb Hok) as Hlen. cbn [fb_kind fb extend new_builder new_with_kind] in Hlen.
    pose proof (stuff_length (fb_payload fb ++ fcs_trailer (fb_payload fb))) as Hst.
    change (fb_payload fb) with (encode_l2 h d) in *.
    rewrite length_app, encode_l2_length, fcs_trailer_length in Hst.
    destruct (_ <? _) eqn:E; [done|]. apply Z.ltb_ge in E. lia.
  - right. split; [done|]. split; [done|]. split; [done|]. exists (wire_header h), d.
    split; [exact (decode_encode_l2 h d Hh)|done].
Qed.

Lemma l1_frame_readable app local dest ctrl d :
  addr_ok local → addr_ok dest → ctrl = 513 ∨ ctrl = 2 → bytes d → (length d ≤ 1000)%nat →
  ¬ starts_l2 d → readable app (build (extend (new_with_kind L1Only local dest ctrl) d)).
Proof.
  intros Hlo Hde Hc Hd Hl Hn. set (fb := extend _ _).
  assert (Hok : builder_ok fb).
  { split; [exact Hlo|]. split; [exact Hde|]. split; [simpl; lia|done]. }
  exists (built_frame fb). split.
  - rewrite parse_build by done. pose proof (build_length fb Hok : length (build fb) = (18 + length d)%nat) as Hlen.
    destruct (_ <? _) eqn:E; [done|]. apply Z.ltb_ge in E. lia.
  - left. done.
Qed.

Lemma ver_frame_readable app : readable app ver_frame.
Proof.
  apply l1_frame_readable; [apply addr_ok_zero|split; [done|by_decide]|by left|by_decide|simpl; lia|].
  unfold starts_l2. by_decide.
Qed.

Lemma echo_frame_readable app net bt : is_u8 net → addr_ok bt → readable app (echo_frame net bt).
Proof.
  intros Hn Hb. apply l1_frame_readable; [apply addr_ok_zero|done|by right| |simpl; lia|].
  - apply bytes_app_2; [apply le_encode_bytes|]. apply bytes_app_2; [apply bytes_cons; [done|apply bytes_nil]|by_decide].
  - intros [[r Hr]|[r Hr]]; discriminate Hr.
Qed.

#[local] Opaque l2_frame ver_frame echo_frame.

(** Packet ids stay in 1..65535. *)
#[local] Transparent pcktid_succ.
Lemma pcktid_succ_bound p : 1 <= pcktid_succ p < 65536.
Proof. unfold pcktid_succ. pose proof (Z.mod_pos_bound (p + 1) 65536). lia. Qed.
Lemma pcktid_succ_small p : 0 <= p < 65535 → pcktid_succ p = p + 1.
Proof. intros. unfold pcktid_succ. rewrite Z.mod_small; lia. Qed.
#[local] Opaque pcktid_succ.

#[local] Transparent build_init_body build_logoff_body build_logon_body build_query_body build_event_log_body.
Section out.
Context (c : SessionConfig) (app : Z) (Hc : cfg_ok c) (Happ : is_u32 app).

Lemma init_readable p : is_u16 p → readable app (l2_frame c (build_init_body p app)).
Proof. intros. apply l2_frame_readable; first [done | by apply header_init_ok | by_decide | simpl; lia]. Qed.
Lemma logoff_readable p : is_u16 p → readable app (l2_frame c (build_logoff_body p app)).
Proof. intros. apply l2_frame_readable; first [done | by apply header_logoff_ok | by_decide | simpl; lia]. Qed.
Lemma logon_readable p pwd g now : is_u16 p → readable app (l2_frame c (build_logon_body pwd g p app now)).
Proof.
  intros. apply l2_frame_readable; [done|by apply header_logon_ok|..|done|done|done]; unfold logon_cmd.
  - repeat (apply bytes_app_2; [first [apply le_encode_bytes|by_decide]|]). apply encode_password_bytes.
  - rewrite !length_app, !le_encode_length, encode_password_length. simpl. lia.
Qed.
Lemma query_readable p k susy serial :
  is_u16 p → is_u16 susy → is_u32 serial → readable app (l2_frame c (build_query_body k p app susy serial)).
Proof.
  intros. unfold build_query_body. destruct (opcode k) as [[o f] l].
  apply l2_frame_readable; first [done | by apply header_query_ok | solve [auto with bytes] | simpl; lia].
Qed.
Lemma event_log_readable p susy serial t1 t2 :
  is_u16 p → is_u16 susy → is_u32 serial → readable app (l2_frame c (build_event_log_body p app susy serial t1 t2)).
Proof. intros. apply l2_frame_readable; first [done | by apply header_event_ok | solve [auto with bytes] | simpl; lia]. Qed.
End out.
#[local] Opaque build_init_body build_logoff_body build_logon_body build_query_body build_event_log_body.

Lemma handshake_frames_readable c app p net bt now :
  cfg_ok c → is_u32 app → is_u8 net → addr_ok bt →
  Forall (readable app) (handshake_frames c app p net bt now).
Proof.
  intros Hc Ha Hn Hb. pose proof (pcktid_succ_bound p).
  pose proof (pcktid_succ_bound (pcktid_succ p)). pose proof (pcktid_succ_bound (pcktid_succ (pcktid_succ p))).
  unfold handshake_frames. repeat apply Forall_cons_2; try apply Forall_nil_2.
  - apply ver_frame_readable.
  - by apply echo_frame_readable.
  - apply init_readable; done || lia.
  - apply logoff_readable; done || lia.
  - apply logon_readable; done || lia.
Qed.

(* ------------------------------------------------------------------ *)
(** ** Sequences of calls                                              *)
(* ------------------------------------------------------------------ *)

(** The public methods of a session, with their arguments. *)
Inductive call : Type :=
  | CallHandshake (now : Z)
  | CallQuery (k : QueryKind)
  | CallQueryDevice (susy serial : Z) (k : QueryKind)
  | CallEventLog (susy serial from until : Z)
  | CallClose
  | CallGracefulClose.

Definition call_ok (c : call) : Prop :=
  match c with
  | CallQueryDevice susy serial _ | CallEventLog susy serial _ _ => is_u16 susy ∧ is_u32 serial
  | _ => True
  end.

Section calls.
Context {T : Type} `{TransportLaws T}.
Implicit Types (s : Session T).

(** The session after a call, whatever it returned; [None] for a panic. *)
Definition after {A} (x : outcome SessionError A * Session T) : option (Session T) :=
  match x.1 with Panic => None | _ => Some x.2 end.

Definition run_call (c : call) s : option (Session T) :=
  match c with
  | CallHandshake now => after (handshake_and_logon now s)
  | CallQuery k => after (query k s)
  | CallQueryDevice susy serial k => after (query_for_device susy serial k s)
  | CallEventLog susy serial from until => after (query_event_log_for_device susy serial from until s)
  | CallClose => after (close s)
  | CallGracefulClose => after (graceful_close s)
  end.

Fixpoint run_calls (cs : list call) s : option (Session T) :=
  match cs with
  | [] => Some s
  | c :: cs => s' ← run_call c s; run_calls cs s'
  end.

Record session_inv s : Prop := {
  si_transport : transport_ok (transport s);
  si_cfg : cfg_ok (cfg s);
  si_app : is_u32 (s_app_serial s);
  si_pkt : is_u16 (pcktid s);
  si_susy : is_u16 (inverter_susy_id s);
  si_serial : is_u32 (inverter_serial s);
  si_state : state s ≠ Degraded
}.

(** One call: the invariant, the configuration, and only readable frames. *)
Definition good_step s s' : Prop :=
  session_inv s' ∧ cfg s' = cfg s ∧ s_app_serial s' = s_app_serial s ∧
  ∃ fs, sent_log (transport s') = sent_log (transport s) ++ fs ∧ Forall (readable (s_app_serial s)) fs.

Lemma good_step_trans s1 s2 s3 : good_step s1 s2 → good_step s2 s3 → good_step s1 s3.
Proof.
  intros (_ & Hc1 & Ha1 & fs1 & Hs1 & Hf1) (Hi2 & Hc2 & Ha2 & fs2 & Hs2 & Hf2).
  split; [done|]. split; [congruence|]. split; [congruence|]. exists (fs1 ++ fs2).
  rewrite Hs2, Hs1, app_assoc. split; [done|]. apply Forall_app. by rewrite Ha1 in Hf2.
Qed.

Lemma init_match_range want bt b r :
  bytes b → init_match want bt b = Some r → is_u16 (r_app_susy_id r) ∧ is_u32 (r_app_serial r).
Proof.
  intros Hb. unfold init_match, l2_of. destruct (parse b) as [f| |] eqn:Hp; [|done..].
  destruct (parse_in_range b f Hb Hp) as [Hpl _].
  destruct (decode_l2 (payload f)) as [[[h d]|]| |] eqn:Hd; [|done..].
  apply decode_l2_Some in Hd as ((_&_&_&_&_&?&?&_) & _); [|done]. cbn. case_decide; [|done]. by intros [= <-].
Qed.

Lemma handshake_step now s r s' :
  session_inv s → handshake_post now s r s' → good_step s s' ∧ r ≠ Panic.
Proof.
  intros [Ht Hc Ha Hp Hsu Hse Hst] (Hc' & Ha' & net & bt & k & cs & Htr & _ & Hbt & Hnet & Hr).
  pose proof (inbox_bytes _ Ht) as Hib. destruct Htr as [Htok Hsent Hin]. rewrite Hin in Hib.
  apply Forall_app in Hib as [Hcs _].
  assert (Hfs : ∃ fs, sent_log (transport s') = sent_log (transport s) ++ fs ∧ Forall (readable (s_app_serial s)) fs).
  { eexists. split; [exact Hsent|]. apply Forall_take. by apply handshake_frames_readable. }
  assert (Hids : ∀ p su se, is_u16 p → is_u16 su → is_u32 se → pcktid s' = p →
    inverter_susy_id s' = su → inverter_serial s' = se → state s' ≠ Degraded → good_step s s').
  { intros p su se ? ? ? Hpk Hsu' Hse' ?. split; [|done].
    split; rewrite ?Hc', ?Ha', ?Hpk, ?Hsu', ?Hse'; done. }
  assert (Hrange : ∀ ib init, ib ∈ cs → init_match (pcktid_succ (pcktid s)) bt ib = Some init →
    is_u16 (r_app_susy_id init) ∧ is_u32 (r_app_serial init)).
  { intros ib init Hib Hm. eapply init_match_range; [|exact Hm]. by apply (proj1 (Forall_forall _ _) Hcs). }
  destruct r as [[]|e|]; [| |done]; (split; [|done]).
  - destruct Hr as (Hstate & _ & Hpk & b & f & init & Hrep & -> & Hsu' & Hse').
    destruct Hrep as (sk1 & topo & sk2 & ib & sk3 & lb & lr & _ & Hcs' & _ & _ & _ & Hm & _).
    destruct (Hrange ib init) as [Hr1 Hr2]; [rewrite Hcs'; list_mid|done|].
    pose proof (pcktid_succ_bound (pcktid_succ (pcktid_succ (pcktid s)))).
    eapply Hids; [|exact Hr1|exact Hr2|done..|by rewrite Hstate]. lia.
  - destruct Hr as (Hstate & _ & ([j [_ Hpk]] & Hid) & _).
    assert (Hj : is_u16 (Nat.iter j pcktid_succ (pcktid s))).
    { destruct j as [|j]; [done|]. pose proof (pcktid_succ_bound (Nat.iter j pcktid_succ (pcktid s))). rewrite Nat.iter_succ. lia. }
    assert (state s' ≠ Degraded) by (destruct Hstate as [-> | ->]; done).
    destruct Hid as [[Hsu' Hse']|(ib & init & Hib & Hm & Hsu' & Hse')].
    + eapply Hids; [exact Hj| | |exact Hpk|done|done|done]; done.
    + destruct (Hrange ib init Hib Hm) as [Hr1 Hr2].
      eapply Hids; [exact Hj|exact Hr1|exact Hr2|exact Hpk|done|done|done].
Qed.

(** Steps that change only transport and packet id, sending readable frames. *)
Lemma good_step_sent s s' fs cs :
  session_inv s → ttrace (transport s) (transport s') fs cs → Forall (readable (s_app_serial s)) fs →
  cfg s' = cfg s → s_app_serial s' = s_app_serial s → is_u16 (pcktid s') →
  inverter_susy_id s' = inverter_susy_id s → inverter_serial s' = inverter_serial s →
  state s' ≠ Degraded → good_step s s'.
Proof.
  intros [Ht Hc Ha Hp Hsu Hse Hst] [Htok Hsent Hin] Hfs Hc' Ha' Hp' Hsu' Hse' Hst'.
  split; [|by eauto]. split; rewrite ?Hc', ?Ha', ?Hsu', ?Hse'; done.
Qed.

Lemma query_step kind susy serial s r s' :
  session_inv s → is_u16 susy → is_u32 serial → query_post kind susy serial s r s' → good_step s s' ∧ r ≠ Panic.
Proof.
  intros Hi Hsu Hse (( Hc & Hst & Ha & Hsu' & Hse') & Hp & fs & cs & Htr & _ & Hr).
  pose proof (pcktid_succ_bound (pcktid s)). destruct (Hi) as [_ Hcok Haok _ _ _ Hnd].
  split; [|by destruct r].
  eapply good_step_sent; [done|exact Htr| |done|done|rewrite Hp; lia|done|done|by rewrite Hst].
  assert (Hq : readable (s_app_serial s) (query_frame s kind susy serial)) by (apply query_readable; done || lia).
  destruct r as [body|e|]; [destruct Hr as [-> _]| |done]; [by repeat constructor|].
  destruct Hr as [_ [[-> _]|[-> _]]]; by repeat constructor.
Qed.

Lemma event_log_step susy serial from until s r s' :
  session_inv s → is_u16 susy → is_u32 serial →
  event_log_post susy serial from until s r s' → good_step s s' ∧ r ≠ Panic.
Proof.
  intros Hi Hsu Hse ((Hc & Hst & Ha & Hsu' & Hse') & Hp & fs & cs & Htr & _ & Hr).
  pose proof (pcktid_succ_bound (pcktid s)). destruct (Hi) as [_ Hcok Haok _ _ _ Hnd].
  split; [|by destruct r].
  eapply good_step_sent; [done|exact Htr| |done|done|rewrite Hp; lia|done|done|by rewrite Hst].
  assert (Hq : readable (s_app_serial s) (event_log_frame s susy serial from until))
    by (apply event_log_readable; done || lia).
  destruct r as [body|e|]; [destruct Hr as [-> _]| |done]; [by repeat constructor|].
  destruct Hr as [[-> _]|[-> _]]; by repeat constructor.
Qed.

(** A guarded method called outside [LoggedIn] does nothing. *)
Lemma query_not_logged_in kind susy serial s :
  state s ≠ LoggedIn → query_for_device susy serial kind s = (Err (Protocol "query-not-logged-in"), s).
Proof.
  intros Hst. unfold query_for_device, mbind, prog_bind, gets. by rewrite bool_decide_false.
Qed.
Lemma event_log_not_logged_in susy serial from until s :
  state s ≠ LoggedIn →
  query_event_log_for_device susy serial from until s = (Err (Protocol "event-log-not-logged-in"), s).
Proof.
  intros Hst. unfold query_event_log_for_device, mbind, prog_bind, gets. by rewrite bool_decide_false.
Qed.

Lemma good_step_refl s : session_inv s → good_step s s.
Proof. intros Hi. split; [done|]. split; [done|]. split; [done|]. exists []. by rewrite app_nil_r. Qed.

Lemma after_wp {A} (m : prog (Session T) SessionError A) s (P : outcome SessionError A → Session T → Prop) :
  wp m s P → (∀ r s', P r s' → good_step s s' ∧ r ≠ Panic) → ∃ s', after (m s) = Some s' ∧ good_step s s'.
Proof.
  unfold wp, after. intros Hm HP. destruct (m s) as [r s']. destruct (HP _ _ Hm) as [Hg Hr].
  cbn in *. exists s'. by destruct r.
Qed.

Lemma query_call_step susy serial k s :
  session_inv s → is_u16 susy → is_u32 serial →
  ∃ s', after (query_for_device susy serial k s) = Some s' ∧ good_step s s'.
Proof.
  intros Hi Hsu Hse. destruct (decide (state s = LoggedIn)) as [Hl|Hl].
  - eapply after_wp; [apply query_spec; [apply Hi|done]|]. intros r s'. by apply query_step.
  - rewrite query_not_logged_in by done. exists s. split; [done|by apply good_step_refl].
Qed.

Lemma call_step c s :
  session_inv s → call_ok c → ∃ s', run_call c s = Some s' ∧ good_step s s'.
Proof.
  intros Hi Hc. pose proof Hi as [Ht Hcok Haok Hp Hsu Hse Hst]. destruct c as [now|k|su se k|su se fr un| |]; cbn [run_call].
  - eapply after_wp; [by apply handshake_spec|]. intros r s'. by apply handshake_step.
  - exact (query_call_step _ _ k s Hi Hsu Hse).
  - destruct Hc. by apply query_call_step.
  - destruct Hc as [Hsu' Hse']. destruct (decide (state s = LoggedIn)) as [Hl|Hl].
    + eapply after_wp; [by apply event_log_spec|]. intros r s'. by apply event_log_step.
    + rewrite event_log_not_logged_in by done. exists s. split; [done|by apply good_step_refl].
  - eapply (after_wp _ _ (λ r s', good_step s s' ∧ r ≠ Panic)); [|done].
    eapply wp_close; [by apply ttrace_refl|]. intros r t' Hr Htr. split; [|done].
    eapply good_step_sent; [done|exact Htr|constructor|done..].
  - eapply after_wp; [by apply graceful_close_spec|].
    intros r s' (Hr & Hst' & Hc' & Ha' & Hsu' & Hse' & Hpk & fs & Htr & Hfs). split; [|done].
    pose proof (pcktid_succ_bound (pcktid s)).
    eapply good_step_sent; [done|exact Htr| |done|done| |done|done|by rewrite Hst'].
    + destruct Hfs as [->|[-> _]]; [constructor|]. apply Forall_singleton, logoff_readable; done || lia.
    + rewrite Hpk. case_decide; lia.
Qed.

Lemma run_calls_step cs s :
  session_inv s → Forall call_ok cs → ∃ s', run_calls cs s = Some s' ∧ good_step s s'.
Proof.
  intros Hi Hcs. revert s Hi. induction Hcs as [|c cs Hc _ IH]; intros s Hi; cbn [run_calls].
  - exists s. split; [done|by apply good_step_refl].
  - destruct (call_step c s Hi Hc) as (s1 & -> & Hg). cbn.
    destruct (IH s1 (proj1 Hg)) as (s2 & -> & Hg2). exists s2. split; [done|by eapply good_step_trans].
Qed.

Lemma session_inv_new t c random :
  transport_ok t → cfg_ok c → 0 <= random < 100000000 → session_inv (new_session t c random).
Proof.
  intros Ht Hc Hr. split; try done; cbn; try lia. unfold session_id. rewrite Z.mod_small; lia.
Qed.
End calls.

(* ------------------------------------------------------------------ *)
(** ** Properties                                                      *)
Lemma healthy_query_run `{TransportLive T} kind susy serial (s : Session T) sk b reply rest :
  state s = LoggedIn → live (transport s) (sk ++ b :: rest) → (length sk < 16)%nat →
  Forall (λ b, l2_match (pcktid_succ (pcktid s)) b = None) sk →
  l2_match (pcktid_succ (pcktid s)) b = Some reply →
  ∃ s', query_for_device susy serial kind s = (Ok (r_body reply), s') ∧ live (transport s') rest.
Proof.
  intros Hst (Ho & Ha & Hi) Hl Hsk Hm. pose proof (inbox_bytes _ Ho) as Hbs. rewrite Hi in Hbs.
  apply Forall_app in Hbs as [Hb1 Hbs]. apply Forall_cons in Hbs as [Hb2 _].
  destruct s as [t c st asr p su se]. sess. subst st. unfold query_for_device.
  rewrite gets_run. sess. rewrite bool_decide_true by done. cbn [negb].
  rewrite next_run, !gets_run. sess.
  destruct (send_run (l2_frame c (build_query_body kind (pcktid_succ p) asr susy serial))
    (mkSession t c LoggedIn asr (pcktid_succ p) su se) _ (conj Ho (conj Ha Hi))) as (t1 & Hr1 & Hv1).
  rewrite (bind_run _ _ _ _ _ Hr1). sess.
  destruct (recv_l2_run L2_ATTEMPTS (pcktid_succ p) "query" (mkSession t1 c LoggedIn asr (pcktid_succ p) su se)
    sk b reply _ Hv1) as (t2 & Hr2 & Hv2); [|done|done|done|].
  - apply Forall_app. by repeat constructor.
  - rewrite (bind_run _ _ _ _ _ Hr2). cbn beta iota. eexists. by split; [reflexivity|].
Qed.

(* ------------------------------------------------------------------ *)

(** C1. The handshake on any transport: it never panics, receives at most 397
    frames, and sends a prefix of discovery, echo, init, logoff, logon.  On
    success all five went out in order with consecutive packet ids, the state
    is [LoggedIn], and the consumed frames contain in order a valid hello, the
    topology, the init reply of the device the hello came from (whose ids are
    the ones kept) and an accepting logon reply.  On failure the session is not
    logged in, the error is session-fatal, and [LogonFailed] carries the code
    of the last rejecting reply. *)
Theorem handshake_contract `{TransportLaws T} (now : Z) (s s' : Session T) r :
  transport_ok (transport s) → handshake_and_logon now s = (r, s') → handshake_post now s r s'.
Proof. intros Hok Hr. eapply wp_det; [exact Hr|by apply handshake_spec]. Qed.

(** C15. On a working transport that delivers a hello, the topology, the init
    reply and one accepting logon reply, with fewer than twelve other frames
    before each (rejections by other devices included), the handshake
    succeeds, and leaves the rest of the inbox untouched. *)
Theorem healthy_handshake_succeeds `{TransportLive T} (now : Z) (s : Session T)
    b f net sk1 topo sk2 ib init sk3 lb lr rest :
  let p1 := pcktid_succ (pcktid s) in let p3 := pcktid_succ (pcktid_succ p1) in
  live (transport s) (b :: sk1 ++ topo :: sk2 ++ ib :: sk3 ++ lb :: rest) →
  hello_ok b f net →
  Forall (λ b, ctrl_of b ≠ Some 5) sk1 → ctrl_of topo = Some 5 → (length sk1 < 12)%nat →
  Forall (λ b, init_match p1 (local_bt f) b = None) sk2 → init_match p1 (local_bt f) ib = Some init →
  (length sk2 < 12)%nat →
  rejects p3 sk3 → logon_match p3 lb = Some lr → r_error_code lr = 0 → (length sk3 < 12)%nat →
  ∃ s', handshake_and_logon now s = (Ok (), s') ∧ state s' = LoggedIn ∧ live (transport s') rest.
Proof.
  intros p1 p3 Hl Hhello Hsk1 Htopo Hl1 Hsk2 Hm Hl2 Hsk3 Hlm Hz Hl3.
  pose proof (inbox_bytes _ (proj1 Hl)) as Hbs. destruct Hl as (Ho & Ha & Hi). rewrite Hi in Hbs.
  apply Forall_cons in Hbs as [Hbb Hbs]. apply Forall_app in Hbs as [Hb1 Hbs].
  apply Forall_cons in Hbs as [Hbt Hbs]. apply Forall_app in Hbs as [Hb2 Hbs].
  apply Forall_cons in Hbs as [Hbi Hbs]. apply Forall_app in Hbs as [Hb3 Hbs].
  apply Forall_cons in Hbs as [Hbl _].
  assert (Hsnoc : ∀ sk x, Forall bytes sk → bytes x → Forall bytes (sk ++ [x])).
  { intros. apply Forall_app. by repeat constructor. }
  destruct s as [t c st asr p su se]. sess.
  unfold handshake_and_logon.
  rewrite modify_run, !gets_run. sess.
  destruct (hello_run (mkSession t c Handshaking asr p su se) b f net _ (conj Ho (conj Ha Hi)) Hhello)
    as (t1 & Hr1 & Hv1). rewrite (bind_run _ _ _ _ _ Hr1). cbn beta iota. sess.
  destruct (recv_until_run L1_ATTEMPTS 5 "topology" (mkSession t1 c Handshaking asr p su se) sk1 topo _ Hv1)
    as (t2 & Hr2 & Hv2); [by apply Hsnoc|done|done|done|]. rewrite (bind_run _ _ _ _ _ Hr2). sess.
  destruct (log_topology_Ok topo) as (peers & Hp & _).
  rewrite (bind_run _ _ _ peers (mkSession t2 c Handshaking asr p su se)) by (unfold lift; by rewrite Hp).
  rewrite modify_run, next_run. sess. fold p1.
  destruct (send_run (l2_frame c (build_init_body p1 asr)) (mkSession t2 c Enumerating asr p1 su se) _ Hv2)
    as (t3 & Hr3 & Hv3). rewrite (bind_run _ _ _ _ _ Hr3). sess.
  destruct (recv_init_run 16 p1 (local_bt f) (mkSession t3 c Enumerating asr p1 su se) sk2 ib init _ Hv3)
    as (t4 & Hr4 & Hv4); [by apply Hsnoc|done|done|done|lia|]. rewrite (bind_run _ _ _ _ _ Hr4). sess.
  rewrite modify_run, next_run. sess.
  destruct (send_run (l2_frame c (build_logoff_body (pcktid_succ p1) asr))
    (mkSession t4 c Enumerating asr (pcktid_succ p1) (r_app_susy_id init) (r_app_serial init)) _ Hv4)
    as (t5 & Hr5 & Hv5). rewrite (bind_run _ _ _ _ _ Hr5). sess. rewrite next_run. sess. fold p3.
  destruct (send_run (l2_frame c (build_logon_body (password c) (user_group c) p3 asr now))
    (mkSession t5 c Enumerating asr p3 (r_app_susy_id init) (r_app_serial init)) _ Hv5)
    as (t6 & Hr6 & Hv6). rewrite (bind_run _ _ _ _ _ Hr6). sess.
  destruct (logon_run 16 p3 None (mkSession t6 c Enumerating asr p3 (r_app_susy_id init) (r_app_serial init))
    sk3 lb lr _ Hv6) as (t7 & rej & Hr7 & Hv7); [by apply Hsnoc|done|done|done|done|lia|].
  rewrite (bind_run _ _ _ _ _ Hr7). cbn beta iota. sess.
  eexists. split; [reflexivity|]. by sess.
Qed.

(** C6. A query outside [LoggedIn] touches nothing and reports
    [query-not-logged-in].  A query of a logged-in session takes the next
    packet id, sends one frame addressed to the given device, receives at most
    16 frames, stays logged in, and returns the body of the first L2 frame
    received that carries this packet id; no frame received before it does.
    Its errors are session-fatal exactly when they come from the transport. *)
Theorem query_contract `{TransportLaws T} kind susy serial (s s' : Session T) r :
  transport_ok (transport s) → query_for_device susy serial kind s = (r, s') →
  if decide (state s = LoggedIn) then
    query_post kind susy serial s r s' ∧
    ∀ e, r = Err e → is_session_fatal e = true ↔ ∃ te, e = TransportErr te
  else r = Err (Protocol "query-not-logged-in") ∧ s' = s.
Proof.
  intros Hok Hr. case_decide as Hst.
  - pose proof (wp_det _ _ _ _ _ Hr (query_spec kind susy serial s Hok Hst)) as Hpost. split; [done|].
    destruct Hpost as (_ & _ & fs & cs & _ & _ & Hpost). intros e ->.
    destruct Hpost as [_ [[_ [->|[te ->]]]|(_ & _ & te & ->)]]; split; eauto.
    + intros Hf. discriminate Hf.
    + intros [te Hte]. discriminate Hte.
  - rewrite query_not_logged_in in Hr by done. by injection Hr as <- <-.
Qed.

(** C38. On a working transport a query succeeds when its reply is among the
    next sixteen frames: it returns that reply's body and leaves the frames
    behind it. *)
Theorem healthy_query_succeeds `{TransportLive T} kind susy serial (s : Session T) sk b reply rest :
  state s = LoggedIn → live (transport s) (sk ++ b :: rest) → (length sk < 16)%nat →
  Forall (λ b, l2_match (pcktid_succ (pcktid s)) b = None) sk →
  l2_match (pcktid_succ (pcktid s)) b = Some reply →
  ∃ s', query_for_device susy serial kind s = (Ok (r_body reply), s') ∧ live (transport s') rest.
Proof. apply healthy_query_run. Qed.

Lemma l2_match_pkt_id want b r : l2_match want b = Some r → want < 32768.
Proof.
  unfold l2_match, l2_of. destruct (parse b) as [f| |]; [|done..].
  destruct (decode_l2 (payload f)) as [[[h d]|]| |] eqn:Hd; [|done..].
  apply decode_l2_pkt_id in Hd. cbn. case_decide as Hc; [|done]. intros _. lia.
Qed.

(** C40. The packet-id counter runs over 16 bits, a reply's id has 15: once the
    counter has reached 0x7FFF, no query and no event-log query of that
    session succeeds any more, whatever the inverter answers, until the
    counter wraps at 65535. *)
Theorem no_reply_beyond_15_bits `{TransportLaws T} kind susy serial from until (s : Session T) :
  transport_ok (transport s) → state s = LoggedIn → 32767 <= pcktid s < 65535 →
  (∀ body s', query_for_device susy serial kind s ≠ (Ok body, s')) ∧
  (∀ body s', query_event_log_for_device susy serial from until s ≠ (Ok body, s')).
Proof.
  intros Hok Hst Hp.
  assert (Hsucc : pcktid_succ (pcktid s) = pcktid s + 1) by (apply pcktid_succ_small; lia).
  split; intros body s' Hr.
  - destruct (wp_det _ _ _ _ _ Hr (query_spec kind susy serial s Hok Hst))
      as (_ & _ & fs & cs & _ & _ & _ & sk & b & reply & _ & _ & Hm & _).
    apply l2_match_pkt_id in Hm. lia.
  - destruct (wp_det _ _ _ _ _ Hr (event_log_spec susy serial from until s Hok Hst))
      as (_ & _ & fs & cs & _ & _ & _ & Hstop & _).
    assert (Hnil : fragments_of (pcktid_succ (pcktid s)) cs = []).
    { unfold fragments_of. induction cs as [|b cs IH]; [done|]. cbn.
      destruct (l2_match _ b) as [r|] eqn:Hm; [apply l2_match_pkt_id in Hm; lia|].
      apply IH. clear -Hstop Hm. unfold fragments_of in Hstop. cbn in Hstop. by rewrite Hm in Hstop. }
    by rewrite Hnil in Hstop.
Qed.

(** C39. An event-log query of a logged-in session sends one frame and returns
    the concatenation of the bodies of the replies to its packet id: all have
    return code 0, collecting stops at the first whose body has at most 12
    bytes or after 32 of them, and at most 512 frames are received.  A reply
    with another return code ends it with [event-log-retcode]; outside
    [LoggedIn] nothing happens. *)
Theorem event_log_contract `{TransportLaws T} susy serial from until (s s' : Session T) r :
  transport_ok (transport s) → query_event_log_for_device susy serial from until s = (r, s') →
  if decide (state s = LoggedIn) then event_log_post susy serial from until s r s'
  else r = Err (Protocol "event-log-not-logged-in") ∧ s' = s.
Proof.
  intros Hok Hr. case_decide as Hst.
  - exact (wp_det _ _ _ _ _ Hr (event_log_spec susy serial from until s Hok Hst)).
  - rewrite event_log_not_logged_in in Hr by done. by injection Hr as <- <-.
Qed.

(** [graceful_close] never panics and always ends [Disconnected]; it sends
    at most one frame, the logoff, and only when the session was logged in; a
    second one sends nothing. *)
Theorem graceful_close_contract `{TransportLaws T} (s s1 s2 : Session T) r1 r2 :
  transport_ok (transport s) → graceful_close s = (r1, s1) → graceful_close s1 = (r2, s2) →
  graceful_post s r1 s1 ∧ r2 ≠ Panic ∧ state s2 = Disconnected ∧
  sent_log (transport s2) = sent_log (transport s1).
Proof.
  intros Hok Hr1 Hr2. pose proof (wp_det _ _ _ _ _ Hr1 (graceful_close_spec s Hok)) as H1. split; [done|].
  destruct H1 as (_ & Hst & _ & _ & _ & _ & _ & fs & [Hok1 _ _] & _).
  destruct (wp_det _ _ _ _ _ Hr2 (graceful_close_spec s1 Hok1))
    as (Hr & Hst2 & _ & _ & _ & _ & _ & fs2 & [_ Hs _] & Hfs).
  split; [done|]. split; [done|]. destruct Hfs as [->|[_ Hli]]; [by rewrite app_nil_r in Hs|congruence].
Qed.

(** C2. Any sequence of calls on a fresh session, in any order and whatever
    the inverter answers, runs without panic; packet id and learned ids stay
    in range, the state never becomes [Degraded], and every frame sent parses:
    it is one of the two L1 handshake frames or a broadcast L2 request that
    decodes with this session's serial, SUSy id 125 and error code 0. *)
Theorem session_runs_are_safe `{TransportLaws T} (t : T) (c : SessionConfig) (random : Z) (calls : list call) :
  transport_ok t → cfg_ok c → 0 <= random < 100000000 → Forall call_ok calls →
  ∃ s', run_calls calls (new_session t c random) = Some s' ∧ session_inv s' ∧
    ∃ fs, sent_log (transport s') = sent_log t ++ fs ∧ Forall (readable (900000000 + random)) fs.
Proof.
  intros Ht Hc Hr Hcalls.
  destruct (run_calls_step calls _ (session_inv_new t c random Ht Hc Hr) Hcalls) as (s' & -> & Hi & _ & _ & Hfs).
  exists s'. split; [done|]. split; [done|]. cbn in Hfs. unfold session_id in Hfs.
  by rewrite Z.mod_small in Hfs by lia.
Qed.

(* ------------------------------------------------------------------ *)
(** ** Witnesses                                                       *)
(* ------------------------------------------------------------------ *)

#[local] Transparent ver_frame echo_frame l2_frame pcktid_succ parse decode_l2 build_init_body
  build_logoff_body build_logon_body build_query_body build_event_log_body.

(** The scripted session of the tests, with an event-log reply at the end. *)
Definition ex_query_reply : list Z := fake_reply 9 0 0 4 [1; 2; 3].
Definition ex_session : Session Mock.MockTransport :=
  test_session [fake_hello; fake_topology; fake_init_reply; fake_logon_reply; ex_query_reply].
Definition ex_logged_in : Session Mock.MockTransport := (handshake_and_logon 1700000000 ex_session).2.

Lemma ex_session_ok : transport_ok (transport ex_session).
Proof. change (Forall bytes (Mock.replies (transport ex_session))). by_decide. Qed.
Lemma ex_logged_in_ok : transport_ok (transport ex_logged_in).
Proof. change (Forall bytes (Mock.replies (transport ex_logged_in))). by_decide. Qed.

Lemma handshake_contract_witness : handshake_post 1700000000 ex_session (Ok ()) ex_logged_in.
Proof.
  apply (handshake_contract 1700000000 ex_session ex_logged_in (Ok ()));
    [exact ex_session_ok|vm_compute; reflexivity].
Defined.

Definition ex_hello_frame : Frame := mkFrame L1Only test_inverter test_local 2 [0; 4; 112; 0; 2; 0; 0; 0; 0; 1; 0; 0; 0].
Definition ex_reply (body : list Z) (pkt : Z) : L2Reply := mkL2Reply pkt 0 101 2120121246 body.

Lemma healthy_handshake_succeeds_witness :
  ∃ s', handshake_and_logon 1700000000 ex_session = (Ok (), s') ∧ state s' = LoggedIn ∧
    live (transport s') [ex_query_reply].
Proof.
  apply (healthy_handshake_succeeds 1700000000 ex_session fake_hello ex_hello_frame 2
    [] fake_topology [] fake_init_reply (ex_reply (replicate 16 0) 1) [] fake_logon_reply
    (ex_reply (replicate 12 0) 3) [ex_query_reply]);
    [split; [exact ex_session_ok|split; vm_compute; reflexivity]
    |split; [vm_compute; reflexivity|split; [reflexivity|split; [vm_compute; reflexivity|]]]
    |constructor|vm_compute; reflexivity|simpl; lia|constructor|vm_compute; reflexivity|simpl; lia
    |constructor|vm_compute; reflexivity|reflexivity|simpl; lia].
  exists 4. split; [vm_compute; reflexivity|lia].
Defined.

Lemma query_contract_witness :
  query_post SpotDcPower 101 2120121246 ex_logged_in (Ok [1; 2; 3]) (query_for_device 101 2120121246 SpotDcPower ex_logged_in).2.
Proof.
  assert (Hrun : query_for_device 101 2120121246 SpotDcPower ex_logged_in =
    (Ok [1; 2; 3], (query_for_device 101 2120121246 SpotDcPower ex_logged_in).2)) by (vm_compute; reflexivity).
  assert (Hst : state ex_logged_in = LoggedIn) by (vm_compute; reflexivity).
  pose proof (query_contract SpotDcPower 101 2120121246 ex_logged_in _ _ ex_logged_in_ok Hrun) as Hq.
  rewrite decide_True in Hq by exact Hst. exact (proj1 Hq).
Defined.

Lemma healthy_query_succeeds_witness :
  ∃ s', query_for_device 101 2120121246 SpotDcPower ex_logged_in = (Ok [1; 2; 3], s') ∧ live (transport s') [].
Proof.
  apply (healthy_query_succeeds SpotDcPower 101 2120121246 ex_logged_in [] ex_query_reply (ex_reply [1; 2; 3] 4) []);
    [vm_compute; reflexivity|split; [exact ex_logged_in_ok|split; vm_compute; reflexivity]
    |simpl; lia|constructor|vm_compute; reflexivity].
Defined.

Definition ex_worn_session : Session Mock.MockTransport :=
  mkSession (Mock.queue_replies [ex_query_reply] Mock.new) test_cfg LoggedIn 900000001 32767 101 2120121246.

Lemma no_reply_beyond_15_bits_witness :
  query_for_device 101 2120121246 SpotDcPower ex_worn_session ≠
    (Ok [1; 2; 3], (query_for_device 101 2120121246 SpotDcPower ex_worn_session).2).
Proof.
  assert (Hok : transport_ok (transport ex_worn_session)).
  { change (Forall bytes (Mock.replies (transport ex_worn_session))). by_decide. }
  assert (Hp : 32767 <= pcktid ex_worn_session < 65535) by (split; vm_compute; [discriminate|reflexivity]).
  exact (proj1 (no_reply_beyond_15_bits SpotDcPower 101 2120121246 0 0 ex_worn_session Hok eq_refl Hp) _ _).
Defined.

Lemma event_log_contract_witness :
  event_log_post 101 2120121246 0 10 ex_logged_in (Ok [1; 2; 3])
    (query_event_log_for_device 101 2120121246 0 10 ex_logged_in).2.
Proof.
  assert (Hrun : query_event_log_for_device 101 2120121246 0 10 ex_logged_in =
    (Ok [1; 2; 3], (query_event_log_for_device 101 2120121246 0 10 ex_logged_in).2)) by (vm_compute; reflexivity).
  assert (Hst : state ex_logged_in = LoggedIn) by (vm_compute; reflexivity).
  pose proof (event_log_contract 101 2120121246 0 10 ex_logged_in _ _ ex_logged_in_ok Hrun) as Hq.
  rewrite decide_True in Hq by exact Hst. exact Hq.
Defined.

Lemma graceful_close_contract_witness :
  state (graceful_close (graceful_close ex_logged_in).2).2 = Disconnected.
Proof.
  apply (graceful_close_contract ex_logged_in (graceful_close ex_logged_in).2
    (graceful_close (graceful_close ex_logged_in).2).2 (Ok ()) (Ok ()));
    [exact ex_logged_in_ok|vm_compute; reflexivity..].
Defined.

Lemma session_runs_are_safe_witness :
  ∃ s', run_calls [CallHandshake 1700000000; CallQuery SpotDcPower; CallGracefulClose] ex_session = Some s' ∧
    session_inv s'.
Proof.
  destruct (session_runs_are_safe (transport ex_session) test_cfg 123456
    [CallHandshake 1700000000; CallQuery SpotDcPower; CallGracefulClose]) as (s' & H & Hi & _);
    [exact ex_session_ok|split; [reflexivity|by_decide]|lia|repeat constructor|].
  exists s'. split; [exact H|exact Hi].
Defined.
