(* ===== verification/Values.v ===== *)
(** * Typed readings (crates/inverter-client/src/values.rs)

    The record iterators and every parser of query replies, with the panics of
    slicing kept, the tag tables, the event log, and IEEE single precision
    ([f32]) for the scaled values, computed with the Standard Library's
    [SpecFloat].  [records_of] describes in closed form which records a reply
    is cut into. *)
From Stdlib Require Import String Ascii SpecFloat.
From S2P Require Import Prelude Text.

Local Open Scope string_scope.
Local Open Scope list_scope.
Local Open Scope Z_scope.

(* ------------------------------------------------------------------ *)
(** ** Constants                                                       *)
(* ------------------------------------------------------------------ *)

Module lri.
Definition INV_STATUS : Z := 0x00214800.
Definition INV_GRID_RELAY : Z := 0x00416400.
Definition INV_TYPE : Z := 0x00821E00.
Definition INV_CLASS : Z := 0x00822A00.
Definition SW_VERSION : Z := 0x00823400.
Definition INV_TEMPERATURE : Z := 0x00237700.
Definition DC_MS_WATT : Z := 0x00251E00.
Definition DC_MS_VOL : Z := 0x00451F00.
Definition DC_MS_AMP : Z := 0x00452100.
Definition SPOT_E_TOTAL : Z := 0x00260100.
Definition SPOT_E_TODAY : Z := 0x00262200.
Definition SPOT_OPER_TM : Z := 0x00462E00.
Definition SPOT_FEED_TM : Z := 0x00462F00.
Definition SPOT_PAC_TOTAL : Z := 0x00263F00.
Definition GRID_MS_W_PHS_A : Z := 0x00464000.
Definition GRID_MS_W_PHS_B : Z := 0x00464100.
Definition GRID_MS_W_PHS_C : Z := 0x00464200.
Definition GRID_MS_VPHS_A : Z := 0x00464800.
Definition GRID_MS_VPHS_B : Z := 0x00464900.
Definition GRID_MS_VPHS_C : Z := 0x00464A00.
Definition GRID_MS_APHS_A : Z := 0x00465000.
Definition GRID_MS_APHS_B : Z := 0x00465100.
Definition GRID_MS_APHS_C : Z := 0x00465200.
Definition GRID_FREQUENCY : Z := 0x00465700.
End lri.

Definition I32_NAN : Z := -2147483648.
Definition U32_NAN : Z := 0xFFFFFFFF.
Definition U64_NAN : Z := 0x8000000000000000.

(** These functions return no error: what is left is a value or a panic. *)
Abbreviation total A := (outcome Empty_set A).

(* ------------------------------------------------------------------ *)
(** ** Record iteration                                                *)
(* ------------------------------------------------------------------ *)

(** [records_region] *)
Definition records_region (body : list Z) : total (list Z) :=
  if decide (12 ≤ length body)%nat then slice_from body 12 else Ok [].

(** [record_lri] *)
Definition record_lri (code : Z) : Z := Z.land code 0x00FFFF00.

(** What a loop body says: go on, or leave ([break], [return]). *)
Inductive flow (A : Type) : Type := Continue (a : A) | Break (a : A).
Arguments Continue {A} a. Arguments Break {A} a.

(** The [while i + MIN <= region.len()] loop the iterators share: a record of
    [MAX] bytes, or of [MIN] when fewer remain; [f] is the loop body. *)
Section record_loop.
Context {A : Type} (f : A → list Z → total (flow A)).
Fixpoint record_loop (MIN MAX : nat) (fuel : nat) (region : list Z) (i : nat) (acc : A) : total A :=
  match fuel with
  | O => Panic
  | S fuel =>
      if decide (i + MIN ≤ length region)%nat then
        let remaining := (length region - i)%nat in
        let stride := if decide (MAX ≤ remaining)%nat then MAX else MIN in
        rec ← slice region i (i + stride);
        r ← f acc rec;
        match r with
        | Continue acc => record_loop MIN MAX fuel region (i + stride) acc
        | Break acc => Ok acc
        end
      else Ok acc
  end.
End record_loop.

(** Enough fuel: every round advances. *)
Definition run_records {A} (f : A → list Z → total (flow A)) (MIN MAX : nat) (region : list Z) (acc : A) : total A :=
  record_loop f MIN MAX (S (length region)) region 0 acc.

Definition read_u32_at (rec : list Z) (off : nat) : total Z := s ← slice rec off (off + 4); read_u32 s.

(** The closure call of the two iterators: code, time stamp, record. *)
Definition visit {A} (f : A → Z → Z → list Z → total A) (acc : A) (rec : list Z) : total (flow A) :=
  code ← read_u32_at rec 0;
  dt ← read_u32_at rec 4;
  acc ← f acc (record_lri code) dt rec;
  Ok (Continue acc).

(** [for_each_28_record], [for_each_16_record]: the closure's captured
    variables are the accumulator. *)
Definition for_each_28_record {A} (body : list Z) (f : A → Z → Z → list Z → total A) (acc : A) : total A :=
  region ← records_region body; run_records (visit f) 20 28 region acc.
Definition for_each_16_record {A} (body : list Z) (f : A → Z → Z → list Z → total A) (acc : A) : total A :=
  region ← records_region body; run_records (visit f) 16 16 region acc.

(** [i32_value_28], [u32_value_28], [u64_value_16] *)
Definition i32_value_28 (rec : list Z) : total (option Z) :=
  if decide (length rec < 20)%nat then Ok None else
  s ← slice rec 16 20; v ← read_i32 s;
  Ok (if v =? I32_NAN then None else Some v).
Definition u32_value_28 (rec : list Z) : total (option Z) :=
  if decide (length rec < 20)%nat then Ok None else
  v ← read_u32_at rec 16;
  Ok (if (v =? U32_NAN) || (v =? 0x80000000) then None else Some v).
Definition u64_value_16 (rec : list Z) : total (option Z) :=
  if decide (length rec < 16)%nat then Ok None else
  s ← slice rec 8 16; v ← read_u64 s;
  Ok (if (v =? U64_NAN) || (v =? 0xFFFFFFFFFFFFFFFF) then None else Some v).

(* ------------------------------------------------------------------ *)
(** ** Spot values                                                     *)
(* ------------------------------------------------------------------ *)

Record InverterReadings : Type := mkReadings {
  pac_total_w : option Z;
  day_energy_wh : option Z;
  total_energy_wh : option Z;
  timestamp : option Z
}.

(** [parse_spot_ac_total_power] *)
Definition parse_spot_ac_total_power (body : list Z) : total InverterReadings :=
  for_each_28_record body (λ out lri dt rec,
    if lri =? lri.SPOT_PAC_TOTAL then
      v ← i32_value_28 rec;
      Ok (mkReadings v (day_energy_wh out) (total_energy_wh out) (Some dt))
    else Ok out) (mkReadings None None None None).

(** [parse_energy_production]: (today, lifetime). *)
Definition parse_energy_production (body : list Z) : total (option Z * option Z) :=
  for_each_16_record body (λ out lri _ rec,
    if lri =? lri.SPOT_E_TODAY then v ← u64_value_16 rec; Ok (v, out.2)
    else if lri =? lri.SPOT_E_TOTAL then v ← u64_value_16 rec; Ok (out.1, v)
    else Ok out) (None, None).

Definition scaled (d : Z) (v : option Z) : option f32 := (λ v, f32_div (to_f32 v) d) <$> v.

(** [parse_inverter_temperature], [parse_grid_frequency] *)
Definition parse_inverter_temperature (body : list Z) : total (option f32) :=
  for_each_28_record body (λ temp lri _ rec,
    if lri =? lri.INV_TEMPERATURE then v ← i32_value_28 rec; Ok (scaled 100 v) else Ok temp) None.
Definition parse_grid_frequency (body : list Z) : total (option f32) :=
  for_each_28_record body (λ hz lri _ rec,
    if lri =? lri.GRID_FREQUENCY then v ← u32_value_28 rec; Ok (scaled 100 v) else Ok hz) None.

(** [parse_cosphi] *)
Definition parse_cosphi (body : list Z) : total (option f32) :=
  for_each_28_record body (λ out lri _ rec,
    let in_legacy := (0x00237400 <=? lri) && (lri <=? 0x002374FF) in
    let in_modern := (0x00474800 <=? lri) && (lri <=? 0x004748FF) in
    match out with
    | None => if in_legacy || in_modern then v ← i32_value_28 rec; Ok (scaled 1000 (Z.abs <$> v)) else Ok None
    | Some x => Ok (Some x)
    end) None.

(** The slot scan of [parse_single_watts_record]. *)
Fixpoint first_watts (offs : list nat) (rec : list Z) : total (option Z) :=
  match offs with
  | [] => Ok None
  | off :: offs =>
      if decide (length rec < off + 4)%nat then first_watts offs rec else
      v ← read_u32_at rec off;
      if negb (v =? 0) && (negb (v =? 0x80000000) && negb (v =? 0xFFFFFFFF)) then Ok (Some v)
      else first_watts offs rec
  end.

(** [parse_single_watts_record] *)
Definition parse_single_watts_record (body : list Z) (lri_first lri_last : Z) : total (option Z) :=
  for_each_28_record body (λ out lri _ rec,
    match out with
    | None => if (lri_first <=? lri) && (lri <=? lri_last) then first_watts [16; 8; 12; 20; 24]%nat rec else Ok None
    | Some v => Ok (Some v)
    end) None.

Record AcPerPhase : Type := mkAcPerPhase {
  pac1_w : option Z; pac2_w : option Z; pac3_w : option Z; ac_timestamp : option Z
}.

(** [parse_spot_ac_power] *)
Definition parse_spot_ac_power (body : list Z) : total AcPerPhase :=
  for_each_28_record body (λ out lri dt rec,
    if lri =? lri.GRID_MS_W_PHS_A then
      v ← i32_value_28 rec; Ok (mkAcPerPhase v (pac2_w out) (pac3_w out) (Some dt))
    else if lri =? lri.GRID_MS_W_PHS_B then
      v ← i32_value_28 rec; Ok (mkAcPerPhase (pac1_w out) v (pac3_w out) (ac_timestamp out))
    else if lri =? lri.GRID_MS_W_PHS_C then
      v ← i32_value_28 rec; Ok (mkAcPerPhase (pac1_w out) (pac2_w out) v (ac_timestamp out))
    else Ok out) (mkAcPerPhase None None None None).

Record AcVoltageCurrent : Type := mkAcVoltageCurrent {
  uac1_v : option f32; uac2_v : option f32; uac3_v : option f32;
  iac1_a : option f32; iac2_a : option f32; iac3_a : option f32
}.

(** [parse_spot_ac_voltage] *)
Definition parse_spot_ac_voltage (body : list Z) : total AcVoltageCurrent :=
  for_each_28_record body (λ out lri _ rec,
    let '(mkAcVoltageCurrent u1 u2 u3 i1 i2 i3) := out in
    if lri =? lri.GRID_MS_VPHS_A then v ← i32_value_28 rec; Ok (mkAcVoltageCurrent (scaled 100 v) u2 u3 i1 i2 i3)
    else if lri =? lri.GRID_MS_VPHS_B then v ← i32_value_28 rec; Ok (mkAcVoltageCurrent u1 (scaled 100 v) u3 i1 i2 i3)
    else if lri =? lri.GRID_MS_VPHS_C then v ← i32_value_28 rec; Ok (mkAcVoltageCurrent u1 u2 (scaled 100 v) i1 i2 i3)
    else if lri =? lri.GRID_MS_APHS_A then v ← i32_value_28 rec; Ok (mkAcVoltageCurrent u1 u2 u3 (scaled 1000 v) i2 i3)
    else if lri =? lri.GRID_MS_APHS_B then v ← i32_value_28 rec; Ok (mkAcVoltageCurrent u1 u2 u3 i1 (scaled 1000 v) i3)
    else if lri =? lri.GRID_MS_APHS_C then v ← i32_value_28 rec; Ok (mkAcVoltageCurrent u1 u2 u3 i1 i2 (scaled 1000 v))
    else Ok out) (mkAcVoltageCurrent None None None None None None).

Record DcPerString : Type := mkDcPerString {
  pdc1_w : option Z; pdc2_w : option Z;
  udc1_v : option f32; udc2_v : option f32;
  idc1_a : option f32; idc2_a : option f32
}.

(** The loop body of [parse_dc_block]. *)
Definition dc_record (out : DcPerString) (rec : list Z) : total (flow DcPerString) :=
  code ← read_u32_at rec 0;
  let lri := record_lri code in
  let cls := Z.land code 0xFF in
  let '(mkDcPerString p1 p2 u1 u2 i1 i2) := out in
  out ← (if (lri =? lri.DC_MS_WATT) && (cls =? 1) then v ← i32_value_28 rec; Ok (mkDcPerString v p2 u1 u2 i1 i2)
    else if (lri =? lri.DC_MS_WATT) && (cls =? 2) then v ← i32_value_28 rec; Ok (mkDcPerString p1 v u1 u2 i1 i2)
    else if (lri =? lri.DC_MS_VOL) && (cls =? 1) then v ← i32_value_28 rec; Ok (mkDcPerString p1 p2 (scaled 100 v) u2 i1 i2)
    else if (lri =? lri.DC_MS_VOL) && (cls =? 2) then v ← i32_value_28 rec; Ok (mkDcPerString p1 p2 u1 (scaled 100 v) i1 i2)
    else if (lri =? lri.DC_MS_AMP) && (cls =? 1) then v ← i32_value_28 rec; Ok (mkDcPerString p1 p2 u1 u2 (scaled 1000 v) i2)
    else if (lri =? lri.DC_MS_AMP) && (cls =? 2) then v ← i32_value_28 rec; Ok (mkDcPerString p1 p2 u1 u2 i1 (scaled 1000 v))
    else Ok out);
  Ok (Continue out).

(** [parse_dc_block], [parse_spot_dc_power], [parse_spot_dc_voltage] *)
Definition parse_dc_block (body : list Z) : total DcPerString :=
  region ← records_region body;
  run_records dc_record 20 28 region (mkDcPerString None None None None None None).
Definition parse_spot_dc_power (body : list Z) : total DcPerString := parse_dc_block body.
Definition parse_spot_dc_voltage (body : list Z) : total DcPerString := parse_dc_block body.

Record OperationTimes : Type := mkOperationTime { total_op_time_s : option Z; feed_in_time_s : option Z }.

(** [parse_operation_time] *)
Definition parse_operation_time (body : list Z) : total OperationTimes :=
  for_each_16_record body (λ out lri _ rec,
    if lri =? lri.SPOT_OPER_TM then v ← u64_value_16 rec; Ok (mkOperationTime v (feed_in_time_s out))
    else if lri =? lri.SPOT_FEED_TM then v ← u64_value_16 rec; Ok (mkOperationTime (total_op_time_s out) v)
    else Ok out) (mkOperationTime None None).

(* ------------------------------------------------------------------ *)
(** ** Tags, status, version                                           *)
(* ------------------------------------------------------------------ *)

(** The eight attribute slots of a type-label record, up to the end marker. *)
Fixpoint type_label_slots (offs : list nat) (rec : list Z) : total (option Z) :=
  match offs with
  | [] => Ok None
  | off :: offs =>
      attr ← read_u32_at rec off;
      let tag := Z.land attr 0x00FFFFFF in
      if tag =? 0x00FFFFFE then Ok None
      else if Z.shiftr attr 24 =? 1 then Ok (Some tag)
      else type_label_slots offs rec
  end.

Definition type_label_record (acc : option Z) (rec : list Z) : total (flow (option Z)) :=
  code ← read_u32_at rec 0;
  let lri := record_lri code in
  if (lri =? 0x00821E00) || ((lri =? 0x00821F00) || (lri =? 0x00822000)) then
    t ← type_label_slots [8; 12; 16; 20; 24; 28; 32; 36]%nat rec;
    Ok (match t with Some tag => Break (Some tag) | None => Continue acc end)
  else Ok (Continue acc).

(** [parse_type_label_raw] *)
Definition parse_type_label_raw (body : list Z) : total (option Z) :=
  region ← records_region body; run_records type_label_record 40 40 region None.

(** The two slot scans of [parse_device_status]. *)
Fixpoint selected_slot (offs : list nat) (rec : list Z) : total (option Z) :=
  match offs with
  | [] => Ok None
  | off :: offs =>
      v ← read_u32_at rec off;
      if (v =? 0) || (v =? U32_NAN) then selected_slot offs rec
      else if negb (Z.land v 0x01000000 =? 0) then Ok (Some (Z.land v 0x00FFFFFF))
      else selected_slot offs rec
  end.
Fixpoint first_slot (offs : list nat) (rec : list Z) : total (option Z) :=
  match offs with
  | [] => Ok None
  | off :: offs =>
      v ← read_u32_at rec off;
      if negb (v =? 0) && negb (v =? U32_NAN) then Ok (Some (Z.land v 0x00FFFFFF))
      else first_slot offs rec
  end.

(** [parse_device_status] *)
Definition STATUS_SLOTS : list nat := [8; 12; 16; 20]%nat.
Definition parse_device_status (body : list Z) : total (option Z) :=
  for_each_28_record body (λ out lri _ rec,
    if (lri =? lri.INV_STATUS) && bool_decide (24 ≤ length rec)%nat then
      s ← selected_slot STATUS_SLOTS rec;
      match s with
      | Some tag => Ok (Some tag)
      | None => f ← first_slot STATUS_SLOTS rec; Ok (match f with Some tag => Some tag | None => out end)
      end
    else Ok out) None.

(** [parse_grid_relay] *)
Definition parse_grid_relay (body : list Z) : total (option bool) :=
  for_each_28_record body (λ out lri _ rec,
    if (lri =? lri.INV_GRID_RELAY) && bool_decide (12 ≤ length rec)%nat then
      v ← read_u32_at rec 8;
      let code := Z.land v 0x00FFFFFF in
      Ok (if code =? 51 then Some true else if code =? 311 then Some false else None)
    else Ok out) None.

(** Decimal digits of a number below 1000, as [format!] prints it; [{:02}]. *)
Definition digit (d : Z) : ascii := ascii_of_nat (48 + Z.to_nat d).
Definition show_dec (n : Z) : string :=
  if n <? 10 then String (digit n) ""
  else if n <? 100 then String (digit (n / 10)) (String (digit (n mod 10)) "")
  else String (digit (n / 100)) (String (digit (n / 10 mod 10)) (String (digit (n mod 10)) "")).
Definition show_02 (n : Z) : string := if n <? 10 then "0" +:+ show_dec n else show_dec n.
Definition show_bcd (b : Z) : string := show_dec (Z.shiftr b 4) +:+ show_dec (Z.land b 0x0F).

Definition type_char (vtype : Z) : string :=
  if vtype =? 0 then "N" else if vtype =? 1 then "E" else if vtype =? 2 then "A"
  else if vtype =? 3 then "B" else if vtype =? 4 then "R" else if vtype =? 5 then "S" else "?".

Definition version_text (v : Z) : string :=
  let vtype := Z.land v 0xFF in
  let vbuild := Z.land (Z.shiftr v 8) 0xFF in
  let vminor := Z.land (Z.shiftr v 16) 0xFF in
  let vmajor := Z.land (Z.shiftr v 24) 0xFF in
  show_bcd vmajor +:+ "." +:+ show_bcd vminor +:+ "." +:+ show_02 vbuild +:+ "." +:+ type_char vtype.

(** [parse_software_version] *)
Definition parse_software_version (body : list Z) : total (option string) :=
  for_each_28_record body (λ out lri _ rec,
    if (lri =? lri.SW_VERSION) && bool_decide (28 ≤ length rec)%nat then
      v ← read_u32_at rec 24;
      Ok (if (v =? U32_NAN) || (v =? 0) then out else Some (version_text v))
    else Ok out) None.

(** The tag tables; a [match] on literals is a lookup in the list of its arms. *)
Definition table_find (table : list (Z * string)) (tag : Z) : option string :=
  snd <$> find (λ row, row.1 =? tag) table.

(** The arms of [type_label_text]. *)
Definition type_label_table : list (Z * string) :=
  [(9070, "STP 17000TL-10");
   (9071, "SB 2000HF-30");
   (9072, "SB 2500HF-30");
   (9073, "SB 3000HF-30");
   (9074, "SB 3000TL-21");
   (9075, "SB 4000TL-21");
   (9076, "SB 5000TL-21");
   (9077, "SB 2000HFUS-30");
   (9078, "SB 2500HFUS-30");
   (9079, "SB 3000HFUS-30");
   (9080, "SB 8000TLUS");
   (9081, "SB 9000TLUS");
   (9082, "SB 10000TLUS");
   (9084, "WB 3600TL-20");
   (9085, "WB 5000TL-20");
   (9086, "SB 3800US-10")].

(** [type_label_text] *)
Definition type_label_text (tag : Z) : option string := table_find type_label_table tag.

(** The arms of [status_text]. *)
Definition status_table : list (Z * string) :=
  [(35, "Error");
   (51, "Closed");
   (303, "Off");
   (304, "Island mode");
   (307, "Ok");
   (311, "Open");
   (350, "Waiting for feed-in");
   (396, "Derating (temperature)");
   (455, "Warning");
   (456, "Waiting for DC");
   (457, "Waiting for grid");
   (141, "Derating active");
   (155, "Grid island");
   (261, "Derating active");
   (264, "SMA Grid Guard OK");
   (366, "Params set OK");
   (369, "Update file OK");
   (1266, "Rated current warning");
   (86, "Fault: AC offset current sensor");
   (97, "Fault: AC offset voltage");
   (117, "Fault: DC current sensor A");
   (118, "Fault: DC current sensor B");
   (137, "Waiting for main CPU");
   (192, "Fault: interior temp sensor");
   (193, "Fault: power-unit temp sensor");
   (468, "Fault: CAN init");
   (469, "Fault: DA converter");
   (470, "Fault: reverse current");
   (471, "Fault: IPC communication");
   (472, "Fault: RTC init");
   (473, "Fault: overvoltage protector");
   (503, "Fault: ambient temp sensor");
   (504, "Fault: battery temp sensor");
   (505, "Fault: DC voltage sensor");
   (506, "Fault: power-unit temp sensor 2");
   (507, "Fault: fan permanently on");
   (508, "Fault: transformer temp sensor")].

(** [status_text] *)
Definition status_text (tag : Z) : string := default "Unknown" (table_find status_table tag).

(** The arms of [event_tag_text]. *)
Definition event_tag_table : list (Z * string) :=
  [(295, "SMA Grid Guard code entered");
   (301, "Waiting for grid voltage");
   (302, "Waiting for grid frequency");
   (303, "Off");
   (304, "Starting");
   (305, "MPP search");
   (306, "Feeding");
   (307, "Normal operation");
   (308, "Standby");
   (309, "Stop");
   (311, "System OK");
   (326, "Grid voltage too low");
   (327, "Grid voltage too high");
   (328, "Grid frequency too low");
   (329, "Grid frequency too high");
   (330, "Grid voltage window error");
   (331, "Grid frequency window error");
   (332, "10-min average grid voltage exceeded");
   (401, "Insulation resistance fault");
   (402, "Residual current fault");
   (403, "DC voltage too high — grid feed interrupted");
   (404, "DC voltage too low");
   (405, "Temperature inside device too high");
   (406, "Self-test failure");
   (407, "Derating due to temperature");
   (408, "Derating due to excessive grid voltage");
   (501, "Communication error with grid");
   (601, "System start");
   (602, "System stop");
   (603, "Firmware update initiated");
   (604, "Firmware update successful");
   (605, "Firmware update failed");
   (701, "User logoff");
   (702, "User login successful");
   (703, "Invalid password")].

(** [event_tag_text] *)
Definition event_tag_text (tag : Z) : option string := table_find event_tag_table tag.

(* ------------------------------------------------------------------ *)
(** ** The event log                                                   *)
(* ------------------------------------------------------------------ *)

Record EventRecord : Type := mkEvent {
  entry_id : Z; ev_timestamp : Z; event_code : Z; device_id : Z; param1 : Z; param2 : Z
}.

(** [EventRecord::tag], [EventRecord::text] *)
Definition tag (e : EventRecord) : Z := Z.land (event_code e) 0xFFFF.
Definition text (e : EventRecord) : option string := event_tag_text (tag e).

Definition event_record (out : list EventRecord) (rec : list Z) : total (flow (list EventRecord)) :=
  entry_id ← read_u32_at rec 0;
  timestamp ← read_u32_at rec 4;
  event_code ← read_u32_at rec 8;
  device_id ← read_u32_at rec 12;
  param1 ← read_u32_at rec 16;
  param2 ← read_u32_at rec 20;
  if (entry_id =? 0) && ((event_code =? 0) && (timestamp =? 0)) then Ok (Break out)
  else Ok (Continue (out ++ [mkEvent entry_id timestamp event_code device_id param1 param2])).

(** [parse_event_log_records] *)
Definition parse_event_log_records (body : list Z) : total (list EventRecord) :=
  if decide (length body < 12)%nat then Ok [] else
  payload ← slice_from body 12;
  run_records event_record 24 24 payload [].

(* ------------------------------------------------------------------ *)
(** ** Specification: the records of a reply                           *)
(* ------------------------------------------------------------------ *)

(** Consecutive records of [MAX] bytes, and one of [MIN] when at least that
    many are left. *)
Definition records_of (MIN MAX : nat) (region : list Z) : list (list Z) :=
  let n := (length region / MAX)%nat in
  let rest := drop (n * MAX) region in
  map (λ k, take MAX (drop (k * MAX) region)) (seq 0 n)
  ++ (if decide (MIN ≤ length rest)%nat then [take MIN rest] else []).

(** The region behind the 12-byte prefix. *)
Definition region_of (body : list Z) : list Z := drop 12 body.

(** Running the loop body over the records in turn. *)
Fixpoint over_records {A} (f : A → list Z → total (flow A)) (recs : list (list Z)) (acc : A) : total A :=
  match recs with
  | [] => Ok acc
  | rec :: recs =>
      r ← f acc rec;
      match r with Continue acc => over_records f recs acc | Break acc => Ok acc end
  end.

(* ------------------------------------------------------------------ *)
(** ** Lemmas: the loop                                                *)
(* ------------------------------------------------------------------ *)

Lemma records_region_Ok body : records_region body = Ok (region_of body).
Proof.
  unfold records_region, region_of. case_decide; [by rewrite slice_from_Ok by lia|].
  by rewrite drop_ge by lia.
Qed.

Lemma records_of_short MIN MAX region :
  (0 < MIN ≤ MAX)%nat → (length region < MAX)%nat →
  records_of MIN MAX region = if decide (MIN ≤ length region)%nat then [take MIN region] else [].
Proof. intros H0 Hl. unfold records_of. by rewrite Nat.div_small by done. Qed.

Lemma records_of_cons MIN MAX region :
  (0 < MIN ≤ MAX)%nat → (MAX ≤ length region)%nat →
  records_of MIN MAX region = take MAX region :: records_of MIN MAX (drop MAX region).
Proof.
  intros H0 Hl. unfold records_of.
  rewrite (length_drop region MAX : length (drop MAX region) = (length region - MAX)%nat).
  assert (Hn : (length region / MAX = S ((length region - MAX) / MAX))%nat).
  { rewrite <-Nat.add_1_r. rewrite <-Nat.div_add by lia. f_equal. lia. }
  rewrite Hn. set (n := ((length region - MAX) / MAX)%nat). cbn [seq map Nat.mul].
  rewrite drop_0, <-app_comm_cons. f_equal. rewrite drop_drop.
  replace (MAX + n * MAX)%nat with (S n * MAX)%nat by lia. f_equal.
  rewrite <-seq_shift, map_map. apply map_ext. intros k. by rewrite drop_drop.
Qed.

Section loop.
Context {A : Type} (f : A → list Z → total (flow A)) (MIN MAX : nat).
Context (Hsize : (0 < MIN ≤ MAX)%nat) (Htail : (MAX ≤ 2 * MIN)%nat).

Lemma record_loop_drop fuel region i acc :
  (i ≤ length region)%nat → record_loop f MIN MAX fuel region i acc = record_loop f MIN MAX fuel (drop i region) 0 acc.
Proof.
  revert region i acc. induction fuel as [|fuel IH]; intros region i acc Hi; [done|]. cbn [record_loop].
  rewrite length_drop, Nat.add_0_l, Nat.sub_0_r.
  destruct (decide (i + MIN ≤ length region)%nat) as [Hle|Hle];
    [|by rewrite (decide_False (P := (MIN ≤ length region - i)%nat)) by lia].
  rewrite (decide_True (P := (MIN ≤ length region - i)%nat)) by lia.
  set (stride := if decide (MAX ≤ length region - i)%nat then MAX else MIN).
  assert (Hs : (0 < stride ∧ i + stride ≤ length region)%nat) by (unfold stride; case_decide; lia).
  rewrite !slice_Ok by (rewrite ?length_drop; lia). rewrite drop_0.
  replace (i + stride - i)%nat with stride by lia. rewrite Nat.add_0_l, Nat.sub_0_r. cbn [mbind outcome_bind].
  destruct (f acc _) as [[acc'|acc']| |]; try done. cbn [mbind outcome_bind].
  rewrite IH by lia. rewrite (IH (drop i region)) by (rewrite length_drop; lia).
  by rewrite drop_drop.
Qed.

Lemma run_records_eq region acc :
  run_records f MIN MAX region acc = over_records f (records_of MIN MAX region) acc.
Proof.
  unfold run_records. assert (Hf : (length region < S (length region))%nat) by lia.
  revert Hf. generalize (S (length region)) as fuel. intros fuel.
  revert region acc. induction fuel as [|fuel IH]; intros region acc Hf; [lia|]. cbn [record_loop].
  rewrite Nat.add_0_l, Nat.sub_0_r. destruct (decide (MIN ≤ length region)%nat) as [Hle|Hle].
  - destruct (decide (MAX ≤ length region)%nat) as [Hm|Hm].
    + rewrite records_of_cons, slice_Ok by lia. rewrite drop_0, Nat.sub_0_r. cbn [mbind outcome_bind over_records].
      destruct (f acc _) as [[acc'|acc']| |]; try done. cbn [mbind outcome_bind].
      rewrite record_loop_drop by lia. apply IH. rewrite length_drop. lia.
    + rewrite records_of_short by lia. rewrite decide_True, slice_Ok by lia.
      rewrite drop_0, Nat.sub_0_r. cbn [mbind outcome_bind over_records].
      destruct (f acc _) as [[acc'|acc']| |]; try done. cbn [mbind outcome_bind].
      rewrite record_loop_drop, IH by (rewrite ?length_drop; lia).
      rewrite records_of_short by (rewrite ?length_drop; lia).
      by rewrite decide_False by (rewrite length_drop; lia).
  - rewrite records_of_short by lia. by rewrite decide_False.
Qed.
End loop.

(** Every record has one of the two sizes. *)
Lemma records_of_size MIN MAX region rec :
  (0 < MIN ≤ MAX)%nat → rec ∈ records_of MIN MAX region → length rec = MAX ∨ length rec = MIN.
Proof.
  intros H0. remember (length region) as n eqn:Hn. revert region Hn.
  induction (lt_wf n) as [n _ IH]; intros region ->.
  destruct (decide (MAX ≤ length region)%nat).
  - rewrite records_of_cons by done. intros [->|Hr]%elem_of_cons; [left; rewrite length_take; lia|].
    eapply IH; [|done|exact Hr]. rewrite length_drop. lia.
  - rewrite records_of_short by lia. case_decide; [|by intros ?%not_elem_of_nil].
    intros ->%list_elem_of_singleton. right. rewrite length_take. lia.
Qed.

(** A loop body that never panics makes a loop that does not. *)
Lemma over_records_total {A} (f : A → list Z → total (flow A)) recs acc :
  (∀ acc rec, rec ∈ recs → no_panic (f acc rec)) → no_panic (over_records f recs acc).
Proof.
  revert acc. induction recs as [|rec recs IH]; intros acc Hf; [done|]. cbn [over_records].
  apply no_panic_bind; [apply Hf; left|]. intros [acc'|acc'] _; [|done].
  apply IH. intros. apply Hf. by right.
Qed.

Lemma no_panic_read_at rec off : (off + 4 ≤ length rec)%nat → no_panic (read_u32_at rec off).
Proof.
  intros. unfold read_u32_at, read_u32. rewrite slice_Ok by lia. cbn [mbind outcome_bind].
  apply no_panic_read_le. rewrite length_take, length_drop. lia.
Qed.

Lemma read_at_Ok rec off :
  (off + 4 ≤ length rec)%nat → read_u32_at rec off = Ok (le_decode (take 4 (drop off rec))).
Proof.
  intros. unfold read_u32_at, read_u32. rewrite slice_Ok by lia. cbn [mbind outcome_bind].
  rewrite read_le_Ok by (rewrite length_take, length_drop; lia).
  rewrite take_take. replace (off + 4 - off)%nat with 4%nat by lia. done.
Qed.

Lemma no_panic_i32 rec : no_panic (i32_value_28 rec).
Proof.
  unfold i32_value_28, read_i32, read_u32. case_decide; [done|]. rewrite slice_Ok by lia.
  cbn [mbind outcome_bind]. rewrite read_le_Ok; [done|]. rewrite length_take, length_drop. lia.
Qed.
Lemma no_panic_u32 rec : no_panic (u32_value_28 rec).
Proof. unfold u32_value_28. case_decide; [done|]. by rewrite read_at_Ok by lia. Qed.
Lemma no_panic_u64 rec : no_panic (u64_value_16 rec).
Proof.
  unfold u64_value_16, read_u64. case_decide; [done|]. rewrite slice_Ok by lia.
  cbn [mbind outcome_bind]. rewrite read_le_Ok; [done|]. rewrite length_take, length_drop. lia.
Qed.
#[export] Hint Resolve no_panic_i32 no_panic_u32 no_panic_u64 : nopanic.
#[export] Hint Extern 1 (no_panic (read_u32_at _ _)) => (apply no_panic_read_at; simpl in *; lia) : nopanic.

Lemma no_panic_visit {A} (f : A → Z → Z → list Z → total A) acc rec :
  (8 ≤ length rec)%nat → (∀ lri dt, no_panic (f acc lri dt rec)) → no_panic (visit f acc rec).
Proof.
  intros Hl Hf. unfold visit. rewrite !read_at_Ok by lia. cbn [mbind outcome_bind].
  apply no_panic_bind; [apply Hf|done].
Qed.

Lemma no_panic_each_28 {A} body (f : A → Z → Z → list Z → total A) acc :
  (∀ acc lri dt rec, (20 ≤ length rec ≤ 28)%nat → no_panic (f acc lri dt rec)) →
  no_panic (for_each_28_record body f acc).
Proof.
  intros Hf. unfold for_each_28_record. rewrite records_region_Ok. cbn [mbind outcome_bind].
  rewrite run_records_eq by lia. apply over_records_total. intros a rec Hr.
  apply records_of_size in Hr; [|lia]. apply no_panic_visit; [lia|]. intros. apply Hf. lia.
Qed.

Lemma no_panic_each_16 {A} body (f : A → Z → Z → list Z → total A) acc :
  (∀ acc lri dt rec, length rec = 16%nat → no_panic (f acc lri dt rec)) →
  no_panic (for_each_16_record body f acc).
Proof.
  intros Hf. unfold for_each_16_record. rewrite records_region_Ok. cbn [mbind outcome_bind].
  rewrite run_records_eq by lia. apply over_records_total. intros a rec Hr.
  apply records_of_size in Hr; [|lia]. apply no_panic_visit; [lia|]. intros. apply Hf. lia.
Qed.

Lemma no_panic_first_watts offs rec : no_panic (first_watts offs rec).
Proof.
  induction offs as [|off offs IH]; [done|]. cbn [first_watts]. case_decide; [done|].
  rewrite read_at_Ok by lia. cbn [mbind outcome_bind]. by case_match.
Qed.

Lemma no_panic_slots (offs : list nat) rec :
  Forall (λ off, off + 4 ≤ length rec)%nat offs →
  no_panic (type_label_slots offs rec) ∧ no_panic (selected_slot offs rec) ∧ no_panic (first_slot offs rec).
Proof.
  induction 1 as [|off offs Hoff _ (IH1 & IH2 & IH3)]; [done|]. cbn [type_label_slots selected_slot first_slot].
  rewrite read_at_Ok by done. cbn [mbind outcome_bind].
  split; [|split]; repeat case_match; done.
Qed.

(* ------------------------------------------------------------------ *)
(** ** Specification: what an inverter sends                           *)
(* ------------------------------------------------------------------ *)

(** A 28-byte spot record: code, time, two slots before the value and two
    after it. *)
Record spot : Type := mkSpot { sp_code : Z; sp_time : Z; sp_low : list Z; sp_value : Z; sp_high : list Z }.

Definition spot_ok (r : spot) : Prop :=
  is_u32 (sp_code r) ∧ is_u32 (sp_time r) ∧ length (sp_low r) = 8%nat ∧ is_u32 (sp_value r) ∧
  length (sp_high r) = 8%nat.

Definition spot_bytes (r : spot) : list Z :=
  le_encode 4 (sp_code r) ++ le_encode 4 (sp_time r) ++ sp_low r ++ le_encode 4 (sp_value r) ++ sp_high r.

(** A 16-byte counter record. *)
Record counter : Type := mkCounter { ct_code : Z; ct_time : Z; ct_value : Z }.

Definition counter_ok (r : counter) : Prop := is_u32 (ct_code r) ∧ is_u32 (ct_time r) ∧ is_u64 (ct_value r).

Definition counter_bytes (r : counter) : list Z :=
  le_encode 4 (ct_code r) ++ le_encode 4 (ct_time r) ++ le_encode 8 (ct_value r).

(** A reply: 12 bytes of prefix, records, and fewer bytes than a record. *)
Definition reply {A} (enc : A → list Z) (prefix : list Z) (rs : list A) (tail : list Z) : list Z :=
  prefix ++ concat (map enc rs) ++ tail.

(** The last record with a property, and what is read off it. *)
Definition last_of {A B} (p : A → bool) (read : A → option B) (rs : list A) : option B :=
  r ← last (filter (λ r, p r = true) rs); read r.

Definition has_lri (l : Z) (r : spot) : bool := record_lri (sp_code r) =? l.
Definition has_lri_cls (l c : Z) (r : spot) : bool := has_lri l r && (Z.land (sp_code r) 0xFF =? c).
Definition ct_has_lri (l : Z) (r : counter) : bool := record_lri (ct_code r) =? l.
Definition spot_i32 (r : spot) : option Z :=
  let v := to_i32 (sp_value r) in if v =? I32_NAN then None else Some v.
Definition spot_u32 (r : spot) : option Z :=
  if (sp_value r =? U32_NAN) || (sp_value r =? 0x80000000) then None else Some (sp_value r).
Definition counter_u64 (r : counter) : option Z :=
  if (ct_value r =? U64_NAN) || (ct_value r =? 0xFFFFFFFFFFFFFFFF) then None else Some (ct_value r).

(* ------------------------------------------------------------------ *)
(** ** Lemmas: reading records back                                    *)
(* ------------------------------------------------------------------ *)

Lemma last_of_snoc {A B} (p : A → bool) (read : A → option B) rs r :
  last_of p read (rs ++ [r]) = if p r then read r else last_of p read rs.
Proof.
  unfold last_of. rewrite filter_app. destruct (p r) eqn:Hp.
  - rewrite filter_cons_True by done. cbn [filter list_filter]. by rewrite last_snoc.
  - rewrite filter_cons_False by congruence. cbn [filter list_filter]. by rewrite app_nil_r.
Qed.

Lemma over_records_foldM {A} (f : A → list Z → total (flow A)) (g : A → list Z → total A) recs acc :
  (∀ acc rec, f acc rec = a ← g acc rec; Ok (Continue a)) → over_records f recs acc = foldM g acc recs.
Proof.
  intros Hf. revert acc. induction recs as [|rec recs IH]; intros acc; [done|]. cbn [over_records foldM].
  rewrite Hf. destruct (g acc rec); [apply IH|done..].
Qed.

Lemma records_of_concat MIN MAX (recs : list (list Z)) tail :
  (0 < MIN ≤ MAX)%nat → Forall (λ r, length r = MAX) recs → (length tail < MIN)%nat →
  records_of MIN MAX (concat recs ++ tail) = recs.
Proof.
  intros H0 Hr Ht. induction Hr as [|rec recs Hrec _ IH]; cbn [concat app].
  - rewrite records_of_short by lia. by rewrite decide_False by lia.
  - rewrite <-app_assoc, records_of_cons by (rewrite ?length_app; lia).
    rewrite <-Hrec, take_app_length, drop_app_length, Hrec. by rewrite IH.
Qed.

(** A run over encoded records computes [spec] when every record does its
    step. *)
Lemma foldM_spec {A B} (g : A → list Z → total A) (enc : B → list Z) (ok : B → Prop) (spec : list B → A) rs :
  (∀ rs r, ok r → g (spec rs) (enc r) = Ok (spec (rs ++ [r]))) → Forall ok rs →
  foldM g (spec []) (map enc rs) = Ok (spec rs).
Proof.
  intros Hg Hrs. induction rs as [|r rs IH] using rev_ind; [done|].
  apply Forall_app in Hrs as [Hrs Hr]. apply Forall_cons in Hr as [Hr _].
  rewrite map_app, foldM_app, IH by done. cbn [mbind outcome_bind map foldM].
  by rewrite Hg.
Qed.

Lemma spot_length r : spot_ok r → length (spot_bytes r) = 28%nat.
Proof. intros (_ & _ & Hl & _ & Hh). unfold spot_bytes. rewrite !length_app, !le_encode_length. lia. Qed.

Lemma spot_fields r :
  spot_ok r →
  read_u32_at (spot_bytes r) 0 = Ok (sp_code r) ∧ read_u32_at (spot_bytes r) 4 = Ok (sp_time r) ∧
  read_u32_at (spot_bytes r) 16 = Ok (sp_value r).
Proof.
  intros Hok. pose proof (spot_length r Hok) as Hlen. rewrite !read_at_Ok by lia.
  destruct Hok as (Hc & Ht & Hl & Hv & Hh). unfold spot_bytes.
  assert (Hd : ∀ n z l, drop (4 + n) (le_encode 4 z ++ l) = drop n l).
  { intros. rewrite drop_app_ge by (rewrite le_encode_length; lia). f_equal. rewrite le_encode_length. lia. }
  rewrite (Hd 0%nat), (Hd 12%nat), (Hd 8%nat), !drop_0.
  rewrite drop_app_length' by done. rewrite !take_le_encode_app, !le_decode_encode; done.
Qed.

Lemma spot_i32_value r : spot_ok r → i32_value_28 (spot_bytes r) = Ok (spot_i32 r).
Proof.
  intros Hok. unfold i32_value_28. rewrite spot_length, decide_False by (done || lia).
  destruct (spot_fields r Hok) as (_ & _ & Hv). unfold read_u32_at in Hv. unfold read_i32.
  change (16 + 4)%nat with 20%nat in Hv.
  destruct (slice (spot_bytes r) 16 20) as [s| |] eqn:Hs; [|done..]. cbn [mbind outcome_bind] in Hv.
  cbn [mbind outcome_bind]. by rewrite Hv.
Qed.

Lemma spot_u32_value r : spot_ok r → u32_value_28 (spot_bytes r) = Ok (spot_u32 r).
Proof.
  intros Hok. unfold u32_value_28. rewrite spot_length, decide_False by (done || lia).
  destruct (spot_fields r Hok) as (_ & _ & Hv). by rewrite Hv.
Qed.

Definition visit1 {A} (f : A → Z → Z → list Z → total A) (acc : A) (rec : list Z) : total A :=
  code ← read_u32_at rec 0; dt ← read_u32_at rec 4; f acc (record_lri code) dt rec.

Lemma visit_visit1 {A} (f : A → Z → Z → list Z → total A) acc rec :
  visit f acc rec = a ← visit1 f acc rec; Ok (Continue a).
Proof.
  unfold visit, visit1. destruct (read_u32_at rec 0); [|done..]. cbn [mbind outcome_bind].
  by destruct (read_u32_at rec 4).
Qed.

Section spots.
Context (prefix tail : list Z) (rs : list spot).
Context (Hprefix : length prefix = 12%nat) (Hrs : Forall spot_ok rs) (Htail : (length tail < 20)%nat).

Lemma reply_records :
  records_of 20 28 (region_of (reply spot_bytes prefix rs tail)) = map spot_bytes rs.
Proof.
  unfold region_of, reply. rewrite drop_app_length' by done. apply records_of_concat; [lia| |done].
  apply Forall_map. eapply Forall_impl; [exact Hrs|]. apply spot_length.
Qed.

(** The iterator over a reply of spot records, for a closure that computes
    [spec] step by step. *)
Lemma each_28_spec {A} (f : A → Z → Z → list Z → total A) (spec : list spot → A) :
  (∀ rs r, spot_ok r → f (spec rs) (record_lri (sp_code r)) (sp_time r) (spot_bytes r) = Ok (spec (rs ++ [r]))) →
  for_each_28_record (reply spot_bytes prefix rs tail) f (spec []) = Ok (spec rs).
Proof.
  intros Hf. unfold for_each_28_record. rewrite records_region_Ok. cbn [mbind outcome_bind].
  rewrite run_records_eq, reply_records by lia.
  rewrite (over_records_foldM _ (visit1 f)) by (intros; apply visit_visit1).
  apply (foldM_spec _ _ spot_ok); [|done]. intros rs' r Hr. unfold visit1.
  destruct (spot_fields r Hr) as (-> & -> & _). by apply Hf.
Qed.

Lemma dc_block_spec (spec : list spot → DcPerString) :
  spec [] = mkDcPerString None None None None None None →
  (∀ rs r, spot_ok r → dc_record (spec rs) (spot_bytes r) = Ok (Continue (spec (rs ++ [r])))) →
  parse_dc_block (reply spot_bytes prefix rs tail) = Ok (spec rs).
Proof.
  intros H0 Hf. unfold parse_dc_block. rewrite records_region_Ok. cbn [mbind outcome_bind].
  rewrite run_records_eq, reply_records, <-H0 by lia. clear H0 Hprefix. revert Hrs. generalize rs.
  assert (Hgen : ∀ l rs0, Forall spot_ok l →
    over_records dc_record (map spot_bytes l) (spec rs0) = Ok (spec (rs0 ++ l))).
  { induction l as [|r l IH]; intros rs0 Hl; [by rewrite app_nil_r|].
    apply Forall_cons in Hl as [Hr Hl]. cbn [map over_records]. rewrite Hf by done.
    cbn [mbind outcome_bind]. rewrite IH by done. by rewrite <-app_assoc. }
  intros l Hl. exact (Hgen l [] Hl).
Qed.
End spots.
