(* ===== verification/ValuesProps.v ===== *)
(** * Theorems on readings (inverter-client/src/values.rs)

    Counters and event records read back, and the properties of the parsers
    of [Values.v]: how replies are cut into records, absence of panics, the
    last matching record decides each reading, and what becomes of event-log
    fragments. *)
From Stdlib Require Import String Ascii SpecFloat.
From S2P Require Import Prelude Text Values.

Local Open Scope string_scope.
Local Open Scope list_scope.
Local Open Scope Z_scope.

(* ------------------------------------------------------------------ *)
(** ** Lemmas: counters                                                *)
(* ------------------------------------------------------------------ *)

Lemma counter_length r : length (counter_bytes r) = 16%nat.
Proof. unfold counter_bytes. rewrite !length_app, !le_encode_length. done. Qed.

Lemma counter_fields r :
  counter_ok r →
  read_u32_at (counter_bytes r) 0 = Ok (ct_code r) ∧ read_u32_at (counter_bytes r) 4 = Ok (ct_time r) ∧
  u64_value_16 (counter_bytes r) = Ok (counter_u64 r).
Proof.
  intros (Hc & Ht & Hv). pose proof (counter_length r) as Hlen.
  rewrite !read_at_Ok by lia. unfold u64_value_16, read_u64. rewrite Hlen, decide_False, slice_Ok by lia.
  cbn [mbind outcome_bind]. unfold counter_bytes. rewrite drop_0, take_le_encode_app, le_decode_encode by done.
  rewrite drop_app_length' by by rewrite le_encode_length.
  rewrite take_le_encode_app, le_decode_encode by done.
  rewrite app_assoc, drop_app_length' by (rewrite length_app, !le_encode_length; done).
  rewrite take_ge by (rewrite le_encode_length; lia).
  rewrite <-(app_nil_r (le_encode 8 (ct_value r))), read_le_encode by exact Hv. done.
Qed.

Section counters.
Context (prefix tail : list Z) (rs : list counter).
Context (Hprefix : length prefix = 12%nat) (Hrs : Forall counter_ok rs) (Htail : (length tail < 16)%nat).

Lemma each_16_spec {A} (f : A → Z → Z → list Z → total A) (spec : list counter → A) :
  (∀ rs r, counter_ok r → f (spec rs) (record_lri (ct_code r)) (ct_time r) (counter_bytes r) = Ok (spec (rs ++ [r]))) →
  for_each_16_record (reply counter_bytes prefix rs tail) f (spec []) = Ok (spec rs).
Proof.
  intros Hf. unfold for_each_16_record. rewrite records_region_Ok. cbn [mbind outcome_bind].
  rewrite run_records_eq by lia. unfold region_of, reply.
  rewrite drop_app_length', records_of_concat; [|lia| |done|done].
  2:{ apply Forall_map, Forall_true. apply counter_length. }
  rewrite (over_records_foldM _ (visit1 f)) by (intros; apply visit_visit1).
  apply (foldM_spec _ _ counter_ok); [|done]. intros rs' r Hr. unfold visit1.
  destruct (counter_fields r Hr) as (-> & -> & _). by apply Hf.
Qed.
End counters.

(* ------------------------------------------------------------------ *)
(** ** Lemmas: events                                                  *)
(* ------------------------------------------------------------------ *)

Definition event_ok (e : EventRecord) : Prop :=
  is_u32 (entry_id e) ∧ is_u32 (ev_timestamp e) ∧ is_u32 (event_code e) ∧ is_u32 (device_id e) ∧
  is_u32 (param1 e) ∧ is_u32 (param2 e).

Definition event_bytes (e : EventRecord) : list Z :=
  le_encode 4 (entry_id e) ++ le_encode 4 (ev_timestamp e) ++ le_encode 4 (event_code e)
  ++ le_encode 4 (device_id e) ++ le_encode 4 (param1 e) ++ le_encode 4 (param2 e).

(** Padding: the record that ends the list. *)
Definition padding (e : EventRecord) : bool :=
  (entry_id e =? 0) && ((event_code e =? 0) && (ev_timestamp e =? 0)).

Fixpoint until_padding (es : list EventRecord) : list EventRecord :=
  match es with
  | [] => []
  | e :: es => if padding e then [] else e :: until_padding es
  end.

Lemma event_length e : length (event_bytes e) = 24%nat.
Proof. unfold event_bytes. rewrite !length_app, !le_encode_length. done. Qed.

(** The six words of any 24 bytes. *)
Definition event_of (rec : list Z) : EventRecord :=
  let w k := le_decode (take 4 (drop (4 * k) rec)) in mkEvent (w 0%nat) (w 1%nat) (w 2%nat) (w 3%nat) (w 4%nat) (w 5%nat).

Lemma event_record_eq out rec :
  length rec = 24%nat →
  event_record out rec = Ok (if padding (event_of rec) then Break out else Continue (out ++ [event_of rec])).
Proof.
  intros Hl. unfold event_record. rewrite !read_at_Ok by lia. cbn [mbind outcome_bind].
  unfold padding, event_of. cbn. by destruct (_ && _).
Qed.

Lemma event_of_bytes e : event_ok e → event_of (event_bytes e) = e.
Proof.
  intros (H1 & H2 & H3 & H4 & H5 & H6). destruct e as [a b c d p q]. unfold event_of, event_bytes.
  cbn [entry_id ev_timestamp event_code device_id param1 param2] in *.
  pose proof (le_decode_encode 4 a H1) as E1. pose proof (le_decode_encode 4 b H2) as E2.
  pose proof (le_decode_encode 4 c H3) as E3. pose proof (le_decode_encode 4 d H4) as E4.
  pose proof (le_decode_encode 4 p H5) as E5. pose proof (le_decode_encode 4 q H6) as E6.
  cbn [le_encode app Nat.mul Nat.add drop take] in *. by rewrite E1, E2, E3, E4, E5, E6.
Qed.

Lemma over_events recs out :
  Forall (λ r, length r = 24%nat) recs →
  over_records event_record recs out = Ok (out ++ until_padding (map event_of recs)).
Proof.
  intros Hr. revert out. induction Hr as [|rec recs Hl _ IH]; intros out; cbn [over_records map until_padding].
  - by rewrite app_nil_r.
  - rewrite event_record_eq by done. cbn [mbind outcome_bind]. destruct (padding _).
    + by rewrite app_nil_r.
    + by rewrite IH, <-app_assoc.
Qed.

Lemma parse_events_eq body :
  (12 ≤ length body)%nat →
  parse_event_log_records body = Ok (until_padding (map event_of (records_of 24 24 (region_of body)))).
Proof.
  intros Hl. unfold parse_event_log_records. rewrite decide_False, slice_from_Ok by lia. cbn [mbind outcome_bind].
  rewrite run_records_eq, over_events by lia || (apply Forall_forall; intros r Hr; apply records_of_size in Hr; lia).
  done.
Qed.

(* ------------------------------------------------------------------ *)
(** ** Lemmas: one spot parser at a time                               *)
(* ------------------------------------------------------------------ *)

(** A parser's closure step against its specification: reduce [last_of] at
    the new record, then follow the [if]s on its LRI. *)
Ltac spot_step :=
  rewrite ?last_of_snoc; unfold has_lri_cls, has_lri;
  rewrite ?spot_i32_value, ?spot_u32_value by done; cbn [mbind outcome_bind];
  repeat match goal with
  | |- context [?a =? ?b] => let E := fresh in
      destruct (Z.eqb_spec a b) as [E|E]; [rewrite ?E|]; cbn -[record_lri Z.land scaled last_of]
  end; try done.

Section spot_parsers.
Context (prefix tail : list Z) (rs : list spot).
Context (Hprefix : length prefix = 12%nat) (Hrs : Forall spot_ok rs) (Htail : (length tail < 20)%nat).

Lemma total_power_spec :
  parse_spot_ac_total_power (reply spot_bytes prefix rs tail)
  = Ok (mkReadings (last_of (has_lri lri.SPOT_PAC_TOTAL) spot_i32 rs) None None
          (last_of (has_lri lri.SPOT_PAC_TOTAL) (λ r, Some (sp_time r)) rs)).
Proof.
  apply (each_28_spec prefix tail rs Hprefix Hrs Htail _ (λ rs, mkReadings
    (last_of (has_lri lri.SPOT_PAC_TOTAL) spot_i32 rs) None None
    (last_of (has_lri lri.SPOT_PAC_TOTAL) (λ r, Some (sp_time r)) rs))).
  intros rs' r Hr. spot_step.
Qed.

Lemma temperature_spec :
  parse_inverter_temperature (reply spot_bytes prefix rs tail)
  = Ok (scaled 100 (last_of (has_lri lri.INV_TEMPERATURE) spot_i32 rs)).
Proof.
  apply (each_28_spec prefix tail rs Hprefix Hrs Htail _ (λ rs,
    scaled 100 (last_of (has_lri lri.INV_TEMPERATURE) spot_i32 rs))).
  intros rs' r Hr. spot_step.
Qed.

Lemma frequency_spec :
  parse_grid_frequency (reply spot_bytes prefix rs tail)
  = Ok (scaled 100 (last_of (has_lri lri.GRID_FREQUENCY) spot_u32 rs)).
Proof.
  apply (each_28_spec prefix tail rs Hprefix Hrs Htail _ (λ rs,
    scaled 100 (last_of (has_lri lri.GRID_FREQUENCY) spot_u32 rs))).
  intros rs' r Hr. spot_step.
Qed.

Lemma ac_power_spec :
  let i32_of rs l := last_of (has_lri l) spot_i32 rs in
  let spec rs := mkAcPerPhase (i32_of rs lri.GRID_MS_W_PHS_A) (i32_of rs lri.GRID_MS_W_PHS_B)
    (i32_of rs lri.GRID_MS_W_PHS_C) (last_of (has_lri lri.GRID_MS_W_PHS_A) (λ r, Some (sp_time r)) rs) in
  parse_spot_ac_power (reply spot_bytes prefix rs tail) = Ok (spec rs).
Proof.
  intros i32_of spec. apply (each_28_spec prefix tail rs Hprefix Hrs Htail _ spec).
  intros rs' r Hr. unfold spec, i32_of. spot_step.
Qed.

Lemma ac_voltage_spec :
  let i32_of rs l := last_of (has_lri l) spot_i32 rs in
  let spec rs := mkAcVoltageCurrent
    (scaled 100 (i32_of rs lri.GRID_MS_VPHS_A)) (scaled 100 (i32_of rs lri.GRID_MS_VPHS_B))
    (scaled 100 (i32_of rs lri.GRID_MS_VPHS_C)) (scaled 1000 (i32_of rs lri.GRID_MS_APHS_A))
    (scaled 1000 (i32_of rs lri.GRID_MS_APHS_B)) (scaled 1000 (i32_of rs lri.GRID_MS_APHS_C)) in
  parse_spot_ac_voltage (reply spot_bytes prefix rs tail) = Ok (spec rs).
Proof.
  intros i32_of spec. apply (each_28_spec prefix tail rs Hprefix Hrs Htail _ spec).
  intros rs' r Hr. unfold spec, i32_of. spot_step.
Qed.

Lemma dc_spec :
  let dc rs l c := last_of (has_lri_cls l c) spot_i32 rs in
  let spec rs := mkDcPerString (dc rs lri.DC_MS_WATT 1) (dc rs lri.DC_MS_WATT 2)
    (scaled 100 (dc rs lri.DC_MS_VOL 1)) (scaled 100 (dc rs lri.DC_MS_VOL 2))
    (scaled 1000 (dc rs lri.DC_MS_AMP 1)) (scaled 1000 (dc rs lri.DC_MS_AMP 2)) in
  parse_dc_block (reply spot_bytes prefix rs tail) = Ok (spec rs).
Proof.
  intros dc spec. apply (dc_block_spec prefix tail rs Hprefix Hrs Htail spec); [done|].
  intros rs' r Hr. unfold dc_record. destruct (spot_fields r Hr) as (-> & _). cbn [mbind outcome_bind].
  unfold spec, dc. spot_step.
Qed.
End spot_parsers.

(* ------------------------------------------------------------------ *)
(** ** Lemmas: counters and event lists                                *)
(* ------------------------------------------------------------------ *)

Section counter_parsers.
Context (prefix tail : list Z) (rs : list counter).
Context (Hprefix : length prefix = 12%nat) (Hrs : Forall counter_ok rs) (Htail : (length tail < 16)%nat).

Lemma energy_spec :
  let u64_of rs l := last_of (ct_has_lri l) counter_u64 rs in
  let spec rs := (u64_of rs lri.SPOT_E_TODAY, u64_of rs lri.SPOT_E_TOTAL) in
  parse_energy_production (reply counter_bytes prefix rs tail) = Ok (spec rs).
Proof.
  intros u64_of spec. apply (each_16_spec prefix tail rs Hprefix Hrs Htail _ spec).
  intros rs' r Hr. unfold spec, u64_of, ct_has_lri. destruct (counter_fields r Hr) as (_ & _ & ->). spot_step.
Qed.

Lemma operation_time_spec :
  let u64_of rs l := last_of (ct_has_lri l) counter_u64 rs in
  let spec rs := mkOperationTime (u64_of rs lri.SPOT_OPER_TM) (u64_of rs lri.SPOT_FEED_TM) in
  parse_operation_time (reply counter_bytes prefix rs tail) = Ok (spec rs).
Proof.
  intros u64_of spec. apply (each_16_spec prefix tail rs Hprefix Hrs Htail _ spec).
  intros rs' r Hr. unfold spec, u64_of, ct_has_lri. destruct (counter_fields r Hr) as (_ & _ & ->). spot_step.
Qed.
End counter_parsers.

Lemma events_of_bytes es : Forall event_ok es → map event_of (map event_bytes es) = es.
Proof. induction 1 as [|e es He _ IH]; cbn [map]; [done|]. by rewrite IH, event_of_bytes. Qed.

Lemma until_padding_app es l :
  Forall (λ e, padding e = false) es → until_padding (es ++ l) = es ++ until_padding l.
Proof. induction 1 as [|e es He _ IH]; cbn [app until_padding]; [done|]. by rewrite He, IH. Qed.

(** A region that consists of [recs] and a remainder. *)
Lemma parse_events_region prefix recs tail :
  length prefix = 12%nat → Forall (λ r, length r = 24%nat) recs → (length tail < 24)%nat →
  parse_event_log_records (prefix ++ concat recs ++ tail) = Ok (until_padding (map event_of recs)).
Proof.
  intros Hp Hr Ht. rewrite parse_events_eq by (rewrite length_app; lia).
  unfold region_of. rewrite drop_app_length' by done. by rewrite records_of_concat by (lia || done).
Qed.

Lemma event_bytes_sized es : Forall (λ r, length r = 24%nat) (map event_bytes es).
Proof. apply Forall_map, Forall_true. apply event_length. Qed.

Lemma event_bytes_halves e :
  event_bytes e = (le_encode 4 (entry_id e) ++ le_encode 4 (ev_timestamp e) ++ le_encode 4 (event_code e))
    ++ (le_encode 4 (device_id e) ++ le_encode 4 (param1 e) ++ le_encode 4 (param2 e)).
Proof. unfold event_bytes. by rewrite <-!app_assoc. Qed.

(* ------------------------------------------------------------------ *)
(** ** Lemmas: no parser panics                                        *)
(* ------------------------------------------------------------------ *)

(** A loop of its own over the region: a body that does not panic on records
    of the two sizes. *)
Lemma no_panic_region {A} body (f : A → list Z → total (flow A)) MIN MAX acc :
  (0 < MIN ≤ MAX)%nat → (MAX ≤ 2 * MIN)%nat →
  (∀ acc rec, (MIN ≤ length rec ≤ MAX)%nat → no_panic (f acc rec)) →
  no_panic (region ← records_region body; run_records f MIN MAX region acc).
Proof.
  intros H1 H2 Hf. rewrite records_region_Ok. cbn [mbind outcome_bind]. rewrite run_records_eq by lia.
  apply over_records_total. intros a rec Hr. apply Hf. apply records_of_size in Hr; lia.
Qed.

(** The parsers with a closure: one record at a time. *)
Ltac parser_total :=
  match goal with |- no_panic (?p _) => unfold p | |- no_panic (?p _ _ _) => unfold p end;
  (apply no_panic_each_28 || apply no_panic_each_16); intros acc lri dt rec Hl; cbv zeta; repeat no_panic_step.

Lemma no_panic_spot_ac_total_power body : no_panic (parse_spot_ac_total_power body).
Proof. parser_total. Qed.
Lemma no_panic_inverter_temperature body : no_panic (parse_inverter_temperature body).
Proof. parser_total. Qed.
Lemma no_panic_grid_frequency body : no_panic (parse_grid_frequency body).
Proof. parser_total. Qed.
Lemma no_panic_spot_ac_power body : no_panic (parse_spot_ac_power body).
Proof. parser_total. Qed.
Lemma no_panic_spot_ac_voltage body : no_panic (parse_spot_ac_voltage body).
Proof. parser_total. Qed.
Lemma no_panic_cosphi body : no_panic (parse_cosphi body).
Proof. parser_total. Qed.
Lemma no_panic_energy_production body : no_panic (parse_energy_production body).
Proof. parser_total. Qed.
Lemma no_panic_operation_time body : no_panic (parse_operation_time body).
Proof. parser_total. Qed.
Lemma no_panic_grid_relay body : no_panic (parse_grid_relay body).
Proof.
  unfold parse_grid_relay. apply no_panic_each_28. intros acc lri dt rec Hl. no_panic_step; [|done].
  apply andb_true_iff in Heqb as [_ Hlen%bool_decide_eq_true]. repeat no_panic_step.
Qed.
Lemma no_panic_software_version body : no_panic (parse_software_version body).
Proof.
  unfold parse_software_version. apply no_panic_each_28. intros acc lri dt rec Hl. no_panic_step; [|done].
  apply andb_true_iff in Heqb as [_ Hlen%bool_decide_eq_true]. repeat no_panic_step.
Qed.
Lemma no_panic_single_watts body first last : no_panic (parse_single_watts_record body first last).
Proof. parser_total. apply no_panic_first_watts. Qed.
Lemma no_panic_type_label body : no_panic (parse_type_label_raw body).
Proof.
  apply no_panic_region; [lia..|]. intros a rec Hl. unfold type_label_record. repeat no_panic_step.
  apply (no_panic_slots [8; 12; 16; 20; 24; 28; 32; 36]%nat). repeat constructor; lia.
Qed.
Lemma no_panic_dc_block body : no_panic (parse_dc_block body).
Proof.
  apply no_panic_region; [lia..|]. intros a rec Hl. unfold dc_record. apply no_panic_bind; [auto with nopanic|].
  intros code _. cbv zeta. destruct a. repeat no_panic_step.
Qed.
Lemma no_panic_device_status body : no_panic (parse_device_status body).
Proof.
  apply no_panic_each_28. intros acc lri dt rec Hl. no_panic_step; [|done].
  apply andb_true_iff in Heqb as [_ Hlen%bool_decide_eq_true].
  destruct (no_panic_slots STATUS_SLOTS rec) as (_ & H1 & H2); [repeat constructor; lia|].
  repeat no_panic_step; done.
Qed.
Lemma no_panic_event_log_records body : no_panic (parse_event_log_records body).
Proof.
  destruct (decide (12 ≤ length body)%nat); [by rewrite parse_events_eq|].
  unfold parse_event_log_records. by rewrite decide_True by lia.
Qed.
#[export] Hint Resolve no_panic_spot_ac_total_power no_panic_inverter_temperature no_panic_grid_frequency
  no_panic_spot_ac_power no_panic_spot_ac_voltage no_panic_cosphi no_panic_energy_production no_panic_operation_time
  no_panic_grid_relay no_panic_software_version no_panic_single_watts no_panic_type_label no_panic_dc_block
  no_panic_device_status no_panic_event_log_records : nopanic.

(* ------------------------------------------------------------------ *)
(** ** Properties                                                      *)
(* ------------------------------------------------------------------ *)

(** The record loops terminate and visit exactly the consecutive records
    of the region behind the 12-byte prefix, in order, for every closure:
    28-byte records, the last one shortened to 20 when 20 to 27 bytes are left;
    16-byte counter records.  Bytes that do not fill a record are ignored. *)
Theorem record_iteration_is_chunking {A} (body : list Z) (f : A → Z → Z → list Z → total A) (acc : A) :
  for_each_28_record body f acc = over_records (visit f) (records_of 20 28 (region_of body)) acc ∧
  for_each_16_record body f acc = over_records (visit f) (records_of 16 16 (region_of body)) acc.
Proof.
  unfold for_each_28_record, for_each_16_record. rewrite records_region_Ok. cbn [mbind outcome_bind].
  by rewrite !run_records_eq by lia.
Qed.

(** C26. No parser panics: whatever bytes a reply holds, no read or slice is
    out of range and every loop ends. *)
Theorem value_parsers_never_panic body first last :
  no_panic (parse_spot_ac_total_power body) ∧ no_panic (parse_energy_production body) ∧
  no_panic (parse_inverter_temperature body) ∧ no_panic (parse_grid_frequency body) ∧
  no_panic (parse_cosphi body) ∧ no_panic (parse_single_watts_record body first last) ∧
  no_panic (parse_type_label_raw body) ∧ no_panic (parse_spot_ac_power body) ∧
  no_panic (parse_spot_ac_voltage body) ∧ no_panic (parse_dc_block body) ∧
  no_panic (parse_operation_time body) ∧ no_panic (parse_device_status body) ∧
  no_panic (parse_grid_relay body) ∧ no_panic (parse_software_version body) ∧
  no_panic (parse_event_log_records body).
Proof.
  repeat match goal with |- _ ∧ _ => split end; auto with nopanic.
Qed.

(** C13. Each reading is decided by the last record with its LRI, whatever
    other records surround it, and is absent when that record holds the
    not-a-number pattern or there is none: the spot parsers on replies of full
    28-byte records (32-bit words, values signed where the code reads [i32]). *)
Theorem readings_are_last_records (prefix tail : list Z) (rs : list spot) :
  length prefix = 12%nat → Forall spot_ok rs → (length tail < 20)%nat →
  let body := reply spot_bytes prefix rs tail in
  let i32_of l := last_of (has_lri l) spot_i32 rs in
  let dc l c := last_of (has_lri_cls l c) spot_i32 rs in
  parse_spot_ac_total_power body
    = Ok (mkReadings (i32_of lri.SPOT_PAC_TOTAL) None None
            (last_of (has_lri lri.SPOT_PAC_TOTAL) (λ r, Some (sp_time r)) rs)) ∧
  parse_inverter_temperature body = Ok (scaled 100 (i32_of lri.INV_TEMPERATURE)) ∧
  parse_grid_frequency body = Ok (scaled 100 (last_of (has_lri lri.GRID_FREQUENCY) spot_u32 rs)) ∧
  parse_spot_ac_power body
    = Ok (mkAcPerPhase (i32_of lri.GRID_MS_W_PHS_A) (i32_of lri.GRID_MS_W_PHS_B) (i32_of lri.GRID_MS_W_PHS_C)
            (last_of (has_lri lri.GRID_MS_W_PHS_A) (λ r, Some (sp_time r)) rs)) ∧
  parse_spot_ac_voltage body
    = Ok (mkAcVoltageCurrent
            (scaled 100 (i32_of lri.GRID_MS_VPHS_A)) (scaled 100 (i32_of lri.GRID_MS_VPHS_B))
            (scaled 100 (i32_of lri.GRID_MS_VPHS_C)) (scaled 1000 (i32_of lri.GRID_MS_APHS_A))
            (scaled 1000 (i32_of lri.GRID_MS_APHS_B)) (scaled 1000 (i32_of lri.GRID_MS_APHS_C))) ∧
  parse_dc_block body
    = Ok (mkDcPerString (dc lri.DC_MS_WATT 1) (dc lri.DC_MS_WATT 2)
            (scaled 100 (dc lri.DC_MS_VOL 1)) (scaled 100 (dc lri.DC_MS_VOL 2))
            (scaled 1000 (dc lri.DC_MS_AMP 1)) (scaled 1000 (dc lri.DC_MS_AMP 2))).
Proof.
  intros Hp Hrs Ht. cbv zeta. refine (conj _ (conj _ (conj _ (conj _ (conj _ _))))).
  - exact (total_power_spec prefix tail rs Hp Hrs Ht).
  - exact (temperature_spec prefix tail rs Hp Hrs Ht).
  - exact (frequency_spec prefix tail rs Hp Hrs Ht).
  - exact (ac_power_spec prefix tail rs Hp Hrs Ht).
  - exact (ac_voltage_spec prefix tail rs Hp Hrs Ht).
  - exact (dc_spec prefix tail rs Hp Hrs Ht).
Qed.

(** The counters likewise: day and lifetime energy, operation and feed-in
    time are those of the last 16-byte record with their LRI, absent on the
    64-bit not-a-number patterns. *)
Theorem counters_are_last_records (prefix tail : list Z) (rs : list counter) :
  length prefix = 12%nat → Forall counter_ok rs → (length tail < 16)%nat →
  let body := reply counter_bytes prefix rs tail in
  let u64_of l := last_of (ct_has_lri l) counter_u64 rs in
  parse_energy_production body = Ok (u64_of lri.SPOT_E_TODAY, u64_of lri.SPOT_E_TOTAL) ∧
  parse_operation_time body = Ok (mkOperationTime (u64_of lri.SPOT_OPER_TM) (u64_of lri.SPOT_FEED_TM)).
Proof.
  intros Hp Hrs Ht. split.
  - exact (energy_spec prefix tail rs Hp Hrs Ht).
  - exact (operation_time_spec prefix tail rs Hp Hrs Ht).
Qed.

(** C25. The event log reads back: a reply of encoded events gives the events
    up to the first padding entry.  A reply in two fragments, which the session
    concatenates with both prefixes, does not: behind the first fragment's
    events comes one event made of the second prefix's three words and the
    first three words of the first event behind it. *)
Theorem event_log_reads_back (p1 tail : list Z) (es : list EventRecord) (a b c : Z) (e : EventRecord) :
  length p1 = 12%nat → (length tail < 24)%nat → Forall event_ok es →
  parse_event_log_records (reply event_bytes p1 es tail) = Ok (until_padding es) ∧
  (Forall (λ e, padding e = false) es → event_ok e → is_u32 a → is_u32 b → is_u32 c →
   let p2 := le_encode 4 a ++ le_encode 4 b ++ le_encode 4 c in
   parse_event_log_records (reply event_bytes p1 es [] ++ reply event_bytes p2 [e] [])
   = Ok (es ++ until_padding [mkEvent a b c (entry_id e) (ev_timestamp e) (event_code e)])).
Proof.
  intros Hp Ht Hes. split.
  { unfold reply. rewrite parse_events_region by (done || apply event_bytes_sized). by rewrite events_of_bytes. }
  intros Hnp He Ha Hb Hc p2. unfold reply. cbn [map concat]. rewrite !app_nil_r.
  set (mixed := mkEvent a b c (entry_id e) (ev_timestamp e) (event_code e)).
  destruct He as (H1 & H2 & H3 & _). assert (Hm : event_ok mixed) by done.
  assert (Heq : p2 ++ event_bytes e = event_bytes mixed ++ (le_encode 4 (device_id e) ++ le_encode 4 (param1 e)
    ++ le_encode 4 (param2 e))).
  { unfold p2. rewrite event_bytes_halves. unfold event_bytes, mixed. cbn [entry_id ev_timestamp event_code device_id param1 param2].
    by rewrite <-!app_assoc. }
  rewrite <-app_assoc, Heq, (app_assoc (concat _)).
  replace (concat (map event_bytes es) ++ event_bytes mixed) with (concat (map event_bytes (es ++ [mixed]))).
  2:{ rewrite map_app, concat_app. cbn [map concat]. by rewrite (app_nil_r (event_bytes mixed)). }
  rewrite parse_events_region; [|done|apply event_bytes_sized|rewrite !length_app, !le_encode_length; lia].
  rewrite events_of_bytes by (apply Forall_app; split; [done|by apply Forall_singleton]).
  by rewrite until_padding_app.
Qed.

(* ------------------------------------------------------------------ *)
(** ** Concrete instances                                              *)
(* ------------------------------------------------------------------ *)

Definition prefix0 : list Z := replicate 12 0.
Definition spots0 : list spot :=
  [mkSpot 0x40263F01 1700000000 (replicate 8 255) 4321 (replicate 8 1);
   mkSpot 0x40237701 1700000001 (replicate 8 0) 0xFFFFFF38 (replicate 8 0);
   mkSpot 0x40251E01 1700000002 (replicate 8 0) 2200 (replicate 8 0);
   mkSpot 0x40251E02 1700000002 (replicate 8 0) 0x80000000 (replicate 8 0);
   mkSpot 0x40263F01 1700000003 (replicate 8 255) 1234 (replicate 8 1)].
Definition counters0 : list counter :=
  [mkCounter 0x00262201 1700000000 12345; mkCounter 0x00260101 1700000000 0x8000000000000000].
Definition event0 : EventRecord := mkEvent 42 1700000000 0x131 0x801234 0 0.
Definition event1 : EventRecord := mkEvent 43 1700000060 0x133 0x801234 5 6.

(** The last of the two totals counts; a negative temperature; one string of
    the DC block holds the not-a-number pattern. *)
Lemma readings_are_last_records_witness :
  let body := reply spot_bytes prefix0 spots0 [1; 2; 3] in
  parse_spot_ac_total_power body = Ok (mkReadings (Some 1234) None None (Some 1700000003)) ∧
  parse_inverter_temperature body = Ok (scaled 100 (Some (-200))) ∧
  parse_dc_block body = Ok (mkDcPerString (Some 2200) None None None None None).
Proof.
  cbv zeta.
  pose proof (readings_are_last_records prefix0 [1; 2; 3] spots0
    eq_refl ltac:(repeat constructor; vm_compute; congruence) ltac:(cbn; lia)) as (H1 & H2 & _ & _ & _ & H3).
  rewrite H1, H2, H3. split; [|split]; vm_compute; reflexivity.
Defined.

Lemma counters_are_last_records_witness :
  parse_energy_production (reply counter_bytes prefix0 counters0 [0]) = Ok (Some 12345, None).
Proof.
  pose proof (counters_are_last_records prefix0 [0] counters0
    eq_refl ltac:(repeat constructor; vm_compute; congruence) ltac:(cbn; lia)) as (H & _).
  rewrite H. vm_compute. reflexivity.
Defined.

(** Two fragments of one event each: the second event is not read. *)
Lemma event_log_reads_back_witness :
  parse_event_log_records (reply event_bytes prefix0 [event0; event1] []) = Ok [event0; event1] ∧
  parse_event_log_records (reply event_bytes prefix0 [event0] [] ++ reply event_bytes (le_encode 4 1 ++ le_encode 4 0 ++ le_encode 4 9) [event1] [])
  = Ok [event0; mkEvent 1 0 9 43 1700000060 0x133].
Proof.
  assert (H0 : event_ok event0) by (repeat constructor; vm_compute; congruence).
  assert (H1 : event_ok event1) by (repeat constructor; vm_compute; congruence).
  split.
  - pose proof (event_log_reads_back prefix0 [] [event0; event1] 1 0 9 event1
      eq_refl ltac:(cbn; lia) (Forall_cons_2 _ _ _ H0 (Forall_cons_2 _ _ _ H1 (Forall_nil_2 _)))) as (H & _).
    rewrite H. reflexivity.
  - pose proof (event_log_reads_back prefix0 [] [event0] 1 0 9 event1
      eq_refl ltac:(cbn; lia) (Forall_cons_2 _ _ _ H0 (Forall_nil_2 _))) as (_ & H).
    rewrite H; [reflexivity|repeat constructor|assumption|lia..].
Defined.

(** The Rust unit tests' inputs. *)
Example version_text_test : version_text 0x02300604 = "02.30.06.R".
Proof. reflexivity. Qed.
Example status_text_test : (status_text 307, status_text 1) = ("Ok", "Unknown").
Proof. reflexivity. Qed.
Example event_text_test : (text event0, text event1) = (Some "MPP search", Some "Normal operation").
Proof. reflexivity. Qed.
Example cosphi_test :
  parse_cosphi (reply spot_bytes prefix0 [mkSpot 0x00474801 0 (replicate 8 0) (4294967296 - 987) (replicate 8 0)] [])
  = Ok (Some (f32_div (to_f32 987) 1000)).
Proof. vm_compute. reflexivity. Qed.
Example watts_test :
  parse_single_watts_record (reply spot_bytes prefix0 [mkSpot 0x00832A01 0 (le_encode 4 0 ++ le_encode 4 3500) 0 (replicate 8 0)] [])
    0x00832A00 0x00832AFF = Ok (Some 3500).
Proof. vm_compute. reflexivity. Qed.
