(* ===== verification/Storage.v ===== *)
(** * Archive sinks (crates/storage/src/)

    The trait [ReadingSink] of [lib.rs] as a class, with its two
    implementations: the CSV files of [csv_sink.rs] on a disk whose operations
    may fail, and the TimescaleDB writer of [writer.rs] on a database client
    (sqlx, a parameter) with the statements of [schema.rs].  Theorems: the CSV
    archive is append-only whatever fails, and reads back record by record. *)
From Stdlib Require Import String Ascii SpecFloat.
From stdpp Require Import gmap pretty.
From S2P Require Import Prelude Text.

Local Open Scope string_scope.
Local Open Scope list_scope.
Local Open Scope Z_scope.

(* ------------------------------------------------------------------ *)
(** ** lib.rs                                                          *)
(* ------------------------------------------------------------------ *)

(** [ReadingSink]: time, slot, serial, metric, value. *)
Class ReadingSink (S E : Type) := sink_write : DateTime → string → Z → string → f64 → prog S E ().

(** [StorageError] (writer.rs), over the errors of the database client. *)
Inductive StorageError (SqlError : Type) : Type := Sqlx (e : SqlError) | Io (errno : Z).
Arguments Sqlx {SqlError} e. Arguments Io {SqlError} errno.

(* ------------------------------------------------------------------ *)
(** ** csv_sink.rs                                                     *)
(* ------------------------------------------------------------------ *)

Module Csv.

(** What the next operation on the disk does: succeed, or fail; a failing
    write has written [n] bytes. *)
Inductive io_answer : Type := IoOk | IoErr (errno : Z) (n : nat).

Record disk : Type := mkDisk { contents : gmap string string; answers : list io_answer }.

(** The sink: its root directory.  The lock serialises its writes, so that
    they are one sequence of [append]s. *)
Record CsvSink : Type := mkCsvSink { root : string; fs : disk }.

(** [PathBuf::join]: an absolute path replaces the root. *)
Definition path_join (root rel : string) : string :=
  if String.prefix "/" rel then rel
  else if String.eqb root "" then rel
  else if has_suffix "/" root then root +:+ rel
  else root +:+ "/" +:+ rel.

(** [CsvSink::filename_for] *)
Definition file_of (slot : string) (time : DateTime) : string :=
  slot +:+ "-" +:+ pad 4 (year time) +:+ "-" +:+ pad 2 (month time) +:+ "-" +:+ pad 2 (day time) +:+ ".csv".
Definition filename_for (root slot : string) (time : DateTime) : string := path_join root (file_of slot time).

Section csv.
Context {SqlError : Type}.
Abbreviation cprog := (prog CsvSink (StorageError SqlError)).

(** The next answer of the disk. *)
Definition answer : prog CsvSink (StorageError SqlError) io_answer := λ s,
  match answers (fs s) with
  | [] => (Ok IoOk, s)
  | a :: rest => (Ok a, mkCsvSink (root s) (mkDisk (contents (fs s)) rest))
  end.

Definition set_contents (f : gmap string string → gmap string string) (s : CsvSink) : CsvSink :=
  mkCsvSink (root s) (mkDisk (f (contents (fs s))) (answers (fs s))).

(** [create_dir_all(parent).await.map_err(..)?] *)
Definition create_dir_all : cprog () :=
  a ← answer; match a with IoOk => mret () | IoErr e _ => throw (Io e) end.

(** [try_exists(&path).await.unwrap_or(false)] *)
Definition try_exists (path : string) : cprog bool :=
  a ← answer;
  match a with
  | IoOk => s ← gets (λ s, contents (fs s)); mret (bool_decide (is_Some (s !! path)))
  | IoErr _ _ => mret false
  end.

(** An open file.  tokio buffers a write and completes it behind the caller's
    back: its failure is the failure of the next operation on the file. *)
Record file : Type := mkFile { f_path : string; f_buf : option string }.

(** [OpenOptions::new().create(true).append(true).open(&path)] *)
Definition open_append (path : string) : cprog file :=
  a ← answer;
  match a with
  | IoOk => modify (set_contents (λ m, <[path := default "" (m !! path)]> m));; mret (mkFile path None)
  | IoErr e _ => throw (Io e)
  end.

(** The completion of the buffered write. *)
Definition complete (f : file) : cprog () :=
  match f_buf f with
  | None => mret ()
  | Some text =>
      let path := f_path f in
      a ← answer;
      match a with
      | IoOk => modify (set_contents (λ m, <[path := default "" (m !! path) +:+ text]> m))
      | IoErr e n =>
          modify (set_contents (λ m, <[path := default "" (m !! path) +:+ String.substring 0 n text]> m));;
          throw (Io e)
      end
  end.

(** [f.write_all(..)], [f.flush()] *)
Definition write_all (f : file) (text : string) : cprog file := complete f;; mret (mkFile (f_path f) (Some text)).
Definition flush (f : file) : cprog () := complete f.

Definition newline : string := String "010" "".
Definition csv_header : string := "time,serial,metric,value" +:+ newline.
Definition csv_line (time : DateTime) (serial : Z) (metric : string) (value : f64) : string :=
  to_rfc3339 time +:+ "," +:+ pretty serial +:+ "," +:+ metric +:+ "," +:+ show_f64 value +:+ newline.

(** The directory, the test whether the file is new, and opening it. *)
Definition prepare (path : string) : cprog (bool * file) :=
  create_dir_all;;
  exists_ ← try_exists path;
  f ← open_append path;
  mret (negb exists_, f).

(** [CsvSink::append] *)
Definition append (time : DateTime) (slot : string) (serial : Z) (metric : string) (value : f64) : cprog () :=
  r ← gets root;
  let path := filename_for r slot time in
  '(is_new, f) ← prepare path;
  f ← (if is_new : bool then write_all f csv_header else mret f);
  f ← write_all f (csv_line time serial metric value);
  flush f.

#[global] Instance csv_sink : ReadingSink CsvSink (StorageError SqlError) := append.
End csv.
End Csv.

(* ------------------------------------------------------------------ *)
(** ** writer.rs, schema.rs                                            *)
(* ------------------------------------------------------------------ *)

Module Timescale.

(** A value bound to a statement. *)
Inductive sql_value : Type :=
  | Timestamp (t : DateTime) | SqlText (s : string) | BigInt (z : Z) | Double (x : f64).

(** The pool of the database client: [sqlx::query(stmt).bind(..).execute(..)]. *)
Class Database (P E : Type) := execute : string → list sql_value → P → option E * P.

(** [CREATE_SCHEMA], line by line. *)
Definition CREATE_SCHEMA : string := String.concat Csv.newline
  ["";
   "CREATE EXTENSION IF NOT EXISTS timescaledb;";
   "";
   "CREATE TABLE IF NOT EXISTS inverter_readings (";
   "    time    TIMESTAMPTZ      NOT NULL,";
   "    slot    TEXT             NOT NULL,";
   "    serial  BIGINT           NOT NULL,";
   "    metric  TEXT             NOT NULL,";
   "    value   DOUBLE PRECISION NOT NULL";
   ");";
   "";
   "SELECT create_hypertable('inverter_readings', 'time', if_not_exists => TRUE);";
   "";
   "CREATE INDEX IF NOT EXISTS idx_inv_slot_metric";
   "    ON inverter_readings (slot, metric, time DESC);";
   "";
   "SELECT add_retention_policy('inverter_readings', INTERVAL '90 days', if_not_exists => TRUE);";
   "";
   "ALTER TABLE inverter_readings";
   "    SET (timescaledb.compress,";
   "         timescaledb.compress_segmentby = 'slot,metric');";
   "";
   "SELECT add_compression_policy('inverter_readings', INTERVAL '7 days', if_not_exists => TRUE);";
   "";
   "CREATE MATERIALIZED VIEW IF NOT EXISTS hourly_avg";
   "WITH (timescaledb.continuous) AS";
   "SELECT";
   "    time_bucket('1 hour', time) AS bucket,";
   "    slot,";
   "    metric,";
   "    AVG(value) AS avg_value,";
   "    MAX(value) AS max_value,";
   "    MIN(value) AS min_value,";
   "    COUNT(*)   AS samples";
   "FROM inverter_readings";
   "GROUP BY bucket, slot, metric";
   "WITH NO DATA;";
   "";
   "SELECT add_continuous_aggregate_policy('hourly_avg',";
   "    start_offset      => INTERVAL '1 day',";
   "    end_offset        => INTERVAL '1 hour',";
   "    schedule_interval => INTERVAL '30 minutes',";
   "    if_not_exists     => TRUE);";
   ""].

(** [str::trim], for ASCII white space. *)
Definition is_space (c : ascii) : bool :=
  let v := nat_of_ascii c in (v =? 32)%nat || ((9 <=? v)%nat && (v <=? 13)%nat).
Fixpoint trim_start (s : string) : string :=
  match s with
  | EmptyString => EmptyString
  | String c rest => if is_space c then trim_start rest else s
  end.
Fixpoint trim_end (s : string) : string :=
  match s with
  | EmptyString => EmptyString
  | String c rest =>
      match trim_end rest with
      | EmptyString => if is_space c then EmptyString else String c EmptyString
      | rest => String c rest
      end
  end.
Definition trim (s : string) : string := trim_end (trim_start s).

(** The statements of [init_schema]. *)
Definition statements (schema : string) : list string :=
  filter (λ s, s ≠ "") (map trim (split_at ";" schema)).

Record StorageWriter (P : Type) : Type := mkWriter { pool : P }.
Arguments mkWriter {P} pool. Arguments pool {P}.

Section writer.
Context {P SqlError : Type} `{Hdb : !Database P SqlError}.
Abbreviation wprog := (prog (StorageWriter P) (StorageError SqlError)).

(** [sqlx::query(..).execute(&self.pool).await?] *)
Definition run_query (stmt : string) (args : list sql_value) : wprog () := λ w,
  let '(r, p) := execute stmt args (pool w) in
  (match r with None => Ok () | Some e => Err (Sqlx e) end, mkWriter p).

Fixpoint run_statements (stmts : list string) : wprog () :=
  match stmts with
  | [] => mret ()
  | stmt :: stmts => run_query stmt [];; run_statements stmts
  end.

(** [StorageWriter::init_schema] *)
Definition init_schema : wprog () := run_statements (statements CREATE_SCHEMA).

(** [StorageWriter::insert] *)
Definition insert (time : DateTime) (slot : string) (serial : Z) (metric : string) (value : f64) : wprog () :=
  run_query "INSERT INTO inverter_readings (time, slot, serial, metric, value) VALUES ($1, $2, $3, $4, $5)"
    [Timestamp time; SqlText slot; BigInt serial; SqlText metric; Double value].

#[global] Instance timescale_sink : ReadingSink (StorageWriter P) (StorageError SqlError) := insert.
End writer.
End Timescale.

(* ------------------------------------------------------------------ *)
(** ** Specification: the archive as a log                             *)
(* ------------------------------------------------------------------ *)

Import Csv.

(** One call of the sink. *)
Record entry : Type := mkEntry { e_time : DateTime; e_slot : string; e_serial : Z; e_metric : string; e_value : f64 }.

Definition file_for (root : string) (e : entry) : string := filename_for root (e_slot e) (e_time e).
Definition line_of (e : entry) : string := csv_line (e_time e) (e_serial e) (e_metric e) (e_value e).

(** The fields of a line, as a reader sees them. *)
Definition fields_of (e : entry) : list string :=
  [to_rfc3339 (e_time e); pretty (e_serial e); e_metric e; show_f64 (e_value e)].

(** Reading a file: the lines behind the header, split into fields. *)
Definition read_csv (content : string) : list (list string) :=
  map (split_at ",") (removelast (drop 1 (split_at "010" content))).

(** Texts that do not break the format, slots that are file names. *)
Definition plain (s : string) : Prop := has_char "," s = false ∧ has_char "010" s = false.
Definition slot_ok (slot : string) : Prop := has_char "/" slot = false.
Definition entry_ok (e : entry) : Prop :=
  plain (to_rfc3339 (e_time e)) ∧ plain (e_metric e) ∧ slot_ok (e_slot e) ∧ time_ok (e_time e).

Definition same_day (t t' : DateTime) : Prop := year t = year t' ∧ month t = month t' ∧ day t = day t'.

(** The lines of a file. *)
Definition log_of (root path : string) (es : list entry) : list entry := filter (λ e, file_for root e = path) es.
Definition rendered (es : list entry) : string := csv_header +:+ String.concat "" (map line_of es).

Section sink.
Context {SqlError : Type}.
Abbreviation cprog := (prog CsvSink (StorageError SqlError)).
Implicit Types s : CsvSink.

(** A run of calls. *)
Fixpoint append_all (es : list entry) : cprog () :=
  match es with
  | [] => mret ()
  | e :: es => append (e_time e) (e_slot e) (e_serial e) (e_metric e) (e_value e);; append_all es
  end.

(** [s'] differs from [s] at most by text added at the end of [path]. *)
Definition grows (path : string) s s' : Prop :=
  root s' = root s ∧ (∀ q, q ≠ path → contents (fs s') !! q = contents (fs s) !! q) ∧
  (∀ c, contents (fs s) !! path = Some c → ∃ t, contents (fs s') !! path = Some (c +:+ t)).

Lemma grows_refl path s s' : root s' = root s → contents (fs s') = contents (fs s) → grows path s s'.
Proof. intros Hr Hc. split; [done|]. rewrite Hc. split; [done|]. intros c Hs. exists "". by rewrite append_nil_r. Qed.

Lemma grows_trans path s1 s2 s3 : grows path s1 s2 → grows path s2 s3 → grows path s1 s3.
Proof.
  intros (R1 & O1 & P1) (R2 & O2 & P2). split; [congruence|]. split.
  - intros q Hq. by rewrite O2, O1.
  - intros c Hc. destruct (P1 c Hc) as [t1 H1]. destruct (P2 _ H1) as [t2 H2]. exists (t1 +:+ t2). by rewrite <-append_assoc.
Qed.

Lemma grows_set path s (g : gmap string string → string) t :
  (∀ m, g m = default "" (m !! path) +:+ t) → grows path s (set_contents (λ m, <[path := g m]> m) s).
Proof.
  intros Hg. split; [done|]. cbn. split.
  - intros q Hq. by rewrite lookup_insert_ne.
  - intros c Hc. exists t. by rewrite lookup_insert_eq, Hg, Hc.
Qed.

(** What every operation on [path] guarantees: only that file grows, no panic,
    and with no failure to come it succeeds, with [post] of its result. *)
Definition step {A} (path : string) s (post : A → CsvSink → Prop) (r : outcome (StorageError SqlError) A) s' : Prop :=
  grows path s s' ∧ r ≠ Panic ∧ (∀ a, r = Ok a → post a s') ∧
  (answers (fs s) = [] → (∃ a, r = Ok a) ∧ answers (fs s') = []).

Lemma step_bind {A B} path (m : cprog A) (f : A → cprog B) s post1 post :
  wp m s (step path s post1) → (∀ a s1, post1 a s1 → wp (f a) s1 (step path s1 post)) →
  wp (m ≫= f) s (step path s post).
Proof.
  intros Hm Hf. apply wp_bind. eapply wp_mono; [exact Hm|]. intros r s1 (G1 & N1 & P1 & A1).
  destruct r as [a|e|]; [|split; [done|]; split; [done|]; split; [done|]; naive_solver|done].
  eapply wp_mono; [apply Hf; by apply P1|]. intros r s2 (G2 & N2 & P2 & A2).
  split; [by eapply grows_trans|]. split; [done|]. split; [done|]. naive_solver.
Qed.

Lemma step_ret {A} path (a : A) s (post : A → CsvSink → Prop) : post a s → wp (mret a) s (step path s post).
Proof. intros Hp. apply wp_ret. split; [by apply grows_refl|]. split; [done|]. split; [by intros ? [= <-]|naive_solver]. Qed.

(** An operation that reads the next answer: what it does when the answer is
    a success, and that it only fails or adds text otherwise. *)
Lemma step_answer {A} path (k : io_answer → cprog A) s (post : A → CsvSink → Prop) :
  (∀ s', contents (fs s') = contents (fs s) → root s' = root s → wp (k IoOk) s' (step path s' post)) →
  (∀ e n s', contents (fs s') = contents (fs s) → wp (k (IoErr e n)) s' (λ r s'', grows path s' s'' ∧ r ≠ Panic ∧ ∀ a, r = Ok a → post a s'')) →
  wp (answer ≫= k) s (step path s post).
Proof.
  intros Hok Herr. apply wp_bind. unfold answer at 1, wp at 1. destruct (answers (fs s)) as [|a rest] eqn:Ha; cbn [fst snd].
  - by apply Hok.
  - set (s1 := mkCsvSink _ _). assert (G1 : grows path s s1) by by apply grows_refl.
    assert (Hw : wp (k a) s1 (λ r s'', grows path s1 s'' ∧ r ≠ Panic ∧ ∀ a, r = Ok a → post a s'')).
    { destruct a; [|by apply Herr]. eapply wp_mono; [by apply Hok|]. intros r s2 (? & ? & ? & _). done. }
    eapply wp_mono; [exact Hw|]. intros r s2 (G2 & N2 & P2).
    split; [exact (grows_trans _ _ _ _ G1 G2)|]. split; [done|]. split; [done|]. intros H. by rewrite H in Ha.
Qed.

Lemma wp_failed {A} path e s (post : A → CsvSink → Prop) :
  wp (throw (Io e) : cprog A) s (λ r s', grows path s s' ∧ r ≠ Panic ∧ ∀ a, r = Ok a → post a s').
Proof. apply wp_throw. split; [by apply grows_refl|done]. Qed.

Definition content_is (path : string) (c : option string) s : Prop := contents (fs s) !! path = c.

Lemma create_dir_step path c s : content_is path c s → wp create_dir_all s (step path s (λ _, content_is path c)).
Proof.
  intros Hc. apply step_answer.
  - intros s' E _. apply step_ret. unfold content_is. by rewrite E.
  - intros. apply wp_failed.
Qed.

Lemma try_exists_step path c s :
  content_is path c s →
  wp (try_exists path : cprog bool) s (step path s (λ seen s', content_is path c s' ∧ (c = None → seen = false))) ∧
  (answers (fs s) = [] → wp (try_exists path : cprog bool) s (λ r _, r = Ok (bool_decide (is_Some c)))).
Proof.
  intros Hc. split.
  - apply step_answer.
    + intros s' E _. eapply (step_bind _ _ _ _ (λ m s'', s'' = s' ∧ m = contents (fs s'))).
      * apply wp_gets. split; [by apply grows_refl|]. split; [done|]. split; [by intros ? [= <-]|naive_solver].
      * intros m s'' [-> ->]. apply step_ret. unfold content_is in *. rewrite E, Hc. split; [done|by intros ->].
    + intros e n s' E. apply wp_ret. split; [by apply grows_refl|]. split; [done|]. intros ? [= <-].
      unfold content_is in *. by rewrite E.
  - intros Ha. unfold try_exists, answer. apply wp_bind. unfold wp at 1. rewrite Ha. cbn [fst snd].
    apply wp_bind, wp_gets, wp_ret. by rewrite Hc.
Qed.

Lemma open_step path c s :
  content_is path c s →
  wp (open_append path) s (step path s (λ f s', f = mkFile path None ∧ content_is path (Some (default "" c)) s')).
Proof.
  intros Hc. apply step_answer.
  - intros s' E _. apply wp_bind, wp_modify, wp_ret. split; [|split; [done|split; [|naive_solver]]].
    + apply (grows_set _ _ _ ""). intros m. by rewrite append_nil_r.
    + intros f [= <-]. split; [done|]. unfold content_is in *. cbn. by rewrite lookup_insert_eq, E, Hc.
  - intros. apply wp_failed.
Qed.

Lemma complete_step path text c s :
  content_is path (Some c) s →
  wp (complete (mkFile path (Some text))) s (step path s (λ _, content_is path (Some (c +:+ text)))).
Proof.
  intros Hc. apply step_answer.
  - intros s' E _. apply wp_modify. split; [by eapply grows_set|split; [done|split; [|naive_solver]]].
    intros _ _. unfold content_is in *. cbn. by rewrite lookup_insert_eq, E, Hc.
  - intros e n s' E. apply wp_bind, wp_modify, wp_throw. split; [by eapply grows_set|done].
Qed.

(** A write behind which the file holds [c] once its own text is there. *)
Definition holds (path c : string) (f : file) s : Prop :=
  ∃ c0 text, c = c0 +:+ text ∧ f = mkFile path (Some text) ∧ content_is path (Some c0) s.

Lemma write_fresh path c text s :
  content_is path (Some c) s → wp (write_all (mkFile path None) text) s (step path s (holds path (c +:+ text))).
Proof. intros Hc. unfold write_all. apply (step_ret path (mkFile path (Some text))). by exists c, text. Qed.

Lemma write_next path c f text s :
  holds path c f s → wp (write_all f text) s (step path s (holds path (c +:+ text))).
Proof.
  intros (c0 & t0 & -> & -> & Hc). unfold write_all. eapply step_bind; [by apply complete_step|]. intros [] s1 H1.
  apply step_ret. by exists (c0 +:+ t0), text.
Qed.

Lemma flush_step path c f s : holds path c f s → wp (flush f) s (step path s (λ _, content_is path (Some c))).
Proof. intros (c0 & t0 & -> & -> & Hc). by apply complete_step. Qed.

(** The header goes to a file that was not there, and only there when the test
    for it did not fail. *)
Lemma prepare_step path c s :
  content_is path c s →
  wp (prepare path : cprog (bool * file)) s (step path s (λ x s',
    x.2 = mkFile path None ∧ content_is path (Some (default "" c)) s' ∧ (c = None → x.1 = true))) ∧
  (answers (fs s) = [] → wp (prepare path : cprog (bool * file)) s (λ r _, r = Ok (negb (bool_decide (is_Some c)), mkFile path None))).
Proof.
  intros Hc. split.
  - eapply step_bind; [by apply create_dir_step|]. intros [] s1 H1.
    eapply step_bind; [by apply try_exists_step|]. intros seen s2 [H2 Hs].
    eapply step_bind; [by apply open_step|]. intros f s3 [-> H3]. apply step_ret. split; [done|]. split; [done|]. by intros ->%Hs.
  - intros Ha. unfold prepare. apply wp_bind. eapply wp_mono; [by apply (create_dir_step path c)|].
    intros r s1 (_ & _ & P1 & A1). destruct (A1 Ha) as [[[] ->] Ha1]. specialize (P1 () eq_refl).
    apply wp_bind. pose proof (try_exists_step path c s1 P1) as [H2 H2'].
    eapply wp_mono; [exact (wp_and _ _ _ _ H2 (H2' Ha1))|]. intros r s2 [(_ & _ & P2 & A2) ->].
    destruct (P2 _ eq_refl) as [P2' _]. destruct (A2 Ha1) as [_ Ha2].
    apply wp_bind. eapply wp_mono; [by apply (open_step path c)|]. intros r' s3 (_ & _ & P3 & A3).
    destruct (A3 Ha2) as [[f ->] _]. destruct (P3 _ eq_refl) as [-> _]. by apply wp_ret.
Qed.

(** The writes behind an opened file. *)
Definition header_if (is_new : bool) : string := if is_new then csv_header else "".
Lemma writes_step path line (is_new : bool) c s :
  content_is path (Some c) s →
  wp (f ← (if is_new then write_all (mkFile path None) csv_header else mret (mkFile path None)); f ← write_all f line; flush f) s
    (step path s (λ _ : (), content_is path (Some (c +:+ header_if is_new +:+ line)))).
Proof.
  intros Hc. rewrite <-append_assoc. destruct is_new.
  - eapply step_bind; [by apply write_fresh|]. intros f s1 H1. eapply step_bind; [by eapply write_next|].
    intros f' s2 H2. by apply flush_step.
  - eapply step_bind; [apply (step_ret path (mkFile path None) s (λ f s', f = mkFile path None ∧ content_is path (Some c) s')); done|].
    intros f s1 [-> H1]. cbn [header_if]. rewrite append_nil_r. eapply step_bind; [by apply write_fresh|].
    intros f' s2 H2. by apply flush_step.
Qed.

(** What one append does to its file. *)
Definition header_for (c : option string) : string := match c with None => csv_header | Some _ => "" end.

Lemma append_step s e c :
  let path := file_for (root s) e in
  let run := append (e_time e) (e_slot e) (e_serial e) (e_metric e) (e_value e) in
  content_is path c s →
  wp run s (step path s (λ _ s', ∃ header, (header = "" ∨ header = csv_header) ∧ (c = None → header = csv_header) ∧
    content_is path (Some (default "" c +:+ header +:+ line_of e)) s')) ∧
  (answers (fs s) = [] → wp run s (λ r s', content_is path (Some (default "" c +:+ header_for c +:+ line_of e)) s')).
Proof.
  intros path run Hc. destruct (prepare_step path c s Hc) as [H1 H1'].
  unfold run, append. split; [|intros Ha]; apply wp_bind, wp_gets; fold (file_for (root s) e); fold path; fold (line_of e).
  - eapply step_bind; [exact H1|]. intros [is_new f] s1 (Hf & H2 & Hnew). cbn [fst snd] in Hf, Hnew. subst f.
    eapply wp_mono; [by apply writes_step|]. intros r s2 (G & N & P & A). split; [done|]. split; [done|]. split; [|done].
    intros [] Hr. exists (header_if is_new). split; [destruct is_new; auto|].
    split; [by intros ->%Hnew|]. by eapply P.
  - apply wp_bind. eapply wp_mono; [exact (wp_and _ _ _ _ H1 (H1' Ha))|]. intros r s1 [(_ & _ & P & A) ->].
    destruct (P _ eq_refl) as (_ & H2 & _). destruct (A Ha) as [_ Ha1]. eapply wp_mono; [by apply writes_step|].
    intros r s2 (_ & _ & P2 & A2). destruct (A2 Ha1) as [[[] ->] _]. specialize (P2 () eq_refl).
    by destruct c.
Qed.

Lemma log_of_snoc r path es e :
  log_of r path (es ++ [e]) = log_of r path es ++ (if decide (file_for r e = path) then [e] else []).
Proof. unfold log_of. rewrite filter_app. f_equal. Qed.

Lemma concat_cons y (l : list string) : String.concat "" (y :: l) = y +:+ String.concat "" l.
Proof. destruct l; [cbn; by rewrite append_nil_r|done]. Qed.

Lemma concat_snoc (l : list string) x : String.concat "" (l ++ [x]) = String.concat "" l +:+ x.
Proof.
  induction l as [|y l IH]; [by cbn; rewrite append_nil|]. change ((y :: l) ++ [x]) with (y :: (l ++ [x])).
  by rewrite !concat_cons, IH, append_assoc.
Qed.

Lemma rendered_snoc l e : rendered (l ++ [e]) = rendered l +:+ line_of e.
Proof. unfold rendered. rewrite map_app. cbn [map]. by rewrite concat_snoc, append_assoc. Qed.

(** The files after the calls [es], on a disk that started empty. *)
Definition logs (r : string) (es : list entry) s : Prop :=
  root s = r ∧ answers (fs s) = [] ∧
  ∀ path, content_is path (match log_of r path es with [] => None | l => Some (rendered l) end) s.

Lemma logs_append r es e s :
  logs r es s →
  wp (append (e_time e) (e_slot e) (e_serial e) (e_metric e) (e_value e) : cprog ()) s (λ res s', res = Ok () ∧ logs r (es ++ [e]) s').
Proof.
  intros (Hr & Ha & Hlog). destruct (append_step s e _ (Hlog (file_for (root s) e))) as [H1 H2].
  eapply wp_mono; [exact (wp_and _ _ _ _ H1 (H2 Ha))|]. intros res s' [((Gr & Go & _) & _ & _ & A) Hc].
  destruct (A Ha) as [[[] ->] Ha']. split; [done|]. split; [congruence|]. split; [done|]. intros path. rewrite log_of_snoc.
  rewrite Hr in *. destruct (decide (file_for r e = path)) as [<-|Hne].
  - unfold content_is in *. rewrite Hc. destruct (log_of r (file_for r e) es) as [|x l].
    + cbn. unfold rendered. cbn. by rewrite append_nil.
    + change ((x :: l) ++ [e]) with (x :: (l ++ [e])). cbn [default header_for]. rewrite append_nil.
      change (x :: l ++ [e]) with ((x :: l) ++ [e]). by rewrite rendered_snoc.
  - rewrite app_nil_r. unfold content_is in *. rewrite Go by done. apply Hlog.
Qed.

Lemma logs_run r es s pre :
  logs r pre s → wp (append_all es) s (λ res s', res = Ok () ∧ logs r (pre ++ es) s').
Proof.
  revert s pre. induction es as [|e es IH]; intros s pre Hl; cbn [append_all].
  - apply wp_ret. by rewrite app_nil_r.
  - apply wp_bind. eapply wp_mono; [by apply (logs_append r pre)|]. intros res s1 [-> H1].
    eapply wp_mono; [by apply IH|]. by rewrite <-app_assoc.
Qed.

(** *** File names *)

Lemma path_join_slot r f : String.prefix "/" f = false → ∃ p, path_join r f = p +:+ f ∧ ∀ g, String.prefix "/" g = false → path_join r g = p +:+ g.
Proof.
  intros Hf. unfold path_join. rewrite Hf. repeat case_match; [exists ""|exists r|exists (r +:+ "/")].
  all: split; [rewrite ?append_assoc|intros g ->; rewrite ?append_assoc]; done.
Qed.

Lemma no_slash_prefix (s t : string) : has_char "/" s = false → String.prefix "/" (s +:+ String "-" t) = false.
Proof.
  destruct s as [|c s]; [done|]. rewrite append_cons. cbn [has_char]. intros [Hc _]%orb_false_iff.
  cbn [String.prefix]. destruct (ascii_dec "/" c) as [<-|]; [by rewrite Ascii.eqb_refl in Hc|done].
Qed.

(** One file per slot and day. *)
Lemma filename_inj r slot slot' t t' :
  slot_ok slot → slot_ok slot' → time_ok t → time_ok t' →
  filename_for r slot t = filename_for r slot' t' ↔ slot = slot' ∧ same_day t t'.
Proof.
  intros Hs Hs' (Hy & Hm & Hd & _) (Hy' & Hm' & Hd' & _). unfold filename_for. split.
  - destruct (path_join_slot r (file_of slot t)) as (p & -> & Hp); [by apply no_slash_prefix|].
    rewrite Hp by by apply no_slash_prefix. intros H%append_inj_l. unfold file_of in H.
    assert (forall k z, (0 < k)%nat → 0 <= z < 10 ^ Z.of_nat k → String.length (pad k z) = k) as Hl by (intros; by apply pad_length).
    apply append_inj_tail in H as [-> H]; [|rewrite !append_length, !Hl by lia; done].
    apply append_inj_l, append_inj_head in H as [Ey H]; [|by rewrite !Hl by lia].
    apply append_inj_l, append_inj_head in H as [Em H]; [|by rewrite !Hl by lia].
    apply append_inj_l, append_inj_head in H as [Ed H]; [|by rewrite !Hl by lia].
    split; [done|]. split_and!; eapply pad_inj; try eassumption; lia.
  - intros [-> (Ey & Em & Ed)]. unfold file_of. by rewrite Ey, Em, Ed.
Qed.

Lemma log_of_file r slot t es :
  Forall entry_ok es → slot_ok slot → time_ok t →
  log_of r (filename_for r slot t) es = filter (λ e, e_slot e = slot ∧ same_day (e_time e) t) es.
Proof.
  intros Hes Hs Ht. induction Hes as [|e es (_ & _ & Hse & Hte) Hes IH]; [done|]. unfold log_of in *.
  rewrite !filter_cons, IH. unfold file_for. pose proof (filename_inj r (e_slot e) slot (e_time e) t Hse Hs Hte Ht) as Hiff.
  destruct (decide _) as [H|H]; destruct (decide _) as [H'|H']; tauto.
Qed.

(** *** Reading a file *)

Lemma line_text e : entry_ok e →
  ∃ l, line_of e = l +:+ newline ∧ has_char "010" l = false ∧ split_at "," l = fields_of e.
Proof.
  intros ([Tc Tn] & [Mc Mn] & _ & _). destruct (separates_text ",") as (Pc & _ & Fc); [done|].
  destruct (separates_text "010") as (Pn & _ & Fn); [done|].
  exists (to_rfc3339 (e_time e) +:+ "," +:+ pretty (e_serial e) +:+ "," +:+ e_metric e +:+ "," +:+ show_f64 (e_value e)).
  split; [unfold line_of, csv_line; by rewrite !append_assoc|]. split.
  - by rewrite !has_char_append, Tn, Mn, Pn, Fn.
  - unfold fields_of. rewrite !append_cons, !append_nil. rewrite !split_at_cons by done. by rewrite split_at_none.
Qed.

Lemma split_lines es : Forall entry_ok es →
  ∃ ls, split_at "010" (String.concat "" (map line_of es)) = ls ++ [""] ∧ map (split_at ",") ls = map fields_of es.
Proof.
  induction 1 as [|e es He Hes (ls & Hls & Hf)]; [by exists []|].
  destruct (line_text e He) as (l & Hl & Hn & Hs). exists (l :: ls). split.
  - cbn [map]. rewrite concat_cons, Hl, append_assoc. unfold newline. rewrite append_cons, append_nil, split_at_cons by done. by rewrite Hls.
  - cbn [map]. by rewrite Hs, Hf.
Qed.

Lemma read_rendered es : Forall entry_ok es → read_csv (rendered es) = map fields_of es.
Proof.
  intros (ls & Hls & Hf)%split_lines. unfold read_csv, rendered.
  change csv_header with ("time,serial,metric,value" +:+ String "010" ""). rewrite append_assoc, (append_cons "010"), append_nil.
  rewrite split_at_cons by done. rewrite Hls. cbn [drop]. rewrite skipn_O, removelast_last. done.
Qed.

(** C18. One append to the archive, whatever fails below it (creating the
    directory, testing for the file, opening, a buffered write that stops
    half-way): no panic; no other file changes, and the file of the slot and
    day only grows at its end; a reported success means that the whole line is
    at the end of the file, behind the header when the file was not there; and
    with a disk that does not fail the append succeeds with exactly that. *)
Theorem archive_is_append_only s e :
  let path := file_for (root s) e in
  let run := append (SqlError := SqlError) (e_time e) (e_slot e) (e_serial e) (e_metric e) (e_value e) s in
  let before := contents (fs s) !! path in
  let after := contents (fs run.2) !! path in
  run.1 ≠ Panic ∧
  (∀ q, q ≠ path → contents (fs run.2) !! q = contents (fs s) !! q) ∧
  (∀ c, before = Some c → ∃ t, after = Some (c +:+ t)) ∧
  (run.1 = Ok () → ∃ header, (header = "" ∨ header = csv_header) ∧ (before = None → header = csv_header) ∧
     after = Some (default "" before +:+ header +:+ line_of e)) ∧
  (answers (fs s) = [] → run.1 = Ok () ∧
     after = Some (default "" before +:+ (match before with None => csv_header | Some _ => "" end) +:+ line_of e)).
Proof.
  intros path run before after. destruct (append_step s e before eq_refl) as [((_ & Go & Gp) & N & P & A) E].
  split; [exact N|]. split; [exact Go|]. split; [exact Gp|]. split; [exact (P ())|].
  intros Ha. split; [|exact (E Ha)]. by destruct (A Ha) as [[[] Hr] _].
Qed.

(** C17. The archive reads back: calls of the sink on an empty directory and a
    disk that does not fail all succeed, and afterwards the file of any slot and
    day is there exactly when some call had that slot and day; split at line
    ends and commas behind its header line, it gives time, serial, metric and
    value of those calls, all of them, in call order. *)
Theorem csv_archive_reads_back r es :
  Forall entry_ok es →
  ∃ s', append_all es (mkCsvSink r (mkDisk ∅ [])) = (Ok (), s') ∧
  ∀ slot t, slot_ok slot → time_ok t →
    let log := filter (λ e, e_slot e = slot ∧ same_day (e_time e) t) es in
    let file := contents (fs s') !! filename_for r slot t in
    (log = [] → file = None) ∧
    (log ≠ [] → ∃ c, file = Some c ∧ read_csv c = map fields_of log).
Proof.
  intros Hes. destruct (append_all es _) as [res s'] eqn:Hrun. exists s'.
  assert (H0 : logs r [] (mkCsvSink r (mkDisk ∅ []))) by by split.
  pose proof (wp_det _ _ _ _ _ Hrun (logs_run r es _ [] H0)) as [-> (_ & _ & Hl)].
  split; [done|]. intros slot t Hs Ht log file. specialize (Hl (filename_for r slot t)). unfold content_is in Hl.
  cbn [app] in Hl. rewrite log_of_file in Hl by done. fold log in Hl. unfold file. rewrite Hl.
  destruct log as [|e l] eqn:El; [done|]. split; [done|]. intros _. eexists. split; [done|].
  apply read_rendered. rewrite <-El. unfold log. apply Forall_forall. intros x [_ Hx]%list_elem_of_filter.
  by eapply Forall_forall in Hx.
Qed.
End sink.

(** *** What the daemon relies on *)

(** A sink that does not panic. *)
Class SinkLaws (Sink SinkError : Type) `{!ReadingSink Sink SinkError} : Prop :=
  sink_total (t : DateTime) (slot : string) (serial : Z) (metric : string) (v : f64) (sink : Sink) :
    (sink_write t slot serial metric v sink).1 ≠ Panic.

#[export] Instance csv_sink_laws {SqlError} : SinkLaws Csv.CsvSink (StorageError SqlError).
Proof.
  intros t slot serial metric v sink.
  by destruct (append_step (SqlError := SqlError) sink (mkEntry t slot serial metric v) _ eq_refl) as [(_ & N & _) _].
Qed.

#[export] Instance timescale_sink_laws {P SqlError} `{!Timescale.Database P SqlError} :
  SinkLaws (Timescale.StorageWriter P) (StorageError SqlError).
Proof.
  intros t slot serial metric v sink. cbv [sink_write Timescale.timescale_sink Timescale.insert Timescale.run_query].
  by destruct (Timescale.execute _ _ _) as [[|] ?].
Qed.

(** *** Witnesses *)

Definition noon : DateTime := mkTime 1776600780000000000 2026 4 19 12 13 "2026-04-19T12:13:00+00:00".
Definition after_midnight : DateTime := mkTime 1776643260000000000 2026 4 20 0 1 "2026-04-20T00:01:00+00:00".
Definition sample_entries : list entry :=
  [mkEntry noon "zolder" 2120121246 "ac_power" (to_f64 641);
   mkEntry noon "garage" 2120121383 "ac_power" (to_f64 12);
   mkEntry noon "zolder" 2120121246 "cos_phi" (f64_div (to_f64 99) 100);
   mkEntry after_midnight "zolder" 2120121246 "ac_power" (to_f64 0)].

(** A disk that is full after five bytes of a line; and one that is not. *)
Lemma archive_is_append_only_witness :
  let e := mkEntry noon "zolder" 2120121246 "ac_power" (to_f64 641) in
  let path := "/share/zolder-2026-04-19.csv" in
  let full := mkCsvSink "/share" (mkDisk {[ path := csv_header ]} [IoOk; IoOk; IoOk; IoErr 28 5]) in
  let run s := append (SqlError := Empty_set) noon "zolder" 2120121246 "ac_power" (to_f64 641) s in
  (run full).1 = Err (Io 28) ∧ (∃ t, contents (fs (run full).2) !! path = Some (csv_header +:+ t)) ∧
  contents (fs (run (mkCsvSink "/share" (mkDisk ∅ []))).2) !! path = Some (csv_header +:+ line_of e).
Proof.
  intros e path full run. split; [vm_compute; reflexivity|].
  destruct (archive_is_append_only (SqlError := Empty_set) full e) as (_ & _ & H & _).
  split; [apply H; vm_compute; reflexivity|].
  destruct (archive_is_append_only (SqlError := Empty_set) (mkCsvSink "/share" (mkDisk ∅ [])) e) as (_ & _ & _ & _ & H').
  exact (proj2 (H' eq_refl)).
Defined.

Lemma csv_archive_reads_back_witness :
  ∃ s', append_all (SqlError := Empty_set) sample_entries (mkCsvSink "/share" (mkDisk ∅ [])) = (Ok (), s') ∧
  ∃ c, contents (fs s') !! "/share/zolder-2026-04-19.csv" = Some c ∧
    read_csv c = [["2026-04-19T12:13:00+00:00"; "2120121246"; "ac_power"; "641"]; ["2026-04-19T12:13:00+00:00"; "2120121246"; "cos_phi"; "0.99"]].
Proof.
  destruct (csv_archive_reads_back (SqlError := Empty_set) "/share" sample_entries) as (s' & Hrun & H).
  - repeat constructor; cbn; lia || by vm_compute.
  - exists s'. split; [exact Hrun|].
    destruct (H "zolder" noon ltac:(done) ltac:(repeat constructor; cbn; lia)) as [_ H2].
    destruct H2 as (c & Hc & Hr); [by vm_compute|]. exists c. split; [exact Hc|]. rewrite Hr. vm_compute. reflexivity.
Defined.

(** The schema is nine statements. *)
Example statements_of_schema :
  map (String.substring 0 12) (Timescale.statements Timescale.CREATE_SCHEMA)
  = ["CREATE EXTEN"; "CREATE TABLE"; "SELECT creat"; "CREATE INDEX"; "SELECT add_r"; "ALTER TABLE "; "SELECT add_c"; "CREATE MATER"; "SELECT add_c"].
Proof. vm_compute. reflexivity. Qed.
