(* ===== verification/Metrics.v ===== *)
(** * Metrics (crates/telemetry/src/)

    The registry of [metrics.rs]: families of counters and gauges, each a map
    from labels to a value, in which a series comes into being on its first
    use, reading included; and the request handler of [server.rs] with the
    accept loop around it.  The text
    exposition (prometheus-client) is a parameter. *)
From Stdlib Require Import String SpecFloat.
From stdpp Require Import gmap finite.
From S2P Require Import Prelude Text.

Local Open Scope string_scope.
Local Open Scope list_scope.
Local Open Scope Z_scope.

(* ------------------------------------------------------------------ *)
(** ** metrics.rs                                                      *)
(* ------------------------------------------------------------------ *)

(** [InverterLabels], [DeviceLabels] *)
Record InverterLabels : Type := mkInverterLabels { il_slot : string }.
Record DeviceLabels : Type := mkDeviceLabels { dl_slot : string; device : string }.

#[export] Instance InverterLabels_eq_dec : EqDecision InverterLabels.
Proof. solve_decision. Defined.
#[export] Instance InverterLabels_countable : Countable InverterLabels.
Proof. by refine (inj_countable' il_slot mkInverterLabels _); intros []. Defined.
#[export] Instance DeviceLabels_eq_dec : EqDecision DeviceLabels.
Proof. solve_decision. Defined.
#[export] Instance DeviceLabels_countable : Countable DeviceLabels.
Proof. by refine (inj_countable' (λ l, (dl_slot l, device l)) (λ p, mkDeviceLabels p.1 p.2) _); intros []. Defined.

(** [DeviceLabels::same] *)
Definition same (s : string) : DeviceLabels := mkDeviceLabels s s.

(** The fields of [MetricsRegistry], by type. *)
Inductive counter_family : Type := polls_total | poll_errors_total | bt_reconnects_total | handshake_errors_total.
Inductive int_gauge_family : Type := inverter_awake | last_successful_poll_unix.
Inductive gauge_family : Type :=
  | ac_power_watts | ac_voltage_l1 | ac_current_l1 | grid_frequency_hz | dc_power_s1_watts | dc_power_s2_watts
  | inverter_temperature_c | energy_today_wh | energy_lifetime_wh.

#[export] Instance counter_family_eq_dec : EqDecision counter_family.
Proof. solve_decision. Defined.
#[export] Program Instance counter_family_finite : Finite counter_family :=
  {| enum := [polls_total; poll_errors_total; bt_reconnects_total; handshake_errors_total] |}.
Next Obligation. by_decide. Qed.
Next Obligation. intros []; list_in. Qed.
#[export] Instance int_gauge_family_eq_dec : EqDecision int_gauge_family.
Proof. solve_decision. Defined.
#[export] Program Instance int_gauge_family_finite : Finite int_gauge_family :=
  {| enum := [inverter_awake; last_successful_poll_unix] |}.
Next Obligation. by_decide. Qed.
Next Obligation. intros []; list_in. Qed.
#[export] Instance gauge_family_eq_dec : EqDecision gauge_family.
Proof. solve_decision. Defined.
#[export] Program Instance gauge_family_finite : Finite gauge_family :=
  {| enum := [ac_power_watts; ac_voltage_l1; ac_current_l1; grid_frequency_hz; dc_power_s1_watts; dc_power_s2_watts;
              inverter_temperature_c; energy_today_wh; energy_lifetime_wh] |}.
Next Obligation. by_decide. Qed.
Next Obligation. intros []; list_in. Qed.

(** The series of every family.  The registry is shared between the tasks
    behind [Arc]s; its updates are atomic, so they form one sequence. *)
Record MetricsRegistry : Type := mkMetrics {
  counters : gmap (counter_family * InverterLabels) Z;
  int_gauges : gmap (int_gauge_family * InverterLabels) Z;
  gauges : gmap (gauge_family * DeviceLabels) f64
}.

(** [MetricsRegistry::new]: no series yet. *)
Definition MetricsRegistry_new : MetricsRegistry := mkMetrics ∅ ∅ ∅.

(** What [new] registers: names and help texts, in order. *)
Definition counter_name (f : counter_family) : string * string :=
  match f with
  | polls_total => ("sma_polls_total", "Total number of poll cycles completed")
  | poll_errors_total => ("sma_poll_errors_total", "Total number of polls that returned an error")
  | bt_reconnects_total => ("sma_bt_reconnects_total", "Total number of BT reconnection attempts")
  | handshake_errors_total => ("sma_handshake_errors_total", "Total number of BT handshake/logon failures")
  end.
Definition int_gauge_name (f : int_gauge_family) : string * string :=
  match f with
  | inverter_awake => ("sma_inverter_awake", "1 when the inverter is responsive, 0 when it's asleep (BT offline)")
  | last_successful_poll_unix =>
      ("sma_last_successful_poll_unix", "Unix timestamp of the most recent fully successful poll cycle")
  end.
Definition gauge_name (f : gauge_family) : string * string :=
  match f with
  | ac_power_watts => ("sma_ac_power_watts", "Last observed total AC output power in watts")
  | ac_voltage_l1 => ("sma_ac_voltage_l1", "Last observed L1 AC grid voltage")
  | ac_current_l1 => ("sma_ac_current_l1", "Last observed L1 AC current")
  | grid_frequency_hz => ("sma_grid_frequency_hz", "Last observed grid frequency")
  | dc_power_s1_watts => ("sma_dc_power_s1_watts", "Last observed DC string 1 power")
  | dc_power_s2_watts => ("sma_dc_power_s2_watts", "Last observed DC string 2 power")
  | inverter_temperature_c => ("sma_inverter_temperature_c", "Last observed internal inverter temperature")
  | energy_today_wh => ("sma_energy_today_wh", "Energy produced since midnight (Wh, monotonic per day)")
  | energy_lifetime_wh => ("sma_energy_lifetime_wh", "Lifetime energy produced (Wh, monotonic)")
  end.
Definition registered : list (string * string) :=
  map counter_name (enum counter_family) ++ map int_gauge_name (enum int_gauge_family) ++ map gauge_name (enum gauge_family).

(** [family.get_or_create(l).inc()] on an [AtomicU64]; [.set(v)]. *)
Definition inc_counter (f : counter_family) (l : InverterLabels) (m : MetricsRegistry) : MetricsRegistry :=
  mkMetrics (<[(f, l) := (default 0 (counters m !! (f, l)) + 1) mod 2 ^ 64]> (counters m)) (int_gauges m) (gauges m).
Definition set_int_gauge (f : int_gauge_family) (l : InverterLabels) (v : Z) (m : MetricsRegistry) : MetricsRegistry :=
  mkMetrics (counters m) (<[(f, l) := v]> (int_gauges m)) (gauges m).
Definition set_gauge (f : gauge_family) (l : DeviceLabels) (v : f64) (m : MetricsRegistry) : MetricsRegistry :=
  mkMetrics (counters m) (int_gauges m) (<[(f, l) := v]> (gauges m)).

(** [family.get_or_create(l).get()]: the series is there afterwards. *)
Definition gauge_value (f : gauge_family) (l : DeviceLabels) (m : MetricsRegistry) : f64 :=
  default (S754_zero false) (gauges m !! (f, l)).
Definition get_gauge (f : gauge_family) (l : DeviceLabels) (m : MetricsRegistry) : f64 * MetricsRegistry :=
  (gauge_value f l m, set_gauge f l (gauge_value f l m) m).

Definition counter_value (f : counter_family) (l : InverterLabels) (m : MetricsRegistry) : Z :=
  default 0 (counters m !! (f, l)).

(** [MetricsRegistry::encode]: [text] is the exposition of registered names
    and series. *)
Definition encode (text : list (string * string) → MetricsRegistry → string) (m : MetricsRegistry) : string :=
  text registered m.

(* ------------------------------------------------------------------ *)
(** ** server.rs                                                       *)
(* ------------------------------------------------------------------ *)

Record Response : Type := mkResponse { status : Z; headers : list (string * string); body : string }.

(** [handle], by the path of the request. *)
Definition handle (text : list (string * string) → MetricsRegistry → string) (path : string) (m : MetricsRegistry) : Response :=
  if String.eqb path "/metrics" then
    mkResponse 200 [("content-type", "application/openmetrics-text; version=1.0.0; charset=utf-8")] (encode text m)
  else if String.eqb path "/health" then mkResponse 200 [] "ok"
  else mkResponse 404 [] "not found".

(** A connection: its requests in order, each answered from the registry as
    it is then. *)
Definition serve_connection (text : list (string * string) → MetricsRegistry → string)
    (reqs : list (string * MetricsRegistry)) : list Response := map (λ r, handle text r.1 r.2) reqs.

(** [serve_metrics]: every accepted connection is served by a task of its own;
    the first error of [accept] ends the loop.  [accepts] is what [accept] gives,
    as long as it lasts: an error, or a connection.  The result is the answers,
    by connection, and the error the server stopped with. *)
Fixpoint accept_loop (text : list (string * string) → MetricsRegistry → string)
    (accepts : list (Z + list (string * MetricsRegistry))) : list (list Response) * option Z :=
  match accepts with
  | [] => ([], None)
  | inl errno :: _ => ([], Some errno)
  | inr reqs :: accepts =>
      let '(served, e) := accept_loop text accepts in (serve_connection text reqs :: served, e)
  end.
Definition serve_metrics (text : list (string * string) → MetricsRegistry → string) (bind : option Z)
    (accepts : list (Z + list (string * MetricsRegistry))) : list (list Response) * option Z :=
  match bind with Some errno => ([], Some errno) | None => accept_loop text accepts end.

(* ------------------------------------------------------------------ *)
(** ** Lemmas                                                          *)
(* ------------------------------------------------------------------ *)

Lemma gauge_value_set f l v m : gauge_value f l (set_gauge f l v m) = v.
Proof. unfold gauge_value. cbn. by rewrite lookup_insert_eq. Qed.
Lemma gauge_value_set_ne f l f' l' v m : (f, l) ≠ (f', l') → gauge_value f' l' (set_gauge f l v m) = gauge_value f' l' m.
Proof. intros H. unfold gauge_value. cbn. by rewrite lookup_insert_ne. Qed.

(** Reading changes no value. *)
Lemma gauge_value_get f l f' l' m : gauge_value f' l' (get_gauge f l m).2 = gauge_value f' l' m.
Proof.
  cbn. destruct (decide ((f, l) = (f', l'))) as [[= <- <-]|H]; [apply gauge_value_set|by apply gauge_value_set_ne].
Qed.

Lemma counter_value_inc f l m : counter_value f l (inc_counter f l m) = (counter_value f l m + 1) mod 2 ^ 64.
Proof. unfold counter_value. cbn. by rewrite lookup_insert_eq. Qed.
Lemma counter_value_inc_ne f l f' l' m : (f, l) ≠ (f', l') → counter_value f' l' (inc_counter f l m) = counter_value f' l' m.
Proof. intros H. unfold counter_value. cbn. by rewrite lookup_insert_ne. Qed.

(** Every family has a name of its own. *)
Lemma registered_names : NoDup (map fst registered) ∧ length registered = 15%nat.
Proof. split; [by_decide|reflexivity]. Qed.

(** One error of [accept] and the endpoint is gone: whoever connects behind it
    is not served. *)
Lemma accept_error_is_final text served errno later :
  serve_metrics text None (map inr served ++ inl errno :: later) = (map (serve_connection text) served, Some errno).
Proof.
  unfold serve_metrics. induction served as [|reqs served IH]; [done|]. cbn [map app accept_loop]. by rewrite IH.
Qed.
