(* ===== verification/Config.v ===== *)
(** * Configuration (crates/daemon/src/config.rs, pvoutput.rs)

    The configuration records and the (de)serialisers their [derive] and
    [serde] attributes describe, over the data model of serde: what a YAML
    value is as a string, number, list or map is a class that the parser
    (serde_yaml) implements; the text of durations (humantime) is a
    parameter.  The specification says field by field what a document of a
    configuration is ([daemon_document]); the readers accept exactly those.  An error of the deserialiser is opaque: [None]. *)
From Stdlib Require Import String Ascii.
From stdpp Require Import strings pretty.
From S2P Require Import Prelude Text.

Local Open Scope string_scope.
Local Open Scope list_scope.
Local Open Scope Z_scope.

(* ------------------------------------------------------------------ *)
(** ** The records                                                     *)
(* ------------------------------------------------------------------ *)

(** A [Duration] is a number of nanoseconds: its seconds are a [u64], the rest
    is below one second. *)
Abbreviation is_duration d := (0 <= d < 18446744073709551616 * 1000000000).
Definition secs (n : Z) : Z := n * 1000000000.

(** [tokio::time::interval(period)] is documented to panic on a period of
    zero. *)
Definition tokio_interval {E} (period : Z) : outcome E () := if period =? 0 then Panic else Ok ().

Record MqttCfg : Type := mkMqttCfg {
  mc_host : string; mc_port : Z; mc_user : option string; mc_password : option string;
  mc_client_id : string; mc_discovery_prefix : string; mc_state_prefix : string
}.

Record ArchiveCfg : Type := mkArchiveCfg { csv_dir : option string; timescale_url : option string }.

Record DeviceCfg : Type := mkDeviceCfg {
  d_slot : string; d_app_serial : Z; d_password : option string; d_model : string
}.

Record InverterCfg : Type := mkInverterCfg {
  i_slot : string;
  i_bt_address : string;
  i_password : string;
  i_poll_interval : Z;
  i_model : string;
  i_firmware : string;
  i_mis_enabled : bool;
  yield_every : Z;
  yield_duration : Z;
  devices : list DeviceCfg;
  event_log_enabled : bool
}.

(** [PvoutputSystem], [PvoutputCfg] (pvoutput.rs) *)
Record PvoutputSystem : Type := mkPvoutputSystem { pv_slot : string; system_id : Z }.
Record PvoutputCfg : Type := mkPvoutputCfg { api_key : string; systems : list PvoutputSystem; upload_interval : Z }.

Record DaemonConfig : Type := mkDaemonConfig {
  mqtt : MqttCfg;
  inverters : list InverterCfg;
  local_bt_address : option string;
  rfcomm_timeout : Z;
  metrics_addr : string;
  archive : option ArchiveCfg;
  pvoutput : option PvoutputCfg
}.

(** The defaults. *)
Definition default_metrics_addr : string := "0.0.0.0:9090".
Definition default_mqtt_port : Z := 1883.
Definition default_client_id : string := "hass-sma-rs".
Definition default_discovery_prefix : string := "homeassistant".
Definition default_state_prefix : string := "hass-sma".
Definition default_rfcomm_timeout : Z := secs 15.
Definition default_poll : Z := secs 5.
Definition default_model : string := "unknown".
Definition default_firmware : string := "unknown".
Definition default_yield_duration : Z := secs 60.
Definition default_interval : Z := secs 300.

(* ------------------------------------------------------------------ *)
(** ** Deserialising                                                   *)
(* ------------------------------------------------------------------ *)

(** A value of the document, as serde's visitors see it. *)
Class Yaml (V : Type) := {
  as_str : V → option string;
  as_bool : V → option bool;
  as_integer : V → option Z;
  as_seq : V → option (list V);
  as_map : V → option (list (string * V));
  is_null : V → bool
}.

Section deserialize.
Context {V : Type} `{!Yaml V} (parse_duration : string → option Z).

(** An entry of the map: absent, once, or (an error) more than once. *)
Definition field {A} (entries : list (string * V)) (name : string) (de : V → option A) (missing : option A) : option A :=
  match List.filter (λ e, String.eqb e.1 name) entries with
  | [] => missing
  | [e] => de e.2
  | _ => None
  end.

Definition de_unsigned (bits : Z) (v : V) : option Z :=
  z ← as_integer v; if (0 <=? z) && (z <? 2 ^ bits) then Some z else None.
Definition de_option {A} (de : V → option A) (v : V) : option (option A) :=
  if is_null v then Some None else Some <$> de v.
Definition de_vec {A} (de : V → option A) (v : V) : option (list A) := l ← as_seq v; mapM de l.
Definition de_duration (v : V) : option Z := s ← as_str v; parse_duration s.

Definition de_mqtt (v : V) : option MqttCfg :=
  m ← as_map v;
  host ← field m "host" as_str None;
  port ← field m "port" (de_unsigned 16) (Some default_mqtt_port);
  user ← field m "user" (de_option as_str) (Some None);
  password ← field m "password" (de_option as_str) (Some None);
  client_id ← field m "client_id" as_str (Some default_client_id);
  discovery_prefix ← field m "discovery_prefix" as_str (Some default_discovery_prefix);
  state_prefix ← field m "state_prefix" as_str (Some default_state_prefix);
  Some (mkMqttCfg host port user password client_id discovery_prefix state_prefix).

Definition de_archive (v : V) : option ArchiveCfg :=
  m ← as_map v;
  dir ← field m "csv_dir" (de_option as_str) (Some None);
  url ← field m "timescale_url" (de_option as_str) (Some None);
  Some (mkArchiveCfg dir url).

Definition de_device (v : V) : option DeviceCfg :=
  m ← as_map v;
  slot ← field m "slot" as_str None;
  app_serial ← field m "app_serial" (de_unsigned 32) None;
  password ← field m "password" (de_option as_str) (Some None);
  model ← field m "model" as_str (Some default_model);
  Some (mkDeviceCfg slot app_serial password model).

Definition de_inverter (v : V) : option InverterCfg :=
  m ← as_map v;
  slot ← field m "slot" as_str None;
  bt_address ← field m "bt_address" as_str None;
  password ← field m "password" as_str None;
  poll_interval ← field m "poll_interval" de_duration (Some default_poll);
  model ← field m "model" as_str (Some default_model);
  firmware ← field m "firmware" as_str (Some default_firmware);
  mis_enabled ← field m "mis_enabled" as_bool (Some false);
  yield_every ← field m "yield_every" (de_unsigned 32) (Some 0);
  yield_duration ← field m "yield_duration" de_duration (Some default_yield_duration);
  devices ← field m "devices" (de_vec de_device) (Some []);
  event_log_enabled ← field m "event_log_enabled" as_bool (Some false);
  Some (mkInverterCfg slot bt_address password poll_interval model firmware mis_enabled yield_every yield_duration
    devices event_log_enabled).

Definition de_system (v : V) : option PvoutputSystem :=
  m ← as_map v;
  slot ← field m "slot" as_str None;
  id ← field m "system_id" (de_unsigned 32) None;
  Some (mkPvoutputSystem slot id).

Definition de_pvoutput (v : V) : option PvoutputCfg :=
  m ← as_map v;
  key ← field m "api_key" as_str None;
  systems ← field m "systems" (de_vec de_system) (Some []);
  interval ← field m "upload_interval" de_duration (Some default_interval);
  Some (mkPvoutputCfg key systems interval).

Definition de_daemon (v : V) : option DaemonConfig :=
  m ← as_map v;
  mqtt ← field m "mqtt" de_mqtt None;
  inverters ← field m "inverters" (de_vec de_inverter) None;
  local_bt_address ← field m "local_bt_address" (de_option as_str) (Some None);
  rfcomm_timeout ← field m "rfcomm_timeout" de_duration (Some default_rfcomm_timeout);
  metrics_addr ← field m "metrics_addr" as_str (Some default_metrics_addr);
  archive ← field m "archive" (de_option de_archive) (Some None);
  pvoutput ← field m "pvoutput" (de_option de_pvoutput) (Some None);
  Some (mkDaemonConfig mqtt inverters local_bt_address rfcomm_timeout metrics_addr archive pvoutput).

(** [DaemonConfig::from_yaml]; [parse] is the YAML parser. *)
Definition from_yaml (parse : string → option V) (src : string) : option DaemonConfig := v ← parse src; de_daemon v.
End deserialize.

(* ------------------------------------------------------------------ *)
(** ** Serialising                                                     *)
(* ------------------------------------------------------------------ *)

Class YamlBuild (V : Type) := {
  of_str : string → V;
  of_bool : bool → V;
  of_integer : Z → V;
  of_seq : list V → V;
  of_map : list (string * V) → V;
  null : V
}.

Section serialize.
Context {V : Type} `{!YamlBuild V} (format_duration : Z → string).

Definition ser_option {A} (ser : A → V) (o : option A) : V := match o with Some a => ser a | None => null end.
Definition ser_vec {A} (ser : A → V) (l : list A) : V := of_seq (map ser l).
Definition ser_duration (d : Z) : V := of_str (format_duration d).

Definition ser_mqtt (c : MqttCfg) : V := of_map
  [("host", of_str (mc_host c)); ("port", of_integer (mc_port c)); ("user", ser_option of_str (mc_user c));
   ("password", ser_option of_str (mc_password c)); ("client_id", of_str (mc_client_id c));
   ("discovery_prefix", of_str (mc_discovery_prefix c)); ("state_prefix", of_str (mc_state_prefix c))].
Definition ser_archive (c : ArchiveCfg) : V := of_map
  [("csv_dir", ser_option of_str (csv_dir c)); ("timescale_url", ser_option of_str (timescale_url c))].
Definition ser_device (c : DeviceCfg) : V := of_map
  [("slot", of_str (d_slot c)); ("app_serial", of_integer (d_app_serial c));
   ("password", ser_option of_str (d_password c)); ("model", of_str (d_model c))].
Definition ser_inverter (c : InverterCfg) : V := of_map
  [("slot", of_str (i_slot c)); ("bt_address", of_str (i_bt_address c)); ("password", of_str (i_password c));
   ("poll_interval", ser_duration (i_poll_interval c)); ("model", of_str (i_model c)); ("firmware", of_str (i_firmware c));
   ("mis_enabled", of_bool (i_mis_enabled c)); ("yield_every", of_integer (yield_every c));
   ("yield_duration", ser_duration (yield_duration c)); ("devices", ser_vec ser_device (devices c));
   ("event_log_enabled", of_bool (event_log_enabled c))].
Definition ser_system (c : PvoutputSystem) : V := of_map
  [("slot", of_str (pv_slot c)); ("system_id", of_integer (system_id c))].
Definition ser_pvoutput (c : PvoutputCfg) : V := of_map
  [("api_key", of_str (api_key c)); ("systems", ser_vec ser_system (systems c));
   ("upload_interval", ser_duration (upload_interval c))].
Definition ser_daemon (c : DaemonConfig) : V := of_map
  [("mqtt", ser_mqtt (mqtt c)); ("inverters", ser_vec ser_inverter (inverters c));
   ("local_bt_address", ser_option of_str (local_bt_address c)); ("rfcomm_timeout", ser_duration (rfcomm_timeout c));
   ("metrics_addr", of_str (metrics_addr c)); ("archive", ser_option ser_archive (archive c));
   ("pvoutput", ser_option ser_pvoutput (pvoutput c))].
End serialize.

(** What a YAML library promises: what was built is what is seen; of numbers,
    those of 64 bits, and of maps, those without a name given twice. *)
Class YamlLaws (V : Type) `{Yaml V, YamlBuild V} : Prop := {
  as_of_str s : as_str (of_str s) = Some s;
  as_of_bool b : as_bool (of_bool b) = Some b;
  as_of_integer z : is_u64 z → as_integer (of_integer z) = Some z;
  as_of_seq l : as_seq (of_seq l) = Some l;
  as_of_map l : NoDup l.*1 → as_map (of_map l) = Some l;
  null_is_null : is_null null = true;
  str_not_null s : is_null (of_str s) = false;
  map_not_null l : is_null (of_map l) = false
}.

(* ------------------------------------------------------------------ *)
(** ** Specification: values in range                                  *)
(* ------------------------------------------------------------------ *)

(** The types of the records: unsigned integers and durations. *)
Definition device_ok (c : DeviceCfg) : Prop := is_u32 (d_app_serial c).
Definition inverter_ok (c : InverterCfg) : Prop :=
  is_duration (i_poll_interval c) ∧ is_u32 (yield_every c) ∧ is_duration (yield_duration c) ∧ Forall device_ok (devices c).
Definition system_ok (c : PvoutputSystem) : Prop := is_u32 (system_id c).
Definition pvoutput_ok (c : PvoutputCfg) : Prop := Forall system_ok (systems c) ∧ is_duration (upload_interval c).
Definition config_ok (c : DaemonConfig) : Prop :=
  is_u16 (mc_port (mqtt c)) ∧ Forall inverter_ok (inverters c) ∧ is_duration (rfcomm_timeout c) ∧
  match pvoutput c with Some p => pvoutput_ok p | None => True end.

(* ------------------------------------------------------------------ *)
(** ** Specification: documents of a configuration                     *)
(* ------------------------------------------------------------------ *)

Section documents.
Context {V : Type} `{!Yaml V} (parse_duration : string → option Z).
Implicit Types (m : list (string * V)).

(** [v] stands under this name, and nothing else does. *)
Definition only_entry m (name : string) (v : V) : Prop :=
  ∃ before after, m = before ++ (name, v) :: after ∧ (name ∉ before.*1) ∧ (name ∉ after.*1).

(** The entry under a name describes [a]; without an entry, [a] is the value
    the record documents for that, if there is one. *)
Definition has_entry {A} m (name : string) (describes : V → A → Prop) (absent : option A) (a : A) : Prop :=
  (∃ v, only_entry m name v ∧ describes v a) ∨ ((name ∉ m.*1) ∧ absent = Some a).

(** Values of the types that occur. *)
Definition is_text (v : V) (s : string) : Prop := as_str v = Some s.
Definition is_flag (v : V) (b : bool) : Prop := as_bool v = Some b.
Definition is_number (bits : Z) (v : V) (z : Z) : Prop := as_integer v = Some z ∧ 0 <= z < 2 ^ bits.
Definition is_duration_text (v : V) (d : Z) : Prop := ∃ s, as_str v = Some s ∧ parse_duration s = Some d.
Definition is_list {A} (describes : V → A → Prop) (v : V) (l : list A) : Prop := ∃ vs, as_seq v = Some vs ∧ Forall2 describes vs l.
Definition is_nullable {A} (describes : V → A → Prop) (v : V) (o : option A) : Prop :=
  match o with None => is_null v = true | Some a => is_null v = false ∧ describes v a end.

Definition mqtt_document (v : V) (c : MqttCfg) : Prop := ∃ m, as_map v = Some m ∧
  has_entry m "host" is_text None (mc_host c) ∧
  has_entry m "port" (is_number 16) (Some 1883) (mc_port c) ∧
  has_entry m "user" (is_nullable is_text) (Some None) (mc_user c) ∧
  has_entry m "password" (is_nullable is_text) (Some None) (mc_password c) ∧
  has_entry m "client_id" is_text (Some "hass-sma-rs") (mc_client_id c) ∧
  has_entry m "discovery_prefix" is_text (Some "homeassistant") (mc_discovery_prefix c) ∧
  has_entry m "state_prefix" is_text (Some "hass-sma") (mc_state_prefix c).

Definition archive_document (v : V) (c : ArchiveCfg) : Prop := ∃ m, as_map v = Some m ∧
  has_entry m "csv_dir" (is_nullable is_text) (Some None) (csv_dir c) ∧
  has_entry m "timescale_url" (is_nullable is_text) (Some None) (timescale_url c).

Definition device_document (v : V) (c : DeviceCfg) : Prop := ∃ m, as_map v = Some m ∧
  has_entry m "slot" is_text None (d_slot c) ∧
  has_entry m "app_serial" (is_number 32) None (d_app_serial c) ∧
  has_entry m "password" (is_nullable is_text) (Some None) (d_password c) ∧
  has_entry m "model" is_text (Some "unknown") (d_model c).

Definition inverter_document (v : V) (c : InverterCfg) : Prop := ∃ m, as_map v = Some m ∧
  has_entry m "slot" is_text None (i_slot c) ∧
  has_entry m "bt_address" is_text None (i_bt_address c) ∧
  has_entry m "password" is_text None (i_password c) ∧
  has_entry m "poll_interval" is_duration_text (Some (5 * 1000000000)) (i_poll_interval c) ∧
  has_entry m "model" is_text (Some "unknown") (i_model c) ∧
  has_entry m "firmware" is_text (Some "unknown") (i_firmware c) ∧
  has_entry m "mis_enabled" is_flag (Some false) (i_mis_enabled c) ∧
  has_entry m "yield_every" (is_number 32) (Some 0) (yield_every c) ∧
  has_entry m "yield_duration" is_duration_text (Some (60 * 1000000000)) (yield_duration c) ∧
  has_entry m "devices" (is_list device_document) (Some []) (devices c) ∧
  has_entry m "event_log_enabled" is_flag (Some false) (event_log_enabled c).

Definition system_document (v : V) (c : PvoutputSystem) : Prop := ∃ m, as_map v = Some m ∧
  has_entry m "slot" is_text None (pv_slot c) ∧
  has_entry m "system_id" (is_number 32) None (system_id c).

Definition pvoutput_document (v : V) (c : PvoutputCfg) : Prop := ∃ m, as_map v = Some m ∧
  has_entry m "api_key" is_text None (api_key c) ∧
  has_entry m "systems" (is_list system_document) (Some []) (systems c) ∧
  has_entry m "upload_interval" is_duration_text (Some (300 * 1000000000)) (upload_interval c).

Definition daemon_document (v : V) (c : DaemonConfig) : Prop := ∃ m, as_map v = Some m ∧
  has_entry m "mqtt" mqtt_document None (mqtt c) ∧
  has_entry m "inverters" (is_list inverter_document) None (inverters c) ∧
  has_entry m "local_bt_address" (is_nullable is_text) (Some None) (local_bt_address c) ∧
  has_entry m "rfcomm_timeout" is_duration_text (Some (15 * 1000000000)) (rfcomm_timeout c) ∧
  has_entry m "metrics_addr" is_text (Some "0.0.0.0:9090") (metrics_addr c) ∧
  has_entry m "archive" (is_nullable archive_document) (Some None) (archive c) ∧
  has_entry m "pvoutput" (is_nullable pvoutput_document) (Some None) (pvoutput c).
End documents.

(* ------------------------------------------------------------------ *)
(** ** Lemmas                                                          *)
(* ------------------------------------------------------------------ *)

Section accepted.
Context {V : Type} `{!Yaml V}.

Lemma field_Some {A} (m : list (string * V)) name de missing (P : A → Prop) a :
  (∀ v a, de v = Some a → P a) → (∀ a, missing = Some a → P a) → field m name de missing = Some a → P a.
Proof. intros Hde Hm. unfold field. destruct (List.filter _ _) as [|e [|]]; [apply Hm|apply Hde|done]. Qed.

Lemma de_unsigned_range bits v z : de_unsigned bits v = Some z → 0 <= z < 2 ^ bits.
Proof. unfold de_unsigned. destruct (as_integer v); [|done]. cbn. case_match; [|done]. intros [= <-]. zlia. Qed.

Lemma de_vec_Forall {A} (de : V → option A) (P : A → Prop) v l :
  (∀ v a, de v = Some a → P a) → de_vec de v = Some l → Forall P l.
Proof.
  intros Hde. unfold de_vec. destruct (as_seq v) as [vs|]; [|done]. cbn. intros H%mapM_Some.
  induction H; constructor; eauto.
Qed.

Lemma de_option_Some {A} (de : V → option A) (P : A → Prop) v o :
  (∀ v a, de v = Some a → P a) → de_option de v = Some o → match o with Some a => P a | None => True end.
Proof. intros Hde. unfold de_option. case_match; [by intros [= <-]|]. destruct (de v) eqn:E; [|done]. intros [= <-]. eauto. Qed.

(** Order of the entries and entries of other names do not matter. *)
Lemma field_ext {A} (m m' : list (string * V)) name (de : V → option A) missing :
  List.filter (λ e, String.eqb e.1 name) m ≡ₚ List.filter (λ e, String.eqb e.1 name) m' →
  field m name de missing = field m' name de missing.
Proof.
  intros H. unfold field. destruct (List.filter _ m) as [|e [|e' l]].
  - by apply Permutation_nil in H as ->.
  - by apply Permutation_singleton_l in H as <-.
  - pose proof (Permutation_length H) as Hl. by destruct (List.filter _ m') as [|? [|]].
Qed.
End accepted.

(** The fields of a record behind [Some]. *)
Ltac fields := repeat match goal with H : mbind _ _ = Some _ |- _ => apply bind_Some in H as (? & ? & H) end.
Ltac from_field P :=
  match goal with
  | H : field _ _ _ _ = Some ?a |- ?G =>
      match G with context [a] => apply (field_Some _ _ _ _ P a) in H; [exact H| |] end
  end.

Section types.
Context {V : Type} `{!Yaml V} (parse_duration : string → option Z).
Context (Hduration : ∀ s d, parse_duration s = Some d → is_duration d).

Lemma de_duration_range (v : V) d : de_duration parse_duration v = Some d → is_duration d.
Proof. unfold de_duration. intros (s & _ & H)%bind_Some. eauto. Qed.

Lemma de_device_ok (v : V) c : de_device v = Some c → device_ok c.
Proof.
  unfold de_device. intros H. fields. injection H as <-. unfold device_ok. cbn.
  from_field (λ z, is_u32 z); [apply (de_unsigned_range 32)|done].
Qed.

Lemma de_inverter_ok (v : V) c : de_inverter parse_duration v = Some c → inverter_ok c.
Proof.
  unfold de_inverter. intros H. fields. injection H as <-. unfold inverter_ok. cbn. refine (conj _ (conj _ (conj _ _))).
  - from_field (λ z, is_duration z); [apply de_duration_range|by intros ? [= <-]].
  - from_field (λ z, is_u32 z); [apply (de_unsigned_range 32)|by intros ? [= <-]].
  - from_field (λ z, is_duration z); [apply de_duration_range|by intros ? [= <-]].
  - from_field (Forall device_ok); [intros ? ?; apply de_vec_Forall, de_device_ok|intros ? [= <-]; constructor].
Qed.

Lemma de_system_ok (v : V) c : de_system v = Some c → system_ok c.
Proof.
  unfold de_system. intros H. fields. injection H as <-. unfold system_ok. cbn.
  from_field (λ z, is_u32 z); [apply (de_unsigned_range 32)|done].
Qed.

Lemma de_pvoutput_ok (v : V) c : de_pvoutput parse_duration v = Some c → pvoutput_ok c.
Proof.
  unfold de_pvoutput. intros H. fields. injection H as <-. split; cbn.
  - from_field (Forall system_ok); [intros ? ?; apply de_vec_Forall, de_system_ok|intros ? [= <-]; constructor].
  - from_field (λ z, is_duration z); [apply de_duration_range|by intros ? [= <-]].
Qed.

Lemma de_mqtt_ok (v : V) c : de_mqtt v = Some c → is_u16 (mc_port c).
Proof.
  unfold de_mqtt. intros H. fields. injection H as <-. cbn.
  from_field (λ z, is_u16 z); [apply (de_unsigned_range 16)|by intros ? [= <-]].
Qed.

Lemma de_daemon_ok (v : V) c : de_daemon parse_duration v = Some c → config_ok c.
Proof.
  unfold de_daemon. intros H. fields. injection H as <-. unfold config_ok. cbn. refine (conj _ (conj _ (conj _ _))).
  - from_field (λ c, is_u16 (mc_port c)); [apply de_mqtt_ok|done].
  - from_field (Forall inverter_ok); [intros ? ?; apply de_vec_Forall, de_inverter_ok|done].
  - from_field (λ z, is_duration z); [apply de_duration_range|by intros ? [= <-]].
  - from_field (λ o, match o with Some p => pvoutput_ok p | None => True end);
      [intros ? ?; apply de_option_Some, de_pvoutput_ok|by intros ? [= <-]].
Qed.
End types.

(** *** The readers accept the documents described *)

Section reads.
Context {V : Type} `{!Yaml V}.
Implicit Types (m : list (string * V)).
Abbreviation named name m := (List.filter (λ e, String.eqb e.1 name) m).

(** A reader gives exactly what its description says. *)
Definition reads {A} (de : V → option A) (describes : V → A → Prop) : Prop := ∀ v a, de v = Some a ↔ describes v a.

Lemma named_none m name : named name m = [] ↔ name ∉ m.*1.
Proof.
  induction m as [|[k v] m IH]; cbn; [by split; [intros _ ?%elem_of_nil|]|]. rewrite not_elem_of_cons.
  destruct (String.eqb_spec k name) as [->|E]; [by split; [|intros [? _]]|]. rewrite IH. split; [by split|tauto].
Qed.

Lemma named_one m name v : only_entry m name v ↔ named name m = [(name, v)].
Proof.
  split.
  - intros (b & a & -> & Hb & Ha). rewrite List.filter_app. cbn. rewrite String.eqb_refl.
    apply named_none in Hb, Ha. by rewrite Hb, Ha.
  - induction m as [|[k w] m IH]; cbn; [done|]. destruct (String.eqb_spec k name) as [->|E].
    + intros [= -> Hm]. exists [], m. split; [done|]. split; [by intros ?%elem_of_nil|by apply named_none].
    + intros H. destruct (IH H) as (b & a & -> & Hb & Ha). exists ((k, w) :: b), a. split; [done|]. split; [|done].
      cbn. apply not_elem_of_cons. by split.
Qed.

Lemma named_head m name e l : named name m = e :: l → e.1 = name.
Proof.
  intros H. assert (Hin : In e (named name m)) by (rewrite H; by left).
  apply List.filter_In in Hin as [_ Hin]. by apply String.eqb_eq in Hin.
Qed.

Lemma field_reads {A} m name (de : V → option A) describes absent a :
  reads de describes → field m name de absent = Some a ↔ has_entry m name describes absent a.
Proof.
  intros Hde. unfold field, has_entry. destruct (named name m) as [|[k v] [|]] eqn:E.
  - apply named_none in E as Hn. split; [by right|]. intros [(v & Hv%named_one & _)|[_ H]]; [by rewrite E in Hv|done].
  - pose proof (named_head _ _ _ _ E) as Hk. cbn in Hk. subst k. split.
    + intros Hv. left. exists v. split; [by apply named_one|by apply Hde].
    + intros [(w & Hw%named_one & Hd)|[Hn%named_none _]]; [|by rewrite E in Hn]. apply Hde. rewrite E in Hw. by injection Hw as ->.
  - split; [done|]. intros [(w & Hw%named_one & _)|[Hn%named_none _]]; [by rewrite E in Hw|by rewrite E in Hn].
Qed.

Lemma field_entry {A} m name (de : V → option A) describes absent a :
  field m name de absent = Some a → reads de describes → has_entry m name describes absent a.
Proof. intros Hf Hde. by apply (field_reads _ _ de). Qed.

(** One field of a record read, the rest after it. *)
Lemma bind_field {A B} m name (de : V → option A) describes absent a (f : A → option B) b :
  reads de describes → has_entry m name describes absent a → f a = Some b → field m name de absent ≫= f = Some b.
Proof. intros Hde He Hf. apply (field_reads _ _ de) in He; [|done]. by rewrite He. Qed.

Lemma reads_text : reads as_str is_text.
Proof. done. Qed.
Lemma reads_flag : reads as_bool is_flag.
Proof. done. Qed.
Lemma reads_number bits : reads (de_unsigned bits) (is_number bits).
Proof.
  intros v a. unfold de_unsigned, is_number. destruct (as_integer v) as [z|]; cbn; [|by split; [|intros []]].
  case_match eqn:E; split; try (intros [= <-] || intros [[= <-] ?]); try done; [split; [done|zlia]|zlia].
Qed.
Lemma reads_duration (parse_duration : string → option Z) : reads (de_duration parse_duration) (is_duration_text parse_duration).
Proof. intros v d. unfold de_duration, is_duration_text. by rewrite bind_Some. Qed.
Lemma reads_list {A} (de : V → option A) describes : reads de describes → reads (de_vec de) (is_list describes).
Proof.
  intros Hde v l. unfold de_vec, is_list. rewrite bind_Some. f_equiv. intros vs. f_equiv. rewrite mapM_Some.
  split; intros H; (eapply Forall2_impl; [exact H|]); intros; by apply Hde.
Qed.
Lemma reads_nullable {A} (de : V → option A) describes : reads de describes → reads (de_option de) (is_nullable describes).
Proof.
  intros Hde v o. unfold de_option, is_nullable. destruct (is_null v).
  - split; [by intros [= <-]|]. destruct o; [by intros []|done].
  - destruct o as [a|]; [|by split; [destruct (de v)|]]. rewrite <-(Hde v a). destruct (de v); cbn; split.
    + by intros [= ->].
    + by intros [_ [= ->]].
    + done.
    + by intros [].
Qed.
End reads.

Create HintDb reads discriminated.
#[export] Hint Resolve reads_text reads_flag reads_number reads_duration reads_list reads_nullable : reads.

(** A record: its entries one by one, in both directions. *)
Tactic Notation "reads_record" reference(de) reference(doc) :=
  intros v c; unfold de, doc; split;
  [ let H := fresh in intros H; fields; injection H as <-; cbn; eexists; split; [eassumption|];
    repeat match goal with |- _ ∧ _ => split end; (eapply field_entry; [eassumption|]; eauto with reads)
  | let m := fresh "m" in let Hm := fresh in intros (m & Hm & ?); destruct_and?; rewrite Hm; cbn [mbind option_bind];
    repeat (eapply bind_field; [eauto with reads|eassumption|]); by destruct c ].

Section records.
Context {V : Type} `{!Yaml V} (parse_duration : string → option Z).

Lemma reads_mqtt : reads (V := V) de_mqtt mqtt_document.
Proof. reads_record de_mqtt mqtt_document. Qed.
Lemma reads_archive : reads (V := V) de_archive archive_document.
Proof. reads_record de_archive archive_document. Qed.
Lemma reads_device : reads (V := V) de_device device_document.
Proof. reads_record de_device device_document. Qed.
Lemma reads_system : reads (V := V) de_system system_document.
Proof. reads_record de_system system_document. Qed.
Hint Resolve reads_mqtt reads_archive reads_device reads_system : reads.
Lemma reads_inverter : reads (V := V) (de_inverter parse_duration) (inverter_document parse_duration).
Proof. reads_record de_inverter inverter_document. Qed.
Lemma reads_pvoutput : reads (V := V) (de_pvoutput parse_duration) (pvoutput_document parse_duration).
Proof. reads_record de_pvoutput pvoutput_document. Qed.
Hint Resolve reads_inverter reads_pvoutput : reads.
Lemma reads_daemon : reads (V := V) (de_daemon parse_duration) (daemon_document parse_duration).
Proof. reads_record de_daemon daemon_document. Qed.
End records.

(** *** What was written reads back *)

Section roundtrip.
Context {V : Type} `{HV : YamlLaws V} (parse_duration : string → option Z) (format_duration : Z → string).
Context (Hduration : ∀ d, is_duration d → parse_duration (format_duration d) = Some d).

Lemma de_ser_unsigned bits z : 0 <= z < 2 ^ bits → is_u64 z → de_unsigned bits (of_integer z : V) = Some z.
Proof. intros Hz Hu. unfold de_unsigned. rewrite as_of_integer by done. cbn. by rewrite (proj2 (Z.leb_le _ _)), (proj2 (Z.ltb_lt _ _)) by lia. Qed.

Lemma de_ser_text o : de_option as_str (ser_option of_str o : V) = Some o.
Proof. unfold de_option, ser_option. destruct o; [by rewrite str_not_null, as_of_str|by rewrite null_is_null]. Qed.

Lemma de_ser_duration d : is_duration d → de_duration parse_duration (ser_duration format_duration d : V) = Some d.
Proof. intros Hd. unfold de_duration, ser_duration. rewrite as_of_str. cbn. by apply Hduration. Qed.

Lemma de_ser_vec {A} (P : A → Prop) (de : V → option A) (ser : A → V) l :
  (∀ a, P a → de (ser a) = Some a) → Forall P l → de_vec de (ser_vec ser l) = Some l.
Proof.
  intros Hde Hl. unfold de_vec, ser_vec. rewrite as_of_seq. cbn. apply mapM_Some.
  induction Hl; constructor; eauto.
Qed.

(** One entry after the other. *)
Ltac entries :=
  rewrite as_of_map by by_decide; cbn [mbind option_bind]; unfold field;
  cbn [List.filter String.eqb Ascii.eqb Bool.eqb fst snd].
Ltac entry lem := rewrite lem; cbn [mbind option_bind].
Ltac read := repeat first
  [ rewrite as_of_str | rewrite as_of_bool | rewrite de_ser_text | rewrite de_ser_unsigned by (cbn; lia)
  | rewrite de_ser_duration by lia | progress cbn [mbind option_bind] ].

Lemma de_ser_mqtt c : is_u16 (mc_port c) → de_mqtt (ser_mqtt c : V) = Some c.
Proof. intros Hp. unfold de_mqtt, ser_mqtt. entries. read. by destruct c. Qed.

Lemma de_ser_archive c : de_archive (ser_archive c : V) = Some c.
Proof. unfold de_archive, ser_archive. entries. read. by destruct c. Qed.

Lemma de_ser_device c : device_ok c → de_device (ser_device c : V) = Some c.
Proof. intros Hp. unfold device_ok in Hp. unfold de_device, ser_device. entries. read. by destruct c. Qed.

Lemma de_ser_inverter c : inverter_ok c → de_inverter parse_duration (ser_inverter format_duration c : V) = Some c.
Proof.
  intros (Hp & Hy & Hd & Hds). unfold de_inverter, ser_inverter. entries. read.
  entry (de_ser_vec device_ok de_device ser_device (devices c) de_ser_device Hds). read. by destruct c.
Qed.

Lemma de_ser_system c : system_ok c → de_system (ser_system c : V) = Some c.
Proof. intros Hp. unfold system_ok in Hp. unfold de_system, ser_system. entries. read. by destruct c. Qed.

Lemma de_ser_pvoutput c : pvoutput_ok c → de_pvoutput parse_duration (ser_pvoutput format_duration c : V) = Some c.
Proof.
  intros (Hs & Hd). unfold de_pvoutput, ser_pvoutput. entries. read.
  entry (de_ser_vec system_ok de_system ser_system (systems c) de_ser_system Hs). read. by destruct c.
Qed.

Lemma de_ser_daemon c : config_ok c → de_daemon parse_duration (ser_daemon format_duration c : V) = Some c.
Proof.
  intros (Hp & Hi & Ht & Hpv). unfold de_daemon, ser_daemon. entries. read. entry (de_ser_mqtt (mqtt c) Hp).
  entry (de_ser_vec inverter_ok (de_inverter parse_duration) (ser_inverter format_duration) (inverters c) de_ser_inverter Hi).
  read. assert (Ha : de_option de_archive (ser_option ser_archive (archive c) : V) = Some (archive c)).
  { unfold de_option, ser_option. destruct (archive c) as [a|]; [|by rewrite null_is_null].
    replace (is_null (ser_archive a : V)) with false by (unfold ser_archive; by rewrite map_not_null). by rewrite de_ser_archive. }
  assert (Hv : de_option (de_pvoutput parse_duration) (ser_option (ser_pvoutput format_duration) (pvoutput c) : V) = Some (pvoutput c)).
  { unfold de_option, ser_option. destruct (pvoutput c) as [a|]; [|by rewrite null_is_null].
    replace (is_null (ser_pvoutput format_duration a : V)) with false by (unfold ser_pvoutput; by rewrite map_not_null).
    by rewrite de_ser_pvoutput. }
  entry Ha. entry Hv. by destruct c.
Qed.
End roundtrip.

(** The part of a map a record reads. *)
Definition known_entries {V} (names : list string) (m : list (string * V)) : list (string * V) :=
  List.filter (λ e, existsb (String.eqb e.1) names) m.
Definition daemon_fields : list string :=
  ["mqtt"; "inverters"; "local_bt_address"; "rfcomm_timeout"; "metrics_addr"; "archive"; "pvoutput"].
Definition inverter_fields : list string :=
  ["slot"; "bt_address"; "password"; "poll_interval"; "model"; "firmware"; "mis_enabled"; "yield_every"; "yield_duration";
   "devices"; "event_log_enabled"].

Lemma filter_filter_key {V} (names : list string) name (m : list (string * V)) :
  existsb (String.eqb name) names = true →
  List.filter (λ e, String.eqb e.1 name) m = List.filter (λ e, String.eqb e.1 name) (known_entries names m).
Proof.
  intros Hn. induction m as [|e m IH]; [done|]. unfold known_entries in *. cbn [List.filter].
  destruct (String.eqb_spec e.1 name) as [E|E].
  - rewrite E, Hn. cbn [List.filter]. rewrite E, String.eqb_refl. by rewrite IH.
  - destruct (existsb (String.eqb e.1) names); [|done]. cbn [List.filter].
    by rewrite (proj2 (String.eqb_neq _ _) E).
Qed.

Lemma filter_permutation {A} (f : A → bool) l l' : l ≡ₚ l' → List.filter f l ≡ₚ List.filter f l'.
Proof.
  intros H. induction H as [|x l l' H IH|x y l|l l' l'' H IH H' IH']; cbn [List.filter].
  - apply perm_nil.
  - destruct (f x); [by apply perm_skip|exact IH].
  - destruct (f x), (f y); reflexivity || apply perm_swap.
  - exact (perm_trans IH IH').
Qed.

Lemma field_known {V A} `{!Yaml V} names (m m' : list (string * V)) name (de : V → option A) missing :
  known_entries names m ≡ₚ known_entries names m' → existsb (String.eqb name) names = true →
  field m name de missing = field m' name de missing.
Proof.
  intros H Hn. apply field_ext. rewrite (filter_filter_key names name m), (filter_filter_key names name m') by done. by apply filter_permutation.
Qed.

(** The least document and its defaults. *)
Lemma minimal_mqtt {V} `{HV : YamlLaws V} h :
  de_mqtt (of_map [("host", of_str h)] : V) = Some (mkMqttCfg h 1883 None None "hass-sma-rs" "homeassistant" "hass-sma").
Proof.
  unfold de_mqtt. rewrite as_of_map by by_decide. cbn [mbind option_bind]. unfold field.
  cbn [List.filter String.eqb Ascii.eqb Bool.eqb fst snd]. by rewrite as_of_str.
Qed.

Lemma minimal_config {V} `{HV : YamlLaws V} (parse_duration : string → option Z) h :
  de_daemon parse_duration (of_map [("mqtt", of_map [("host", of_str h)]); ("inverters", of_seq [])] : V) =
    Some (mkDaemonConfig (mkMqttCfg h 1883 None None "hass-sma-rs" "homeassistant" "hass-sma") [] None (secs 15) "0.0.0.0:9090" None None).
Proof.
  unfold de_daemon. rewrite as_of_map by by_decide. cbn [mbind option_bind]. unfold field.
  cbn [List.filter String.eqb Ascii.eqb Bool.eqb fst snd]. rewrite minimal_mqtt. cbn [mbind option_bind].
  unfold de_vec. by rewrite as_of_seq.
Qed.

(* ------------------------------------------------------------------ *)
(** ** Properties                                                      *)
(* ------------------------------------------------------------------ *)

(** C29. What [from_yaml] accepts, and what it makes of it.  A text is read as
    the configuration [c] exactly when it parses as a document of [c]: every
    record a map in which each of its fields has its value under the field's own
    name, given once, in the field's type, or is absent and has the documented
    default, entries of other names and the order being of no matter.  So a
    missing or repeated field, a number beyond its type or a malformed duration
    is an error, and in a configuration accepted every integer and duration is
    within its type. *)
Theorem accepted_documents {V} `{!Yaml V} (parse_duration : string → option Z) (parse : string → option V)
    (src : string) (c : DaemonConfig) :
  (from_yaml parse_duration parse src = Some c ↔ ∃ v, parse src = Some v ∧ daemon_document parse_duration v c) ∧
  ((∀ s d, parse_duration s = Some d → is_duration d) → from_yaml parse_duration parse src = Some c → config_ok c).
Proof.
  unfold from_yaml. rewrite bind_Some. split.
  - f_equiv. intros v. f_equiv. apply reads_daemon.
  - intros Hd (v & _ & Hv). by eapply de_daemon_ok.
Qed.

(** C30. A configuration written as YAML is read back as it was: for every
    configuration in range, over any YAML library that gives back what it was
    given and any text of durations (up to the largest [Duration]) that parses
    back. *)
Theorem config_roundtrip {V} `{HV : YamlLaws V} (parse_duration : string → option Z) (format_duration : Z → string)
    (parse : string → option V) (emit : V → string) (c : DaemonConfig) :
  (∀ d, is_duration d → parse_duration (format_duration d) = Some d) →
  parse (emit (ser_daemon format_duration c)) = Some (ser_daemon format_duration c) → config_ok c → from_yaml parse_duration parse (emit (ser_daemon format_duration c)) = Some c.
Proof. intros Hd Hp Hc. unfold from_yaml. rewrite Hp. cbn [mbind option_bind]. by apply de_ser_daemon. Qed.

(** What the configuration reader takes from a document: neither the order
    of the entries nor unknown entries change the result, at the top level or
    in an inverter; and a document with a broker host and an empty list of
    inverters, and nothing else, is accepted with the documented defaults. *)
Theorem config_reading {V} `{HV : YamlLaws V} (parse_duration : string → option Z) (v v' : V) (m m' : list (string * V)) (h : string) :
  as_map v = Some m → as_map v' = Some m' →
  (known_entries daemon_fields m ≡ₚ known_entries daemon_fields m' → de_daemon parse_duration v = de_daemon parse_duration v') ∧
  (known_entries inverter_fields m ≡ₚ known_entries inverter_fields m' → de_inverter parse_duration v = de_inverter parse_duration v') ∧
  de_daemon parse_duration (of_map [("mqtt", of_map [("host", of_str h)]); ("inverters", of_seq [])] : V) =
    Some (mkDaemonConfig (mkMqttCfg h 1883 None None "hass-sma-rs" "homeassistant" "hass-sma") [] None (secs 15) "0.0.0.0:9090" None None).
Proof.
  intros Hm Hm'. refine (conj _ (conj _ _)).
  - intros Hk. unfold de_daemon. rewrite Hm, Hm'. cbn [mbind option_bind].
    assert (Hf : ∀ {A} name (de : V → option A) mi, existsb (String.eqb name) daemon_fields = true →
      field m name de mi = field m' name de mi) by (intros; by eapply field_known).
    by rewrite !Hf by reflexivity.
  - intros Hk. unfold de_inverter. rewrite Hm, Hm'. cbn [mbind option_bind].
    assert (Hf : ∀ {A} name (de : V → option A) mi, existsb (String.eqb name) inverter_fields = true →
      field m name de mi = field m' name de mi) by (intros; by eapply field_known).
    by rewrite !Hf by reflexivity.
  - apply minimal_config.
Qed.

(* ------------------------------------------------------------------ *)
(** ** Concrete instances                                              *)
(* ------------------------------------------------------------------ *)

(** Documents as trees. *)
Inductive tree : Type :=
  | TNull | TStr (s : string) | TBool (b : bool) | TInt (z : Z) | TSeq (l : list tree) | TMap (l : list (string * tree)).

#[export] Instance tree_yaml : Yaml tree := {|
  as_str v := match v with TStr s => Some s | _ => None end;
  as_bool v := match v with TBool b => Some b | _ => None end;
  as_integer v := match v with TInt z => Some z | _ => None end;
  as_seq v := match v with TSeq l => Some l | _ => None end;
  as_map v := match v with TMap l => Some l | _ => None end;
  is_null v := match v with TNull => true | _ => false end |}.
#[export] Instance tree_build : YamlBuild tree :=
  {| of_str := TStr; of_bool := TBool; of_integer := TInt; of_seq := TSeq; of_map := TMap; null := TNull |}.
#[export] Instance tree_laws : YamlLaws tree.
Proof. by split. Qed.

(** Durations in nanoseconds, as decimal text; beyond the largest one, an
    overflow is reported. *)
Definition ns_of (s : string) : option Z :=
  d ← dec_value s 0; if d <? 18446744073709551616 * 1000000000 then Some d else None.

Lemma dec_value_nonneg s a d : 0 <= a → dec_value s a = Some d → 0 <= d.
Proof.
  revert a. induction s as [|c s IH]; cbn; intros a Ha; [by intros [= <-]|].
  intros (v & Hv & H)%bind_Some. revert H. apply IH. unfold digit_value in Hv. case_match; [|done]. injection Hv as <-. zlia.
Qed.

Lemma ns_of_range s d : ns_of s = Some d → is_duration d.
Proof.
  unfold ns_of. intros (z & Hz%dec_value_nonneg & H)%bind_Some; [|lia]. case_match; [|done]. injection H as <-. zlia.
Qed.

Lemma ns_of_pretty d : is_duration d → ns_of (pretty d) = Some d.
Proof.
  intros Hd. unfold ns_of. rewrite dec_value_pretty by lia. cbn [mbind option_bind]. by rewrite (proj2 (Z.ltb_lt _ _)) by lia.
Qed.

Definition mis_device (slot : string) (serial : tree) : tree := TMap [("slot", TStr slot); ("app_serial", serial)].
Definition mis_document (serial : tree) : tree :=
  TMap [("mqtt", TMap [("host", TStr "core-mosquitto")]); ("unknown", TNull);
        ("inverters", TSeq [TMap [("bt_address", TStr "00:80:25:21:32:35"); ("slot", TStr "repeater"); ("password", TStr "0000");
          ("devices", TSeq [mis_device "zolder" serial])]])].

Definition mis_config : DaemonConfig :=
  mkDaemonConfig (mkMqttCfg "core-mosquitto" 1883 None None "hass-sma-rs" "homeassistant" "hass-sma")
    [mkInverterCfg "repeater" "00:80:25:21:32:35" "0000" (secs 5) "unknown" "unknown" false 0 (secs 60)
       [mkDeviceCfg "zolder" 2120121246 None "unknown"] false] None (secs 15) "0.0.0.0:9090" None None.

(** The document of a repeater is accepted; a serial beyond 32 bits is not,
    nor an entry given twice. *)
Example config_test :
  de_daemon ns_of (mis_document (TInt 2120121246)) = Some mis_config ∧
  de_daemon ns_of (mis_document (TInt 4294967296)) = None ∧ de_device (TMap [("slot", TStr "a"); ("app_serial", TInt 1); ("slot", TStr "b")]) = None.
Proof. vm_compute. done. Qed.

(** A document that sets a poll interval, one of a repeater, and that one with
    a null for the serial, which is a document of no configuration. *)
Definition timed_document : tree :=
  TMap [("inverters", TSeq [TMap [("slot", TStr "zolder"); ("bt_address", TStr "00:80:25:21:32:35"); ("password", TStr "0000");
          ("poll_interval", TStr "7000000000")]]); ("mqtt", TMap [("host", TStr "core-mosquitto")])].
Definition timed_config : DaemonConfig :=
  mkDaemonConfig (mkMqttCfg "core-mosquitto" 1883 None None "hass-sma-rs" "homeassistant" "hass-sma")
    [mkInverterCfg "zolder" "00:80:25:21:32:35" "0000" (secs 7) "unknown" "unknown" false 0 (secs 60) [] false]
    None (secs 15) "0.0.0.0:9090" None None.

Lemma accepted_documents_witness :
  daemon_document ns_of timed_document timed_config ∧ config_ok mis_config ∧
  ∀ c, ¬ daemon_document ns_of (mis_document TNull) c.
Proof.
  split; [|split].
  - destruct (accepted_documents ns_of (λ _, Some timed_document) "" timed_config) as [[H _] _].
    destruct H as (v & [= <-] & Hv); [vm_compute; reflexivity|exact Hv].
  - apply (accepted_documents ns_of (λ _, Some (mis_document (TInt 2120121246))) "" mis_config); [exact ns_of_range|vm_compute; reflexivity].
  - intros c Hc. destruct (accepted_documents ns_of (λ _, Some (mis_document TNull)) "" c) as [[_ H] _].
    assert (E : from_yaml ns_of (λ _, Some (mis_document TNull)) "" = None) by (vm_compute; reflexivity).
    rewrite H in E; [discriminate E|]. eexists. split; [reflexivity|exact Hc].
Defined.

Lemma mis_config_ok : config_ok mis_config.
Proof.
  refine (conj _ (conj (Forall_cons_2 _ _ _ _ (Forall_nil_2 _)) (conj _ I))); [by_decide| |by_decide].
  refine (conj _ (conj _ (conj _ (Forall_cons_2 _ _ _ _ (Forall_nil_2 _))))); by_decide.
Qed.

Lemma config_roundtrip_witness :
  from_yaml ns_of (λ src, if String.eqb src "---" then Some (ser_daemon pretty mis_config : tree) else None) "---" = Some mis_config.
Proof.
  apply (config_roundtrip ns_of pretty (λ src, if String.eqb src "---" then Some (ser_daemon pretty mis_config) else None)
    (λ _, "---") mis_config); [|reflexivity|exact mis_config_ok].
  exact ns_of_pretty.
Defined.

(** Two orders of one document, an unknown entry in one of them. *)
Lemma config_reading_witness :
  let a := TMap [("inverters", TSeq []); ("mqtt", TMap [("host", TStr "h")])] in
  let b := TMap [("mqtt", TMap [("host", TStr "h")]); ("unknown", TInt 1); ("inverters", TSeq [])] in
  de_daemon ns_of a = de_daemon ns_of b ∧
  de_daemon ns_of (TMap [("mqtt", TMap [("host", TStr "h")]); ("inverters", TSeq [])]) =
    Some (mkDaemonConfig (mkMqttCfg "h" 1883 None None "hass-sma-rs" "homeassistant" "hass-sma") [] None (secs 15) "0.0.0.0:9090" None None).
Proof.
  intros a b. destruct (config_reading ns_of a b (default [] (as_map a)) (default [] (as_map b)) "h") as (H & _ & H'); [reflexivity..|].
  split; [apply H, perm_swap|exact H'].
Defined.
