(* ===== verification/Mqtt.v ===== *)
(** * Home Assistant discovery over MQTT (crates/mqtt-discovery/src/)

    The sensor catalog ([catalog.rs]), the identities ([config.rs]) and the
    publisher ([client.rs]).  The MQTT client itself is the crate rumqttc: a
    parameter, of which the model uses that [publish] either accepts a message
    or returns an error.  What the publisher asks of the client is recorded in
    [requests].  JSON documents are trees; their serialisation (serde_json) is
    a parameter. *)
From Stdlib Require Import String Ascii.
From stdpp Require Import pretty.
From S2P Require Import Prelude Text.

Local Open Scope string_scope.
Local Open Scope list_scope.
Local Open Scope Z_scope.

(* ------------------------------------------------------------------ *)
(** ** catalog.rs                                                      *)
(* ------------------------------------------------------------------ *)

Record SensorConfig : Type := mkSensor {
  sc_name : string;
  sc_key : string;
  device_class : option string;
  state_class : option string;
  unit_of : option string;
  icon : string;
  diagnostic : bool
}.

(** AC side and grid. *)
Definition ac_sensors : list SensorConfig :=
  [mkSensor "AC Power" "ac_power" (Some "power") (Some "measurement") (Some "W") "mdi:flash" false;
   mkSensor "AC Power L1" "ac_power_l1" (Some "power") (Some "measurement") (Some "W") "mdi:flash" false;
   mkSensor "AC Power L2" "ac_power_l2" (Some "power") (Some "measurement") (Some "W") "mdi:flash" false;
   mkSensor "AC Power L3" "ac_power_l3" (Some "power") (Some "measurement") (Some "W") "mdi:flash" false;
   mkSensor "AC Voltage L1" "ac_voltage_l1" (Some "voltage") (Some "measurement") (Some "V") "mdi:flash-triangle-outline" false;
   mkSensor "AC Voltage L2" "ac_voltage_l2" (Some "voltage") (Some "measurement") (Some "V") "mdi:flash-triangle-outline" false;
   mkSensor "AC Voltage L3" "ac_voltage_l3" (Some "voltage") (Some "measurement") (Some "V") "mdi:flash-triangle-outline" false;
   mkSensor "AC Current L1" "ac_current_l1" (Some "current") (Some "measurement") (Some "A") "mdi:current-ac" false;
   mkSensor "AC Current L2" "ac_current_l2" (Some "current") (Some "measurement") (Some "A") "mdi:current-ac" false;
   mkSensor "AC Current L3" "ac_current_l3" (Some "current") (Some "measurement") (Some "A") "mdi:current-ac" false;
   mkSensor "Grid Frequency" "grid_frequency" (Some "frequency") (Some "measurement") (Some "Hz") "mdi:sine-wave" false].

(** DC side, per string. *)
Definition dc_sensors : list SensorConfig :=
  [mkSensor "DC Power String 1" "dc_power_s1" (Some "power") (Some "measurement") (Some "W") "mdi:solar-panel" false;
   mkSensor "DC Power String 2" "dc_power_s2" (Some "power") (Some "measurement") (Some "W") "mdi:solar-panel" false;
   mkSensor "DC Voltage String 1" "dc_voltage_s1" (Some "voltage") (Some "measurement") (Some "V") "mdi:flash-triangle-outline" false;
   mkSensor "DC Voltage String 2" "dc_voltage_s2" (Some "voltage") (Some "measurement") (Some "V") "mdi:flash-triangle-outline" false;
   mkSensor "DC Current String 1" "dc_current_s1" (Some "current") (Some "measurement") (Some "A") "mdi:current-dc" false;
   mkSensor "DC Current String 2" "dc_current_s2" (Some "current") (Some "measurement") (Some "A") "mdi:current-dc" false].

(** Counters and temperature. *)
Definition energy_sensors : list SensorConfig :=
  [mkSensor "Energy Today" "energy_today" (Some "energy") (Some "total_increasing") (Some "kWh") "mdi:solar-power-variant" false;
   mkSensor "Energy Lifetime" "energy_lifetime" (Some "energy") (Some "total_increasing") (Some "kWh") "mdi:counter" false;
   mkSensor "Operation Time" "operation_time" (Some "duration") (Some "total_increasing") (Some "h") "mdi:timer-sand" true;
   mkSensor "Feed-in Time" "feed_in_time" (Some "duration") (Some "total_increasing") (Some "h") "mdi:transmission-tower" true;
   mkSensor "Inverter Temperature" "temperature" (Some "temperature") (Some "measurement") (Some "°C") "mdi:thermometer" false].

(** Diagnostics, identity, events. *)
Definition diagnostic_sensors : list SensorConfig :=
  [mkSensor "Inverter Status" "inverter_state" None None None "mdi:heart-pulse" true;
   mkSensor "Poll Status" "poll_status" None None None "mdi:check-network-outline" true;
   mkSensor "Grid Relay" "grid_relay" None None None "mdi:electric-switch" true;
   mkSensor "Inverter Model" "inverter_model" None None None "mdi:solar-panel-large" true;
   mkSensor "Firmware Version" "firmware_version" None None None "mdi:chip" true;
   mkSensor "Session Uptime" "session_uptime" (Some "duration") (Some "measurement") (Some "s") "mdi:timer-outline" true;
   mkSensor "Last Poll" "last_poll" (Some "timestamp") None None "mdi:clock-check" true;
   mkSensor "Last Event" "last_event" None None None "mdi:alert-circle-outline" true;
   mkSensor "Last Event At" "last_event_at" (Some "timestamp") None None "mdi:clock-alert-outline" true;
   mkSensor "Event Count 24h" "last_event_count_24h" None (Some "measurement") None "mdi:counter" true].

(** The extended records. *)
Definition extended_sensors : list SensorConfig :=
  [mkSensor "Power Factor" "cos_phi" (Some "power_factor") (Some "measurement") None "mdi:angle-acute" false;
   mkSensor "Max Feed-In Power" "max_feedin_w" (Some "power") (Some "measurement") (Some "W") "mdi:transmission-tower-export" true;
   mkSensor "Nominal AC Power" "nominal_ac_power_w" (Some "power") (Some "measurement") (Some "W") "mdi:tag" true].

(** [sensor_catalog] *)
Definition sensor_catalog : list SensorConfig :=
  ac_sensors ++ dc_sensors ++ energy_sensors ++ diagnostic_sensors ++ extended_sensors.

(* ------------------------------------------------------------------ *)
(** ** config.rs                                                       *)
(* ------------------------------------------------------------------ *)

Inductive DeviceKind : Type := SolarInverter | BluetoothRepeater | BatteryInverter.

Record InverterIdentity : Type := mkIdentity {
  slot : string;
  serial : Z;
  model : string;
  firmware : string;
  kind : DeviceKind
}.

(* ------------------------------------------------------------------ *)
(** ** client.rs                                                       *)
(* ------------------------------------------------------------------ *)

Record MqttClientConfig : Type := mkMqttConfig {
  host : string;
  port : Z;
  user : option string;
  mq_password : option string;
  client_id : string;
  keep_alive : Z;
  discovery_prefix : string;
  state_prefix : string
}.

(** [MqttClientConfig::default] *)
Definition MqttClientConfig_default : MqttClientConfig :=
  mkMqttConfig "core-mosquitto" 1883 None None "hass-sma-rs" 30 "homeassistant" "hass-sma".

Inductive QoS : Type := AtMostOnce | AtLeastOnce.

(** A JSON document, as the [json!] literal builds it. *)
Inductive Json : Type :=
  | JString (s : string)
  | JBool (b : bool)
  | JArray (l : list Json)
  | JObject (fields : list (string * Json)).

(** [obj[field] = v] on an object. *)
Fixpoint set_field (fields : list (string * Json)) (field : string) (v : Json) : list (string * Json) :=
  match fields with
  | [] => [(field, v)]
  | (k, w) :: fields => if String.eqb k field then (k, v) :: fields else (k, w) :: set_field fields field v
  end.

Definition json_set (obj : Json) (field : string) (v : Json) : Json :=
  match obj with JObject fields => JObject (set_field fields field v) | obj => obj end.

(** A publication: raw text, or a document yet to be serialised. *)
Inductive payload : Type := Text (s : string) | Document (j : Json).

Record message : Type := mkMessage { m_topic : string; m_qos : QoS; m_retain : bool; m_payload : payload }.

(** [rumqttc::AsyncClient]: [publish(topic, qos, retain, payload)] hands a
    message over, or fails. *)
Class MqttClient (C ClientError : Type) := client_publish : message → C → option ClientError * C.

Inductive PublisherError (ClientError : Type) : Type := Mqtt (e : ClientError).
Arguments Mqtt {ClientError} e.

Record DiscoveryPublisher (C : Type) : Type := mkPublisher {
  client : C;
  pub_cfg : MqttClientConfig;
  requests : list message
}.
Arguments mkPublisher {C} _ _ _. Arguments client {C} _. Arguments pub_cfg {C} _. Arguments requests {C} _.

(** The topics are functions of the configuration. *)
Definition availability_topic (cfg : MqttClientConfig) (inv : InverterIdentity) : string :=
  state_prefix cfg +:+ "/" +:+ slot inv +:+ "/availability".
Definition discovery_topic (cfg : MqttClientConfig) (inv : InverterIdentity) (sensor : SensorConfig) : string :=
  discovery_prefix cfg +:+ "/sensor/sbfspot_" +:+ slot inv +:+ "_" +:+ sc_key sensor +:+ "/config".
Definition state_topic (cfg : MqttClientConfig) (inv : InverterIdentity) (sensor : SensorConfig) : string :=
  state_prefix cfg +:+ "/" +:+ slot inv +:+ "/" +:+ sc_key sensor.
Definition unique_id (inv : InverterIdentity) (s : SensorConfig) : string :=
  "sbfspot_" +:+ slot inv +:+ "_" +:+ pretty (serial inv) +:+ "_" +:+ sc_key s.
Definition object_id (inv : InverterIdentity) (s : SensorConfig) : string :=
  "sbfspot_" +:+ slot inv +:+ "_" +:+ sc_key s.

(** [add_optional] *)
Definition add_optional (obj : Json) (field : string) (value : option string) : Json :=
  match value with Some v => json_set obj field (JString v) | None => obj end.

(** The document [announce] builds for one sensor. *)
Definition discovery_payload (cfg : MqttClientConfig) (inv : InverterIdentity) (s : SensorConfig) : Json :=
  let payload := JObject
    [("name", JString (sc_name s));
     ("unique_id", JString (unique_id inv s));
     ("object_id", JString (object_id inv s));
     ("has_entity_name", JBool true);
     ("state_topic", JString (state_topic cfg inv s));
     ("availability_topic", JString (availability_topic cfg inv));
     ("payload_available", JString "online");
     ("payload_not_available", JString "offline");
     ("icon", JString (icon s));
     ("device", JObject
       [("identifiers", JArray [JString ("sbfspot_" +:+ pretty (serial inv))]);
        ("name", JString ("SBFspot " +:+ slot inv));
        ("manufacturer", JString "SMA (hass-sma-rs)");
        ("model", JString (model inv));
        ("sw_version", JString (firmware inv))])] in
  let payload := add_optional payload "device_class" (device_class s) in
  let payload := add_optional payload "state_class" (state_class s) in
  let payload := add_optional payload "unit_of_measurement" (unit_of s) in
  if diagnostic s then json_set payload "entity_category" (JString "diagnostic") else payload.

Record MqttOptions : Type := mkOptions {
  o_client_id : string; o_host : string; o_port : Z; o_keep_alive : Z;
  o_credentials : option (string * string); o_last_will : option message
}.

(** The options [connect_with_lwt] opens the client with. *)
Definition mqtt_options (cfg : MqttClientConfig) (lwt_topic : option string) : MqttOptions :=
  mkOptions (client_id cfg) (host cfg) (port cfg) (keep_alive cfg)
    (match user cfg, mq_password cfg with Some u, Some p => Some (u, p) | _, _ => None end)
    ((λ topic, mkMessage topic AtLeastOnce true (Text "offline")) <$> lwt_topic).

Section publisher.
Context {C ClientError : Type} `{Hclient : !MqttClient C ClientError}.

Abbreviation pprog := (prog (DiscoveryPublisher C) (PublisherError ClientError)).

(** [self.client.publish(..).await?] *)
Definition publish (m : message) : pprog () := λ p,
  let '(r, c) := client_publish m (client p) in
  (match r with None => Ok () | Some e => Err (Mqtt e) end,
   mkPublisher c (pub_cfg p) (requests p ++ [m])).

(** [DiscoveryPublisher::publish_online], [publish_offline] *)
Definition publish_online (inv : InverterIdentity) : pprog () :=
  cfg ← gets pub_cfg;
  publish (mkMessage (availability_topic cfg inv) AtLeastOnce true (Text "online")).
Definition publish_offline (inv : InverterIdentity) : pprog () :=
  cfg ← gets pub_cfg;
  publish (mkMessage (availability_topic cfg inv) AtLeastOnce true (Text "offline")).

(** The loop of [announce]. *)
Fixpoint announce_all (inv : InverterIdentity) (sensors : list SensorConfig) : pprog () :=
  match sensors with
  | [] => mret ()
  | s :: sensors =>
      cfg ← gets pub_cfg;
      publish (mkMessage (discovery_topic cfg inv s) AtLeastOnce true (Document (discovery_payload cfg inv s)));;
      announce_all inv sensors
  end.

(** [DiscoveryPublisher::announce] *)
Definition announce (inv : InverterIdentity) : pprog () := announce_all inv sensor_catalog.

(** [DiscoveryPublisher::publish_value]: the value is already text
    ([ToString]); an unknown key panics ([expect]). *)
Definition publish_value (inv : InverterIdentity) (sensor_key : string) (value : string) : pprog () :=
  sensor ← lift (match find (λ s, String.eqb (sc_key s) sensor_key) sensor_catalog with
                 | Some s => Ok s
                 | None => Panic
                 end);
  cfg ← gets pub_cfg;
  publish (mkMessage (state_topic cfg inv sensor) AtMostOnce false (Text value)).

(** [DiscoveryPublisher::connect_with_lwt], [connect]: the client is made from
    the options and a queue of 64 messages. *)
Definition connect_with_lwt (new_client : MqttOptions → nat → C) (cfg : MqttClientConfig) (lwt_topic : option string) :
  DiscoveryPublisher C := mkPublisher (new_client (mqtt_options cfg lwt_topic) 64%nat) cfg [].
Definition connect (new_client : MqttOptions → nat → C) (cfg : MqttClientConfig) : DiscoveryPublisher C :=
  connect_with_lwt new_client cfg None.
End publisher.

(* ------------------------------------------------------------------ *)
(** ** Specification                                                   *)
(* ------------------------------------------------------------------ *)

(** What [announce] publishes for a sensor, and what reading a document back
    gives. *)
Definition announcement (cfg : MqttClientConfig) (inv : InverterIdentity) (s : SensorConfig) : message :=
  mkMessage (discovery_topic cfg inv s) AtLeastOnce true (Document (discovery_payload cfg inv s)).

Definition json_get (obj : Json) (field : string) : option Json :=
  match obj with JObject fields => snd <$> find (λ f, String.eqb f.1 field) fields | _ => None end.

Definition find_sensor (key : string) : option SensorConfig :=
  find (λ s, String.eqb (sc_key s) key) sensor_catalog.

(* ------------------------------------------------------------------ *)
(** ** Lemmas: the catalog                                             *)
(* ------------------------------------------------------------------ *)

(** A fact on pairs of catalog entries, by evaluation. *)
Lemma catalog_pairs (P : SensorConfig → SensorConfig → bool) :
  forallb (λ s1, forallb (P s1) sensor_catalog) sensor_catalog = true →
  ∀ s1 s2, s1 ∈ sensor_catalog → s2 ∈ sensor_catalog → P s1 s2 = true.
Proof.
  intros H s1 s2 H1%list_elem_of_In H2%list_elem_of_In.
  rewrite forallb_forall in H. specialize (H s1 H1). rewrite forallb_forall in H. by apply H.
Qed.

Lemma key_suffix_free s1 s2 :
  s1 ∈ sensor_catalog → s2 ∈ sensor_catalog → has_suffix (String "_" (sc_key s2)) (sc_key s1) = false.
Proof.
  intros H1 H2. apply negb_true_iff.
  exact (catalog_pairs (λ s1 s2, negb (has_suffix (String "_" (sc_key s2)) (sc_key s1))) ltac:(vm_compute; reflexivity) s1 s2 H1 H2).
Qed.

Lemma key_no_slash s : s ∈ sensor_catalog → has_char "/" (sc_key s) = false ∧ String.eqb (sc_key s) "availability" = false.
Proof.
  intros H. apply (proj1 (orb_false_iff _ _)), negb_true_iff.
  exact (catalog_pairs (λ s _, negb (has_char "/" (sc_key s) || String.eqb (sc_key s) "availability"))
    ltac:(vm_compute; reflexivity) s s H H).
Qed.

Lemma find_app_key (l : list SensorConfig) s :
  NoDup (map sc_key l) → s ∈ l → find (λ s', String.eqb (sc_key s') (sc_key s)) l = Some s.
Proof.
  induction l as [|x l IH]; intros Hnd Hs; [by apply not_elem_of_nil in Hs|]. cbn [find].
  cbn [map] in Hnd. apply NoDup_cons in Hnd as [Hx Hnd].
  apply elem_of_cons in Hs as [->|Hs]; [by rewrite String.eqb_refl|].
  destruct (String.eqb_spec (sc_key x) (sc_key s)) as [E|]; [|by apply IH].
  destruct Hx. rewrite E. apply list_elem_of_In, in_map, list_elem_of_In, Hs.
Qed.

Lemma catalog_NoDup : NoDup (map sc_key sensor_catalog).
Proof. by_decide. Qed.

(** The catalog is a map by key. *)
Lemma find_sensor_key s : s ∈ sensor_catalog → find_sensor (sc_key s) = Some s.
Proof. apply find_app_key, catalog_NoDup. Qed.

Lemma find_sensor_Some key s : find_sensor key = Some s → s ∈ sensor_catalog ∧ sc_key s = key.
Proof. intros [Hin Heq]%find_some. split; [by apply list_elem_of_In|by apply String.eqb_eq]. Qed.

Lemma key_determines s1 s2 : s1 ∈ sensor_catalog → s2 ∈ sensor_catalog → sc_key s1 = sc_key s2 → s1 = s2.
Proof. intros H1 H2 E. apply find_sensor_key in H1. rewrite E, find_sensor_key in H1 by done. congruence. Qed.

Lemma state_topic_inj cfg i1 i2 s1 s2 :
  s1 ∈ sensor_catalog → s2 ∈ sensor_catalog →
  state_topic cfg i1 s1 = state_topic cfg i2 s2 → slot i1 = slot i2 ∧ sc_key s1 = sc_key s2.
Proof.
  intros H1 H2 H%append_inj_l%append_inj_l. revert H. apply last_field; apply has_char_suffix, key_no_slash; done.
Qed.

Lemma availability_not_state cfg i1 i2 s2 :
  s2 ∈ sensor_catalog → availability_topic cfg i1 ≠ state_topic cfg i2 s2.
Proof.
  intros H2 H%append_inj_l%append_inj_l. destruct (key_no_slash s2 H2) as [Hs Ha%String.eqb_neq].
  destruct (last_field "/" (slot i1) (slot i2) "availability" (sc_key s2)) as [_ E]; [by apply has_char_suffix..|exact H|].
  by destruct Ha.
Qed.

Lemma discovery_topic_inj cfg i1 i2 s1 s2 :
  s1 ∈ sensor_catalog → s2 ∈ sensor_catalog →
  discovery_topic cfg i1 s1 = discovery_topic cfg i2 s2 → slot i1 = slot i2 ∧ sc_key s1 = sc_key s2.
Proof.
  intros H1 H2 H%append_inj_l%append_inj_l. rewrite <-!append_assoc in H. apply append_inj_r in H.
  rewrite !append_assoc in H. revert H. apply last_field; by apply key_suffix_free.
Qed.

Lemma unique_id_inj i1 i2 s1 s2 :
  s1 ∈ sensor_catalog → s2 ∈ sensor_catalog →
  unique_id i1 s1 = unique_id i2 s2 → slot i1 = slot i2 ∧ serial i1 = serial i2 ∧ sc_key s1 = sc_key s2.
Proof.
  intros H1 H2 H%append_inj_l. rewrite <-!append_assoc, !(append_assoc _ "_" (sc_key _)) in H.
  apply last_field in H as [H Hk]; [|by apply key_suffix_free..]. rewrite !append_assoc in H.
  apply last_field in H as [Hs Hn]; [|apply has_char_suffix, pretty_no_underscore..].
  apply (inj pretty) in Hn. done.
Qed.

Lemma json_get_set fields k v k' :
  json_get (json_set (JObject fields) k v) k' = if String.eqb k k' then Some v else json_get (JObject fields) k'.
Proof.
  cbn [json_get json_set]. induction fields as [|[k0 w] fields IH]; cbn [set_field find fst].
  - by destruct (String.eqb k k').
  - destruct (String.eqb_spec k0 k) as [->|Hne]; cbn [find fst].
    + by destruct (String.eqb k k').
    + destruct (String.eqb_spec k0 k') as [->|]; [|exact IH].
      by rewrite (proj2 (String.eqb_neq k k')) by congruence.
Qed.

Section publisher_lemmas.
Context {C ClientError : Type} `{Hclient : !MqttClient C ClientError}.

(** [p'] has [p]'s configuration and has asked for [ms] more. *)
Definition asked (p p' : DiscoveryPublisher C) (ms : list message) : Prop :=
  pub_cfg p' = pub_cfg p ∧ requests p' = requests p ++ ms.

Lemma asked_refl p : asked p p [].
Proof. by split; [|rewrite app_nil_r]. Qed.
Lemma asked_trans p1 p2 p3 ms1 ms2 : asked p1 p2 ms1 → asked p2 p3 ms2 → asked p1 p3 (ms1 ++ ms2).
Proof. intros [E1 H1] [E2 H2]. split; [congruence|]. by rewrite H2, H1, app_assoc. Qed.

Lemma wp_publish m p (Q : outcome (PublisherError ClientError) () → DiscoveryPublisher C → Prop) :
  (∀ r p', asked p p' [m] → r ≠ Panic → Q r p') → wp (publish m) p Q.
Proof.
  intros HQ. unfold wp, publish. destruct (client_publish m (client p)) as [[e|] c]; by apply HQ.
Qed.

Lemma wp_announce_all inv sensors p :
  wp (announce_all inv sensors) p (λ r p', ∃ n,
    asked p p' (take n (map (announcement (pub_cfg p) inv) sensors)) ∧
    match r with Ok _ => length sensors ≤ n | Err _ => 0 < n ≤ length sensors | Panic => False end)%nat.
Proof.
  revert p. induction sensors as [|s sensors IH]; intros p; cbn [announce_all].
  - apply wp_ret. exists 0%nat. split; [apply asked_refl|cbn; lia].
  - apply wp_bind, wp_gets, wp_bind, wp_publish. intros [[]|e|] p' Hp Hr; [| |done].
    + eapply wp_mono; [apply IH|]. cbn beta. intros r p'' (n & Hn & Hm). exists (S n). split.
      * destruct Hp as [E Hp]. rewrite E in Hn. cbn [map take].
        exact (asked_trans p p' p'' [_] _ (conj E Hp) Hn).
      * cbn [length]. destruct r; lia.
    + exists 1%nat. split; [exact Hp|cbn [length]; lia].
Qed.

(** A known key publishes on its sensor's state topic; an unknown one
    panics before anything is asked. *)
Lemma wp_publish_known inv s value p :
  s ∈ sensor_catalog →
  wp (publish_value inv (sc_key s) value) p (λ r p',
    r ≠ Panic ∧ asked p p' [mkMessage (state_topic (pub_cfg p) inv s) AtMostOnce false (Text value)]).
Proof.
  intros Hs. unfold publish_value. fold (find_sensor (sc_key s)). apply wp_bind, wp_lift.
  rewrite find_sensor_key by done. by apply wp_bind, wp_gets, wp_publish.
Qed.

Lemma publish_unknown inv key value p :
  key ∉ map sc_key sensor_catalog → publish_value inv key value p = (Panic, p).
Proof.
  intros Hk. unfold publish_value. fold (find_sensor key). destruct (find_sensor key) as [s|] eqn:Hs; [|done].
  destruct Hk. apply find_sensor_Some in Hs as [Hs <-]. apply list_elem_of_In, in_map, list_elem_of_In, Hs.
Qed.
End publisher_lemmas.

(* ------------------------------------------------------------------ *)
(** ** Properties                                                      *)
(* ------------------------------------------------------------------ *)

(** C28. Topics and unique ids tell every sensor of every slot apart, whatever
    characters the slots hold (a slash or an underscore included): state
    topics, discovery topics and unique ids are injective on slot and sensor
    (unique ids on the serial too), and no availability topic is a state
    topic. *)
Theorem topics_identify_sensors (cfg : MqttClientConfig) (i1 i2 : InverterIdentity) (s1 s2 : SensorConfig) :
  s1 ∈ sensor_catalog → s2 ∈ sensor_catalog →
  (state_topic cfg i1 s1 = state_topic cfg i2 s2 ↔ slot i1 = slot i2 ∧ s1 = s2) ∧
  (discovery_topic cfg i1 s1 = discovery_topic cfg i2 s2 ↔ slot i1 = slot i2 ∧ s1 = s2) ∧
  (unique_id i1 s1 = unique_id i2 s2 ↔ slot i1 = slot i2 ∧ serial i1 = serial i2 ∧ s1 = s2) ∧
  availability_topic cfg i1 ≠ state_topic cfg i2 s2.
Proof.
  intros H1 H2. refine (conj _ (conj _ (conj _ _))).
  - split; [|intros [E ->]; unfold state_topic; by rewrite E].
    intros [? ?]%state_topic_inj; [|done..]. split; [done|by apply key_determines].
  - split; [|intros [E ->]; unfold discovery_topic; by rewrite E].
    intros [? ?]%discovery_topic_inj; [|done..]. split; [done|by apply key_determines].
  - split; [|intros (E & E' & ->); unfold unique_id; by rewrite E, E'].
    intros (? & ? & ?)%unique_id_inj; [|done..]. split; [done|]. split; [done|by apply key_determines].
  - by apply availability_not_state.
Qed.

(** C27. [announce] publishes the retained discovery document of every catalog
    sensor, in catalog order, and stops at the first publication the client
    refuses; every document names the availability topic and the state topic
    on which [publish_value] publishes that sensor's values, not retained.
    [publish_value] panics exactly on keys that are not in the catalog. *)
Theorem announce_and_values_agree {C ClientError} `{Hclient : !MqttClient C ClientError}
    (p : DiscoveryPublisher C) (inv : InverterIdentity) (key value : string) :
  let cfg := pub_cfg p in
  wp (announce inv) p (λ r p', ∃ n,
    asked p p' (take n (map (announcement cfg inv) sensor_catalog)) ∧
    match r with Ok _ => length sensor_catalog ≤ n | Err _ => 0 < n ≤ length sensor_catalog | Panic => False end)%nat ∧
  (∀ s, s ∈ sensor_catalog →
     json_get (discovery_payload cfg inv s) "availability_topic" = Some (JString (availability_topic cfg inv)) ∧
     json_get (discovery_payload cfg inv s) "state_topic" = Some (JString (state_topic cfg inv s)) ∧
     json_get (discovery_payload cfg inv s) "unit_of_measurement" = JString <$> unit_of s ∧
     wp (publish_value inv (sc_key s) value) p (λ r p',
       r ≠ Panic ∧ asked p p' [mkMessage (state_topic cfg inv s) AtMostOnce false (Text value)])) ∧
  wp (publish_value inv key value) p (λ r _, r = Panic ↔ key ∉ map sc_key sensor_catalog).
Proof.
  intros cfg. refine (conj _ (conj _ _)).
  - apply wp_announce_all.
  - intros s Hs. unfold discovery_payload. refine (conj _ (conj _ (conj _ _))).
    1-3: destruct (device_class s), (state_class s), (unit_of s), (diagnostic s); cbn [add_optional]; reflexivity.
    by apply wp_publish_known.
  - destruct (decide (key ∈ map sc_key sensor_catalog)) as [Hk|Hk].
    + split; [|done]. intros Hr. apply list_elem_of_fmap in Hk as (s & -> & Hs).
      by destruct (wp_publish_known inv s value p Hs) as [? _].
    + unfold wp. by rewrite publish_unknown.
Qed.

(* ------------------------------------------------------------------ *)
(** ** Concrete instances                                              *)
(* ------------------------------------------------------------------ *)

(** A client that takes as many messages as it has room for. *)
Definition room_client : MqttClient nat () := λ _ room,
  match room with O => (Some (), O) | S room => (None, room) end.

Definition zolder : InverterIdentity := mkIdentity "zolder" 2120121246 "SB 3000HF-30" "02.30.06.R" SolarInverter.

Lemma topics_identify_sensors_witness :
  let ac := mkSensor "AC Power" "ac_power" (Some "power") (Some "measurement") (Some "W") "mdi:flash" false in
  let l1 := mkSensor "AC Power L1" "ac_power_l1" (Some "power") (Some "measurement") (Some "W") "mdi:flash" false in
  discovery_topic MqttClientConfig_default zolder ac = "homeassistant/sensor/sbfspot_zolder_ac_power/config" ∧
  state_topic MqttClientConfig_default zolder ac = "hass-sma/zolder/ac_power" ∧
  ¬ (state_topic MqttClientConfig_default zolder ac = state_topic MqttClientConfig_default zolder l1).
Proof.
  intros ac l1. split; [reflexivity|]. split; [reflexivity|]. intros H.
  apply (topics_identify_sensors MqttClientConfig_default zolder zolder ac l1) in H as [_ H];
    [discriminate H|list_in..].
Defined.

Lemma announce_and_values_agree_witness :
  let p := mkPublisher 3%nat MqttClientConfig_default [] in
  (announce (Hclient := room_client) zolder p).1 = Err (Mqtt ()) ∧
  length (requests (announce (Hclient := room_client) zolder p).2) = 4%nat ∧
  wp (publish_value (Hclient := room_client) zolder "ac_power" "1234") p (λ r p',
    r ≠ Panic ∧ asked p p' [mkMessage "hass-sma/zolder/ac_power" AtMostOnce false (Text "1234")]).
Proof.
  intros p. split; [vm_compute; reflexivity|]. split; [vm_compute; reflexivity|].
  destruct (announce_and_values_agree (Hclient := room_client) p zolder "ac_power" "1234") as (_ & H & _).
  refine (proj2 (proj2 (proj2 (H (mkSensor "AC Power" "ac_power" (Some "power") (Some "measurement") (Some "W") "mdi:flash" false) _)))).
  list_in.
Defined.
