(* ===== verification/Daemon.v ===== *)
(** * The daemon's inverter task (crates/daemon/src/main.rs)

    One inverter task: the persisted client serial, the connect ladder, the
    session life cycle (handshake, targets, announcement, event log, identity
    queries) and the poll tick with its per-target cooldown.  A [world] holds
    what the task reads and changes: the session, the publisher, the links'
    bookkeeping, the metrics registry and the archive sink.  Clock readings
    come from functions of the number of readings so far; the text of
    inverters' time stamps (chrono) and of errors is a parameter. *)
From Stdlib Require Import String Ascii SpecFloat.
From stdpp Require Import gmap pretty.
From S2P Require Import Prelude Text Constants Transport Commands Session Values Storage Mqtt Metrics Config.
Import Query.

Local Open Scope string_scope.
Local Open Scope list_scope.
Local Open Scope Z_scope.

(* ------------------------------------------------------------------ *)
(** ** The world of one task                                           *)
(* ------------------------------------------------------------------ *)

(** The variables of [run_inverter] that outlive a connection. *)
Record link : Type := mkLink {
  backoff : Z;
  host_down_streak : Z;
  published_offline : bool;
  post_yield_deadline : option Z;
  announced_identities : list InverterIdentity
}.

(** The maps of the poll loop: consecutive failures and cooldown deadlines,
    by target serial. *)
Record cooldown : Type := mkCooldown {
  target_consecutive_failures : gmap Z Z;
  target_skip_until : gmap Z Z
}.

(** [w_archiver] is the [Archiver]: a sink, or none. *)
Record world (T C Sink : Type) : Type := mkWorld {
  w_session : Session T;
  w_publisher : DiscoveryPublisher C;
  w_link : link;
  w_cooldown : cooldown;
  w_archiver : option Sink;
  w_metrics : MetricsRegistry;
  w_instants : nat
}.
Arguments mkWorld {T C Sink}.
Arguments w_session {T C Sink}. Arguments w_publisher {T C Sink}. Arguments w_link {T C Sink}. Arguments w_cooldown {T C Sink}.
Arguments w_archiver {T C Sink}. Arguments w_metrics {T C Sink}. Arguments w_instants {T C Sink}.

(** Constants of [run_inverter]. *)
Definition MIN_BACKOFF : Z := secs 2.
Definition MAX_TRANSIENT_BACKOFF : Z := secs 60.
Definition SLEEP_BACKOFF : Z := secs 600.
Definition POST_YIELD_GRACE : Z := secs 180.
Definition POST_YIELD_RETRY : Z := secs 15.
Definition COOLDOWN_THRESHOLD : Z := 3.
Definition COOLDOWN_LADDER_SECS : list Z := [60; 300; 900; 1800].

Definition per_tick_queries : list QueryKind :=
  [SpotAcTotalPower; SpotAcPower; SpotAcVoltage; SpotDcPower; SpotDcVoltage; EnergyProduction;
   OperationTime; InverterTemperature; SpotGridFrequency; DeviceStatus; GridRelayStatus; SpotCosPhi].

(* ------------------------------------------------------------------ *)
(** ** The persisted client serial                                     *)
(* ------------------------------------------------------------------ *)

(** The hash loop of [mint_new_app_serial], on [u32]. *)
Fixpoint slot_hash (h : Z) (slot : list Z) : Z :=
  match slot with
  | [] => h
  | b :: slot => slot_hash (((h * 31) mod 4294967296 + b) mod 4294967296) slot
  end.

Definition minted (secs : Z) (slot : list Z) : Z :=
  (900000000 + Z.land (slot_hash (secs mod 4294967296) slot) 0x05F5E0FF) mod 4294967296.

(** The files under /data, by path. *)
Abbreviation files := (gmap string (list Z)).

(** [mint_new_app_serial]: [writable] says whether [fs::write] succeeds. *)
Definition mint_new_app_serial (now_secs : Z) (writable : bool) (slot path : string) (fs : files) : Z * files :=
  let val := minted now_secs (bytes_of slot) in
  (val, if writable then <[path := le_encode 4 val]> fs else fs).

(** The block that computes [stable_app_serial]. *)
Definition stable_app_serial (now_secs : Z) (writable : bool) (slot : string) (fs : files) : Z * files :=
  let path := "/data/app_serial_" +:+ slot in
  match fs !! path with
  | Some bytes =>
      if decide (length bytes = 4%nat) then (le_decode bytes, fs)
      else mint_new_app_serial now_secs writable slot path fs
  | None => mint_new_app_serial now_secs writable slot path fs
  end.

(* ------------------------------------------------------------------ *)
(** ** Effects                                                         *)
(* ------------------------------------------------------------------ *)

Section daemon.
Context {T C ClientError Sink SinkError : Type} `{Htransport : Transport T} `{Hclient : !MqttClient C ClientError}
  `{Hsink : !ReadingSink Sink SinkError}.

(** [std::time::Instant::now] and [chrono::Utc::now], and the text chrono
    makes of an inverter's time stamp. *)
Context (instants : nat → Z) (utc : nat → DateTime) (from_timestamp_text : Z → string).

(** A step of the task: its errors are handled on the spot, so what is left is
    a value or a panic. *)
Abbreviation dprog := (prog (world T C Sink) Empty_set).
Abbreviation world := (world T C Sink).

Definition set_session (s : Session T) (w : world) : world :=
  mkWorld s (w_publisher w) (w_link w) (w_cooldown w) (w_archiver w) (w_metrics w) (w_instants w).
Definition set_publisher (p : DiscoveryPublisher C) (w : world) : world :=
  mkWorld (w_session w) p (w_link w) (w_cooldown w) (w_archiver w) (w_metrics w) (w_instants w).
Definition set_link (l : link) (w : world) : world :=
  mkWorld (w_session w) (w_publisher w) l (w_cooldown w) (w_archiver w) (w_metrics w) (w_instants w).
Definition set_cooldown (c : cooldown) (w : world) : world :=
  mkWorld (w_session w) (w_publisher w) (w_link w) c (w_archiver w) (w_metrics w) (w_instants w).
Definition set_archiver (a : option Sink) (w : world) : world :=
  mkWorld (w_session w) (w_publisher w) (w_link w) (w_cooldown w) a (w_metrics w) (w_instants w).
Definition on_metrics (f : MetricsRegistry → MetricsRegistry) (w : world) : world :=
  mkWorld (w_session w) (w_publisher w) (w_link w) (w_cooldown w) (w_archiver w) (f (w_metrics w)) (w_instants w).
Definition tick_clock (w : world) : world :=
  mkWorld (w_session w) (w_publisher w) (w_link w) (w_cooldown w) (w_archiver w) (w_metrics w) (S (w_instants w)).

Definition instant_now : dprog Z := n ← gets w_instants; modify tick_clock;; mret (instants n).
Definition utc_now : dprog DateTime := n ← gets w_instants; modify tick_clock;; mret (utc n).

(** A session call whose result the task looks at. *)
Definition on_session {A} (m : prog (Session T) SessionError A) : dprog (outcome SessionError A) := λ w,
  let '(r, s) := m (w_session w) in
  (match r with Panic => Panic | r => Ok r end, set_session s w).

(** [let _ = publisher.call(..).await]: the error is dropped, a panic is not. *)
Definition on_publisher {A} (m : prog (DiscoveryPublisher C) (PublisherError ClientError) A) :
  dprog (outcome (PublisherError ClientError) A) := λ w,
  let '(r, p) := m (w_publisher w) in
  (match r with Panic => Panic | r => Ok r end, set_publisher p w).
Definition value (id : InverterIdentity) (key text : string) : dprog () :=
  on_publisher (publish_value id key text);; mret ().

Definition gauge (f : gauge_family) (l : DeviceLabels) (v : f64) : dprog () := modify (on_metrics (set_gauge f l v)).
Definition int_gauge (f : int_gauge_family) (l : InverterLabels) (v : Z) : dprog () := modify (on_metrics (set_int_gauge f l v)).
Definition inc (f : counter_family) (l : InverterLabels) : dprog () := modify (on_metrics (inc_counter f l)).

(** [Archiver::record]: without a sink nothing; its errors are dropped. *)
Definition record (id : InverterIdentity) (metric : string) (v : f64) : dprog () :=
  a ← gets w_archiver;
  match a with
  | None => mret ()
  | Some sink =>
      now ← utc_now;
      let '(r, sink) := sink_write now (slot id) (serial id) metric v sink in
      modify (set_archiver (Some sink));;
      match r with Panic => lift Panic | _ => mret () end
  end.

(** [if let Some(v) = o { f(v) }] *)
Definition when_some {A} (o : option A) (f : A → dprog ()) : dprog () :=
  match o with Some a => f a | None => mret () end.

(** Arms of [publish_query_result]. *)
Definition publish_energy (body : list Z) (identity : InverterIdentity) (lbl : DeviceLabels) : dprog () :=
  r ← lift (parse_energy_production body);
  when_some r.1 (λ wh,
    gauge energy_today_wh lbl (to_f64 wh);;
    value identity "energy_today" (show_fixed 3 (f64_div (to_f64 wh) 1000));;
    record identity "energy_today_wh" (to_f64 wh));;
  when_some r.2 (λ wh,
    gauge energy_lifetime_wh lbl (to_f64 wh);;
    value identity "energy_lifetime" (show_fixed 3 (f64_div (to_f64 wh) 1000));;
    record identity "energy_lifetime_wh" (to_f64 wh)).
Definition publish_operation_time (body : list Z) (identity : InverterIdentity) : dprog () :=
  r ← lift (parse_operation_time body);
  when_some (total_op_time_s r) (λ s, value identity "operation_time" (show_fixed 2 (f64_div (to_f64 s) 3600)));;
  when_some (feed_in_time_s r) (λ s, value identity "feed_in_time" (show_fixed 2 (f64_div (to_f64 s) 3600))).
Definition publish_temperature (body : list Z) (identity : InverterIdentity) (lbl : DeviceLabels) : dprog () :=
  r ← lift (parse_inverter_temperature body);
  when_some r (λ c,
    gauge inverter_temperature_c lbl (f32_to_f64 c);;
    value identity "temperature" (show_fixed 2 c);;
    record identity "temperature_c" (f32_to_f64 c)).
Definition publish_frequency (body : list Z) (identity : InverterIdentity) (lbl : DeviceLabels) : dprog () :=
  r ← lift (parse_grid_frequency body);
  when_some r (λ hz,
    gauge grid_frequency_hz lbl (f32_to_f64 hz);;
    value identity "grid_frequency" (show_fixed 2 hz);;
    record identity "grid_frequency_hz" (f32_to_f64 hz)).
Definition publish_device_status (body : list Z) (identity : InverterIdentity) : dprog () :=
  r ← lift (parse_device_status body);
  when_some r (λ tag, value identity "inverter_state" (status_text tag)).
Definition publish_grid_relay (body : list Z) (identity : InverterIdentity) : dprog () :=
  r ← lift (parse_grid_relay body);
  when_some r (λ closed : bool, value identity "grid_relay" (if closed then "closed" else "open")).
Definition publish_cosphi (body : list Z) (identity : InverterIdentity) : dprog () :=
  r ← lift (parse_cosphi body);
  when_some r (λ cp,
    value identity "cos_phi" (show_fixed 3 cp);;
    record identity "cos_phi" (f32_to_f64 cp)).

(** [publish_query_result]: dispatch of a reply to its parser and sensors. *)
Definition publish_query_result (kind : QueryKind) (body : list Z) (identity : InverterIdentity) (lbl : DeviceLabels) :
  dprog () :=
  match kind with
  | SpotAcTotalPower =>
      r ← lift (parse_spot_ac_total_power body);
      when_some (pac_total_w r) (λ w,
        gauge ac_power_watts lbl (to_f64 w);;
        value identity "ac_power" (pretty w);;
        record identity "ac_power" (to_f64 w))
  | SpotAcPower =>
      r ← lift (parse_spot_ac_power body);
      when_some (pac1_w r) (λ w, value identity "ac_power_l1" (pretty w));;
      when_some (pac2_w r) (λ w, value identity "ac_power_l2" (pretty w));;
      when_some (pac3_w r) (λ w, value identity "ac_power_l3" (pretty w))
  | SpotAcVoltage =>
      r ← lift (parse_spot_ac_voltage body);
      when_some (uac1_v r) (λ v,
        gauge ac_voltage_l1 lbl (f32_to_f64 v);;
        value identity "ac_voltage_l1" (show_fixed 2 v));;
      when_some (uac2_v r) (λ v, value identity "ac_voltage_l2" (show_fixed 2 v));;
      when_some (uac3_v r) (λ v, value identity "ac_voltage_l3" (show_fixed 2 v));;
      when_some (iac1_a r) (λ a,
        gauge ac_current_l1 lbl (f32_to_f64 a);;
        value identity "ac_current_l1" (show_fixed 3 a));;
      when_some (iac2_a r) (λ a, value identity "ac_current_l2" (show_fixed 3 a));;
      when_some (iac3_a r) (λ a, value identity "ac_current_l3" (show_fixed 3 a))
  | SpotDcPower =>
      r ← lift (parse_spot_dc_power body);
      when_some (pdc1_w r) (λ w, gauge dc_power_s1_watts lbl (to_f64 w);; value identity "dc_power_s1" (pretty w));;
      when_some (pdc2_w r) (λ w, gauge dc_power_s2_watts lbl (to_f64 w);; value identity "dc_power_s2" (pretty w))
  | SpotDcVoltage =>
      r ← lift (parse_spot_dc_voltage body);
      when_some (udc1_v r) (λ v, value identity "dc_voltage_s1" (show_fixed 2 v));;
      when_some (udc2_v r) (λ v, value identity "dc_voltage_s2" (show_fixed 2 v));;
      when_some (idc1_a r) (λ a, value identity "dc_current_s1" (show_fixed 3 a));;
      when_some (idc2_a r) (λ a, value identity "dc_current_s2" (show_fixed 3 a))
  | EnergyProduction => publish_energy body identity lbl
  | OperationTime => publish_operation_time body identity
  | InverterTemperature => publish_temperature body identity lbl
  | SpotGridFrequency => publish_frequency body identity lbl
  | DeviceStatus => publish_device_status body identity
  | GridRelayStatus => publish_grid_relay body identity
  | SpotCosPhi => publish_cosphi body identity
  | _ => mret ()
  end.

(* ------------------------------------------------------------------ *)
(** ** Connecting                                                      *)
(* ------------------------------------------------------------------ *)

Definition get_link : dprog link := gets w_link.
Definition put_link (l : link) : dprog () := modify (set_link l).

(** [for id in .. { let _ = publisher.publish_offline(id).await; }] *)
Fixpoint offline_all (ids : list InverterIdentity) : dprog () :=
  match ids with
  | [] => mret ()
  | id :: ids => on_publisher (publish_offline id);; offline_all ids
  end.

(** The substring test on the error text. *)
Fixpoint contains (needle s : string) : bool :=
  String.prefix needle s || match s with EmptyString => false | String _ s => contains needle s end.
Definition is_host_down (err_str : string) : bool :=
  contains "Host is down" err_str || contains "os error 112" err_str.

(** The [Ok] arm of the connect [match], and the line behind it. *)
Definition connected (cfg : InverterCfg) : dprog () :=
  l ← get_link;
  put_link (mkLink (backoff l) 0 (published_offline l) None (announced_identities l));;
  int_gauge inverter_awake (mkInverterLabels (i_slot cfg)) 1;;
  l ← get_link;
  put_link (mkLink MIN_BACKOFF (host_down_streak l) (published_offline l) (post_yield_deadline l) (announced_identities l)).

(** Every announced identity goes offline, or the task's own. *)
Definition go_offline (identity : InverterIdentity) (announced : list InverterIdentity) : dprog () :=
  match announced with
  | [] => on_publisher (publish_offline identity);; mret ()
  | ids => offline_all ids
  end.

(** The [Err] arm, in its three blocks: the host is down outside the grace
    period; *)
Definition note_host_down (cfg : InverterCfg) (identity : InverterIdentity) : dprog () :=
  l ← get_link;
  let streak := host_down_streak l + 1 in
  put_link (mkLink (backoff l) streak (published_offline l) (post_yield_deadline l) (announced_identities l));;
  int_gauge inverter_awake (mkInverterLabels (i_slot cfg)) 0;;
  if (streak =? 3) && negb (published_offline l) then
    go_offline identity (announced_identities l);;
    put_link (mkLink (backoff l) streak true (post_yield_deadline l) (announced_identities l))
  else mret ().

(** the grace period is cleared once it is over; *)
Definition expire_grace : dprog () :=
  l ← get_link;
  match post_yield_deadline l with
  | Some d =>
      now ← instant_now;
      if d <=? now then put_link (mkLink (backoff l) (host_down_streak l) (published_offline l) None (announced_identities l))
      else mret ()
  | None => mret ()
  end.

(** and the time to sleep is chosen, and the backoff doubled. *)
Definition next_wait (in_grace host_down : bool) : dprog Z :=
  l ← get_link;
  let wait :=
    if in_grace && host_down then POST_YIELD_RETRY
    else if 3 <=? host_down_streak l then SLEEP_BACKOFF
    else backoff l in
  (if negb in_grace && (host_down_streak l <? 3) then
     put_link (mkLink (Z.min (backoff l * 2) MAX_TRANSIENT_BACKOFF) (host_down_streak l) (published_offline l)
       (post_yield_deadline l) (announced_identities l))
   else mret ());;
  mret wait.

Definition in_grace_now : dprog bool :=
  l ← get_link;
  match post_yield_deadline l with
  | Some d => now ← instant_now; mret (now <? d)
  | None => mret false
  end.

(** The [Err] arm: the time to sleep before the next attempt. *)
Definition connect_failed (cfg : InverterCfg) (identity : InverterIdentity) (err_str : string) : dprog Z :=
  in_grace ← in_grace_now;
  (if is_host_down err_str && negb in_grace then note_host_down cfg identity else mret ());;
  expire_grace;;
  next_wait in_grace (is_host_down err_str).

(** The outer loop while connecting fails: the times slept. *)
Fixpoint connect_failures (cfg : InverterCfg) (identity : InverterIdentity) (errs : list string) : dprog (list Z) :=
  match errs with
  | [] => mret []
  | e :: errs =>
      inc bt_reconnects_total (mkInverterLabels (i_slot cfg));;
      wait ← connect_failed cfg identity e;
      waits ← connect_failures cfg identity errs;
      mret (wait :: waits)
  end.

(** The state [run_inverter] starts its loop with. *)
Definition initial_identity (cfg : InverterCfg) : InverterIdentity :=
  mkIdentity (i_slot cfg) 0 (i_model cfg) (i_firmware cfg) SolarInverter.
Definition device_identity (cfg : InverterCfg) (d : DeviceCfg) : InverterIdentity :=
  mkIdentity (d_slot d) (d_app_serial d) (d_model d) (i_firmware cfg) SolarInverter.
Definition initial_link (cfg : InverterCfg) : link :=
  mkLink MIN_BACKOFF 0 false None (map (device_identity cfg) (devices cfg)).

(* ------------------------------------------------------------------ *)
(** ** After logon: targets, announcement, one-shot queries            *)
(* ------------------------------------------------------------------ *)

(** A poll target: identity, susy id, serial. *)
Record target : Type := mkTarget { tg_id : InverterIdentity; tg_susy : Z; tg_serial : Z }.

(** The [targets] built from the session and the configured devices. *)
Definition targets_of (cfg : InverterCfg) (identity : InverterIdentity) (init_susy init_serial : Z) : list target :=
  match devices cfg with
  | [] => [mkTarget identity init_susy init_serial]
  | ds => map (λ d, mkTarget (mkIdentity (d_slot d) (d_app_serial d) (d_model d) (firmware identity) (kind identity))
                      init_susy (d_app_serial d)) ds
  end.

Fixpoint announce_targets (targets : list target) : dprog () :=
  match targets with
  | [] => mret ()
  | t :: targets =>
      on_publisher (announce (tg_id t));;
      on_publisher (publish_online (tg_id t));;
      announce_targets targets
  end.

(** [Iterator::max_by_key]: the last of the maximal elements. *)
Definition max_by_timestamp (recs : list EventRecord) : option EventRecord :=
  foldl (λ best r, match best with
                   | None => Some r
                   | Some b => if ev_timestamp r <? ev_timestamp b then Some b else Some r
                   end) None recs.

Definition event_text (latest : EventRecord) : string :=
  match text latest with Some s => s | None => "TagID " +:+ pretty (tag latest) end.

(** The event-log block. *)
Fixpoint event_log_targets (targets : list target) (start_unix end_unix : Z) : dprog () :=
  match targets with
  | [] => mret ()
  | t :: targets =>
      r ← on_session (query_event_log_for_device (tg_susy t) (tg_serial t) start_unix end_unix);
      (match r with
       | Ok body =>
           recs ← lift (parse_event_log_records body);
           when_some (max_by_timestamp recs) (λ latest,
             value (tg_id t) "last_event" (event_text latest);;
             value (tg_id t) "last_event_at" (from_timestamp_text (ev_timestamp latest));;
             value (tg_id t) "last_event_count_24h" (pretty (Z.of_nat (length recs))))
       | _ => mret ()
       end);;
      event_log_targets targets start_unix end_unix
  end.

(** A one-shot query: the body, if it came. *)
Definition body_of (t : target) (kind : QueryKind) : dprog (option (list Z)) :=
  r ← on_session (query_for_device (tg_susy t) (tg_serial t) kind);
  mret (match r with Ok body => Some body | _ => None end).

Definition with_firmware (v : string) (t : target) : target :=
  let id := tg_id t in mkTarget (mkIdentity (slot id) (serial id) (model id) v (kind id)) (tg_susy t) (tg_serial t).
Definition with_model (v : string) (t : target) : target :=
  let id := tg_id t in mkTarget (mkIdentity (slot id) (serial id) v (firmware id) (kind id)) (tg_susy t) (tg_serial t).

(** The identity queries of one target: the target with what it learnt. *)
Definition identify (t : target) : dprog target :=
  b ← body_of t SoftwareVersion;
  t ← (match b with
       | Some body =>
           v ← lift (parse_software_version body);
           match v with
           | Some ver => value (tg_id t) "firmware_version" ver;; mret (with_firmware ver t)
           | None => mret t
           end
       | None => mret t
       end);
  value (tg_id t) "inverter_model" (model (tg_id t));;
  b ← body_of t TypeLabel;
  t ← (match b with
       | Some body =>
           l ← lift (parse_type_label_raw body);
           match l ≫= type_label_text with
           | Some m => value (tg_id t) "inverter_model" m;; mret (with_model m t)
           | None => mret t
           end
       | None => mret t
       end);
  b ← body_of t NominalAcPower;
  (match b with
   | Some body =>
       w ← lift (parse_single_watts_record body 0x00411E00 0x00411E19);
       when_some w (λ w, value (tg_id t) "nominal_ac_power_w" (pretty w))
   | None => mret ()
   end);;
  b ← body_of t MaxFeedInPower;
  (match b with
   | Some body =>
       w ← lift (parse_single_watts_record body 0x00411F00 0x00411F19);
       when_some w (λ w, value (tg_id t) "max_feedin_w" (pretty w))
   | None => mret ()
   end);;
  mret t.

Fixpoint identify_all (targets : list target) : dprog (list target) :=
  match targets with
  | [] => mret []
  | t :: targets => t ← identify t; targets ← identify_all targets; mret (t :: targets)
  end.
(* ------------------------------------------------------------------ *)
(** ** Polling                                                         *)
(* ------------------------------------------------------------------ *)

(** How the queries of one target end. *)
Inductive target_result : Type := Polled | TargetFailed | SessionFatal (e : SessionError).

(** The loop over [per_tick_queries] for one target. *)
Fixpoint query_target (cfg : InverterCfg) (t : target) (kinds : list QueryKind) : dprog target_result :=
  match kinds with
  | [] => mret Polled
  | kind :: kinds =>
      r ← on_session (query_for_device (tg_susy t) (tg_serial t) kind);
      match r with
      | Ok body =>
          publish_query_result kind body (tg_id t) (mkDeviceLabels (i_slot cfg) (slot (tg_id t)));;
          query_target cfg t kinds
      | Err e =>
          inc poll_errors_total (mkInverterLabels (i_slot cfg));;
          value (tg_id t) "poll_status" "error";;
          mret (if is_session_fatal e then SessionFatal e else TargetFailed)
      | Panic => lift Panic
      end
  end.

Definition set_failures (serial n : Z) : dprog () :=
  c ← gets w_cooldown;
  modify (set_cooldown (mkCooldown (<[serial := n]> (target_consecutive_failures c)) (target_skip_until c))).
Definition set_skip (f : gmap Z Z → gmap Z Z) : dprog () :=
  c ← gets w_cooldown;
  modify (set_cooldown (mkCooldown (target_consecutive_failures c) (f (target_skip_until c)))).

(** The cooldown gate: is the target skipped this tick? *)
Definition cooldown_gate (serial : Z) : dprog bool :=
  c ← gets w_cooldown;
  match target_skip_until c !! serial with
  | Some skip_until =>
      now ← instant_now;
      if now <? skip_until then mret true else set_skip (delete serial);; mret false
  | None => mret false
  end.

(** The cooldown of a target with [cf] consecutive failures. *)
Definition cooldown_secs (cf : Z) : Z :=
  default (default 1800 (last COOLDOWN_LADDER_SECS)) (COOLDOWN_LADDER_SECS !! Z.to_nat (cf - COOLDOWN_THRESHOLD)).

(** A target that answered all queries. *)
Definition target_polled (session_start : DateTime) (t : target) : dprog () :=
  set_failures (tg_serial t) 0;;
  now ← utc_now;
  value (tg_id t) "last_poll" (to_rfc3339 now);;
  value (tg_id t) "poll_status" "ok";;
  value (tg_id t) "session_uptime" (pretty (Z.quot (unix_ns now - unix_ns session_start) 1000000000));;
  value (tg_id t) "consecutive_failures" (pretty 0).

(** A target that did not: count, and cool down from the third time on. *)
Definition target_failed (t : target) : dprog () :=
  c ← gets w_cooldown;
  let cf := Z.min (default 0 (target_consecutive_failures c !! tg_serial t) + 1) 0xFFFFFFFF in
  set_failures (tg_serial t) cf;;
  value (tg_id t) "consecutive_failures" (pretty cf);;
  if COOLDOWN_THRESHOLD <=? cf then
    now ← instant_now;
    set_skip (<[tg_serial t := now + secs (cooldown_secs cf)]>)
  else mret ().

(** The ['targets] loop: the number of targets polled, and the error that
    aborted the cycle. *)
Fixpoint sweep (cfg : InverterCfg) (session_start : DateTime) (targets : list target) (published : Z) :
  dprog (Z * option SessionError) :=
  match targets with
  | [] => mret (published, None)
  | t :: targets =>
      skip ← cooldown_gate (tg_serial t);
      if skip : bool then sweep cfg session_start targets published else
      r ← query_target cfg t per_tick_queries;
      match r with
      | SessionFatal e => mret (published, Some e)
      | Polled => target_polled session_start t;; sweep cfg session_start targets (published + 1)
      | TargetFailed => target_failed t;; sweep cfg session_start targets published
      end
  end.

(** A round in which some target was polled sets the time of success. *)
Definition note_success (cfg : InverterCfg) (published : Z) : dprog () :=
  if 0 <? published then
    now ← utc_now;
    int_gauge last_successful_poll_unix (mkInverterLabels (i_slot cfg)) (unix_ns now / 1000000000)
  else mret ().

(** How a round of the poll loop ends: go on, or leave it for a reconnect. *)
Inductive tick_result : Type := NextTick | Reconnect.

(** One round; [poll_count] is the number of rounds before it. *)
Definition poll_tick (cfg : InverterCfg) (session_start : DateTime) (targets : list target) (poll_count : Z) : dprog tick_result :=
  inc polls_total (mkInverterLabels (i_slot cfg));;
  let poll_count := (poll_count + 1) mod 4294967296 in
  if (0 <? yield_every cfg) && (poll_count mod yield_every cfg =? 0) then
    on_session graceful_close;;
    now ← instant_now;
    l ← get_link;
    put_link (mkLink (backoff l) (host_down_streak l) (published_offline l) (Some (now + POST_YIELD_GRACE))
      (announced_identities l));;
    mret Reconnect
  else
    r ← sweep cfg session_start targets 0;
    match r with
    | (_, Some _) => mret Reconnect
    | (published, None) =>
        note_success cfg published;;
        mret NextTick
    end.

(** At most [rounds] rounds; [None] when the session outlived them all. *)
Fixpoint poll_loop (rounds : nat) (cfg : InverterCfg) (session_start : DateTime) (targets : list target) (poll_count : Z) :
  dprog (option ()) :=
  match rounds with
  | O => mret None
  | S rounds =>
      r ← poll_tick cfg session_start targets poll_count;
      match r with
      | NextTick => poll_loop rounds cfg session_start targets ((poll_count + 1) mod 4294967296)
      | Reconnect => mret (Some ())
      end
  end.

(** One connection, from the handshake to the next connect attempt: what the
    outer loop does once the transport is there.  The session reads the wall
    clock while it builds the logon body; here it is read as the handshake
    starts. *)
Definition session_config (cfg : InverterCfg) (inverter_bt : list Z) (local_bt : option (list Z)) (timeout : Z) : SessionConfig :=
  mkSessionConfig inverter_bt (default (replicate 6 0) local_bt) (bytes_of (i_password cfg)) Auth.User timeout
    (i_mis_enabled cfg).

Definition after_logon (rounds : nat) (cfg : InverterCfg) (identity : InverterIdentity) : dprog (option ()) :=
  s ← gets w_session;
  let identity := mkIdentity (slot identity) (inverter_serial s) (model identity) (firmware identity) (kind identity) in
  let targets := targets_of cfg identity (inverter_susy_id s) (inverter_serial s) in
  announce_targets targets;;
  l ← get_link;
  put_link (mkLink (backoff l) (host_down_streak l) false (post_yield_deadline l)
    (match announced_identities l with [] => map tg_id targets | ids => ids end));;
  (if event_log_enabled cfg then
     now ← utc_now;
     let end_unix := (unix_ns now / 1000000000) mod 4294967296 in
     event_log_targets targets (Z.max 0 (end_unix - 86400)) end_unix
   else mret ());;
  targets ← identify_all targets;
  session_start ← utc_now;
  lift (tokio_interval (i_poll_interval cfg));;
  modify (set_cooldown (mkCooldown ∅ ∅));;
  r ← poll_loop rounds cfg session_start targets 0;
  match r with
  | Some _ => on_session graceful_close;; mret (Some ())
  | None => mret None
  end.

Definition run_connection (rounds : nat) (cfg : InverterCfg) (inverter_bt : list Z) (local_bt : option (list Z)) (timeout app_serial : Z)
    (identity : InverterIdentity) (t : T) : dprog (option ()) :=
  modify (set_session (new_with_app_serial t (session_config cfg inverter_bt local_bt timeout) app_serial));;
  now ← utc_now;
  r ← on_session (handshake_and_logon (current_epoch_u32 now));
  match r with
  | Err _ =>
      inc handshake_errors_total (mkInverterLabels (i_slot cfg));;
      on_session close;;
      l ← get_link;
      put_link (mkLink (Z.min (backoff l * 2) (secs 60)) (host_down_streak l) (published_offline l) (post_yield_deadline l)
        (announced_identities l));;
      mret (Some ())
  | _ => after_logon rounds cfg identity
  end.

(** One round of the outer loop; [attempt] is what [RfcommTransport::connect]
    gives: an error text or a transport.  The serial a connection writes into
    [identity] is overwritten by the next one before anything reads it, so every
    round starts from the initial identity.  The result is the time slept when
    connecting failed. *)
Definition run_round (rounds : nat) (cfg : InverterCfg) (inverter_bt : list Z) (local_bt : option (list Z))
    (timeout app_serial : Z) (identity : InverterIdentity) (attempt : string + T) : dprog (option Z) :=
  inc bt_reconnects_total (mkInverterLabels (i_slot cfg));;
  match attempt with
  | inl err => wait ← connect_failed cfg identity err; mret (Some wait)
  | inr t =>
      connected cfg;;
      run_connection rounds cfg inverter_bt local_bt timeout app_serial identity t;;
      mret None
  end.

Fixpoint run_rounds (rounds : nat) (cfg : InverterCfg) (inverter_bt : list Z) (local_bt : option (list Z))
    (timeout app_serial : Z) (identity : InverterIdentity) (attempts : list (string + T)) :
  dprog (list (option Z)) :=
  match attempts with
  | [] => mret []
  | a :: attempts =>
      wait ← run_round rounds cfg inverter_bt local_bt timeout app_serial identity a;
      waits ← run_rounds rounds cfg inverter_bt local_bt timeout app_serial identity attempts;
      mret (wait :: waits)
  end.

(** [run_inverter], as long as these attempts last; [None] when the address of
    the configuration does not parse. *)
Definition run_inverter (rounds : nat) (cfg : InverterCfg) (local_bt : option (list Z))
    (timeout app_serial : Z) (attempts : list (string + T)) : dprog (option (list (option Z))) :=
  match Mac.parse_bt_mac (bytes_of (i_bt_address cfg)) with
  | None => mret None
  | Some inverter_bt =>
      modify (set_link (initial_link cfg));;
      waits ← run_rounds rounds cfg inverter_bt local_bt timeout app_serial (initial_identity cfg) attempts;
      mret (Some waits)
  end.
End daemon.

(** The arms of [publish_query_result] that have a definition of their own. *)
Ltac unfold_arms :=
  unfold publish_energy, publish_operation_time, publish_temperature, publish_frequency, publish_device_status,
    publish_grid_relay, publish_cosphi.
