(* ===== verification/DaemonProps.v ===== *)
(** * Theorems on the daemon (crates/daemon/src/main.rs)

    What a query reply puts on MQTT, the connect ladder, the persisted client
    serial, and what becomes of a poll tick. *)
From Stdlib Require Import String Ascii SpecFloat.
From stdpp Require Import gmap pretty.
From S2P Require Import Prelude Text Constants Transport Commands Session Values ValuesProps Storage Mqtt Metrics Config Daemon.
Import Query.

Local Open Scope string_scope.
Local Open Scope list_scope.
Local Open Scope Z_scope.

(* ------------------------------------------------------------------ *)
(** ** Specification: the sensors of a query reply                     *)
(* ------------------------------------------------------------------ *)

(** What a reading does: it is published under a sensor's key, it sets a gauge,
    it is archived. *)
Inductive effect : Type :=
  | Shows (key text : string)
  | Gauges (f : gauge_family) (v : f64)
  | Archives (metric : string) (v : f64).

Definition shown {A} (key : string) (show : A → string) (o : option A) : list effect :=
  from_option (λ a, [Shows key (show a)]) [] o.
Definition gauged {A} (f : gauge_family) (num : A → f64) (key : string) (show : A → string) (o : option A) : list effect :=
  from_option (λ a, [Gauges f (num a); Shows key (show a)]) [] o.
Definition archived {A} (f : gauge_family) (num : A → f64) (key : string) (show : A → string) (metric : string) (o : option A) :
  list effect := from_option (λ a, [Gauges f (num a); Shows key (show a); Archives metric (num a)]) [] o.

(** What a reply to a query does, by the readings in it. *)
Definition query_effects (kind : QueryKind) (body : list Z) : total (list effect) :=
  match kind with
  | SpotAcTotalPower =>
      r ← parse_spot_ac_total_power body;
      Ok (archived ac_power_watts to_f64 "ac_power" pretty "ac_power" (pac_total_w r))
  | SpotAcPower =>
      r ← parse_spot_ac_power body;
      Ok (shown "ac_power_l1" pretty (pac1_w r) ++ shown "ac_power_l2" pretty (pac2_w r) ++ shown "ac_power_l3" pretty (pac3_w r))
  | SpotAcVoltage =>
      r ← parse_spot_ac_voltage body;
      Ok (gauged ac_voltage_l1 f32_to_f64 "ac_voltage_l1" (show_fixed 2) (uac1_v r) ++ shown "ac_voltage_l2" (show_fixed 2) (uac2_v r)
        ++ shown "ac_voltage_l3" (show_fixed 2) (uac3_v r) ++ gauged ac_current_l1 f32_to_f64 "ac_current_l1" (show_fixed 3) (iac1_a r)
        ++ shown "ac_current_l2" (show_fixed 3) (iac2_a r) ++ shown "ac_current_l3" (show_fixed 3) (iac3_a r))
  | SpotDcPower =>
      r ← parse_dc_block body;
      Ok (gauged dc_power_s1_watts to_f64 "dc_power_s1" pretty (pdc1_w r) ++ gauged dc_power_s2_watts to_f64 "dc_power_s2" pretty (pdc2_w r))
  | SpotDcVoltage =>
      r ← parse_dc_block body;
      Ok (shown "dc_voltage_s1" (show_fixed 2) (udc1_v r) ++ shown "dc_voltage_s2" (show_fixed 2) (udc2_v r)
        ++ shown "dc_current_s1" (show_fixed 3) (idc1_a r) ++ shown "dc_current_s2" (show_fixed 3) (idc2_a r))
  | EnergyProduction =>
      r ← parse_energy_production body;
      let kwh wh := show_fixed 3 (f64_div (to_f64 wh) 1000) in
      Ok (archived energy_today_wh to_f64 "energy_today" kwh "energy_today_wh" r.1
        ++ archived energy_lifetime_wh to_f64 "energy_lifetime" kwh "energy_lifetime_wh" r.2)
  | OperationTime =>
      r ← parse_operation_time body;
      let hours s := show_fixed 2 (f64_div (to_f64 s) 3600) in
      Ok (shown "operation_time" hours (total_op_time_s r) ++ shown "feed_in_time" hours (feed_in_time_s r))
  | InverterTemperature =>
      r ← parse_inverter_temperature body;
      Ok (archived inverter_temperature_c f32_to_f64 "temperature" (show_fixed 2) "temperature_c" r)
  | SpotGridFrequency =>
      r ← parse_grid_frequency body;
      Ok (archived grid_frequency_hz f32_to_f64 "grid_frequency" (show_fixed 2) "grid_frequency_hz" r)
  | DeviceStatus => r ← parse_device_status body; Ok (shown "inverter_state" status_text r)
  | GridRelayStatus =>
      r ← parse_grid_relay body; Ok (shown "grid_relay" (λ closed : bool, if closed then "closed" else "open") r)
  | SpotCosPhi =>
      r ← parse_cosphi body;
      Ok (from_option (λ cp, [Shows "cos_phi" (show_fixed 3 cp); Archives "cos_phi" (f32_to_f64 cp)]) [] r)
  | _ => Ok []
  end.

(** The messages, gauge updates and archive entries of these effects. *)
Definition messages (cfg : MqttClientConfig) (id : InverterIdentity) (es : list effect) : list message :=
  omap (λ e, match e with
             | Shows key text => Some (mkMessage (state_prefix cfg +:+ "/" +:+ slot id +:+ "/" +:+ key) AtMostOnce false (Text text))
             | _ => None
             end) es.
Definition gauge_step (lbl : DeviceLabels) (m : MetricsRegistry) (e : effect) : MetricsRegistry :=
  match e with Gauges f v => set_gauge f lbl v m | _ => m end.
Definition archive_rows (es : list effect) : list (string * f64) :=
  omap (λ e, match e with Archives metric v => Some (metric, v) | _ => None end) es.

Definition catalog_keys : list string := map sc_key sensor_catalog.
Definition known_key (e : effect) : Prop := match e with Shows key _ => key ∈ catalog_keys | _ => True end.

(* ------------------------------------------------------------------ *)
(** ** Lemmas: publishing steps                                        *)
(* ------------------------------------------------------------------ *)

Section steps.
Context {T C ClientError Sink SinkError : Type} `{Htransport : Transport T} `{Hclient : !MqttClient C ClientError}
  `{Hsink : !ReadingSink Sink SinkError} `{Hlaws : !SinkLaws Sink SinkError} (utc : nat → DateTime).
Abbreviation dprog := (prog (world T C Sink) Empty_set).
Implicit Types w : world T C Sink.

(** The archive after these entries of one identity, the clock read once for
    each; nothing without a sink. *)
Fixpoint archive_all (id : InverterIdentity) (rows : list (string * f64)) (a : option Sink) (n : nat) : option Sink * nat :=
  match rows with
  | [] => (a, n)
  | (metric, v) :: rows =>
      match a with
      | None => (None, n)
      | Some sink => archive_all id rows (Some (sink_write (utc n) (slot id) (serial id) metric v sink).2) (S n)
      end
  end.

Lemma archive_all_app id r1 r2 a n :
  archive_all id (r1 ++ r2) a n = let '(a, n) := archive_all id r1 a n in archive_all id r2 a n.
Proof.
  revert a n. induction r1 as [|[metric v] r1 IH]; intros a n; [done|]. cbn [app archive_all]. destruct a; [apply IH|].
  by destruct r2 as [|[]].
Qed.

(** The step did these effects for the identity and nothing else. *)
Record did (id : InverterIdentity) (lbl : DeviceLabels) (es : list effect) w w' : Prop := mkDid {
  did_asked : asked (w_publisher w) (w_publisher w') (messages (pub_cfg (w_publisher w)) id es);
  did_metrics : w_metrics w' = foldl (gauge_step lbl) (w_metrics w) es;
  did_archive : (w_archiver w', w_instants w') = archive_all id (archive_rows es) (w_archiver w) (w_instants w);
  did_session : w_session w' = w_session w;
  did_link : w_link w' = w_link w;
  did_cooldown : w_cooldown w' = w_cooldown w
}.

Lemma did_refl id lbl w : did id lbl [] w w.
Proof. split; try done. apply asked_refl. Qed.

Lemma did_trans id lbl w1 w2 w3 es1 es2 : did id lbl es1 w1 w2 → did id lbl es2 w2 w3 → did id lbl (es1 ++ es2) w1 w3.
Proof.
  intros [A1 M1 R1 S1 L1 C1] [A2 M2 R2 S2 L2 C2]. split; try congruence.
  - unfold messages. rewrite omap_app. destruct A1 as [E A1]. rewrite E in A2. exact (asked_trans _ _ _ _ _ (conj E A1) A2).
  - by rewrite foldl_app, M2, M1.
  - unfold archive_rows. rewrite omap_app, archive_all_app. fold (archive_rows es1). rewrite <-R1. exact R2.
Qed.

(** A step that has exactly these effects. *)
Definition does (id : InverterIdentity) (lbl : DeviceLabels) (m : dprog ()) (es : list effect) : Prop :=
  ∀ w, wp m w (λ r w', r = Ok () ∧ did id lbl es w w').

Lemma does_ret id lbl : does id lbl (mret ()) [].
Proof. intros w. apply wp_ret. split; [done|apply did_refl]. Qed.

Lemma does_seq id lbl m1 m2 e1 e2 : does id lbl m1 e1 → does id lbl m2 e2 → does id lbl (m1;; m2) (e1 ++ e2).
Proof.
  intros H1 H2 w. apply wp_bind. eapply wp_mono; [apply H1|]. intros r w1 [-> Hs1].
  eapply wp_mono; [apply H2|]. intros r w2 [-> Hs2]. split; [done|]. by eapply did_trans.
Qed.

Lemma does_gauge id lbl f v : does id lbl (gauge f lbl v) [Gauges f v].
Proof. intros w. apply wp_modify. split; [done|]. split; try done. apply asked_refl. Qed.

Lemma does_record id lbl metric v : does id lbl (record utc id metric v) [Archives metric v].
Proof.
  intros w. unfold record. apply wp_bind, wp_gets. destruct (w_archiver w) as [sink|] eqn:Ha.
  - unfold utc_now. apply wp_bind, wp_bind, wp_gets, wp_bind, wp_modify, wp_ret.
    pose proof (sink_total (utc (w_instants w)) (slot id) (serial id) metric v sink) as N.
    destruct (sink_write (utc (w_instants w)) (slot id) (serial id) metric v sink) as [r sink'] eqn:E.
    apply wp_bind, wp_modify. assert (Hd : did id lbl [Archives metric v] w (set_archiver (Some sink') (tick_clock w))).
    { split; try done; [apply asked_refl|]. cbn. by rewrite Ha, E. }
    destruct r; [by apply wp_ret|by apply wp_ret|by destruct N].
  - apply wp_ret. split; [done|]. split; try done; [apply asked_refl|]. cbn. by rewrite Ha.
Qed.

Lemma does_some {A} id lbl (o : option A) (f : A → dprog ()) (g : A → list effect) :
  (∀ a, does id lbl (f a) (g a)) → does id lbl (when_some o f) (from_option g [] o).
Proof. intros Hf. destruct o; [apply Hf|apply does_ret]. Qed.

Lemma wp_on_publisher {A} (m : prog (DiscoveryPublisher C) (PublisherError ClientError) A) w
    (Q : outcome Empty_set (outcome (PublisherError ClientError) A) → world T C Sink → Prop) :
  wp m (w_publisher w) (λ r p, Q (match r with Panic => Panic | r => Ok r end) (set_publisher p w)) →
  wp (on_publisher m) w Q.
Proof. unfold wp, on_publisher. by destruct (m (w_publisher w)) as [r p]. Qed.

(** A value with a catalog key is published; one without panics. *)
Lemma does_value id lbl key text : key ∈ catalog_keys → does id lbl (value id key text) [Shows key text].
Proof.
  intros (s & -> & Hs)%list_elem_of_fmap w. unfold value. apply wp_bind, wp_on_publisher.
  eapply wp_mono; [by apply wp_publish_known|]. intros r p [Hr Ha]. cbn beta.
  assert (Hgoal : did id lbl [Shows (sc_key s) text] w (set_publisher p w)) by by split.
  by destruct r; [apply wp_ret|apply wp_ret|].
Qed.

Lemma value_panics id key text w : key ∉ catalog_keys → value (T:=T) (C:=C) (Sink:=Sink) id key text w = (Panic, w).
Proof.
  intros Hk. unfold value, mbind, prog_bind, on_publisher. rewrite publish_unknown by done. by destruct w.
Qed.
End steps.

Create HintDb does discriminated.
#[export] Hint Resolve does_ret does_seq does_gauge does_record does_some does_value : does.
#[export] Hint Extern 1 (_ ∈ catalog_keys) => (apply (bool_decide_unpack _); vm_compute; exact I) : does.

(* ------------------------------------------------------------------ *)
(** ** Lemmas: query results                                           *)
(* ------------------------------------------------------------------ *)

Section results.
Context {T C ClientError Sink SinkError : Type} `{Htransport : Transport T} `{Hclient : !MqttClient C ClientError}
  `{Hsink : !ReadingSink Sink SinkError} `{Hlaws : !SinkLaws Sink SinkError} (utc : nat → DateTime).
Abbreviation dprog := (prog (world T C Sink) Empty_set).

(** Parse, then act on what was parsed. *)
Lemma does_parse {A} id lbl (parsed : total A) (f : A → dprog ()) (g : A → list effect) (effects : total (list effect)) :
  no_panic parsed → (∀ a, does utc id lbl (f a) (g a)) → effects = (a ← parsed; Ok (g a)) →
  ∃ es, effects = Ok es ∧ does utc id lbl (r ← lift parsed; f r) es.
Proof.
  intros Hp Hf ->. destruct parsed as [a|[]|]; [|done]. exists (g a). split; [done|].
  intros w. apply wp_bind, wp_lift, Hf.
Qed.

(** One conditional reading: published; with a gauge before; with a gauge and
    an archive row. *)
Lemma does_shown {A} id lbl key (show : A → string) (o : option A) (f : A → dprog ()) :
  (∀ a, does utc id lbl (f a) [Shows key (show a)]) → does utc id lbl (when_some o f) (shown key show o).
Proof. apply does_some. Qed.

Lemma does_gauged {A} id lbl fam num key (show : A → string) (o : option A) :
  key ∈ catalog_keys →
  does (T:=T) (C:=C) utc id lbl (when_some o (λ a, gauge fam lbl (num a);; value id key (show a))) (gauged fam num key show o).
Proof. intros Hk. apply does_some. intros a. exact (does_seq _ _ _ _ _ [_] [_] (does_gauge _ _ _ _ _) (does_value _ _ _ _ _ Hk)). Qed.

Lemma does_archived {A} id lbl fam num key (show : A → string) metric (o : option A) :
  key ∈ catalog_keys →
  does (T:=T) (C:=C) utc id lbl (when_some o (λ a, gauge fam lbl (num a);; value id key (show a);; record utc id metric (num a)))
    (archived fam num key show metric o).
Proof.
  intros Hk. apply does_some. intros a.
  exact (does_seq _ _ _ _ _ [_] [_; _] (does_gauge _ _ _ _ _)
    (does_seq _ _ _ _ _ [_] [_] (does_value _ _ _ _ _ Hk) (does_record _ _ _ _ _))).
Qed.

Lemma does_cosphi id lbl (o : option f32) :
  does (T:=T) (C:=C) utc id lbl (when_some o (λ cp, value id "cos_phi" (show_fixed 3 cp);; record utc id "cos_phi" (f32_to_f64 cp)))
    (from_option (λ cp, [Shows "cos_phi" (show_fixed 3 cp); Archives "cos_phi" (f32_to_f64 cp)]) [] o).
Proof.
  apply does_some. intros cp.
  refine (does_seq _ _ _ _ _ [_] [_] (does_value _ _ _ _ _ _) (does_record _ _ _ _ _)). auto with does.
Qed.
End results.

#[export] Hint Resolve does_shown does_gauged does_archived does_cosphi | 0 : does.

(** The shape of every arm of [publish_query_result]. *)
Ltac arm :=
  eapply does_parse; [| |reflexivity];
  [solve [auto with nopanic]|intros; cbv beta zeta; solve [eauto 30 with does]].

Lemma query_result_does {T C ClientError Sink SinkError} `{Htransport : Transport T} `{Hclient : !MqttClient C ClientError}
    `{Hsink : !ReadingSink Sink SinkError} `{Hlaws : !SinkLaws Sink SinkError} utc kind body id lbl :
  ∃ es, query_effects kind body = Ok es ∧ does (T:=T) (C:=C) utc id lbl (publish_query_result utc kind body id lbl) es.
Proof.
  destruct kind; cbn [publish_query_result query_effects]; unfold_arms; unfold parse_spot_dc_power, parse_spot_dc_voltage.
  all: try (exists []; split; [done|apply does_ret]).
  all: arm.
Qed.

Lemma effect_keys_known kind body es : query_effects kind body = Ok es → Forall known_key es.
Proof.
  assert (Hs : ∀ A (f : A → list effect) o, (∀ a, Forall known_key (f a)) → Forall known_key (from_option f [] o)).
  { intros A f o Hf. destruct o; [apply Hf|by apply Forall_nil_2]. }
  destruct kind; cbn [query_effects]; try (intros [= <-]; constructor); intros (r & _ & [= <-])%bind_Ok.
  all: repeat apply Forall_app_2; apply Hs; intros a; repeat apply Forall_cons_2; try exact I; try apply Forall_nil_2.
  all: apply (bool_decide_unpack _); vm_compute; exact I.
Qed.

(* ------------------------------------------------------------------ *)
(** ** Lemmas: the connect ladder                                      *)
(* ------------------------------------------------------------------ *)

Definition offline_message (cfg : MqttClientConfig) (id : InverterIdentity) : message :=
  mkMessage (availability_topic cfg id) AtLeastOnce true (Text "offline").

(** How many of these connect errors say that the host is down. *)
Definition downs (errs : list string) : Z := Z.of_nat (length (filter (λ e, is_host_down e = true) errs)).

Lemma downs_snoc errs e : downs (errs ++ [e]) = if is_host_down e then downs errs + 1 else downs errs.
Proof.
  unfold downs. rewrite filter_app, length_app. destruct (is_host_down e) eqn:He.
  - rewrite filter_cons_True by done. cbn. lia.
  - rewrite filter_cons_False by congruence. cbn. lia.
Qed.

(** The identities that go offline together. *)
Definition offline_ids (identity : InverterIdentity) (announced : list InverterIdentity) : list InverterIdentity :=
  match announced with [] => [identity] | ids => ids end.

Section ladder.
Context {T C ClientError Sink SinkError : Type} `{Htransport : Transport T} `{Hclient : !MqttClient C ClientError}
  `{Hsink : !ReadingSink Sink SinkError}.
Context (instants : nat → Z) (cfg : InverterCfg) (identity : InverterIdentity).
Abbreviation dprog := (prog (world T C Sink) Empty_set).
Implicit Types w : world T C Sink.

Lemma wp_publish_offline id w (Q : outcome Empty_set (outcome (PublisherError ClientError) ()) → world T C Sink → Prop) :
  (∀ r p, asked (w_publisher w) p [offline_message (pub_cfg (w_publisher w)) id] → Q (Ok r) (set_publisher p w)) →
  wp (on_publisher (publish_offline id)) w Q.
Proof.
  intros HQ. apply wp_on_publisher. unfold publish_offline. apply wp_bind, wp_gets, wp_publish.
  intros r p Ha Hr. destruct r; [by apply HQ|by apply HQ|done].
Qed.

Lemma wp_offline_all ids w :
  wp (offline_all (T:=T) ids) w (λ r w', r = Ok () ∧ ∃ p, w' = set_publisher p w ∧
    asked (w_publisher w) p (map (offline_message (pub_cfg (w_publisher w))) ids)).
Proof.
  revert w. induction ids as [|id ids IH]; intros w; cbn [offline_all].
  - apply wp_ret. split; [done|]. exists (w_publisher w). split; [by destruct w|apply asked_refl].
  - apply wp_bind, wp_publish_offline. intros r p Ha. eapply wp_mono; [apply IH|].
    intros r' w' (-> & p' & -> & Ha'). split; [done|]. exists p'. split; [done|].
    destruct Ha as [E Ha]. cbn [w_publisher set_publisher] in Ha'. rewrite E in Ha'.
    exact (asked_trans _ _ _ [_] _ (conj E Ha) Ha').
Qed.

(** The branch that takes the announced identities offline. *)
Lemma wp_go_offline ids w :
  wp (go_offline (T:=T) identity ids) w
    (λ r w', r = Ok () ∧ ∃ p, w' = set_publisher p w ∧
      asked (w_publisher w) p (map (offline_message (pub_cfg (w_publisher w))) (offline_ids identity ids))).
Proof.
  destruct ids as [|id ids].
  - apply wp_bind, wp_publish_offline. intros r p Ha. apply wp_ret. split; [done|]. by exists p.
  - apply wp_offline_all.
Qed.

(** The three blocks, one at a time. *)
Lemma wp_note_host_down w b st off d ids :
  w_link w = mkLink b st off d ids →
  let sleeps := (st + 1 =? 3) && negb off in
  wp (note_host_down cfg identity) w (λ r w',
    r = Ok () ∧ w_link w' = mkLink b (st + 1) (off || sleeps) d ids ∧
    asked (w_publisher w) (w_publisher w')
      (if sleeps then map (offline_message (pub_cfg (w_publisher w))) (offline_ids identity ids) else [])).
Proof.
  intros Hl sleeps. unfold note_host_down. apply wp_bind, wp_gets. rewrite Hl. cbv zeta.
  cbn [post_yield_deadline host_down_streak backoff published_offline announced_identities]. fold sleeps.
  apply wp_bind, wp_modify, wp_bind, wp_modify. destruct sleeps.
  - apply wp_bind. eapply wp_mono; [apply wp_go_offline|]. intros r w' (-> & p & -> & Ha).
    apply wp_modify. rewrite orb_true_r. done.
  - apply wp_ret. rewrite orb_false_r. split; [done|]. split; [done|apply asked_refl].
Qed.

Lemma wp_expire_none w (Q : outcome Empty_set () → world T C Sink → Prop) :
  post_yield_deadline (w_link w) = None → Q (Ok ()) w → wp (expire_grace instants) w Q.
Proof. intros Hd HQ. unfold expire_grace. apply wp_bind, wp_gets. rewrite Hd. by apply wp_ret. Qed.

Lemma wp_next_wait g h w b st off d ids :
  w_link w = mkLink b st off d ids →
  wp (next_wait g h) w (λ r w',
    r = Ok (if g && h then POST_YIELD_RETRY else if 3 <=? st then SLEEP_BACKOFF else b) ∧
    w_link w' = mkLink (if negb g && (st <? 3) then Z.min (b * 2) MAX_TRANSIENT_BACKOFF else b) st off d ids ∧
    w_publisher w' = w_publisher w).
Proof.
  intros Hl. unfold next_wait. apply wp_bind, wp_gets. rewrite Hl. cbv zeta.
  cbn [post_yield_deadline host_down_streak backoff published_offline announced_identities]. apply wp_bind.
  destruct (negb g && (st <? 3)); [apply wp_modify|apply wp_ret]; by apply wp_ret.
Qed.

(** One failed attempt outside the grace period. *)
Lemma connect_failed_step err w b st off ids :
  w_link w = mkLink b st off None ids →
  let st' := if is_host_down err then st + 1 else st in
  let sleeps := is_host_down err && ((st' =? 3) && negb off) in
  wp (connect_failed instants cfg identity err) w (λ r w',
    r = Ok (if 3 <=? st' then SLEEP_BACKOFF else b) ∧
    w_link w' = mkLink (if st' <? 3 then Z.min (b * 2) MAX_TRANSIENT_BACKOFF else b) st' (off || sleeps) None ids ∧
    asked (w_publisher w) (w_publisher w')
      (if sleeps then map (offline_message (pub_cfg (w_publisher w))) (offline_ids identity ids) else [])).
Proof.
  intros Hl. unfold connect_failed, in_grace_now, get_link. apply wp_bind, wp_bind, wp_gets. rewrite Hl.
  cbn [post_yield_deadline]. apply wp_ret. cbn [negb]. rewrite andb_true_r. apply wp_bind.
  destruct (is_host_down err); cbv zeta; cbn [andb].
  - eapply wp_mono; [by apply wp_note_host_down|]. intros r w' (-> & Hl' & Ha).
    apply wp_bind, wp_expire_none; [by rewrite Hl'|].
    eapply wp_mono; [by apply wp_next_wait|]. intros r w'' (-> & Hl'' & Ep). rewrite Ep. done.
  - apply wp_ret, wp_bind, wp_expire_none; [by rewrite Hl|].
    eapply wp_mono; [by apply wp_next_wait|]. intros r w'' (-> & Hl'' & Ep). rewrite Ep, orb_false_r.
    split; [done|]. split; [done|apply asked_refl].
Qed.

(** One failed attempt within it, the host being down. *)
Lemma connect_failed_grace err w b st off d ids :
  w_link w = mkLink b st off (Some d) ids → instants (w_instants w) < d → is_host_down err = true →
  wp (connect_failed instants cfg identity err) w (λ r w',
    r = Ok POST_YIELD_RETRY ∧ w_publisher w' = w_publisher w ∧
    w_link w' = mkLink b st off (if d <=? instants (S (w_instants w)) then None else Some d) ids).
Proof.
  intros Hl Hd He. unfold connect_failed, in_grace_now, get_link, instant_now. apply wp_bind, wp_bind, wp_gets. rewrite Hl.
  cbn [post_yield_deadline]. apply wp_bind, wp_bind, wp_gets, wp_bind, wp_modify, wp_ret, wp_ret.
  rewrite He, (proj2 (Z.ltb_lt _ _) Hd). cbn [negb andb]. apply wp_bind, wp_ret, wp_bind.
  unfold expire_grace, get_link, instant_now. apply wp_bind, wp_gets. cbn [w_link tick_clock]. rewrite Hl. cbn [post_yield_deadline].
  apply wp_bind, wp_bind, wp_gets, wp_bind, wp_modify, wp_ret. cbn [w_instants tick_clock].
  destruct (d <=? _); [apply wp_modify|apply wp_ret].
  all: eapply wp_mono; [by apply wp_next_wait|]; intros r w'' (-> & Hl'' & Ep); by rewrite Ep.
Qed.

(** The wait that follows these errors, the last one included. *)
Definition wait_after (errs : list string) : Z :=
  if 3 <=? downs errs then SLEEP_BACKOFF else Z.min (secs (2 ^ Z.of_nat (length errs))) MAX_TRANSIENT_BACKOFF.

Lemma downs_nonneg errs : 0 <= downs errs.
Proof. unfold downs. lia. Qed.

Lemma downs_app l1 l2 : downs (l1 ++ l2) = downs l1 + downs l2.
Proof. unfold downs. rewrite filter_app, length_app. lia. Qed.

(** The bookkeeping after the failed attempts [pre] of a task that was never
    connected. *)
Definition ladder_at (pre : list string) (ids : list InverterIdentity) (l : link) : Prop :=
  ∃ b, l = mkLink b (downs pre) (3 <=? downs pre) None ids ∧
  (downs pre < 3 → b = Z.min (secs (2 ^ (Z.of_nat (length pre) + 1))) MAX_TRANSIENT_BACKOFF).

Lemma backoff_doubles (n : Z) :
  0 <= n →
  Z.min (Z.min (secs (2 ^ n)) MAX_TRANSIENT_BACKOFF * 2) MAX_TRANSIENT_BACKOFF
  = Z.min (secs (2 ^ (n + 1))) MAX_TRANSIENT_BACKOFF.
Proof.
  intros Hn. rewrite Z.pow_add_r by lia. change (2 ^ 1) with 2.
  pose proof (Z.pow_pos_nonneg 2 n). unfold MAX_TRANSIENT_BACKOFF, secs. lia.
Qed.

Lemma ladder_step pre e ids w :
  ladder_at pre ids (w_link w) →
  wp (connect_failed instants cfg identity e) w (λ r w',
    r = Ok (wait_after (pre ++ [e])) ∧ ladder_at (pre ++ [e]) ids (w_link w') ∧
    asked (w_publisher w) (w_publisher w')
      (if (3 <=? downs (pre ++ [e])) && negb (3 <=? downs pre)
       then map (offline_message (pub_cfg (w_publisher w))) (offline_ids identity ids) else [])).
Proof.
  intros (b & Hl & Hb). eapply wp_mono; [by apply connect_failed_step|]. cbv zeta. intros r w' (-> & Hl' & Ha).
  pose proof (downs_nonneg pre) as Hd. rewrite <-downs_snoc in *. set (st' := downs (pre ++ [e])) in *.
  assert (Hst : st' = downs pre + (if is_host_down e then 1 else 0)).
  { unfold st'. rewrite downs_snoc. destruct (is_host_down e); lia. }
  assert (Hlen : Z.of_nat (length (pre ++ [e])) = Z.of_nat (length pre) + 1) by (rewrite length_app; cbn; lia).
  assert (Hcond : (3 <=? st') && negb (3 <=? downs pre) = is_host_down e && ((st' =? 3) && negb (3 <=? downs pre))).
  { destruct (is_host_down e); cbn [andb]; destruct (Z.leb_spec 3 st'), (Z.leb_spec 3 (downs pre)), (Z.eqb_spec st' 3); (done || lia). }
  rewrite Hcond. split; [|split; [|exact Ha]].
  - unfold wait_after. fold st'. rewrite Hlen. destruct (Z.leb_spec 3 st'); [done|]. by rewrite Hb by (case_match; lia).
  - exists (if st' <? 3 then Z.min (b * 2) MAX_TRANSIENT_BACKOFF else b). rewrite Hl'. fold st'. split.
    + f_equal. rewrite <-Hcond. destruct (Z.leb_spec 3 st'), (Z.leb_spec 3 (downs pre)); try done.
      case_match; lia.
    + intros Hlt. rewrite (proj2 (Z.ltb_lt _ _) Hlt), Hb by (case_match; lia). rewrite Hlen. apply backoff_doubles. lia.
Qed.

(** A run of failed attempts. *)
Lemma ladder_run errs pre ids w :
  ladder_at pre ids (w_link w) →
  wp (connect_failures instants cfg identity errs) w (λ r w', ∃ ws,
    r = Ok ws ∧ length ws = length errs ∧
    (∀ k, (k < length errs)%nat → ws !! k = Some (wait_after (pre ++ take (S k) errs))) ∧
    ladder_at (pre ++ errs) ids (w_link w') ∧
    asked (w_publisher w) (w_publisher w')
      (if (3 <=? downs (pre ++ errs)) && negb (3 <=? downs pre)
       then map (offline_message (pub_cfg (w_publisher w))) (offline_ids identity ids) else [])).
Proof.
  revert pre w. induction errs as [|e errs IH]; intros pre w Hl; cbn [connect_failures].
  - apply wp_ret. exists []. split; [done|]. split; [done|]. split; [intros k Hk; cbn in Hk; lia|].
    rewrite app_nil_r, andb_negb_r. split; [done|apply asked_refl].
  - apply wp_bind, wp_modify, wp_bind. eapply wp_mono; [by apply (ladder_step pre e ids)|]. intros r w1 (-> & Hl1 & Ha1).
    apply wp_bind. eapply wp_mono; [by apply IH|]. intros r w2 (ws & -> & Hlen & Hws & Hl2 & Ha2).
    apply wp_ret. exists (wait_after (pre ++ [e]) :: ws). rewrite <-app_assoc in Hl2. cbn [app] in Hl2.
    split; [done|]. split; [cbn; lia|]. split; [|split; [exact Hl2|]].
    + intros [|k] Hk; [done|]. cbn [lookup list_lookup length] in *. rewrite Hws by lia.
      by rewrite <-app_assoc.
    + destruct Ha1 as [E Ha1]. rewrite E in Ha2. pose proof (asked_trans _ _ _ _ _ (conj E Ha1) Ha2) as Ha.
      rewrite <-app_assoc in Ha. cbn [app] in Ha. revert Ha.
      pose proof (downs_snoc pre e). pose proof (downs_app (pre ++ [e]) errs) as H2. rewrite <-app_assoc in H2. cbn [app] in H2.
      pose proof (downs_nonneg errs). pose proof (downs_nonneg [e]).
      destruct (Z.leb_spec 3 (downs pre)), (Z.leb_spec 3 (downs (pre ++ [e]))), (Z.leb_spec 3 (downs (pre ++ e :: errs)));
        cbn [andb negb]; rewrite ?app_nil_l, ?app_nil_r; try done; destruct (is_host_down e); lia.
Qed.
End ladder.

(* ------------------------------------------------------------------ *)
(** ** Lemmas: the poll tick                                           *)
(* ------------------------------------------------------------------ *)

Lemma consecutive_failures_unknown : "consecutive_failures" ∉ catalog_keys.
Proof. by_decide. Qed.

Section tick.
Context {T C ClientError Sink SinkError : Type} `{Htransport : Transport T} `{Hclient : !MqttClient C ClientError}
  `{Hsink : !ReadingSink Sink SinkError}.
Context (instants : nat → Z) (utc : nat → DateTime) (from_timestamp_text : Z → string).
Abbreviation dprog := (prog (world T C Sink) Empty_set).
Implicit Types w : world T C Sink.

(** What holds of every continuation and of a panic holds of a bind. *)
Lemma wp_any {A B} (m : dprog A) (f : A → dprog B) w (Q : total B → world T C Sink → Prop) :
  (∀ w', Q Panic w') → (∀ a w', wp (f a) w' Q) → wp (m ≫= f) w Q.
Proof.
  intros HP Hf. apply wp_bind. unfold wp at 1. destruct (m w) as [[a|[]|] w']; cbn [fst snd]; [apply Hf|apply HP].
Qed.

Lemma wp_panic_value {B} id text (f : () → dprog B) w (Q : total B → world T C Sink → Prop) :
  Q Panic w → wp (value id "consecutive_failures" text ≫= f) w Q.
Proof.
  intros HQ. apply wp_bind. unfold wp. by rewrite value_panics by exact consecutive_failures_unknown.
Qed.

Lemma target_polled_panics start t w : wp (target_polled utc start t) w (λ r _, r = Panic).
Proof.
  unfold target_polled. do 5 (apply wp_any; [done|intros ? ?]). unfold wp.
  by rewrite value_panics by exact consecutive_failures_unknown.
Qed.

Lemma target_failed_panics t w : wp (target_failed instants t) w (λ r _, r = Panic).
Proof. unfold target_failed. do 2 (apply wp_any; [done|intros ? ?]). by apply wp_panic_value. Qed.

(** The queries abort the cycle with session-fatal errors only. *)
Lemma query_target_fatal cfg t kinds w :
  wp (query_target utc cfg t kinds) w (λ r _, ∀ e, r = Ok (SessionFatal e) → is_session_fatal e = true).
Proof.
  revert w. induction kinds as [|kind kinds IH]; intros w; cbn [query_target]; [by apply wp_ret|].
  apply wp_any; [done|]. intros [body|e|] w1; [| |by apply wp_lift].
  - apply wp_any; [done|]. intros _ w2. apply IH.
  - do 2 (apply wp_any; [done|intros ? ?]). apply wp_ret. destruct (is_session_fatal e) eqn:He; naive_solver.
Qed.

(** With no target cooling down, the ['targets] loop either panics or is
    aborted in the first target. *)
Lemma sweep_never_completes cfg start t ts n w :
  target_skip_until (w_cooldown w) = ∅ →
  wp (sweep instants utc cfg start (t :: ts) n) w (λ r _,
    r = Panic ∨ ∃ e, r = Ok (n, Some e) ∧ is_session_fatal e = true).
Proof.
  intros Hskip. cbn [sweep]. unfold cooldown_gate. apply wp_bind, wp_bind, wp_gets.
  rewrite Hskip, lookup_empty. apply wp_ret. apply wp_bind. eapply wp_mono; [apply query_target_fatal|].
  intros [[| |e]|[]|] w' Hf; [| | |by left].
  - apply wp_bind. eapply wp_mono; [apply target_polled_panics|]. intros r w'' ->. by left.
  - apply wp_bind. eapply wp_mono; [apply target_failed_panics|]. intros r w'' ->. by left.
  - apply wp_ret. right. exists e. split; [done|]. by apply Hf.
Qed.

Lemma poll_tick_never_continues cfg start ts count w :
  ts ≠ [] → target_skip_until (w_cooldown w) = ∅ →
  wp (poll_tick instants utc cfg start ts count) w (λ r _, r ≠ Ok NextTick).
Proof.
  intros Hts Hskip. destruct ts as [|t ts]; [done|]. unfold poll_tick. apply wp_bind, wp_modify.
  destruct (_ && _).
  - do 4 (apply wp_any; [done|intros ? ?]). by apply wp_ret.
  - apply wp_bind. eapply wp_mono; [by apply sweep_never_completes|].
    intros r w' [->|(e & -> & _)]; [done|]. by apply wp_ret.
Qed.

Lemma identify_all_length ts w :
  wp (identify_all ts) w (λ r _, ∀ ts', r = Ok ts' → length ts' = length ts).
Proof.
  revert w. induction ts as [|t ts IH]; intros w; cbn [identify_all].
  - apply wp_ret. by intros ts' [= <-].
  - apply wp_any; [done|]. intros t' w1. apply wp_bind. eapply wp_mono; [apply IH|].
    intros [ts'|[]|] w2 Hlen; [|done]. apply wp_ret. intros ? [= <-]. cbn. by rewrite Hlen.
Qed.

Lemma targets_of_nonempty cfg id susy serial : targets_of cfg id susy serial ≠ [].
Proof. unfold targets_of. by destruct (devices cfg). Qed.

Lemma after_logon_ends n cfg id w :
  wp (after_logon instants utc from_timestamp_text (S n) cfg id) w (λ r _, r ≠ Ok None).
Proof.
  unfold after_logon. apply wp_any; [done|]. intros s w0. cbv zeta. do 4 (apply wp_any; [done|intros ? ?]).
  apply wp_bind. eapply wp_mono; [apply identify_all_length|]. intros [ts|[]|] w1 Hlen; [|done].
  assert (Hts : ts ≠ []).
  { intros ->. specialize (Hlen [] eq_refl). cbn [length] in Hlen. symmetry in Hlen. apply nil_length_inv in Hlen.
    by eapply targets_of_nonempty. }
  unfold utc_now. apply wp_bind, wp_bind, wp_gets, wp_bind, wp_modify, wp_ret. apply wp_any; [done|]. intros [] w2.
  apply wp_bind, wp_modify, wp_bind. cbn [poll_loop]. apply wp_bind. eapply wp_mono; [by apply poll_tick_never_continues|].
  intros [[|]|[]|] w3 Hr; [done| |done]. apply wp_ret. apply wp_any; [done|]. intros ? ?. by apply wp_ret.
Qed.

(** A poll interval of zero, which the configuration accepts, ends the task as
    soon as it is logged in: tokio's timer panics. *)
Lemma zero_interval_panics n cfg id w :
  i_poll_interval cfg = 0 → wp (after_logon instants utc from_timestamp_text n cfg id) w (λ r _, r = Panic).
Proof.
  intros Hz. unfold after_logon. apply wp_any; [done|]. intros s w0. cbv zeta. do 5 (apply wp_any; [done|intros ? ?]).
  apply wp_any; [done|]. intros start w1. apply wp_bind, wp_lift. unfold tokio_interval. by rewrite Hz.
Qed.
End tick.

(* ------------------------------------------------------------------ *)
(** ** Lemmas: the client serial                                       *)
(* ------------------------------------------------------------------ *)

Lemma land_le_r a b : 0 <= b → 0 <= Z.land a b <= b.
Proof.
  intros Hb. split; [apply Z.land_nonneg; by right|].
  assert (H0 : Z.ldiff (Z.land a b) b = 0).
  { apply Z.bits_inj'. intros n Hn. rewrite Z.ldiff_spec, Z.land_spec, Z.bits_0.
    by destruct (Z.testbit a n), (Z.testbit b n). }
  pose proof (Z.sub_nocarry_ldiff b (Z.land a b) H0) as Hsub.
  assert (0 <= Z.ldiff b (Z.land a b)) by (apply Z.ldiff_nonneg; by left). lia.
Qed.

Lemma minted_bounds now_secs slot : 900000000 <= minted now_secs slot <= 999999999.
Proof.
  unfold minted. pose proof (land_le_r (slot_hash (now_secs mod 4294967296) slot) 0x05F5E0FF).
  rewrite Z.mod_small; lia.
Qed.

Definition serial_path (slot : string) : string := "/data/app_serial_" +:+ slot.

Lemma serial_path_inj s1 s2 : serial_path s1 = serial_path s2 → s1 = s2.
Proof. apply append_inj_l. Qed.

(* ------------------------------------------------------------------ *)
(** ** Properties                                                      *)
(* ------------------------------------------------------------------ *)

(** C7. A query reply ends on MQTT, in the metrics and in the archive exactly
    as its readings say: for every kind and every body the dispatch never
    panics, asks the client for one unretained message per reading, on the
    state topic of a catalog sensor of that identity, whether or not earlier
    ones were refused; sets the gauges of the readings that have one and
    writes the archived ones to the sink, when there is one, each with a clock
    reading of its own; all in the order of the reply, and touches neither
    session, link nor cooldown. *)
Theorem query_result_contract {T C ClientError Sink SinkError} `{Htransport : Transport T} `{Hclient : !MqttClient C ClientError}
    `{Hsink : !ReadingSink Sink SinkError} `{Hlaws : !SinkLaws Sink SinkError} (utc : nat → DateTime)
    (kind : QueryKind) (body : list Z) (id : InverterIdentity) (lbl : DeviceLabels) (w : world T C Sink) :
  ∃ es, query_effects kind body = Ok es ∧ Forall known_key es ∧
  wp (publish_query_result utc kind body id lbl) w (λ r w',
    r = Ok () ∧
    pub_cfg (w_publisher w') = pub_cfg (w_publisher w) ∧
    requests (w_publisher w') = requests (w_publisher w) ++ messages (pub_cfg (w_publisher w)) id es ∧
    w_metrics w' = foldl (gauge_step lbl) (w_metrics w) es ∧
    (w_archiver w', w_instants w') = archive_all utc id (archive_rows es) (w_archiver w) (w_instants w) ∧
    w_session w' = w_session w ∧ w_link w' = w_link w ∧ w_cooldown w' = w_cooldown w).
Proof.
  destruct (query_result_does (T:=T) (C:=C) utc kind body id lbl) as (es & Hv & Hp).
  exists es. split; [done|]. split; [by eapply effect_keys_known|].
  eapply wp_mono; [apply Hp|]. by intros r w' [-> [[? ?] ? ? ? ? ?]].
Qed.

(** C16. The connect ladder.  While connecting fails from the start, the waits
    are 2, 4, 8, .. seconds up to 60; from the third host-down error on they
    are 600 seconds; every announced identity is taken offline exactly once,
    at that third error (the task's own identity when none is announced).
    Within the grace period after a yield a host-down error waits 15 seconds
    and changes nothing but the expired deadline. *)
Theorem connect_ladder {T C ClientError Sink} `{Htransport : Transport T} `{Hclient : !MqttClient C ClientError}
    (instants : nat → Z) (cfg : InverterCfg) (identity : InverterIdentity) (w : world T C Sink) :
  (∀ ids errs, w_link w = mkLink MIN_BACKOFF 0 false None ids →
   wp (connect_failures instants cfg identity errs) w (λ r w', ∃ ws,
     r = Ok ws ∧ length ws = length errs ∧
     (∀ k, (k < length errs)%nat → ws !! k = Some (wait_after (take (S k) errs))) ∧
     asked (w_publisher w) (w_publisher w')
       (if 3 <=? downs errs then map (offline_message (pub_cfg (w_publisher w))) (offline_ids identity ids) else []))) ∧
  (∀ b st off d ids err, w_link w = mkLink b st off (Some d) ids → instants (w_instants w) < d → is_host_down err = true →
   wp (connect_failed instants cfg identity err) w (λ r w',
     r = Ok POST_YIELD_RETRY ∧ w_publisher w' = w_publisher w ∧
     w_link w' = mkLink b st off (if d <=? instants (S (w_instants w)) then None else Some d) ids)).
Proof.
  split.
  - intros ids errs Hl. eapply wp_mono; [apply (ladder_run instants cfg identity errs [] ids w); by exists MIN_BACKOFF|].
    cbn [app]. intros r w' (ws & -> & Hlen & Hws & _ & Ha). exists ws. rewrite andb_true_r in Ha. done.
  - intros b st off d ids err. apply connect_failed_grace.
Qed.

(** C4. No session survives its first poll tick.  Both ends of a target's
    queries publish [consecutive_failures], a key the catalog does not have, so
    [publish_value] panics: after an answered target as after a silent one.
    Once logged in, whatever the inverters answer, the first tick ends in a
    panic, in a reconnect after a session-fatal error, or in a yield: the poll
    loop never reaches a second tick. *)
Theorem no_session_survives_a_tick {T C ClientError Sink SinkError} `{Htransport : Transport T} `{Hclient : !MqttClient C ClientError}
    `{Hsink : !ReadingSink Sink SinkError} (instants : nat → Z) (utc : nat → DateTime) (from_timestamp_text : Z → string) (cfg : InverterCfg)
    (rounds : nat) (identity : InverterIdentity) (start : DateTime) (t : target) (w : world T C Sink) :
  wp (target_polled utc start t) w (λ r _, r = Panic) ∧
  wp (target_failed instants t) w (λ r _, r = Panic) ∧
  wp (after_logon instants utc from_timestamp_text (S rounds) cfg identity) w (λ r _, r ≠ Ok None).
Proof.
  split; [apply target_polled_panics|]. split; [apply target_failed_panics|]. apply after_logon_ends.
Qed.

(** C34. The client serial is stable: a serial minted and written is the one
    every later start of that slot reads, whatever the time, and the files of
    other slots are not touched; minted serials lie between 900,000,000 and
    999,999,999. *)
Theorem app_serial_is_stable (t1 t2 : Z) (w2 : bool) (slot other : string) (fs : files) :
  Forall (λ b, is_u8 b) (default [] (fs !! serial_path slot)) →
  let '(v, fs') := stable_app_serial t1 true slot fs in
  stable_app_serial t2 w2 slot fs' = (v, fs') ∧ is_u32 v ∧
  (other ≠ slot → fs' !! serial_path other = fs !! serial_path other) ∧
  (fs !! serial_path slot = None → 900000000 <= v <= 999999999).
Proof.
  intros Hb. unfold stable_app_serial. fold (serial_path slot).
  pose proof (minted_bounds t1 (bytes_of slot)) as Hm.
  assert (Hfresh : let '(v, fs') := mint_new_app_serial t1 true slot (serial_path slot) fs in
    match fs' !! serial_path slot with
    | Some bytes => if decide (length bytes = 4%nat) then (le_decode bytes, fs') else mint_new_app_serial t2 w2 slot (serial_path slot) fs'
    | None => mint_new_app_serial t2 w2 slot (serial_path slot) fs'
    end = (v, fs') ∧ is_u32 v ∧ (other ≠ slot → fs' !! serial_path other = fs !! serial_path other) ∧ 900000000 <= v <= 999999999).
  { unfold mint_new_app_serial. rewrite lookup_insert_eq, decide_True by apply le_encode_length.
    rewrite le_decode_encode by (cbn; lia). split; [done|]. split; [lia|]. split; [|done].
    intros Hne. apply lookup_insert_ne. intros E%serial_path_inj. by destruct Hne. }
  destruct (fs !! serial_path slot) as [bytes|] eqn:Hfs; 
    [|destruct (mint_new_app_serial t1 true slot (serial_path slot) fs) as [v fs'];
      destruct Hfresh as (H1 & H2 & H3 & H4); done].
  destruct (decide (length bytes = 4%nat)) as [Hl|Hl].
  - rewrite Hfs, decide_True by done. split; [done|]. split; [|done].
    pose proof (le_decode_bound bytes Hb) as Hbound. by rewrite Hl in Hbound.
  - destruct (mint_new_app_serial t1 true slot (serial_path slot) fs) as [v fs']. destruct Hfresh as (H1 & H2 & H3 & H4). done.
Qed.

(* ------------------------------------------------------------------ *)
(** ** Concrete instances                                              *)
(* ------------------------------------------------------------------ *)

Definition cfg0 : InverterCfg :=
  mkInverterCfg "zolder" "00:80:25:21:32:35" "0000" (secs 5) "SB 3000HF-30" "02.30.06.R" false 0 (secs 60) [] false.
Definition identity0 : InverterIdentity := initial_identity cfg0.
Definition world_on {Sink} (sink : Sink) (t : Mock.MockTransport) : world Mock.MockTransport nat Sink :=
  mkWorld (new_with_app_serial t (session_config cfg0 test_inverter (Some test_local) 15000) 900123456)
    (mkPublisher 1000%nat MqttClientConfig_default []) (initial_link cfg0) (mkCooldown ∅ ∅) (Some sink) MetricsRegistry_new 0.
Definition world0 := world_on (Csv.mkCsvSink "/share" (Csv.mkDisk ∅ [])).
#[global] Instance csv_sink0 : ReadingSink Csv.CsvSink (StorageError Empty_set) := Csv.csv_sink.

(** A power reading as a query result. *)
Definition power_body : list Z := reply spot_bytes prefix0 spots0 [].

(** The broker takes the reading on the announced topic, the registry and the
    archive hold it. *)
Lemma query_result_contract_witness :
  let w := world0 Mock.new in
  wp (publish_query_result (Hclient := room_client) (λ _, noon) SpotAcTotalPower power_body zolder (same "zolder")) w (λ r w',
    r = Ok () ∧ requests (w_publisher w') = [mkMessage "hass-sma/zolder/ac_power" AtMostOnce false (Text "1234")] ∧
    gauge_value ac_power_watts (same "zolder") (w_metrics w') = to_f64 1234 ∧
    (λ s, Csv.contents (Csv.fs s) !! "/share/zolder-2026-04-19.csv") <$> w_archiver w'
      = Some (Some (rendered [mkEntry noon "zolder" 2120121246 "ac_power" (to_f64 1234)]))).
Proof.
  intros w. destruct (query_result_contract (Hclient := room_client) (λ _, noon) SpotAcTotalPower power_body zolder (same "zolder") w)
    as (es & Hes & _ & H). vm_compute in Hes. injection Hes as <-.
  eapply wp_mono; [exact H|]. intros r w' (-> & _ & Hreq & Hm & Ha & _). split; [reflexivity|]. split; [exact Hreq|].
  split; [by rewrite Hm|]. apply (f_equal fst) in Ha. cbn [fst] in Ha. rewrite Ha. vm_compute. reflexivity.
Defined.

Example show_fixed_test :
  (show_fixed 2 (f32_div (to_f32 4998) 100), show_fixed 2 (f32_div (to_f32 (-5)) 100), show_fixed 3 (f64_div (to_f64 12345) 1000))
  = ("49.98", "-0.05", "12.345").
Proof. vm_compute. reflexivity. Qed.

Definition errs0 : list string :=
  ["Connection refused"; "Host is down (os error 112)"; "Host is down (os error 112)"; "Connection refused";
   "Host is down (os error 112)"; "Host is down (os error 112)"].

(** 2, 4, 8 and 16 seconds, then ten minutes; offline once. *)
Lemma connect_ladder_witness :
  wp (connect_failures (Hclient := room_client) (λ _, 0) cfg0 identity0 errs0) (world0 Mock.new) (λ r w',
    r = Ok [secs 2; secs 4; secs 8; secs 16; secs 600; secs 600] ∧
    requests (w_publisher w') = [mkMessage "hass-sma/zolder/availability" AtLeastOnce true (Text "offline")]).
Proof.
  destruct (connect_ladder (Hclient := room_client) (λ _, 0) cfg0 identity0 (world0 Mock.new)) as [H _].
  eapply wp_mono; [exact (H [] errs0 eq_refl)|]. cbv beta. intros r w' (ws & -> & Hlen & Hws & _ & Hreq). split.
  - f_equal. apply (list_eq_same_length _ _ 6%nat); [reflexivity|exact Hlen|]. intros i x y Hi Hx Hy.
    rewrite Hws in Hx by exact Hi. do 6 (destruct i as [|i]; [vm_compute in Hx, Hy; congruence|]). lia.
  - rewrite Hreq. reflexivity.
Defined.

Lemma app_serial_is_stable_witness :
  let '(v, fs') := stable_app_serial 1700000000 true "zolder" ∅ in
  stable_app_serial 1800000000 false "zolder" fs' = (v, fs') ∧ v = 989202906.
Proof.
  pose proof (app_serial_is_stable 1700000000 1800000000 false "zolder" "garage" ∅) as H.
  destruct (stable_app_serial 1700000000 true "zolder" ∅) as [v fs'] eqn:E.
  destruct H as (H & _); [rewrite lookup_empty; constructor|]. split; [exact H|].
  vm_compute in E. congruence.
Defined.

(** A full connection: handshake, announcement, identity and twelve answered
    queries; the task then panics. *)
Definition healthy_transport : Mock.MockTransport :=
  Mock.queue_replies
    ([fake_hello; fake_topology; fake_init_reply; fake_logon_reply]
     ++ map (λ pkt, fake_reply 9 0 0 pkt (replicate 12 0)) (seqZ 4 16)) Mock.new.

Example healthy_connection_panics :
  let w := world0 Mock.new in
  let '(r, w') := run_inverter (Hclient := room_client) (λ _, 0) (λ _, noon) (λ _, "then") 5 cfg0 (Some test_local) 15000
                    900123456 [inl "Host is down"; inr healthy_transport] w in
  r = Panic ∧ length (Mock.replies (transport (w_session w'))) = 0%nat ∧
  map m_topic (drop 36 (requests (w_publisher w')))
  = ["hass-sma/zolder/inverter_model"; "hass-sma/zolder/last_poll"; "hass-sma/zolder/poll_status"; "hass-sma/zolder/session_uptime"].
Proof. vm_compute. done. Qed.
