(* ===== verification/DaemonInv.v ===== *)
(** * The invariant of the inverter task (crates/daemon/src/main.rs)

    Every step of [run_inverter], whatever the inverters, the broker and the
    archive do, keeps the task's bookkeeping in range: a relation between the
    worlds before and after, which every operation respects, and the bounds of
    the time slept between connect attempts. *)
From Stdlib Require Import String Ascii SpecFloat.
From stdpp Require Import gmap pretty.
From S2P Require Import Prelude Text Constants Transport Commands Session Values Storage Mqtt Metrics Config Daemon DaemonProps.
Import Query.

Local Open Scope string_scope.
Local Open Scope list_scope.
Local Open Scope Z_scope.

(* ------------------------------------------------------------------ *)
(** ** The bookkeeping and its ranges                                  *)
(* ------------------------------------------------------------------ *)

Definition link_ok (l : link) : Prop := MIN_BACKOFF <= backoff l <= MAX_TRANSIENT_BACKOFF ∧ 0 <= host_down_streak l.

(** The failure counts are [u32]s. *)
Definition cooldown_ok (c : cooldown) : Prop := map_Forall (λ _ n, is_u32 n) (target_consecutive_failures c).

(** The counters are [u64]s. *)
Definition metrics_ok (m : MetricsRegistry) : Prop := map_Forall (λ _ n, 0 <= n < 2 ^ 64) (counters m).

Definition world_ok {T C Sink} (w : world T C Sink) : Prop :=
  link_ok (w_link w) ∧ cooldown_ok (w_cooldown w) ∧ metrics_ok (w_metrics w).

(** What a step may do to the link: keep it in range, and announce identities
    once. *)
Definition link_step (l l' : link) : Prop :=
  (link_ok l → link_ok l') ∧ (announced_identities l ≠ [] → announced_identities l' = announced_identities l).

#[export] Instance link_step_preorder : PreOrder link_step.
Proof.
  split; [by intros l; split|]. intros l1 l2 l3 [K1 A1] [K2 A2]. split; [auto|]. intros H.
  rewrite <-A1 by done. apply A2. by rewrite A1.
Qed.

Definition world_step {T C Sink} (w w' : world T C Sink) : Prop :=
  link_step (w_link w) (w_link w') ∧ (cooldown_ok (w_cooldown w) → cooldown_ok (w_cooldown w')) ∧
  (metrics_ok (w_metrics w) → metrics_ok (w_metrics w')).

#[export] Instance world_step_preorder {T C Sink} : PreOrder (@world_step T C Sink).
Proof.
  split; [by intros w; split|]. intros w1 w2 w3 (L1 & K1 & M1) (L2 & K2 & M2). split; [by etrans|]. auto.
Qed.

Lemma world_step_ok {T C Sink} (w w' : world T C Sink) : world_step w w' → world_ok w → world_ok w'.
Proof. intros ([L _] & K & M) (? & ? & ?). by split; [auto|split; auto]. Qed.

Section steps.
Context {T C ClientError Sink SinkError : Type} `{Htransport : Transport T} `{Hclient : !MqttClient C ClientError}
  `{Hsink : !ReadingSink Sink SinkError}.
Context (instants : nat → Z) (utc : nat → DateTime) (from_timestamp_text : Z → string).
Abbreviation dprog := (prog (world T C Sink) Empty_set).
Implicit Types w : world T C Sink.

(** A program all of whose runs are such steps. *)
Definition steps {A} (m : dprog A) : Prop := ∀ w, wp m w (λ _ w', world_step w w').

Lemma steps_ret {A} (a : A) : steps (mret a).
Proof. intros w. by apply wp_ret. Qed.
Lemma steps_lift {A} (o : total A) : steps (lift o).
Proof. intros w. by apply wp_lift. Qed.
Lemma steps_gets {A} (f : world T C Sink → A) : steps (gets f).
Proof. intros w. by apply wp_gets. Qed.

Lemma steps_bind {A B} (m : dprog A) (f : A → dprog B) : steps m → (∀ a, steps (f a)) → steps (m ≫= f).
Proof.
  intros Hm Hf w. apply wp_bind. eapply wp_mono; [apply Hm|]. intros [a|e|] w1 H1; [|done..].
  eapply wp_mono; [apply Hf|]. intros r w2 H2. by etrans.
Qed.

(** Behind a step already made. *)
Lemma wp_steps {A} (m : dprog A) w w0 : steps m → world_step w0 w → wp m w (λ _ w', world_step w0 w').
Proof. intros Hm H. eapply wp_mono; [apply Hm|]. intros r w' H'. by etrans. Qed.

Lemma steps_modify (f : world T C Sink → world T C Sink) : (∀ w, world_step w (f w)) → steps (modify f).
Proof. intros Hf w. by apply wp_modify. Qed.

Lemma steps_session {A} (m : prog (Session T) SessionError A) : steps (on_session m).
Proof. intros w. unfold wp, on_session. by destruct (m (w_session w)) as [r s]. Qed.
Lemma steps_publisher {A} (m : prog (DiscoveryPublisher C) (PublisherError ClientError) A) : steps (on_publisher m).
Proof. intros w. by apply wp_on_publisher. Qed.
Lemma steps_value id key text : steps (value id key text).
Proof. apply steps_bind; [apply steps_publisher|intros; apply steps_ret]. Qed.
Lemma steps_gauge f l v : steps (gauge f l v).
Proof. by apply steps_modify. Qed.
Lemma steps_int_gauge f l v : steps (int_gauge f l v).
Proof. by apply steps_modify. Qed.

Lemma steps_inc f l : steps (inc f l).
Proof.
  apply steps_modify. intros w. split; [done|]. split; [done|]. cbn. intros H. unfold metrics_ok, inc_counter. cbn.
  apply map_Forall_insert_2; [|exact H]. apply Z.mod_pos_bound. done.
Qed.

Lemma steps_instant_now : steps (instant_now instants).
Proof. apply steps_bind; [apply steps_gets|intros n]. apply steps_bind; [by apply steps_modify|intros; apply steps_ret]. Qed.
Lemma steps_utc_now : steps (utc_now utc).
Proof. apply steps_bind; [apply steps_gets|intros n]. apply steps_bind; [by apply steps_modify|intros; apply steps_ret]. Qed.

Lemma steps_set_skip f : steps (set_skip f).
Proof. intros w. unfold set_skip. apply wp_bind, wp_gets, wp_modify. by split. Qed.

(** Reading the link and writing it back changed. *)
Lemma steps_relink (f : link → link) : (∀ l, link_step l (f l)) → steps (l ← get_link; put_link (f l)).
Proof. intros Hf w. apply wp_bind, wp_gets, wp_modify. by split; [apply Hf|]. Qed.

Lemma steps_if {A} (b : bool) (m1 m2 : dprog A) : steps m1 → steps m2 → steps (if b then m1 else m2).
Proof. by destruct b. Qed.
Lemma steps_match_outcome {A B E} (o : outcome E A) (f : A → dprog B) (g : E → dprog B) (p : dprog B) :
  (∀ a, steps (f a)) → (∀ e, steps (g e)) → steps p → steps (match o with Ok a => f a | Err e => g e | Panic => p end).
Proof. by destruct o. Qed.
Lemma steps_match_option {A B} (o : option A) (f : A → dprog B) (m : dprog B) :
  (∀ a, steps (f a)) → steps m → steps (match o with Some a => f a | None => m end).
Proof. by destruct o. Qed.
Lemma steps_when_some {A} (o : option A) (f : A → dprog ()) : (∀ a, steps (f a)) → steps (when_some o f).
Proof. intros Hf. destruct o; [apply Hf|apply steps_ret]. Qed.
End steps.

Create HintDb steps discriminated.
#[export] Hint Resolve steps_ret steps_lift steps_gets steps_session steps_publisher steps_value steps_gauge steps_int_gauge
  steps_inc steps_instant_now steps_utc_now steps_set_skip : steps.

(** Walk through a body. *)
Ltac steps :=
  repeat first
    [ solve [eauto with steps nocore] | progress intros
    | apply steps_bind | apply steps_if | apply steps_when_some
    | match goal with |- steps (match ?x with _ => _ end) => destruct x end ].

Section task.
Context {T C ClientError Sink SinkError : Type} `{Htransport : Transport T} `{Hclient : !MqttClient C ClientError}
  `{Hsink : !ReadingSink Sink SinkError}.
Context (instants : nat → Z) (utc : nat → DateTime) (from_timestamp_text : Z → string).
Abbreviation dprog := (prog (world T C Sink) Empty_set).
Implicit Types w : world T C Sink.

Lemma steps_record id metric v : steps (T:=T) (C:=C) (record utc id metric v).
Proof.
  unfold record. apply steps_bind; [apply steps_gets|]. intros [sink|]; [|apply steps_ret].
  apply steps_bind; [apply steps_utc_now|]. intros now. destruct (sink_write _ _ _ _ _ _) as [r sink'].
  apply steps_bind; [by apply steps_modify|]. intros _. destruct r; [apply steps_ret|apply steps_ret|apply steps_lift].
Qed.
Hint Resolve steps_record : steps.

Lemma steps_query_result kind body id lbl : steps (T:=T) (C:=C) (Sink:=Sink) (publish_query_result utc kind body id lbl).
Proof. destruct kind; cbn [publish_query_result]; unfold_arms; steps. Qed.
Hint Resolve steps_query_result : steps.

Lemma steps_offline_all ids : steps (T:=T) (C:=C) (Sink:=Sink) (offline_all ids).
Proof. induction ids; cbn [offline_all]; steps. Qed.
Hint Resolve steps_offline_all : steps.
Lemma steps_go_offline id ids : steps (T:=T) (C:=C) (Sink:=Sink) (go_offline id ids).
Proof. unfold go_offline. steps. Qed.
Lemma steps_announce_targets ts : steps (T:=T) (C:=C) (Sink:=Sink) (announce_targets ts).
Proof. induction ts; cbn [announce_targets]; steps. Qed.
Hint Resolve steps_announce_targets : steps.
Lemma steps_event_log ts a b : steps (T:=T) (C:=C) (Sink:=Sink) (event_log_targets from_timestamp_text ts a b).
Proof. induction ts; cbn [event_log_targets]; steps. Qed.
Hint Resolve steps_event_log : steps.
Lemma steps_body_of t kind : steps (T:=T) (C:=C) (Sink:=Sink) (body_of t kind).
Proof. unfold body_of. steps. Qed.
Hint Resolve steps_body_of : steps.
Lemma steps_identify t : steps (T:=T) (C:=C) (Sink:=Sink) (identify t).
Proof. unfold identify. steps. Qed.
Hint Resolve steps_identify : steps.
Lemma steps_identify_all ts : steps (T:=T) (C:=C) (Sink:=Sink) (identify_all ts).
Proof. induction ts; cbn [identify_all]; steps. Qed.
Hint Resolve steps_identify_all : steps.
Lemma steps_query_target cfg t kinds : steps (T:=T) (C:=C) (Sink:=Sink) (query_target utc cfg t kinds).
Proof. induction kinds; cbn [query_target]; steps. Qed.
Hint Resolve steps_query_target : steps.
Lemma steps_cooldown_gate serial : steps (T:=T) (C:=C) (Sink:=Sink) (cooldown_gate instants serial).
Proof. unfold cooldown_gate. steps. Qed.
Hint Resolve steps_cooldown_gate : steps.

(** The failure counts stay in range. *)
Lemma steps_set_failures serial n : is_u32 n → steps (T:=T) (C:=C) (Sink:=Sink) (set_failures serial n).
Proof.
  intros Hn w. unfold set_failures. apply wp_bind, wp_gets, wp_modify. split; [done|]. split; [|done].
  intros H. by apply map_Forall_insert_2.
Qed.

Lemma steps_target_polled start t : steps (T:=T) (C:=C) (Sink:=Sink) (target_polled utc start t).
Proof. unfold target_polled. apply steps_bind; [apply steps_set_failures; lia|]. steps. Qed.
Hint Resolve steps_target_polled : steps.

Lemma steps_target_failed t : steps (T:=T) (C:=C) (Sink:=Sink) (target_failed instants t).
Proof.
  intros w. unfold target_failed, set_failures. apply wp_bind, wp_gets, wp_bind, wp_bind, wp_gets, wp_modify.
  set (cf := Z.min _ _). apply wp_steps; [steps|]. split; [done|]. split; [|done].
  intros H. cbn. apply map_Forall_insert_2; [|exact H]. unfold cf.
  destruct (target_consecutive_failures (w_cooldown w) !! tg_serial t) as [n|] eqn:Hn; cbn; [|lia].
  specialize (H _ _ Hn). cbn in H. lia.
Qed.
Hint Resolve steps_target_failed : steps.

Lemma steps_sweep cfg start ts n : steps (T:=T) (C:=C) (Sink:=Sink) (sweep instants utc cfg start ts n).
Proof. revert n. induction ts; intros n; cbn [sweep]; steps. Qed.
Hint Resolve steps_sweep : steps.

Lemma steps_poll_tick cfg start ts n : steps (T:=T) (C:=C) (Sink:=Sink) (poll_tick instants utc cfg start ts n).
Proof.
  unfold poll_tick. apply steps_bind; [steps|]. intros _. cbv zeta. apply steps_if; [|steps].
  apply steps_bind; [steps|]. intros _. apply steps_bind; [steps|]. intros now w. apply wp_bind, wp_gets, wp_bind, wp_modify, wp_ret.
  by split.
Qed.
Hint Resolve steps_poll_tick : steps.

Lemma steps_poll_loop rounds cfg start ts n : steps (T:=T) (C:=C) (Sink:=Sink) (poll_loop instants utc rounds cfg start ts n).
Proof. revert n. induction rounds; intros n; cbn [poll_loop]; steps. Qed.
Hint Resolve steps_poll_loop : steps.

Lemma steps_after_logon rounds cfg identity :
  steps (T:=T) (C:=C) (Sink:=Sink) (after_logon instants utc from_timestamp_text rounds cfg identity).
Proof.
  unfold after_logon. apply steps_bind; [steps|]. intros s. cbv zeta. apply steps_bind; [steps|]. intros _ w.
  apply wp_bind, wp_gets, wp_bind, wp_modify. apply wp_steps.
  - steps. intros w'. split; [done|]. split; [|done]. intros _. apply map_Forall_empty.
  - split; [|done]. cbn. split; [done|]. by destruct (announced_identities (w_link w)).
Qed.
Hint Resolve steps_after_logon : steps.

Lemma steps_run_connection rounds cfg bt local_bt timeout app identity t :
  steps (T:=T) (C:=C) (Sink:=Sink)
    (run_connection instants utc from_timestamp_text rounds cfg bt local_bt timeout app identity t).
Proof.
  unfold run_connection. apply steps_bind; [by apply steps_modify|]. intros _.
  apply steps_bind; [steps|]. intros now. apply steps_bind; [steps|].
  intros [a|e|]; [steps| |steps]. do 2 (apply steps_bind; [steps|]; intros _). intros w.
  apply wp_bind, wp_gets, wp_bind, wp_modify, wp_ret. split; [|done]. split; [|done].
  intros [Hb Hs]. split; [|exact Hs]. cbn. unfold MIN_BACKOFF, MAX_TRANSIENT_BACKOFF, secs in *. lia.
Qed.

Lemma steps_connected cfg : steps (T:=T) (C:=C) (Sink:=Sink) (connected cfg).
Proof.
  intros w. unfold connected. apply wp_bind, wp_gets, wp_bind, wp_modify, wp_bind, wp_modify, wp_bind, wp_gets, wp_modify.
  split; [|done]. split; [|done]. intros [Hb Hs]. split; cbn; [|lia]. unfold MIN_BACKOFF, MAX_TRANSIENT_BACKOFF, secs. lia.
Qed.

(** The three blocks of a failed connect attempt. *)
Lemma steps_note_host_down cfg identity : steps (T:=T) (C:=C) (Sink:=Sink) (note_host_down cfg identity).
Proof.
  intros w. unfold note_host_down. apply wp_bind, wp_gets. cbv zeta. apply wp_bind, wp_modify, wp_bind, wp_modify.
  set (w1 := on_metrics _ _). assert (H1 : world_step w w1).
  { split; [|done]. split; [|done]. intros [Hb Hs]. split; [exact Hb|]. cbn. lia. }
  destruct (_ && _); [|by apply wp_ret]. apply wp_bind. eapply wp_mono; [apply wp_go_offline|].
  intros r w2 (-> & p & -> & _). apply wp_modify. destruct H1 as ([K A] & C1 & M1). by split.
Qed.

Lemma steps_expire_grace : steps (T:=T) (C:=C) (Sink:=Sink) (expire_grace instants).
Proof.
  intros w. unfold expire_grace. apply wp_bind, wp_gets. destruct (post_yield_deadline (w_link w)) as [d|]; [|by apply wp_ret].
  unfold instant_now. apply wp_bind, wp_bind, wp_gets, wp_bind, wp_modify, wp_ret.
  destruct (d <=? _); [by apply wp_modify|by apply wp_ret].
Qed.

(** The times slept after a failed attempt. *)
Definition wait_ok (wait : Z) : Prop := MIN_BACKOFF <= wait <= SLEEP_BACKOFF.

Lemma next_wait_bounds g h w :
  wp (next_wait (T:=T) (C:=C) (Sink:=Sink) g h) w (λ r w', world_step w w' ∧
    ∃ wait, r = Ok wait ∧ (link_ok (w_link w) → wait_ok wait)).
Proof.
  unfold next_wait. apply wp_bind, wp_gets. cbv zeta. set (wait := if g && h then _ else _).
  assert (Hw : link_ok (w_link w) → wait_ok wait).
  { intros [Hb _]. unfold wait, wait_ok, POST_YIELD_RETRY, SLEEP_BACKOFF, MIN_BACKOFF, MAX_TRANSIENT_BACKOFF, secs in *.
    repeat case_match; lia. }
  apply wp_bind. destruct (negb g && _).
  - apply wp_modify, wp_ret. split; [|eauto]. split; [|done]. split; [|done].
    intros [Hb Hs]. split; [|exact Hs]. cbn. unfold MIN_BACKOFF, MAX_TRANSIENT_BACKOFF, secs in *. lia.
  - apply wp_ret, wp_ret. split; [done|eauto].
Qed.

Lemma connect_failed_bounds cfg identity err w :
  wp (connect_failed (T:=T) (C:=C) (Sink:=Sink) instants cfg identity err) w (λ r w', world_step w w' ∧
    ∀ wait, r = Ok wait → world_ok w → wait_ok wait).
Proof.
  assert (Hgrace : steps (T:=T) (C:=C) (Sink:=Sink) (in_grace_now instants)).
  { unfold in_grace_now, get_link. steps. }
  unfold connect_failed. apply wp_bind. eapply wp_mono; [apply Hgrace|]. intros [g|[]|] w1 H1; [|done].
  apply wp_bind. eapply (wp_mono _ _ (λ _ w', world_step w w')).
  { apply wp_steps; [|done]. apply steps_if; [apply steps_note_host_down|apply steps_ret]. }
  intros [[]|[]|] w2 H2; [|done]. apply wp_bind. eapply wp_mono; [apply (wp_steps _ _ w steps_expire_grace H2)|].
  intros [[]|[]|] w3 H3; [|done]. eapply wp_mono; [apply next_wait_bounds|]. intros r w4 (H4 & wait & -> & Hw).
  split; [by etrans|]. intros ? [= <-] Hok. apply Hw. by apply (world_step_ok _ _ H3).
Qed.

(** A round, and a run of rounds. *)
Lemma run_round_bounds rounds cfg bt local_bt timeout app identity a w :
  wp (run_round (Sink:=Sink) instants utc from_timestamp_text rounds cfg bt local_bt timeout app identity a) w
    (λ r w', world_step w w' ∧ ∀ wait, r = Ok (Some wait) → world_ok w → wait_ok wait).
Proof.
  unfold run_round. apply wp_bind. eapply wp_mono; [apply steps_inc|]. intros [[]|[]|] w1 H1; [|done].
  destruct a as [err|t].
  - apply wp_bind. eapply wp_mono; [apply connect_failed_bounds|]. intros [wait|[]|] w2 [H2 Hw].
    + apply wp_ret. split; [by etrans|]. intros ? [= <-] Hok. apply Hw; [done|]. by apply (world_step_ok _ _ H1).
    + split; [by etrans|done].
  - eapply (wp_mono _ _ (λ r w', world_step w w' ∧ ∀ x, r = Ok x → x = None)).
    + apply wp_bind. eapply wp_mono; [apply (wp_steps _ _ w (steps_connected cfg) H1)|]. intros [[]|[]|] w2 H2; [|done].
      apply wp_bind. eapply wp_mono; [exact (wp_steps _ _ w (steps_run_connection rounds cfg bt local_bt timeout app identity t) H2)|].
      intros [o|[]|] w3 H3; [|done]. apply wp_ret. split; [done|]. by intros x [= <-].
    + intros r w' [H' Hn]. split; [done|]. intros wait Hr. by apply Hn in Hr.
Qed.

Lemma run_rounds_bounds rounds cfg bt local_bt timeout app identity attempts w :
  wp (run_rounds (Sink:=Sink) instants utc from_timestamp_text rounds cfg bt local_bt timeout app identity attempts) w
    (λ r w', world_step w w' ∧ ∀ waits, r = Ok waits → world_ok w → length waits = length attempts ∧ ∀ wait, Some wait ∈ waits → wait_ok wait).
Proof.
  revert w. induction attempts as [|a attempts IH]; intros w; cbn [run_rounds].
  - apply wp_ret. split; [done|]. intros ? [= <-] _. split; [done|]. intros ? []%not_elem_of_nil.
  - apply wp_bind. eapply wp_mono; [apply run_round_bounds|]. intros [wait|[]|] w1 [H1 Hw]; [|done].
    apply wp_bind. eapply wp_mono; [apply IH|]. intros [waits|[]|] w2 [H2 Hws].
    + apply wp_ret. split; [by etrans|]. intros ? [= <-] Hok. destruct (Hws waits eq_refl) as [Hl Hin]; [by apply (world_step_ok _ _ H1)|].
      split; [cbn; by rewrite Hl|]. intros x [E|Hx]%elem_of_cons; [|by apply Hin]. subst wait. by apply Hw.
    + split; [by etrans|done].
Qed.
End task.

(* ------------------------------------------------------------------ *)
(** ** Property                                                        *)
(* ------------------------------------------------------------------ *)

(** C11. The bookkeeping of an inverter task stays in range for ever: from any
    world whose failure counts and counters are in range, for any
    configuration, any sequence of connect errors and connections and whatever
    inverter, broker and archive answer, the task ends (also when it ends in a
    panic) with its backoff between 2 and 60 seconds, failure counts within 32
    and counters within 64 bits; an address that does not parse ends it before
    anything is done; and every time slept after a failed connect attempt lies
    between 2 and 600 seconds. *)
Theorem inverter_task_in_range {T C ClientError Sink SinkError} `{Htransport : Transport T} `{Hclient : !MqttClient C ClientError}
    `{Hsink : !ReadingSink Sink SinkError} (instants : nat → Z) (utc : nat → DateTime) (from_timestamp_text : Z → string)
    (rounds : nat) (cfg : InverterCfg) (local_bt : option (list Z)) (timeout app_serial : Z)
    (attempts : list (string + T)) (w : world T C Sink) :
  cooldown_ok (w_cooldown w) → metrics_ok (w_metrics w) →
  wp (run_inverter instants utc from_timestamp_text rounds cfg local_bt timeout app_serial attempts) w (λ r w',
    (Mac.parse_bt_mac (bytes_of (i_bt_address cfg)) = None → r = Ok None ∧ w' = w) ∧
    (Mac.parse_bt_mac (bytes_of (i_bt_address cfg)) ≠ None → world_ok w') ∧
    ∀ waits, r = Ok (Some waits) → length waits = length attempts ∧ ∀ wait, Some wait ∈ waits → secs 2 <= wait <= secs 600).
Proof.
  intros Hc Hm. unfold run_inverter. destruct (Mac.parse_bt_mac _) as [bt|]; [|by apply wp_ret].
  apply wp_bind, wp_modify. set (w0 := set_link _ _). assert (H0 : world_ok w0).
  { split; [|done]. split; [|done]. cbn. unfold MIN_BACKOFF, MAX_TRANSIENT_BACKOFF, secs. lia. }
  apply wp_bind. eapply wp_mono; [apply run_rounds_bounds|]. intros [waits|[]|] w1 [H1 Hw].
  - apply wp_ret. split; [done|]. split; [intros _; by apply (world_step_ok _ _ H1)|]. intros ? [= <-]. by apply Hw.
  - split; [done|]. split; [intros _; by apply (world_step_ok _ _ H1)|done].
Qed.

(** Three refused connections. *)
Lemma inverter_task_in_range_witness :
  wp (run_inverter (Hclient := room_client) (λ _, 0) (λ _, noon) (λ _, "then") 5 cfg0 (Some test_local) 15000
        900123456 [inl "Connection refused"; inl "Host is down"; inl "Connection refused"]) (world0 Mock.new) (λ r w',
    r = Ok (Some [Some (secs 2); Some (secs 4); Some (secs 8)]) ∧ world_ok w' ∧ backoff (w_link w') = secs 16).
Proof.
  set (run := run_inverter _ _ _ _ _ _ _ _ _).
  pose proof (inverter_task_in_range (Hclient := room_client) (λ _, 0) (λ _, noon) (λ _, "then") 5 cfg0 (Some test_local) 15000
    900123456 [inl "Connection refused"; inl "Host is down"; inl "Connection refused"] (world0 Mock.new)
    (map_Forall_empty _) (map_Forall_empty _)) as H.
  eapply wp_mono; [exact (wp_and _ _ _ _ H (ltac:(vm_compute; split; reflexivity) : wp run (world0 Mock.new) (λ r w',
    r = Ok (Some [Some (secs 2); Some (secs 4); Some (secs 8)]) ∧ backoff (w_link w') = secs 16)))|].
  intros r w' [(_ & Hok & _) [Hr Hb]]. split; [exact Hr|]. split; [apply Hok; vm_compute; discriminate|exact Hb].
Defined.
