(* ===== verification/Tasks.v ===== *)
(** * Inverter tasks and the state they share (crates/daemon/src/main.rs)

    [main] spawns one task per inverter; the metrics registry and the archive
    sink are shared by all of them.  A task only adds to the shared state: each
    update of the registry is atomic, each archive write holds the sink's lock,
    and their results are dropped.  So a run of a task is a list of events,
    which does not depend on what the other tasks did to the shared state. *)
From Stdlib Require Import String Ascii SpecFloat.
From stdpp Require Import gmap pretty.
From S2P Require Import Prelude Text Constants Transport Commands Session Values Storage Mqtt Metrics Config Daemon DaemonProps.
Import Query.

Local Open Scope string_scope.
Local Open Scope list_scope.
Local Open Scope Z_scope.

(* ------------------------------------------------------------------ *)
(** ** Shared state and events                                         *)
(* ------------------------------------------------------------------ *)

(** What the clones of [metrics] and [archiver] refer to. *)
Record shared (Sink : Type) : Type := mkShared { sh_archive : option Sink; sh_metrics : MetricsRegistry }.
Arguments mkShared {Sink}. Arguments sh_archive {Sink}. Arguments sh_metrics {Sink}.

(** The atomic operations on it: [family.get_or_create(l).inc()], [.set(v)],
    [.get()], and a write of the archive at a time. *)
Inductive event : Type :=
  | Counts (f : counter_family) (l : InverterLabels)
  | SetsInt (f : int_gauge_family) (l : InverterLabels) (v : Z)
  | Sets (f : gauge_family) (l : DeviceLabels) (v : f64)
  | Reads (f : gauge_family) (l : DeviceLabels)
  | Writes (now : DateTime) (slot : string) (serial : Z) (metric : string) (v : f64).

Section shared.
Context {Sink SinkError : Type} `{Hsink : !ReadingSink Sink SinkError}.

Definition on_registry (g : MetricsRegistry → MetricsRegistry) (h : shared Sink) : shared Sink :=
  mkShared (sh_archive h) (g (sh_metrics h)).

Definition perform (h : shared Sink) (e : event) : shared Sink :=
  match e with
  | Counts f l => on_registry (inc_counter f l) h
  | SetsInt f l v => on_registry (set_int_gauge f l v) h
  | Sets f l v => on_registry (set_gauge f l v) h
  | Reads f l => on_registry (λ m, (get_gauge f l m).2) h
  | Writes now slot serial metric v =>
      mkShared ((λ sink, (sink_write now slot serial metric v sink).2) <$> sh_archive h) (sh_metrics h)
  end.

Definition performs (h : shared Sink) (evs : list event) : shared Sink := foldl perform h evs.

Definition has_archive (a : option Sink) : bool := match a with Some _ => true | None => false end.

Lemma has_archive_performs evs h : has_archive (sh_archive (performs h evs)) = has_archive (sh_archive h).
Proof.
  revert h. induction evs as [|e evs IH]; intros h; [done|]. unfold performs in *. cbn [foldl]. rewrite IH.
  destruct e; cbn; try done. by destruct (sh_archive h).
Qed.

Lemma performs_app h e1 e2 : performs h (e1 ++ e2) = performs (performs h e1) e2.
Proof. apply foldl_app. Qed.
End shared.

(* ------------------------------------------------------------------ *)
(** ** Programs as events                                              *)
(* ------------------------------------------------------------------ *)

Section emits.
Context {T C ClientError Sink SinkError : Type} `{Htransport : Transport T} `{Hclient : !MqttClient C ClientError}
  `{Hsink : !ReadingSink Sink SinkError}.
Abbreviation dprog := (prog (world T C Sink) Empty_set).
Implicit Types (w : world T C Sink) (h : shared Sink).

Definition with_shared h w : world T C Sink :=
  mkWorld (w_session w) (w_publisher w) (w_link w) (w_cooldown w) (sh_archive h) (sh_metrics h) (w_instants w).
Definition shared_of w : shared Sink := mkShared (w_archiver w) (w_metrics w).

Lemma with_own_shared w : with_shared (shared_of w) w = w.
Proof. by destruct w. Qed.

(** Whatever the shared state, as long as there is an archive or there is
    none, the run has the same result, leaves the same task behind, and changes
    the shared state by the same events, all of them [own]; [post] holds of
    its value. *)
Definition emits {A} (own : event → Prop) (m : dprog A) (post : A → Prop) : Prop := ∀ w, ∃ evs,
  Forall own evs ∧ (∀ a, (m w).1 = Ok a → post a) ∧
  ∀ h, has_archive (sh_archive h) = has_archive (w_archiver w) →
    m (with_shared h w) = ((m w).1, with_shared (performs h evs) (m w).2).

Context (own : event → Prop).
Abbreviation quiet m := (emits own m (λ _, True)).

Lemma emits_bind {A B} (m : dprog A) (f : A → dprog B) post1 post :
  emits own m post1 → (∀ a, post1 a → emits own (f a) post) → emits own (m ≫= f) post.
Proof.
  intros Hm Hf w. destruct (Hm w) as (e1 & O1 & P1 & R1). unfold mbind, prog_bind.
  pose proof (R1 (shared_of w) eq_refl) as Hself. rewrite with_own_shared in Hself.
  destruct (m w) as [[a|[]|] w1] eqn:Hw; cbn [fst snd] in *.
  - destruct (Hf a (P1 a eq_refl) w1) as (e2 & O2 & P2 & R2). exists (e1 ++ e2).
    split; [by apply Forall_app|]. split; [exact P2|]. intros h Hh. rewrite R1 by done. rewrite performs_app. apply R2.
    rewrite has_archive_performs, Hh. injection Hself as E. apply (f_equal w_archiver) in E. cbn in E.
    rewrite E. symmetry. apply (has_archive_performs e1 (shared_of w)).
  - exists e1. split; [done|]. split; [done|]. intros h Hh. by rewrite R1.
Qed.

Lemma emits_mono {A} (m : dprog A) (post post' : A → Prop) :
  emits own m post → (∀ a, post a → post' a) → emits own m post'.
Proof. intros Hm Hp w. destruct (Hm w) as (evs & O & P & R). exists evs. split; [done|]. split; [|done]. auto. Qed.

Lemma emits_quiet {A} (m : dprog A) post : emits own m post → quiet m.
Proof. intros H. by eapply emits_mono. Qed.

Lemma emits_ret {A} (a : A) (post : A → Prop) : post a → emits own (mret a : dprog A) post.
Proof. intros Ha w. exists []. split; [done|]. split; [by intros ? [= <-]|done]. Qed.

(** What looks at and changes only the task's own part. *)
Lemma emits_local {A} (m : dprog A) : (∀ h w, m (with_shared h w) = ((m w).1, with_shared h (m w).2)) → quiet m.
Proof. intros Hm w. exists []. split; [done|]. split; [done|]. intros h _. apply Hm. Qed.

Lemma emits_event (m : dprog ()) (e : event) :
  own e → (∀ h w, m (with_shared h w) = (Ok (), with_shared (perform h e) w)) → (∀ w, (m w).1 = Ok () ∧ ∀ h, with_shared h (m w).2 = with_shared h w) →
  quiet m.
Proof.
  intros Ho Hm Hw w. exists [e]. split; [by constructor|]. split; [done|]. intros h _.
  destruct (Hw w) as [-> Hs]. rewrite Hm. unfold performs. cbn [foldl]. by rewrite Hs.
Qed.

Lemma emits_lift {A} (o : total A) : quiet (lift o : dprog A).
Proof. by apply emits_local. Qed.
Lemma emits_modify (f : world T C Sink → world T C Sink) :
  (∀ h w, f (with_shared h w) = with_shared h (f w)) → quiet (modify f : dprog ()).
Proof. intros Hf. apply emits_local. intros h w. unfold modify. by rewrite Hf. Qed.
Lemma emits_gets {A} (f : world T C Sink → A) : (∀ h w, f (with_shared h w) = f w) → quiet (gets f : dprog A).
Proof. intros Hf. apply emits_local. intros h w. unfold gets. by rewrite Hf. Qed.

Lemma emits_session {A} (m : prog (Session T) SessionError A) : quiet (on_session m : dprog _).
Proof. apply emits_local. intros h w. unfold on_session. cbn. by destruct (m (w_session w)). Qed.
Lemma emits_publisher {A} (m : prog (DiscoveryPublisher C) (PublisherError ClientError) A) : quiet (on_publisher m : dprog _).
Proof. apply emits_local. intros h w. unfold on_publisher. cbn. by destruct (m (w_publisher w)). Qed.

Lemma emits_seq {A B} (m : dprog A) (f : A → dprog B) post : quiet m → (∀ a, emits own (f a) post) → emits own (m ≫= f) post.
Proof. intros Hm Hf. by eapply emits_bind. Qed.

Lemma emits_value id key text : quiet (value id key text : dprog ()).
Proof. apply emits_seq; [apply emits_publisher|]. intros _. by apply emits_ret. Qed.
Lemma emits_when_some {A} (o : option A) (f : A → dprog ()) : (∀ a, quiet (f a)) → quiet (when_some o f).
Proof. intros Hf. destruct o; [apply Hf|by apply emits_ret]. Qed.
Lemma emits_instant_now instants : quiet (instant_now instants : dprog Z).
Proof. by apply emits_local. Qed.
Lemma emits_utc_now utc : quiet (utc_now utc : dprog DateTime).
Proof. by apply emits_local. Qed.
Lemma emits_set_skip f : quiet (set_skip f : dprog ()).
Proof. by apply emits_local. Qed.
Lemma emits_set_failures serial n : quiet (set_failures serial n : dprog ()).
Proof. by apply emits_local. Qed.
Lemma emits_get_link : quiet (get_link : dprog link).
Proof. by apply emits_local. Qed.
Lemma emits_put_link l : quiet (put_link l : dprog ()).
Proof. by apply emits_local. Qed.

Lemma emits_gauge f l v : own (Sets f l v) → quiet (gauge f l v : dprog ()).
Proof. intros Ho. by apply (emits_event _ (Sets f l v)). Qed.
Lemma emits_int_gauge f l v : own (SetsInt f l v) → quiet (int_gauge f l v : dprog ()).
Proof. intros Ho. by apply (emits_event _ (SetsInt f l v)). Qed.
Lemma emits_inc f l : own (Counts f l) → quiet (inc f l : dprog ()).
Proof. intros Ho. by apply (emits_event _ (Counts f l)). Qed.

(** An archive write, its result dropped. *)
Lemma emits_record `{Hlaws : !SinkLaws Sink SinkError} utc id metric v :
  (∀ n, own (Writes (utc n) (slot id) (serial id) metric v)) → quiet (record utc id metric v : dprog ()).
Proof.
  intros Ho w. destruct (w_archiver w) as [sink|] eqn:Ha.
  - exists [Writes (utc (w_instants w)) (slot id) (serial id) metric v]. split; [by constructor|]. split; [done|].
    assert (Hrun : ∀ w' sink', w_archiver w' = Some sink' →
      record utc id metric v w' = (Ok (), set_archiver (Some (sink_write (utc (w_instants w')) (slot id) (serial id) metric v sink').2) (tick_clock w'))).
    { intros w' sink' Hw'. unfold record, utc_now, mbind, prog_bind, gets, modify, mret, prog_ret. rewrite Hw'.
      pose proof (sink_total (utc (w_instants w')) (slot id) (serial id) metric v sink') as N.
      destruct (sink_write _ _ _ _ _ sink') as [[| |] s'']; [done|done|by destruct N]. }
    intros h Hh. destruct (sh_archive h) as [s|] eqn:Es; [|done].
    rewrite (Hrun w sink) by done. rewrite (Hrun (with_shared h w) s) by done. unfold performs. cbn. by rewrite Es.
  - exists []. split; [done|]. split; [done|]. intros h Hh. destruct (sh_archive h) eqn:Es; [done|].
    unfold record, mbind, prog_bind, gets. cbn. by rewrite Ha, Es.
Qed.
End emits.

Create HintDb emits discriminated.
#[export] Hint Resolve emits_lift emits_session emits_publisher emits_value emits_instant_now emits_utc_now emits_set_skip
  emits_set_failures emits_get_link emits_put_link emits_gauge emits_int_gauge emits_inc : emits.
#[export] Hint Extern 1 (emits _ (mret _) _) => (apply emits_ret; done) : emits.
#[export] Hint Extern 1 (emits _ (modify _) _) => (apply emits_modify; reflexivity) : emits.
#[export] Hint Extern 1 (emits _ (gets _) _) => (apply emits_gets; reflexivity) : emits.

(** Walk through a body whose value does not matter. *)
Ltac emits :=
  repeat first
    [ solve [eauto with emits nocore] | progress intros
    | apply emits_seq | apply emits_when_some
    | match goal with |- emits _ (match ?x with _ => _ end) _ => destruct x end ].

(* ------------------------------------------------------------------ *)
(** ** The events of an inverter task                                  *)
(* ------------------------------------------------------------------ *)

(** The slots of the devices of an inverter entry. *)
Definition device_slots (cfg : InverterCfg) : list string :=
  match devices cfg with [] => [i_slot cfg] | ds => map d_slot ds end.

(** The metrics that are archived. *)
Definition archived_metrics : list string :=
  ["ac_power"; "energy_today_wh"; "energy_lifetime_wh"; "temperature_c"; "grid_frequency_hz"; "cos_phi"].
#[export] Hint Extern 0 (_ ∈ archived_metrics) => (apply (bool_decide_unpack _); exact I) : emits.

(** The events of its task: counters of its own slot, gauges of its own slot
    and devices, rows of its own devices at a time of its clock. *)
Definition own_event (utc : nat → DateTime) (cfg : InverterCfg) (e : event) : Prop :=
  match e with
  | Counts _ l | SetsInt _ l _ => il_slot l = i_slot cfg
  | Sets _ l _ => dl_slot l = i_slot cfg ∧ device l ∈ device_slots cfg
  | Writes now slot _ metric _ => slot ∈ device_slots cfg ∧ (∃ n, now = utc n) ∧ metric ∈ archived_metrics
  | Reads _ _ => False
  end.

Definition own_target (cfg : InverterCfg) (t : target) : Prop := slot (tg_id t) ∈ device_slots cfg.

Lemma targets_of_own cfg identity susy serial :
  slot identity = i_slot cfg → Forall (own_target cfg) (targets_of cfg identity susy serial).
Proof.
  intros Hid. unfold targets_of, own_target, device_slots. destruct (devices cfg) as [|d ds].
  - constructor; [|done]. cbn. rewrite Hid. list_in.
  - apply Forall_forall. intros t (d' & -> & Hd)%list_elem_of_fmap. cbn [tg_id slot]. by apply list_elem_of_fmap_2.
Qed.

Section task.
Context {T C ClientError Sink SinkError : Type} `{Htransport : Transport T} `{Hclient : !MqttClient C ClientError}
  `{Hsink : !ReadingSink Sink SinkError} `{Hlaws : !SinkLaws Sink SinkError}.
Context (instants : nat → Z) (utc : nat → DateTime) (from_timestamp_text : Z → string) (cfg : InverterCfg).
Abbreviation dprog := (prog (world T C Sink) Empty_set).
Abbreviation quiet m := (emits (T:=T) (C:=C) (Sink:=Sink) (own_event utc cfg) m (λ _, True)).

Lemma emits_inc_own f : quiet (inc f (mkInverterLabels (i_slot cfg))).
Proof. by apply emits_inc. Qed.
Lemma emits_int_gauge_own f v : quiet (int_gauge f (mkInverterLabels (i_slot cfg)) v).
Proof. by apply emits_int_gauge. Qed.
Hint Resolve emits_inc_own emits_int_gauge_own : emits.

Lemma emits_query_result kind body id :
  slot id ∈ device_slots cfg → quiet (publish_query_result utc kind body id (mkDeviceLabels (i_slot cfg) (slot id))).
Proof.
  intros Hid. assert (Hg : ∀ f v, own_event utc cfg (Sets f (mkDeviceLabels (i_slot cfg) (slot id)) v)) by done.
  assert (Hw : ∀ metric v, metric ∈ archived_metrics → quiet (record utc id metric v)) by (intros metric v Hm; apply emits_record; intros n; repeat split; eauto).
  destruct kind; cbn [publish_query_result]; unfold_arms; emits.
Qed.

Lemma emits_offline_all ids : quiet (offline_all ids).
Proof. induction ids; cbn [offline_all]; emits. Qed.
Hint Resolve emits_offline_all : emits.
Lemma emits_go_offline id ids : quiet (go_offline id ids).
Proof. unfold go_offline. emits. Qed.
Hint Resolve emits_go_offline : emits.
Lemma emits_announce_targets ts : quiet (announce_targets ts).
Proof. induction ts; cbn [announce_targets]; emits. Qed.
Hint Resolve emits_announce_targets : emits.
Lemma emits_event_log ts a b : quiet (event_log_targets from_timestamp_text ts a b).
Proof. induction ts; cbn [event_log_targets]; emits. Qed.
Hint Resolve emits_event_log : emits.
Lemma emits_body_of t kind : quiet (body_of t kind).
Proof. unfold body_of. emits. Qed.
Hint Resolve emits_body_of : emits.

(** The identity queries change no slot. *)
Lemma emits_identify t : emits (T:=T) (C:=C) (Sink:=Sink) (own_event utc cfg) (identify t) (λ t', slot (tg_id t') = slot (tg_id t)).
Proof.
  unfold identify. apply emits_seq; [emits|]. intros b.
  apply (emits_bind _ _ _ (λ t', slot (tg_id t') = slot (tg_id t))).
  { destruct b; [|by apply emits_ret]. apply emits_seq; [emits|]. intros [v|]; [|by apply emits_ret].
    apply emits_seq; [emits|]. intros _. by apply emits_ret. }
  intros t1 H1. apply emits_seq; [emits|]. intros _. apply emits_seq; [emits|]. intros b2.
  apply (emits_bind _ _ _ (λ t', slot (tg_id t') = slot (tg_id t))).
  { destruct b2; [|by apply emits_ret]. apply emits_seq; [emits|]. intros l0. destruct (l0 ≫= type_label_text); [|by apply emits_ret].
    apply emits_seq; [emits|]. intros _. by apply emits_ret. }
  intros t2 H2. do 4 (apply emits_seq; [emits|intros ?]). by apply emits_ret.
Qed.

Lemma emits_identify_all ts :
  Forall (own_target cfg) ts → emits (T:=T) (C:=C) (Sink:=Sink) (own_event utc cfg) (identify_all ts) (Forall (own_target cfg)).
Proof.
  induction 1 as [|t ts Ht _ IH]; cbn [identify_all]; [by apply emits_ret|].
  eapply emits_bind; [apply emits_identify|]. intros t' Ht'. eapply emits_bind; [apply IH|]. intros ts' Hts.
  apply emits_ret. constructor; [|done]. unfold own_target. by rewrite Ht'.
Qed.

Lemma emits_query_target t kinds : own_target cfg t → quiet (query_target utc cfg t kinds).
Proof. intros Ht. induction kinds; cbn [query_target]; emits. by apply emits_query_result. Qed.
Lemma emits_cooldown_gate serial : quiet (cooldown_gate instants serial).
Proof. unfold cooldown_gate. emits. Qed.
Hint Resolve emits_query_target emits_cooldown_gate : emits.
Lemma emits_target_polled start t : quiet (target_polled utc start t).
Proof. unfold target_polled. emits. Qed.
Lemma emits_target_failed t : quiet (target_failed instants t).
Proof. unfold target_failed. emits. Qed.
Hint Resolve emits_target_polled emits_target_failed : emits.

Lemma emits_sweep start ts n : Forall (own_target cfg) ts → quiet (sweep instants utc cfg start ts n).
Proof. intros H. revert n. induction H; intros n; cbn [sweep]; emits. Qed.
Hint Resolve emits_sweep : emits.

Lemma emits_poll_tick start ts n : Forall (own_target cfg) ts → quiet (poll_tick instants utc cfg start ts n).
Proof. intros H. unfold poll_tick, note_success. emits. Qed.
Hint Resolve emits_poll_tick : emits.
Lemma emits_poll_loop rounds start ts n : Forall (own_target cfg) ts → quiet (poll_loop instants utc rounds cfg start ts n).
Proof. intros H. revert n. induction rounds; intros n; cbn [poll_loop]; emits. Qed.
Hint Resolve emits_poll_loop : emits.

Lemma emits_after_logon rounds identity :
  slot identity = i_slot cfg → quiet (after_logon instants utc from_timestamp_text rounds cfg identity).
Proof.
  intros Hid. unfold after_logon. apply emits_seq; [emits|]. intros s. cbv zeta.
  do 4 (apply emits_seq; [emits|intros ?]). eapply emits_bind; [by apply emits_identify_all, targets_of_own|].
  intros ts Hts. emits.
Qed.
Hint Resolve emits_after_logon : emits.

Lemma emits_run_connection rounds bt local_bt timeout app identity t :
  slot identity = i_slot cfg →
  quiet (run_connection instants utc from_timestamp_text rounds cfg bt local_bt timeout app identity t).
Proof. intros Hid. unfold run_connection. emits. Qed.

Lemma emits_connect_failed identity err : quiet (connect_failed instants cfg identity err).
Proof. unfold connect_failed, in_grace_now, note_host_down, expire_grace, next_wait. emits. Qed.
Lemma emits_connected : quiet (connected cfg).
Proof. unfold connected. emits. Qed.
Hint Resolve emits_run_connection emits_connect_failed emits_connected : emits.

Lemma emits_run_rounds rounds bt local_bt timeout app identity attempts :
  slot identity = i_slot cfg →
  quiet (run_rounds instants utc from_timestamp_text rounds cfg bt local_bt timeout app identity attempts).
Proof. intros Hid. induction attempts; cbn [run_rounds]; unfold run_round; emits. Qed.

(** Every run of the task is a list of events of its own. *)
Lemma emits_run_inverter rounds local_bt timeout app attempts :
  quiet (run_inverter instants utc from_timestamp_text rounds cfg local_bt timeout app attempts).
Proof.
  unfold run_inverter. destruct (Mac.parse_bt_mac _); [|by apply emits_ret].
  apply emits_seq; [emits|]. intros _. apply emits_seq; [by apply emits_run_rounds|]. intros ws. by apply emits_ret.
Qed.
End task.
