(* ===== verification/Calls.v ===== *)
(** * Termination (inverter-client/src/session.rs, daemon/src/main.rs)

    How often a session method and a poll tick may wait for the transport.  A
    transport is wrapped in a counter of its calls; each call lasts at most
    the configured timeout (the transport's own promise), so a bound on the
    calls bounds the time.  Nothing is assumed of the transport: it may be
    silent, babble for ever, fail or lie. *)
From Stdlib Require Import String Ascii SpecFloat.
From stdpp Require Import gmap pretty.
From S2P Require Import Prelude Text Constants Frame Packet Transport Commands Session Values Storage Mqtt Metrics Config Daemon DaemonProps.
Import Query.

Local Open Scope string_scope.
Local Open Scope list_scope.
Local Open Scope nat_scope.

(** A transport with a meter. *)
Record metered (T : Type) : Type := mkMetered { inner : T; sends : nat; receives : nat; closes : nat }.
Arguments mkMetered {T}. Arguments inner {T}. Arguments sends {T}. Arguments receives {T}. Arguments closes {T}.

#[export] Instance metered_transport {T} `{!Transport T} : Transport (metered T) := {|
  send_frame d t := let '(r, u) := send_frame d (inner t) in (r, mkMetered u (S (sends t)) (receives t) (closes t));
  recv_frame ms t := let '(r, u) := recv_frame ms (inner t) in (r, mkMetered u (sends t) (S (receives t)) (closes t));
  close_transport t := let '(r, u) := close_transport (inner t) in (r, mkMetered u (sends t) (receives t) (S (closes t))) |}.

(** At most so many calls more. *)
Definition within {T} (s r c : nat) (t t' : metered T) : Prop :=
  sends t' <= sends t + s ∧ receives t' <= receives t + r ∧ closes t' <= closes t + c.

Lemma within_refl {T} s r c (t : metered T) : within s r c t t.
Proof. unfold within. lia. Qed.
Lemma within_trans {T} s r c s' r' c' (t1 t2 t3 : metered T) :
  within s r c t1 t2 → within s' r' c' t2 t3 → within (s + s') (r + r') (c + c') t1 t3.
Proof. unfold within. lia. Qed.
Lemma within_mono {T} s r c s' r' c' (t1 t2 : metered T) :
  s <= s' → r <= r' → c <= c' → within s r c t1 t2 → within s' r' c' t1 t2.
Proof. unfold within. lia. Qed.

(** States that hold a metered transport. *)
Class Metered (X T : Type) := meter : X → metered T.
#[export] Instance session_metered {T} : Metered (Session (metered T)) T := transport.
#[export] Instance world_metered {T C Sink} : Metered (world (metered T) C Sink) T := λ w, transport (w_session w).

Section calls.
Context {X T : Type} `{!Metered X T}.

(** A program all of whose runs stay within these calls. *)
Definition calls {E A} (m : prog X E A) (s r c : nat) : Prop :=
  ∀ x, wp m x (λ _ x', within s r c (meter x) (meter x')).

Lemma calls_bind {E A B} (m : prog X E A) (f : A → prog X E B) s r c s' r' c' :
  calls m s r c → (∀ a, calls (f a) s' r' c') → calls (m ≫= f) (s + s') (r + r') (c + c').
Proof.
  intros Hm Hf x. apply wp_bind. eapply wp_mono; [apply Hm|]. intros [a|e|] x1 H1.
  - eapply wp_mono; [apply Hf|]. intros o x2 H2. by eapply within_trans.
  - eapply within_mono; [..|exact H1]; lia.
  - eapply within_mono; [..|exact H1]; lia.
Qed.

Lemma calls_mono {E A} (m : prog X E A) s r c s' r' c' : calls m s r c → s <= s' → r <= r' → c <= c' → calls m s' r' c'.
Proof. intros Hm ? ? ? x. eapply wp_mono; [apply Hm|]. intros o x'. by apply within_mono. Qed.

Lemma calls_ret {E A} (a : A) : calls (mret a : prog X E A) 0 0 0.
Proof. intros x. apply wp_ret, within_refl. Qed.
Lemma calls_throw {E A} e : calls (throw e : prog X E A) 0 0 0.
Proof. intros x. apply wp_throw, within_refl. Qed.
Lemma calls_gets {E A} (f : X → A) : calls (gets f : prog X E A) 0 0 0.
Proof. intros x. apply wp_gets, within_refl. Qed.
Lemma calls_lift {E A} (o : outcome E A) : calls (lift o : prog X E A) 0 0 0.
Proof. intros x. apply wp_lift, within_refl. Qed.
Lemma calls_modify {E} f : (∀ x, meter (f x) = meter x) → calls (modify f : prog X E ()) 0 0 0.
Proof. intros Hf x. apply wp_modify. rewrite Hf. apply within_refl. Qed.

Lemma calls_attempt {E F A} (m : prog X E A) s r c : calls m s r c → calls (attempt m : prog X F (outcome E A)) s r c.
Proof. intros Hm x. apply wp_attempt. eapply wp_mono; [apply Hm|]. by intros [a|e|] x' H. Qed.

(** A step that does not call the transport. *)
Lemma calls_quiet {E A B} (m : prog X E A) (f : A → prog X E B) s r c :
  calls m 0 0 0 → (∀ a, calls (f a) s r c) → calls (m ≫= f) s r c.
Proof. intros Hm Hf. by apply (calls_bind m f 0 0 0 s r c). Qed.
End calls.

(* ------------------------------------------------------------------ *)
(** ** Session methods                                                 *)
(* ------------------------------------------------------------------ *)

Section session.
Context {T : Type} `{Htransport : !Transport T}.
Abbreviation sprog := (prog (Session (metered T)) SessionError).

Lemma calls_send d : calls (send d : sprog _) 1 0 0.
Proof.
  intros x. unfold send. apply wp_bind, wp_map_error. unfold wp, on_transport. cbn.
  destruct (send_frame d (inner (transport x))) as [[n|e|] u]; cbn; try apply wp_ret; unfold within, meter, session_metered; cbn; lia.
Qed.
Lemma calls_recv phase : calls (recv phase : sprog _) 0 1 0.
Proof.
  intros x. unfold recv. apply wp_bind, wp_gets, wp_map_error. unfold wp, on_transport. cbn.
  destruct (recv_frame _ (inner (transport x))) as [[n|e|] u]; cbn; unfold within, meter, session_metered; cbn; lia.
Qed.
Lemma calls_close : calls (close : sprog _) 0 0 1.
Proof.
  intros x. unfold close. apply wp_bind, wp_modify, wp_map_error. unfold wp, on_transport. cbn.
  destruct (close_transport (inner (transport x))) as [[n|e|] u]; cbn; unfold within, meter, session_metered; cbn; lia.
Qed.
Lemma calls_next_pcktid : calls (next_pcktid : sprog _) 0 0 0.
Proof.
  unfold next_pcktid. apply (calls_bind _ _ 0 0 0 0 0 0); [apply calls_gets|]. intros p.
  apply (calls_bind _ _ 0 0 0 0 0 0); [by apply calls_modify|]. intros _. apply calls_gets.
Qed.

(** The loops: one receive a round. *)
Lemma calls_recv_until n want phase : calls (recv_until_l1_ctrl n want phase : sprog _) 0 n 0.
Proof.
  induction n as [|n IH]; cbn [recv_until_l1_ctrl]; [apply calls_throw|].
  apply (calls_bind _ _ 0 1 0 0 n 0); [apply calls_recv|]. intros b.
  destruct (parse b) as [f|e|]; [|exact IH|eapply calls_mono; [apply calls_lift|lia..]].
  destruct (control f =? want)%Z; [eapply calls_mono; [apply calls_ret|lia..]|exact IH].
Qed.

Lemma calls_recv_l2 n want phase : calls (recv_l2_with_pkt_id n want phase : sprog _) 0 n 0.
Proof.
  induction n as [|n IH]; cbn [recv_l2_with_pkt_id]; [apply calls_throw|].
  apply (calls_bind _ _ 0 1 0 0 n 0); [apply calls_recv|]. intros b.
  destruct (parse b) as [f|e|]; [|exact IH|eapply calls_mono; [apply calls_lift|lia..]].
  destruct (negb _); [exact IH|]. apply calls_quiet; [apply calls_lift|]. intros [[hdr data]|]; [|exact IH].
  destruct (pkt_id hdr =? want)%Z; [eapply calls_mono; [apply calls_ret|lia..]|exact IH].
Qed.

Lemma calls_recv_init n want bt : calls (recv_init_from_target n want bt : sprog _) 0 (n * 12) 0.
Proof.
  induction n as [|n IH]; cbn [recv_init_from_target]; [apply calls_throw|].
  apply (calls_bind _ _ 0 12 0 0 (n * 12) 0); [apply calls_recv_until|]. intros b.
  destruct (parse b) as [f|e|]; [|exact IH|eapply calls_mono; [apply calls_lift|lia..]].
  apply calls_quiet; [apply calls_lift|]. intros [[hdr data]|]; [|exact IH].
  destruct (negb _); [exact IH|]. destruct (negb _); [exact IH|eapply calls_mono; [apply calls_ret|lia..]].
Qed.

Lemma calls_logon_loop n pkt acc : calls (logon_loop n pkt acc : sprog _) 0 (n * 12) 0.
Proof.
  revert acc. induction n as [|n IH]; intros acc; cbn [logon_loop]; [apply calls_ret|].
  apply (calls_bind _ _ 0 12 0 0 (n * 12) 0); [apply calls_attempt, calls_recv_until|].
  intros [b|e|]; [|eapply calls_mono; [apply calls_ret|lia..]|eapply calls_mono; [apply calls_lift|lia..]].
  destruct (parse b) as [f|e|]; [|apply IH|eapply calls_mono; [apply calls_lift|lia..]].
  apply calls_quiet; [apply calls_lift|]. intros [[hdr data]|]; [|apply IH].
  destruct (negb _); [apply IH|]. destruct (_ =? 0)%Z; [eapply calls_mono; [apply calls_ret|lia..]|apply IH].
Qed.

Lemma calls_collect n pkt acc : calls (collect_fragments n pkt acc : sprog _) 0 (n * 16) 0.
Proof.
  revert acc. induction n as [|n IH]; intros acc; cbn [collect_fragments]; [apply calls_ret|].
  apply (calls_bind _ _ 0 16 0 0 (n * 16) 0); [apply calls_recv_l2|]. intros [_ reply].
  destruct (negb _); [eapply calls_mono; [apply calls_throw|lia..]|].
  do 2 (case_decide; [eapply calls_mono; [apply calls_ret|lia..]|]). apply IH.
Qed.

Lemma calls_hello : calls (hello_phase : sprog _) 2 1 0.
Proof.
  unfold hello_phase. apply (calls_bind _ _ 1 0 0 1 1 0); [apply calls_send|]. intros _.
  apply (calls_bind _ _ 0 1 0 1 0 0); [apply calls_recv|]. intros b. apply calls_quiet; [apply calls_lift|]. intros f.
  destruct (negb _); [eapply calls_mono; [apply calls_throw|lia..]|].
  case_decide; [eapply calls_mono; [apply calls_throw|lia..]|]. apply calls_quiet; [apply calls_lift|]. intros fw.
  destruct (fw <? 4)%Z; [eapply calls_mono; [apply calls_throw|lia..]|]. apply calls_quiet; [apply calls_lift|]. intros net.
  apply (calls_bind _ _ 1 0 0 0 0 0); [apply calls_send|]. intros _. apply calls_ret.
Qed.

Lemma calls_handshake now : calls (handshake_and_logon now : sprog _) 5 397 0.
Proof.
  unfold handshake_and_logon. apply calls_quiet; [by apply calls_modify|]. intros _.
  do 2 (apply calls_quiet; [apply calls_gets|]; intros ?).
  apply (calls_bind _ _ 2 1 0 3 396 0); [apply calls_hello|]. intros [net bt].
  apply (calls_bind _ _ 0 12 0 3 384 0); [apply calls_recv_until|]. intros topo. apply calls_quiet; [apply calls_lift|]. intros _.
  apply calls_quiet; [by apply calls_modify|]. intros _. apply calls_quiet; [apply calls_next_pcktid|]. intros p1.
  apply (calls_bind _ _ 1 0 0 2 384 0); [apply calls_send|]. intros _.
  apply (calls_bind _ _ 0 192 0 2 192 0); [apply (calls_recv_init 16)|]. intros init.
  apply calls_quiet; [by apply calls_modify|]. intros _. apply calls_quiet; [apply calls_next_pcktid|]. intros p2.
  apply (calls_bind _ _ 1 0 0 1 192 0); [apply calls_send|]. intros _. apply calls_quiet; [apply calls_next_pcktid|]. intros p3.
  apply (calls_bind _ _ 1 0 0 0 192 0); [apply calls_send|]. intros _.
  apply (calls_bind _ _ 0 192 0 0 0 0); [apply (calls_logon_loop 16)|]. intros [logged rej].
  unfold logon_verdict. destruct logged; [by apply calls_modify|]. destruct rej as [r|]; [|apply calls_throw]. destruct (_ =? _)%Z; apply calls_throw.
Qed.

Lemma calls_query susy serial kind : calls (query_for_device susy serial kind : sprog _) 1 16 0.
Proof.
  unfold query_for_device. apply calls_quiet; [apply calls_gets|]. intros st.
  destruct (negb _); [eapply calls_mono; [apply calls_throw|lia..]|]. apply calls_quiet; [apply calls_next_pcktid|]. intros p.
  do 2 (apply calls_quiet; [apply calls_gets|]; intros ?). apply (calls_bind _ _ 1 0 0 0 16 0); [apply calls_send|]. intros _.
  apply (calls_bind _ _ 0 16 0 0 0 0); [apply (calls_recv_l2 16)|]. intros [? ?]. apply calls_ret.
Qed.

Lemma calls_event_log susy serial a b : calls (query_event_log_for_device susy serial a b : sprog _) 1 512 0.
Proof.
  unfold query_event_log_for_device. apply calls_quiet; [apply calls_gets|]. intros st.
  destruct (negb _); [eapply calls_mono; [apply calls_throw|lia..]|]. apply calls_quiet; [apply calls_next_pcktid|]. intros p.
  do 2 (apply calls_quiet; [apply calls_gets|]; intros ?). apply (calls_bind _ _ 1 0 0 0 512 0); [apply calls_send|]. intros _.
  apply (calls_collect 32).
Qed.

Lemma calls_graceful_close : calls (graceful_close : sprog _) 1 0 1.
Proof.
  unfold graceful_close. apply calls_quiet; [apply calls_gets|]. intros st.
  apply (calls_bind _ _ 1 0 0 0 0 1); [|intros _; apply calls_close].
  destruct (bool_decide _); [|eapply calls_mono; [apply calls_ret|lia..]]. apply calls_quiet; [apply calls_next_pcktid|]. intros p.
  do 2 (apply calls_quiet; [apply calls_gets|]; intros ?). apply (calls_bind _ _ 1 0 0 0 0 0); [apply calls_attempt, calls_send|].
  intros _. apply calls_ret.
Qed.
End session.

(* ------------------------------------------------------------------ *)
(** ** The poll tick                                                   *)
(* ------------------------------------------------------------------ *)

Section tick.
Context {T C ClientError Sink SinkError : Type} `{Htransport : !Transport T} `{Hclient : !MqttClient C ClientError}
  `{Hsink : !ReadingSink Sink SinkError}.
Context (instants : nat → Z) (utc : nat → DateTime).
Abbreviation dprog := (prog (world (metered T) C Sink) Empty_set).

(** What only touches the rest of the world. *)
Lemma calls_publisher {A} (m : prog (DiscoveryPublisher C) (PublisherError ClientError) A) : calls (on_publisher m : dprog _) 0 0 0.
Proof. intros w. apply wp_on_publisher. unfold wp. destruct (m (w_publisher w)). apply within_refl. Qed.
Lemma calls_value id key text : calls (value id key text : dprog _) 0 0 0.
Proof. apply calls_quiet; [apply calls_publisher|intros; apply calls_ret]. Qed.
Lemma calls_on_session {A} (m : prog (Session (metered T)) SessionError A) s r c :
  calls m s r c → calls (on_session m : dprog _) s r c.
Proof. intros Hm w. specialize (Hm (w_session w)). unfold wp, on_session in *. destruct (m (w_session w)) as [o x]. exact Hm. Qed.
Lemma calls_instant_now : calls (instant_now instants : dprog _) 0 0 0.
Proof. apply calls_quiet; [apply calls_gets|]. intros n. apply calls_quiet; [by apply calls_modify|intros; apply calls_ret]. Qed.
Lemma calls_utc_now : calls (utc_now utc : dprog _) 0 0 0.
Proof. apply calls_quiet; [apply calls_gets|]. intros n. apply calls_quiet; [by apply calls_modify|intros; apply calls_ret]. Qed.

Lemma calls_record id metric v : calls (record utc id metric v : dprog _) 0 0 0.
Proof.
  unfold record. apply calls_quiet; [apply calls_gets|]. intros [sink|]; [|apply calls_ret].
  apply calls_quiet; [apply calls_utc_now|]. intros now. destruct (sink_write _ _ _ _ _ _) as [o sink'].
  apply calls_quiet; [by apply calls_modify|]. intros _. destruct o; [apply calls_ret|apply calls_ret|apply calls_lift].
Qed.

Lemma calls_when_some {A} (o : option A) (f : A → dprog ()) : (∀ a, calls (f a) 0 0 0) → calls (when_some o f) 0 0 0.
Proof. intros Hf. destruct o; [apply Hf|apply calls_ret]. Qed.
Lemma calls_gauge f l v : calls (gauge f l v : dprog _) 0 0 0.
Proof. by apply calls_modify. Qed.

Lemma calls_query_result kind body id lbl : calls (publish_query_result utc kind body id lbl : dprog _) 0 0 0.
Proof.
  destruct kind; cbn [publish_query_result]; unfold_arms; try apply calls_ret.
  all: repeat first
    [ apply calls_lift | apply calls_gauge | apply calls_value | apply calls_record
    | apply calls_quiet; [|intros ?] | apply calls_when_some; intros ? ].
Qed.

Lemma calls_query_target cfg t kinds :
  calls (query_target utc cfg t kinds : dprog _) (length kinds) (16 * length kinds) 0.
Proof.
  induction kinds as [|kind kinds IH]; cbn [query_target length]; [apply calls_ret|].
  replace (16 * S (length kinds)) with (16 + 16 * length kinds) by lia.
  apply (calls_bind _ _ 1 16 0 (length kinds) (16 * length kinds) 0); [apply calls_on_session, calls_query|].
  intros [body|e|].
  - apply calls_quiet; [apply calls_query_result|intros _; exact IH].
  - eapply (calls_mono _ 0 0 0); [|lia..]. apply calls_quiet; [by apply calls_modify|]. intros _.
    apply calls_quiet; [apply calls_value|intros _; apply calls_ret].
  - eapply (calls_mono _ 0 0 0); [apply calls_lift|lia..].
Qed.

Lemma calls_set_failures serial n : calls (set_failures serial n : dprog _) 0 0 0.
Proof. apply calls_quiet; [apply calls_gets|]. intros c. by apply calls_modify. Qed.
Lemma calls_set_skip f : calls (set_skip f : dprog _) 0 0 0.
Proof. apply calls_quiet; [apply calls_gets|]. intros c. by apply calls_modify. Qed.

Lemma calls_gate serial : calls (cooldown_gate instants serial : dprog _) 0 0 0.
Proof.
  unfold cooldown_gate. apply calls_quiet; [apply calls_gets|]. intros c. destruct (_ !! _); [|apply calls_ret].
  apply calls_quiet; [apply calls_instant_now|]. intros now. destruct (_ <? _)%Z; [apply calls_ret|].
  apply calls_quiet; [apply calls_set_skip|intros _; apply calls_ret].
Qed.

Lemma calls_target_polled start t : calls (target_polled utc start t : dprog _) 0 0 0.
Proof.
  unfold target_polled. apply calls_quiet; [apply calls_set_failures|]. intros _. apply calls_quiet; [apply calls_utc_now|]. intros now.
  do 3 (apply calls_quiet; [apply calls_value|]; intros _). apply calls_value.
Qed.
Lemma calls_target_failed t : calls (target_failed instants t : dprog _) 0 0 0.
Proof.
  unfold target_failed. apply calls_quiet; [apply calls_gets|]. intros c. apply calls_quiet; [apply calls_set_failures|]. intros _.
  apply calls_quiet; [apply calls_value|]. intros _. destruct (_ <=? _)%Z; [|apply calls_ret].
  apply calls_quiet; [apply calls_instant_now|]. intros now. apply calls_set_skip.
Qed.

Lemma calls_sweep cfg start ts n : calls (sweep instants utc cfg start ts n : dprog _) (12 * length ts) (192 * length ts) 0.
Proof.
  revert n. induction ts as [|t ts IH]; intros n; cbn [sweep length]; [apply calls_ret|].
  replace (12 * S (length ts)) with (12 + 12 * length ts) by lia. replace (192 * S (length ts)) with (192 + 192 * length ts) by lia.
  apply calls_quiet; [apply calls_gate|]. intros [|]; [eapply calls_mono; [apply IH|lia..]|].
  apply (calls_bind _ _ 12 192 0 (12 * length ts) (192 * length ts) 0); [apply (calls_query_target cfg t per_tick_queries)|].
  intros [| |e]; [..|eapply (calls_mono _ 0 0 0); [apply calls_ret|lia..]].
  - apply calls_quiet; [apply calls_target_polled|]. intros _. apply IH.
  - apply calls_quiet; [apply calls_target_failed|]. intros _. apply IH.
Qed.

Lemma calls_poll_tick cfg start ts n :
  calls (poll_tick instants utc cfg start ts n : dprog _) (12 * length ts + 1) (192 * length ts) 1.
Proof.
  unfold poll_tick. apply calls_quiet; [by apply calls_modify|]. intros _. cbv zeta. destruct (_ && _).
  - eapply (calls_mono _ 1 0 1); [|lia..]. apply (calls_bind _ _ 1 0 1 0 0 0); [apply calls_on_session, calls_graceful_close|]. intros _.
    apply calls_quiet; [apply calls_instant_now|]. intros now. apply calls_quiet; [apply calls_gets|]. intros l.
    apply calls_quiet; [by apply calls_modify|intros _; apply calls_ret].
  - eapply (calls_mono _ (12 * length ts) (192 * length ts) 0); [|lia..].
    replace (12 * length ts) with (12 * length ts + 0) by lia. replace (192 * length ts) with (192 * length ts + 0) by lia.
    apply (calls_bind _ _ _ _ 0 0 0 0); [apply calls_sweep|]. intros [published [e|]]; [apply calls_ret|].
    apply calls_quiet; [|intros _; apply calls_ret]. unfold note_success. destruct (_ <? _)%Z; [|apply calls_ret].
    apply calls_quiet; [apply calls_utc_now|]. intros now. by apply calls_modify.
Qed.
End tick.

(* ------------------------------------------------------------------ *)
(** ** Property                                                        *)
(* ------------------------------------------------------------------ *)

(** C12. Every wait of the daemon is bounded, whatever the other side does: on
    any transport at all a handshake makes at most 5 sends and 397 receives, a
    query 1 and 16, an event-log query 1 and 512, a graceful close one send
    and one close; so with a receive timeout of [t] no method waits longer
    than that many times [t].  A poll tick over [n] targets makes at most
    [12 n + 1] sends, [192 n] receives and one close, however it ends. *)
Theorem waits_are_bounded {T C ClientError Sink SinkError} `{!Transport T} `{!MqttClient C ClientError} `{!ReadingSink Sink SinkError}
    (instants : nat → Z) (utc : nat → DateTime) (cfg : InverterCfg) (start : DateTime) (ts : list target) (count : Z)
    (now susy serial t1 t2 : Z) (k : QueryKind) :
  calls (handshake_and_logon now : prog (Session (metered T)) _ _) 5 397 0 ∧
  calls (query_for_device susy serial k : prog (Session (metered T)) _ _) 1 16 0 ∧
  calls (query_event_log_for_device susy serial t1 t2 : prog (Session (metered T)) _ _) 1 512 0 ∧
  calls (graceful_close : prog (Session (metered T)) _ _) 1 0 1 ∧
  calls (poll_tick instants utc cfg start ts count : prog (world (metered T) C Sink) _ _)
    (12 * length ts + 1) (192 * length ts) 1.
Proof.
  split; [apply calls_handshake|]. split; [apply calls_query|]. split; [apply calls_event_log|].
  split; [apply calls_graceful_close|]. apply calls_poll_tick.
Qed.

(** The bound on a handshake is reached by a device that keeps its reply back:
    397 receives, the last of them in the logon phase. *)
Example handshake_bound_is_tight :
  let noise := fake_reply 9 0 0 77 [] in
  let wrong := build (extend (new_with_kind L1Only test_inverter test_local 9) []) in
  let replies := [fake_hello] ++ replicate 11 wrong ++ [fake_topology]
    ++ concat (replicate 15 (replicate 11 wrong ++ [noise])) ++ replicate 11 wrong ++ [fake_init_reply]
    ++ concat (replicate 16 (replicate 11 wrong ++ [noise])) in
  let '(r, s) := handshake_and_logon 0 (new_with_app_serial (mkMetered (Mock.queue_replies replies Mock.new) 0 0 0) test_cfg 1) in
  r = Err (Silent "logon") ∧ sends (transport s) = 5 ∧ receives (transport s) = 397.
Proof. vm_compute. done. Qed.
