(* ===== verification/Pvoutput.v ===== *)
(** * PVOutput upload (crates/daemon/src/pvoutput.rs, pvoutput_uploader.rs)

    The form body of a status, the status read off the metrics registry, and
    the uploader task.  The HTTP client (reqwest) and the timer are parameters:
    the model says which requests are made at which ticks.  Theorems: the form
    reads back, the range of the uploaded numbers, and that readings of integer
    size arrive unchanged. *)
From Stdlib Require Import String Ascii SpecFloat.
From stdpp Require Import gmap pretty.
From S2P Require Import Prelude Text Metrics Config.

Local Open Scope string_scope.
Local Open Scope list_scope.
Local Open Scope Z_scope.

(* ------------------------------------------------------------------ *)
(** ** pvoutput.rs                                                     *)
(* ------------------------------------------------------------------ *)

Record Status : Type := mkStatus {
  timestamp : DateTime;
  st_energy_today_wh : option Z;
  power_w : option Z;
  temperature_c : option f32;
  voltage_v : option f32
}.

(** chrono's [%Y]: four digits, a sign outside of 0 to 9999. *)
Definition show_year (y : Z) : string :=
  if (0 <=? y) && (y <=? 9999) then pad 4 y else (if y <? 0 then "-" else "+") +:+ pad 4 (Z.abs y).
Definition show_date (t : DateTime) : string := show_year (year t) +:+ pad 2 (month t) +:+ pad 2 (day t).
Definition show_clock (t : DateTime) : string := pad 2 (hour t) +:+ ":" +:+ pad 2 (minute t).

(** [{:02X}] of a character's code. *)
Definition hex_digit (d : Z) : ascii := ascii_of_nat (Z.to_nat (if d <? 10 then 48 + d else 55 + d)).
Fixpoint hex_digits (fuel : nat) (z : Z) (acc : string) : string :=
  match fuel with
  | O => acc
  | S fuel => if z <=? 0 then acc else hex_digits fuel (z / 16) (String (hex_digit (z mod 16)) acc)
  end.
Definition show_02X (c : Z) : string :=
  let s := hex_digits 6 c "" in zeros (2 - String.length s) +:+ s.

(** The characters left as they are. *)
Definition is_unreserved (c : Z) : bool :=
  ((97 <=? c) && (c <=? 122)) || ((65 <=? c) && (c <=? 90)) || ((48 <=? c) && (c <=? 57))
  || (c =? 45) || (c =? 95) || (c =? 46) || (c =? 126).

(** [urlencode], by the characters of the text. *)
Definition urlencode_char (c : Z) : string :=
  if is_unreserved c then String (ascii_of_nat (Z.to_nat c)) "" else "%" +:+ show_02X c.
Fixpoint urlencode (chars : list Z) : string :=
  match chars with [] => "" | c :: chars => urlencode_char c +:+ urlencode chars end.

(** [build_status_body] *)
Definition build_status_body (s : Status) : string :=
  let parts :=
    ["d=" +:+ show_date (timestamp s); "t=" +:+ urlencode (bytes_of (show_clock (timestamp s)))]
    ++ from_option (λ v, ["v1=" +:+ pretty v]) [] (st_energy_today_wh s)
    ++ from_option (λ v, ["v2=" +:+ pretty v]) [] (power_w s)
    ++ from_option (λ v, ["v5=" +:+ show_fixed 1 v]) [] (temperature_c s)
    ++ from_option (λ v, ["v6=" +:+ show_fixed 1 v]) [] (voltage_v s) in
  join "&" parts.

(** [status_at]: an energy beyond 32 bits is left out. *)
Definition status_at (t : DateTime) (energy_today_wh : option Z) (power_w : option Z) (temperature_c voltage_v : option f32) : Status :=
  mkStatus t (v ← energy_today_wh; if (0 <=? v) && (v <? 2 ^ 32) then Some v else None) power_w temperature_c voltage_v.

(** [status_from_unix]; [timestamp_opt] is chrono's, [unwrap] may panic. *)
Definition status_from_unix (timestamp_opt : Z → option DateTime) (unix_secs : Z) (energy_today_wh power_w : option Z)
    (temperature_c voltage_v : option f32) : outcome Empty_set Status :=
  match timestamp_opt unix_secs with
  | Some t => Ok (status_at t energy_today_wh power_w temperature_c voltage_v)
  | None => Panic
  end.

(* ------------------------------------------------------------------ *)
(** ** pvoutput_uploader.rs                                            *)
(* ------------------------------------------------------------------ *)

Definition ENDPOINT : string := "https://pvoutput.org/service/r2/addstatus.jsp".

(** [UploaderTask], the shared registry aside. *)
Record UploaderTask : Type := mkUploaderTask {
  u_api_key : string; u_system_id : Z; device_slot : string; device_inner_slot : string; interval : Z
}.

Definition task_labels (task : UploaderTask) : DeviceLabels := mkDeviceLabels (device_slot task) (device_inner_slot task).

(** [collect_status]: the status made of the four readings; reading a gauge
    creates its series. *)
Definition status_of (now : DateTime) (p e v t : f64) : option Status :=
  let power := to_unsigned (2 ^ 32 - 1) p in
  let energy := to_unsigned (2 ^ 64 - 1) e in
  let voltage := f64_to_f32 v in
  let temp := f64_to_f32 t in
  if (power =? 0) && (energy =? 0) then None
  else Some (mkStatus now (Some (energy mod 2 ^ 32)) (Some power)
               (if is_positive temp then Some temp else None) (if is_positive voltage then Some voltage else None)).

Definition collect_status (task : UploaderTask) (now : DateTime) (m : MetricsRegistry) : option Status * MetricsRegistry :=
  let lbl := task_labels task in
  let '(p, m) := get_gauge ac_power_watts lbl m in
  let '(e, m) := get_gauge energy_today_wh lbl m in
  let '(v, m) := get_gauge ac_voltage_l1 lbl m in
  let '(t, m) := get_gauge inverter_temperature_c lbl m in
  (status_of now p e v t, m).

Record Request : Type := mkRequest { url : string; rq_headers : list (string * string); rq_body : string }.

(** One tick of the uploader: the request it hands to the client, if any.  The
    client may still refuse to send it (a key that is no header value); like an
    answer, that is only logged. *)
Definition upload_tick (task : UploaderTask) (now : DateTime) (m : MetricsRegistry) : option Request * MetricsRegistry :=
  let '(s, m) := collect_status task now m in
  ((λ s, mkRequest ENDPOINT [("X-Pvoutput-Apikey", u_api_key task); ("X-Pvoutput-SystemId", pretty (u_system_id task))]
           (build_status_body s)) <$> s, m).

(** [upload_loop], as long as these ticks last: the requests made.  Without a
    client nothing; the first tick fires at once and uploads nothing.  A tick
    finds the registry as the other tasks left it; answers are only logged. *)
Definition upload_loop (client_built : bool) (task : UploaderTask) (ticks : list (DateTime * MetricsRegistry)) :
  outcome Empty_set (list Request) :=
  if client_built then
    tokio_interval (interval task);;
    Ok (omap (λ t, (upload_tick task t.1 t.2).1) (drop 1 ticks))
  else Ok [].

(** The body of the unit tests. *)
Example build_status_body_test :
  let t := mkTime 0 2026 4 19 9 5 "" in
  build_status_body (mkStatus t (Some 420) (Some 180) (Some (f32_div (to_f32 247) 10)) (Some (f32_div (to_f32 23012) 100)))
  = "d=20260419&t=09%3A05&v1=420&v2=180&v5=24.7&v6=230.1" ∧
  build_status_body (mkStatus t None None None None) = "d=20260419&t=09%3A05" ∧
  urlencode (bytes_of "abc-def_ghi.jkl~") = "abc-def_ghi.jkl~".
Proof. vm_compute. done. Qed.

(* ------------------------------------------------------------------ *)
(** ** Specification: reading a form                                   *)
(* ------------------------------------------------------------------ *)

Definition hex_digit_value (c : ascii) : option Z :=
  let v := Z.of_nat (nat_of_ascii c) in
  if (48 <=? v) && (v <=? 57) then Some (v - 48) else if (65 <=? v) && (v <=? 70) then Some (v - 55) else None.

(** Percent-decoding, character by character. *)
Fixpoint urldecode (s : string) : option (list Z) :=
  match s with
  | EmptyString => Some []
  | String "%" (String h (String l s)) =>
      h ← hex_digit_value h; l ← hex_digit_value l; rest ← urldecode s; Some (16 * h + l :: rest)
  | String c s => rest ← urldecode s; Some (Z.of_nat (nat_of_ascii c) :: rest)
  end.

(** A form: its parts, each a name, [=] and a value. *)
Definition form_fields (body : string) : list (list string) := map (split_at "=") (split_at "&" body).

(** The fields of a status: names and texts. *)
Definition status_parts (s : Status) : list (string * string) :=
  [("d", show_date (timestamp s)); ("t", pad 2 (hour (timestamp s)) +:+ "%3A" +:+ pad 2 (minute (timestamp s)))]
  ++ from_option (λ v, [("v1", pretty v)]) [] (st_energy_today_wh s)
  ++ from_option (λ v, [("v2", pretty v)]) [] (power_w s)
  ++ from_option (λ v, [("v5", show_fixed 1 v)]) [] (temperature_c s)
  ++ from_option (λ v, [("v6", show_fixed 1 v)]) [] (voltage_v s).

(* ------------------------------------------------------------------ *)
(** ** Lemmas: percent-encoding                                        *)
(* ------------------------------------------------------------------ *)

(** How one byte is encoded, by evaluation on all of them. *)
Lemma urlencode_byte c : is_u8 c →
  (∃ a, urlencode_char c = String a "" ∧ Z.of_nat (nat_of_ascii a) = c ∧ Ascii.eqb a "%" = false) ∨
  (∃ h l x y, urlencode_char c = String "%" (String h (String l "")) ∧ hex_digit_value h = Some x ∧ hex_digit_value l = Some y ∧ 16 * x + y = c).
Proof.
  intros Hc. pose (ok c := match urlencode_char c with
    | String a "" => (Z.of_nat (nat_of_ascii a) =? c) && negb (Ascii.eqb a "%")
    | String a (String h (String l "")) =>
        Ascii.eqb a "%" && match hex_digit_value h, hex_digit_value l with Some x, Some y => 16 * x + y =? c | _, _ => false end
    | _ => false
    end).
  assert (H : ok c = true) by (revert c Hc; apply byte_forall; vm_compute; reflexivity). unfold ok in H.
  destruct (urlencode_char c) as [|a [|h [|l [|]]]]; try done; apply andb_true_iff in H as [H1 H2].
  - left. exists a. apply Z.eqb_eq in H1. apply negb_true_iff in H2. done.
  - right. apply Ascii.eqb_eq in H1 as ->. destruct (hex_digit_value h) as [x|] eqn:Hx; [|done].
    destruct (hex_digit_value l) as [y|] eqn:Hy; [|done]. exists h, l, x, y. apply Z.eqb_eq in H2. done.
Qed.

Lemma urldecode_plain a s : Ascii.eqb a "%" = false →
  urldecode (String a s) = rest ← urldecode s; Some (Z.of_nat (nat_of_ascii a) :: rest).
Proof. by destruct a as [[] [] [] [] [] [] [] []]. Qed.

Lemma urldecode_encode cs : bytes cs → urldecode (urlencode cs) = Some cs.
Proof.
  induction 1 as [|c cs Hc Hcs IH]; [done|]. cbn [urlencode].
  destruct (urlencode_byte c Hc) as [(a & -> & Ha & Hp)|(h & l & x & y & -> & Hx & Hy & Hv)].
  - rewrite append_cons, append_nil, urldecode_plain, IH by done. cbn. by rewrite Ha.
  - rewrite !append_cons, append_nil. cbn [urldecode]. rewrite Hx, Hy, IH. cbn. by rewrite Hv.
Qed.

Lemma bytes_of_append a b : bytes_of (a +:+ b) = bytes_of a ++ bytes_of b.
Proof. induction a as [|c a IH]; [done|]. rewrite append_cons. unfold bytes_of in *. cbn. by rewrite IH. Qed.
Lemma urlencode_append a b : urlencode (a ++ b) = urlencode a +:+ urlencode b.
Proof. induction a as [|c a IH]; [done|]. cbn [app urlencode]. by rewrite IH, append_assoc. Qed.
Lemma urlencode_digits s : all_chars is_digit s = true → urlencode (bytes_of s) = s.
Proof.
  induction s as [|c s IH]; [done|]. cbn [all_chars]. intros [Hc Hs]%andb_true_iff. unfold bytes_of in *.
  cbn [list_ascii_of_string map urlencode]. rewrite IH by done.
  assert (Hu : urlencode_char (Z.of_nat (nat_of_ascii c)) = String c "").
  { destruct c as [[] [] [] [] [] [] [] []]; vm_compute in Hc; try discriminate Hc; vm_compute; reflexivity. }
  by rewrite Hu.
Qed.

Lemma show_clock_encoded t : time_ok t →
  urlencode (bytes_of (show_clock t)) = pad 2 (hour t) +:+ "%3A" +:+ pad 2 (minute t).
Proof.
  intros (_ & _ & _ & Hh & Hm). unfold show_clock. rewrite !bytes_of_append, !urlencode_append.
  by rewrite !(urlencode_digits (pad _ _)) by (apply pad_digits; lia).
Qed.

(* ------------------------------------------------------------------ *)
(** ** Lemmas: the form                                                *)
(* ------------------------------------------------------------------ *)

Lemma show_date_plain c t : separates c = true → time_ok t → has_char c (show_date t) = false.
Proof.
  intros Hs (Hy & _). destruct (separates_text c Hs) as (_ & Hp & _). unfold show_date, show_year.
  rewrite (proj2 (Z.leb_le 0 (year t))), (proj2 (Z.leb_le (year t) 9999)) by lia. cbn [andb]. by rewrite !has_char_append, !Hp.
Qed.

(** A part [name=value] of the form, by separator-free texts. *)
Definition form_part (p : string * string) : string := p.1 +:+ "=" +:+ p.2.
Definition part_ok (p : string * string) : Prop :=
  has_char "&" (form_part p) = false ∧ has_char "=" p.1 = false ∧ has_char "=" p.2 = false.

Lemma form_reads_back (ps : list (string * string)) :
  ps ≠ [] → Forall part_ok ps → form_fields (join "&" (map form_part ps)) = map (λ p, [p.1; p.2]) ps.
Proof.
  intros Hne Hps. unfold form_fields. rewrite split_join.
  - rewrite map_map. apply map_ext_Forall. eapply Forall_impl; [exact Hps|]. intros [n v] (_ & Hn & Hv). cbn.
    unfold form_part. cbn [fst snd]. rewrite append_cons, append_nil, split_at_cons by done. by rewrite split_at_none.
  - by destruct ps.
  - apply Forall_map. eapply Forall_impl; [exact Hps|]. by intros p (H & _).
Qed.

Lemma body_parts s : time_ok (timestamp s) → build_status_body s = join "&" (map form_part (status_parts s)).
Proof.
  intros Ht. unfold build_status_body, status_parts. rewrite show_clock_encoded by done. cbv zeta. f_equal.
  by destruct (st_energy_today_wh s), (power_w s), (temperature_c s), (voltage_v s).
Qed.

Lemma status_parts_ok s : time_ok (timestamp s) → Forall part_ok (status_parts s).
Proof.
  intros Ht.
  assert (Hpart : ∀ n v, has_char "&" n = false → has_char "=" n = false → (∀ c, separates c = true → c ≠ "%"%char → c ≠ "A"%char → has_char c v = false) → part_ok (n, v)).
  { intros n v H1 H2 Hv. split; [|split; [done|by apply Hv]]. unfold form_part. cbn [fst snd].
    by rewrite !has_char_append, H1, Hv. }
  assert (Hsome : ∀ A n (show : A → string) (o : option A), has_char "&" n = false → has_char "=" n = false →
    (∀ a c, separates c = true → has_char c (show a) = false) → Forall part_ok (from_option (λ v, [(n, show v)]) [] o)).
  { intros A n show o H1 H2 Hv. destruct o; [apply Forall_cons_2; [by apply Hpart; auto|by apply Forall_nil_2]|by apply Forall_nil_2]. }
  unfold status_parts. apply Forall_app_2; [apply Forall_cons_2; [|apply Forall_cons_2; [|by apply Forall_nil_2]]|].
  - apply Hpart; [done|done|]. intros c Hc _ _. by apply show_date_plain.
  - apply Hpart; [done|done|]. intros c Hc Hx Ha. destruct (separates_text c Hc) as (_ & Hp & _). rewrite !has_char_append, !Hp.
    apply separates_digit in Hc as [Hd _]. cbn [has_char]. rewrite (proj2 (Ascii.eqb_neq c "%")), (proj2 (Ascii.eqb_neq c "A")) by done.
    destruct (Ascii.eqb_spec c "3") as [->|]; [discriminate Hd|done].
  - repeat apply Forall_app_2; apply Hsome; try done; intros a c Hc; try (by apply separates_fixed); by apply separates_text.
Qed.

Lemma status_form s : time_ok (timestamp s) → form_fields (build_status_body s) = map (λ p, [p.1; p.2]) (status_parts s).
Proof. intros Ht. rewrite body_parts by done. apply form_reads_back; [done|by apply status_parts_ok]. Qed.

(** The power of a status is in its form. *)
Lemma power_in_form s v : time_ok (timestamp s) → power_w s = Some v → ["v2"; pretty v] ∈ form_fields (build_status_body s).
Proof.
  intros Ht Hv. rewrite status_form by done. apply list_elem_of_fmap. exists ("v2", pretty v). split; [done|].
  unfold status_parts. rewrite Hv. cbn [from_option]. rewrite !elem_of_app. right. right. left. list_in.
Qed.

(* ------------------------------------------------------------------ *)
(** ** Lemmas: the collected status                                    *)
(* ------------------------------------------------------------------ *)

Lemma to_unsigned_range max x : 0 <= max → 0 <= to_unsigned max x <= max.
Proof.
  intros Hm. destruct x as [|[]| |[] m e]; cbn [to_unsigned]; try lia. split; [|lia]. apply Z.min_glb; [|done].
  case_match; [|apply Z.div_pos; lia]. pose proof (Z.pow_nonneg 2 e). lia.
Qed.

(** What [collect_status] computes, from the values of the four gauges. *)
Definition read_status (task : UploaderTask) (now : DateTime) (m : MetricsRegistry) : option Status :=
  let g f := gauge_value f (task_labels task) m in
  status_of now (g ac_power_watts) (g energy_today_wh) (g ac_voltage_l1) (g inverter_temperature_c).

Lemma collect_status_read task now m :
  (collect_status task now m).1 = read_status task now m ∧
  ∀ f l, gauge_value f l (collect_status task now m).2 = gauge_value f l m.
Proof.
  unfold collect_status. destruct (get_gauge ac_power_watts _ m) as [p m1] eqn:E1.
  destruct (get_gauge energy_today_wh _ m1) as [e m2] eqn:E2. destruct (get_gauge ac_voltage_l1 _ m2) as [v m3] eqn:E3.
  destruct (get_gauge inverter_temperature_c _ m3) as [t m4] eqn:E4. cbn [fst snd].
  assert (Hget : ∀ f l m p m', get_gauge f l m = (p, m') → p = gauge_value f l m ∧ ∀ f' l', gauge_value f' l' m' = gauge_value f' l' m).
  { intros f l m0 p0 m' H. pose proof (λ f' l', gauge_value_get f l f' l' m0) as Hv. rewrite H in Hv. split; [|exact Hv].
    unfold get_gauge in H. congruence. }
  apply Hget in E1 as [-> H1], E2 as [-> H2], E3 as [-> H3], E4 as [-> H4].
  split; [|intros f l; by rewrite H4, H3, H2, H1]. unfold read_status. by rewrite H3, !H2, !H1.
Qed.

(* ------------------------------------------------------------------ *)
(** ** Properties                                                      *)
(* ------------------------------------------------------------------ *)

(** C24. The uploaded form reads back: split at ampersands and equals signs the
    body is exactly the fields of the status, date and time first, each
    optional one present exactly when its value is; the time decodes to the
    clock's text; the energy and the power read back as the numbers they
    were. *)
Theorem status_body_reads_back (s : Status) :
  time_ok (timestamp s) →
  let fields := form_fields (build_status_body s) in
  fields = map (λ p, [p.1; p.2]) (status_parts s) ∧
  (∀ x, ["t"; x] ∈ fields → urldecode x = Some (bytes_of (show_clock (timestamp s)))) ∧
  (∀ v x, power_w s = Some v → 0 <= v → ["v2"; x] ∈ fields → dec_value x 0 = Some v) ∧
  (∀ v x, st_energy_today_wh s = Some v → 0 <= v → ["v1"; x] ∈ fields → dec_value x 0 = Some v).
Proof.
  intros Ht fields. pose proof (status_form s Ht : fields = _) as Hf.
  assert (Hin : ∀ n x, [n; x] ∈ fields → (n, x) ∈ status_parts s).
  { intros n x. rewrite Hf. intros ([n' x'] & E & H)%list_elem_of_fmap. cbn in E. congruence. }
  clearbody fields. split; [done|]. unfold status_parts in Hin.
  split; [|split]; [intros x Hx|intros v x Hv H0 Hx|intros v x Hv H0 Hx]; apply Hin in Hx;
    rewrite ?Hv in Hx; cbn [from_option] in Hx; rewrite !elem_of_app, !elem_of_cons in Hx.
  - assert (x = urlencode (bytes_of (show_clock (timestamp s)))) as ->.
    { rewrite show_clock_encoded by done. destruct (st_energy_today_wh s), (power_w s), (temperature_c s), (voltage_v s);
        cbn [from_option] in Hx; rewrite ?elem_of_cons, ?elem_of_nil in Hx; naive_solver. }
    apply urldecode_encode. unfold bytes, bytes_of. apply Forall_map, Forall_true. intros c. pose proof (nat_ascii_bounded c). lia.
  - destruct (st_energy_today_wh s), (temperature_c s), (voltage_v s);
      cbn [from_option] in Hx; rewrite ?elem_of_cons, ?elem_of_nil in Hx; assert (x = pretty v) as -> by naive_solver; by apply dec_value_pretty.
  - destruct (power_w s), (temperature_c s), (voltage_v s);
      cbn [from_option] in Hx; rewrite ?elem_of_cons, ?elem_of_nil in Hx; assert (x = pretty v) as -> by naive_solver; by apply dec_value_pretty.
Qed.

(** C23. The range of an uploaded status, whatever the gauges hold (negative
    numbers, infinities and NaN included): power and energy are present and
    unsigned 32-bit numbers, the power saturating, the energy modulo [2^32];
    temperature and voltage are only present when they are positive; a gauge
    that holds an integer of up to 53 bits is read exactly, a negative one as
    zero; reading changes the value of no gauge; and nothing is uploaded
    exactly when power and energy both read as zero. *)
Theorem collected_status_bounds (task : UploaderTask) (now : DateTime) (m : MetricsRegistry) :
  let g f := gauge_value f (task_labels task) m in
  let '(o, m') := collect_status task now m in
  (∀ f l, gauge_value f l m' = gauge_value f l m) ∧
  (o = None ↔ to_unsigned (2 ^ 32 - 1) (g ac_power_watts) = 0 ∧ to_unsigned (2 ^ 64 - 1) (g energy_today_wh) = 0) ∧
  (∀ s, o = Some s → timestamp s = now ∧
    (∃ p e, power_w s = Some p ∧ is_u32 p ∧ st_energy_today_wh s = Some e ∧ is_u32 e ∧
      (∀ z, g ac_power_watts = to_f64 z → 0 <= z < 2 ^ 32 → p = z) ∧ (∀ z, g ac_power_watts = to_f64 z → z < 0 → p = 0) ∧
      (∀ z, g energy_today_wh = to_f64 z → 0 <= z < 2 ^ 53 → e = z mod 2 ^ 32)) ∧
    (∀ t, temperature_c s = Some t → is_positive t = true) ∧ (∀ v, voltage_v s = Some v → is_positive v = true)).
Proof.
  intros g. pose proof (collect_status_read task now m) as [H1 H2]. destruct (collect_status task now m) as [o m'].
  cbn [fst snd] in *. split; [exact H2|]. rewrite H1. unfold read_status, status_of. fold (g ac_power_watts) (g energy_today_wh).
  pose proof (to_unsigned_range (2 ^ 32 - 1) (g ac_power_watts)) as Hp. pose proof (to_unsigned_range (2 ^ 64 - 1) (g energy_today_wh)) as He.
  set (p := to_unsigned (2 ^ 32 - 1) (g ac_power_watts)) in *. set (e := to_unsigned (2 ^ 64 - 1) (g energy_today_wh)) in *.
  destruct (Z.eqb_spec p 0) as [Ep|Ep], (Z.eqb_spec e 0) as [Ee|Ee]; cbn [andb]; (split; [naive_solver|]); [done| | |].
  all: intros s [= <-]; cbn; split; [done|]; split; [|split; intros x; case_match; congruence].
  all: exists p, (e mod 2 ^ 32); split; [done|]; split; [lia|]; split; [done|]; split; [apply Z.mod_pos_bound; lia|].
  all: split; [intros z Hz Hr; unfold p; rewrite Hz; apply to_unsigned_exact; lia|].
  all: split; [intros z Hz Hr; unfold p; rewrite Hz; by apply to_unsigned_negative|].
  all: intros z Hz Hr; unfold e; rewrite Hz, to_unsigned_exact; lia.
Qed.

(* ------------------------------------------------------------------ *)
(** ** Concrete instances                                              *)
(* ------------------------------------------------------------------ *)

Definition april : DateTime := mkTime 0 2026 4 19 13 30 "2026-04-19T13:30:00+00:00".

Lemma status_body_reads_back_witness :
  let s := mkStatus april (Some 9876) (Some 2500) None None in
  form_fields (build_status_body s) = [["d"; "20260419"]; ["t"; "13%3A30"]; ["v1"; "9876"]; ["v2"; "2500"]] ∧
  dec_value "2500" 0 = Some 2500.
Proof.
  intros s. destruct (status_body_reads_back s) as (H & _ & Hp & _); [by_decide|]. rewrite H. split; [vm_compute; reflexivity|].
  apply (Hp 2500 "2500"); [reflexivity|lia|]. rewrite H. vm_compute. list_in.
Defined.

Definition zolder_task : UploaderTask := mkUploaderTask "abc" 12345 "repeater" "zolder" (secs 300).

Lemma collected_status_bounds_witness :
  let lbl := task_labels zolder_task in
  let m := set_gauge energy_today_wh lbl (to_f64 9876) (set_gauge ac_power_watts lbl (to_f64 2500) MetricsRegistry_new) in
  ∃ s, (collect_status zolder_task april m).1 = Some s ∧ power_w s = Some 2500 ∧ st_energy_today_wh s = Some 9876 ∧
    temperature_c s = None.
Proof.
  intros lbl m. pose proof (collected_status_bounds zolder_task april m) as H.
  destruct (collect_status zolder_task april m) as [o m'] eqn:E. destruct H as (_ & _ & H).
  destruct o as [s|]; [|vm_compute in E; discriminate E]. exists s. split; [reflexivity|].
  destruct (H s eq_refl) as (_ & (p & e & Hp & _ & He & _ & Hpow & _ & Hen) & Ht & _).
  rewrite Hp, He, (Hpow 2500), (Hen 9876) by (lia || (vm_compute; reflexivity)). split; [reflexivity|]. split; [reflexivity|].
  vm_compute in E. injection E as <- _. reflexivity.
Defined.

(** The truncation of the energy, and the saturation of the power. *)
Example collect_status_test :
  let lbl := task_labels zolder_task in
  let m := set_gauge energy_today_wh lbl (to_f64 (2 ^ 32 + 7)) (set_gauge ac_power_watts lbl (to_f64 (-5)) MetricsRegistry_new) in
  (collect_status zolder_task april m).1 = Some (mkStatus april (Some 7) (Some 0) None None) ∧
  (collect_status zolder_task april MetricsRegistry_new).1 = None ∧
  match upload_loop true zolder_task [(april, m); (april, m); (april, MetricsRegistry_new)] with
  | Ok requests => map rq_body requests = ["d=20260419&t=13%3A30&v1=7&v2=0"]
  | _ => False
  end.
Proof. vm_compute. done. Qed.
