(* ===== verification/Main.v ===== *)
(** * Start-up and probe (crates/daemon/src/main.rs)

    What [main] makes of a configuration: the archive sink, one publisher and
    one task per inverter, the uploader tasks with the labels they read; the
    one-shot probe; and the command line that chooses.  Theorems compose the components: what the uploader
    reads is what the poll loop writes, a polled reading reaches the uploaded
    form, the last will reaches the announced topic.  The client constructors,
    the connections and the socket address parser are parameters. *)
From Stdlib Require Import String Ascii SpecFloat.
From stdpp Require Import gmap pretty.
From S2P Require Import Prelude Text Constants Transport Commands Session SessionSpec SessionProps Values ValuesProps Storage Mqtt Metrics Config Daemon DaemonProps Pvoutput.
Import Query.

Local Open Scope string_scope.
Local Open Scope list_scope.
Local Open Scope Z_scope.

(* ------------------------------------------------------------------ *)
(** ** The archive sink                                                *)
(* ------------------------------------------------------------------ *)

(** [Arc<dyn ReadingSink>] *)
Inductive any_sink (P : Type) : Type :=
  | CsvArchive (s : Csv.CsvSink)
  | TimescaleArchive (w : Timescale.StorageWriter P).
Arguments CsvArchive {P} s. Arguments TimescaleArchive {P} w.

Section archiver.
Context {P SqlError : Type} `{Hdb : !Timescale.Database P SqlError}.

(** Dynamic dispatch of [write]. *)
#[global] Instance any_sink_sink : ReadingSink (any_sink P) (StorageError SqlError) := λ t slot serial metric v sink,
  match sink with
  | CsvArchive s => let '(r, s) := Csv.append t slot serial metric v s in (r, CsvArchive s)
  | TimescaleArchive w => let '(r, w) := Timescale.insert t slot serial metric v w in (r, TimescaleArchive w)
  end.

#[global] Instance any_sink_laws : SinkLaws (any_sink P) (StorageError SqlError).
Proof.
  intros t slot serial metric v [s|w]; cbv [sink_write any_sink_sink].
  - pose proof (csv_sink_laws (SqlError := SqlError) t slot serial metric v s) as H. cbv [sink_write Csv.csv_sink] in H.
    by destruct (Csv.append _ _ _ _ _ _).
  - pose proof (timescale_sink_laws t slot serial metric v w) as H. cbv [sink_write Timescale.timescale_sink] in H.
    by destruct (Timescale.insert _ _ _ _ _ _).
Qed.

(** [StorageWriter::connect] opens a pool, or fails. *)
Definition connect_writer (open_pool : string → option P) (url : string) : option (Timescale.StorageWriter P) :=
  Timescale.mkWriter <$> open_pool url.

(** The archiver of [main]; [disk] is the file system. *)
Definition build_archiver (open_pool : string → option P) (disk : Csv.disk) (archive : option ArchiveCfg) : option (any_sink P) :=
  match archive with
  | Some a =>
      match timescale_url a with
      | Some url =>
          match connect_writer open_pool url with
          | Some w =>
              let '(r, w) := Timescale.init_schema w in
              match r with Ok _ => Some (TimescaleArchive w) | _ => None end
          | None => None
          end
      | None =>
          match csv_dir a with
          | Some dir => Some (CsvArchive (Csv.mkCsvSink dir disk))
          | None => None
          end
      end
  | None => None
  end.
End archiver.

(* ------------------------------------------------------------------ *)
(** ** Publishers, tasks, uploaders                                    *)
(* ------------------------------------------------------------------ *)

Definition mqtt_base (cfg : DaemonConfig) : MqttClientConfig :=
  mkMqttConfig (mc_host (mqtt cfg)) (mc_port (mqtt cfg)) (mc_user (mqtt cfg)) (mc_password (mqtt cfg)) (mc_client_id (mqtt cfg)) 30
    (mc_discovery_prefix (mqtt cfg)) (mc_state_prefix (mqtt cfg)).

(** The publisher configuration and last-will topic of one inverter. *)
Definition publisher_config (cfg : DaemonConfig) (inv : InverterCfg) : MqttClientConfig :=
  let base := mqtt_base cfg in
  mkMqttConfig (host base) (port base) (user base) (mq_password base) (client_id base +:+ "-" +:+ i_slot inv) (keep_alive base)
    (discovery_prefix base) (state_prefix base).
Definition lwt_topic (cfg : DaemonConfig) (inv : InverterCfg) : string :=
  state_prefix (publisher_config cfg inv) +:+ "/" +:+ i_slot inv +:+ "/availability".

(** [rfcomm_timeout.as_millis() as u64], and the local address. *)
Definition timeout_millis (d : Z) : Z := (d / 1000000) mod 2 ^ 64.
Definition local_bt_of (cfg : DaemonConfig) : option (list Z) := a ← local_bt_address cfg; Mac.parse_bt_mac (bytes_of a).

(** The inverter entry that owns a device slot. *)
Definition owns (slot : string) (inv : InverterCfg) : bool :=
  let mis_match := existsb (λ d, String.eqb (d_slot d) slot) (devices inv) in
  let legacy_match := String.eqb (i_slot inv) slot && match devices inv with [] => true | _ => false end in
  mis_match || legacy_match.
Definition owner_slot (cfg : DaemonConfig) (slot : string) : string :=
  match find (owns slot) (inverters cfg) with Some inv => i_slot inv | None => slot end.
Definition uploader_task (cfg : DaemonConfig) (pv : PvoutputCfg) (sys : PvoutputSystem) : UploaderTask :=
  mkUploaderTask (api_key pv) (system_id sys) (owner_slot cfg (pv_slot sys)) (pv_slot sys) (upload_interval pv).

(** [feature] is the cargo feature [pvoutput]. *)
Definition uploader_tasks (feature : bool) (cfg : DaemonConfig) : list UploaderTask :=
  if feature then from_option (λ pv, map (uploader_task cfg pv) (systems pv)) [] (pvoutput cfg) else [].

(** What [main] starts, up to the wait for Ctrl-C. *)
Record Daemon (C P SocketAddr : Type) : Type := mkDaemon {
  dm_metrics_addr : SocketAddr;
  dm_archiver : option (any_sink P);
  dm_tasks : list (InverterCfg * option (list Z) * DiscoveryPublisher C * Z);
  dm_uploaders : list UploaderTask
}.
Arguments mkDaemon {C P SocketAddr}.
Arguments dm_metrics_addr {C P SocketAddr}. Arguments dm_archiver {C P SocketAddr}. Arguments dm_tasks {C P SocketAddr}.
Arguments dm_uploaders {C P SocketAddr}.

Inductive StartError : Type := ReadConfig | BadConfig | BadMetricsAddr.

Section main.
Context {C P SqlError SocketAddr V : Type} `{Hdb : !Timescale.Database P SqlError} `{Hyaml : !Yaml V}.
Context (new_client : MqttOptions → nat → C) (open_pool : string → option P) (parse_addr : string → option SocketAddr)
  (parse_duration : string → option Z) (parse : string → option V).

Definition inverter_task (cfg : DaemonConfig) (inv : InverterCfg) : InverterCfg * option (list Z) * DiscoveryPublisher C * Z :=
  (inv, local_bt_of cfg, connect_with_lwt new_client (publisher_config cfg inv) (Some (lwt_topic cfg inv)),
   timeout_millis (rfcomm_timeout cfg)).

(** [main] without a subcommand; [yaml] is the configuration file, if it can
    be read. *)
Definition start_daemon (feature : bool) (disk : Csv.disk) (yaml : option string) : outcome StartError (Daemon C P SocketAddr) :=
  src ← ok_or yaml ReadConfig;
  cfg ← ok_or (from_yaml parse_duration parse src) BadConfig;
  addr ← ok_or (parse_addr (metrics_addr cfg)) BadMetricsAddr;
  Ok (mkDaemon addr (build_archiver open_pool disk (archive cfg)) (map (inverter_task cfg) (inverters cfg)) (uploader_tasks feature cfg)).
End main.

(* ------------------------------------------------------------------ *)
(** ** The probe                                                       *)
(* ------------------------------------------------------------------ *)

Inductive ProbeError : Type := BadMac | ConnectFailed (e : string) | SessionFailed (e : SessionError).

Section probe.
Context {T : Type} `{Htransport : Transport T}.

(** What the probe prints. *)
Definition quoted (s : string) : string := String "034" (s +:+ String "034" "").
Definition snippet (mac : string) (serial : Z) : list string :=
  [""; "# Probe complete. Devices seen in logon replies are logged"; "# above at INFO level. Paste into addon YAML as:";
   "inverters:"; "  - slot: repeater"; "    bt_address: " +:+ quoted mac; "    password: " +:+ quoted "<paste>"; "    devices:";
   "      - slot: <your-name>"; "        app_serial: " +:+ pretty serial; "        model: " +:+ quoted "<SB-xxxx-xx>";
   "      # ... repeat per device reported above."; ""].

(** [run_probe]: [connect] is [RfcommTransport::connect], [random] the draw of
    the session id.  The result is the printed text and the session left. *)
Definition run_probe (connect : list Z → option (list Z) → string + T) (random now_epoch : Z)
    (mac password : string) (local : option string) (timeout_ms : Z) : outcome ProbeError (list string * Session T) :=
  match Mac.parse_bt_mac (bytes_of mac) with
  | None => Err BadMac
  | Some inverter_bt =>
      let local_bt := default (replicate 6 0) (a ← local; Mac.parse_bt_mac (bytes_of a)) in
      match connect inverter_bt (Some local_bt) with
      | inl e => Err (ConnectFailed e)
      | inr t =>
          let session := new_session t (mkSessionConfig inverter_bt local_bt (bytes_of password) Auth.User timeout_ms true) random in
          let '(r, session) := handshake_and_logon now_epoch session in
          match r with
          | Ok _ => Ok (snippet mac (inverter_serial session), (graceful_close session).2)
          | Err e => Err (SessionFailed e)
          | Panic => Panic
          end
      end
  end.
End probe.

(* ------------------------------------------------------------------ *)
(** ** The command line                                                *)
(* ------------------------------------------------------------------ *)

(** [Command], [Cli]: what clap hands over, its defaults filled in. *)
Inductive Command : Type := Probe (mac password : string) (local : option string) (timeout_ms : Z).
Record Cli : Type := mkCli { command : option Command; config : string }.

Definition default_config : string := "/data/options.yaml".
Definition default_probe (mac : string) : Command := Probe mac "0000" None 15000.

(** [main], up to the wait for Ctrl-C: the probe and nothing else, or the
    daemon.  [read] is [fs::read_to_string]. *)
Section dispatch.
Context {T C P SqlError SocketAddr V : Type} `{Htransport : Transport T} `{Hdb : !Timescale.Database P SqlError} `{Hyaml : !Yaml V}.
Context (connect : list Z → option (list Z) → string + T) (random now_epoch : Z)
  (new_client : MqttOptions → nat → C) (open_pool : string → option P) (parse_addr : string → option SocketAddr)
  (parse_duration : string → option Z) (parse : string → option V) (read : string → option string).

Definition main (feature : bool) (disk : Csv.disk) (cli : Cli) :
  outcome ProbeError (list string * Session T) + outcome StartError (Daemon C P SocketAddr) :=
  match command cli with
  | Some (Probe mac password local timeout_ms) => inl (run_probe connect random now_epoch mac password local timeout_ms)
  | None => inr (start_daemon new_client open_pool parse_addr parse_duration parse feature disk (read (config cli)))
  end.
End dispatch.

(* ------------------------------------------------------------------ *)
(** ** Lemmas                                                          *)
(* ------------------------------------------------------------------ *)

Lemma owns_target slot inv identity susy serial :
  owns slot inv = true → (devices inv = [] → Mqtt.slot identity = i_slot inv) →
  ∃ t, t ∈ targets_of inv identity susy serial ∧ Mqtt.slot (tg_id t) = slot.
Proof.
  unfold owns, targets_of. intros Ho Hid. destruct (devices inv) as [|d ds] eqn:Hd.
  - cbn [existsb orb] in Ho. rewrite andb_true_r in Ho. apply String.eqb_eq in Ho as <-.
    exists (mkTarget identity susy serial). split; [list_in|]. cbn. by apply Hid.
  - rewrite andb_false_r, orb_false_r in Ho. apply existsb_exists in Ho as (d' & Hin & E%String.eqb_eq).
    eexists. split; [apply list_elem_of_fmap; exists d'; split; [reflexivity|by apply list_elem_of_In]|]. by cbn.
Qed.

(** Every target of a run of this configuration is owned by it. *)
Lemma target_owned inv identity susy serial t :
  (devices inv = [] → Mqtt.slot identity = i_slot inv) →
  t ∈ targets_of inv identity susy serial → owns (Mqtt.slot (tg_id t)) inv = true.
Proof.
  unfold owns, targets_of. intros Hid. destruct (devices inv) as [|d ds] eqn:Hd.
  - intros ->%list_elem_of_singleton. cbn. by rewrite Hid, String.eqb_refl.
  - intros (d' & -> & Hin)%list_elem_of_fmap. cbn [Mqtt.slot tg_id]. apply orb_true_iff. left.
    apply existsb_exists. exists d'. split; [by apply list_elem_of_In|apply String.eqb_refl].
Qed.

Lemma find_first {A} (f : A → bool) l a : find f l = Some a → a ∈ l ∧ f a = true.
Proof. intros [H ?]%find_some. split; [by apply list_elem_of_In|done]. Qed.

Lemma lwt_topic_single cfg inv identity :
  Mqtt.slot identity = i_slot inv → lwt_topic cfg inv = availability_topic (publisher_config cfg inv) identity.
Proof. intros E. unfold lwt_topic, availability_topic. by rewrite E. Qed.
Lemma lwt_topic_inj cfg inv identity :
  lwt_topic cfg inv = availability_topic (publisher_config cfg inv) identity → Mqtt.slot identity = i_slot inv.
Proof.
  unfold lwt_topic, availability_topic. intros H%append_inj_l%append_inj_l%append_inj_r. done.
Qed.

(** A signed reading is one of 32 bits. *)
Lemma last_i32_bound l rs p : Forall spot_ok rs → last_of (has_lri l) spot_i32 rs = Some p → - 2 ^ 31 <= p < 2 ^ 31.
Proof.
  intros Hrs (r & Hr & Hp)%bind_Some. apply last_Some_elem_of, list_elem_of_filter in Hr as [_ Hr].
  eapply Forall_forall in Hrs as (_ & _ & _ & Hv & _); [|exact Hr]. unfold spot_i32 in Hp. case_match; [done|].
  injection Hp as <-. by apply to_i32_bound.
Qed.

(** What an uploader makes of a registry whose power gauge holds an integer. *)
Lemma upload_of_power task now m p :
  gauge_value ac_power_watts (task_labels task) m = to_f64 p → - 2 ^ 31 <= p < 2 ^ 31 → time_ok now →
  let rq := (upload_tick task now m).1 in
  (0 < p → ∃ q, rq = Some q ∧ ["v2"; pretty p] ∈ form_fields (rq_body q)) ∧
  (p <= 0 → ∀ q, rq = Some q → ["v2"; "0"] ∈ form_fields (rq_body q)).
Proof.
  intros Hg Hp Ht. unfold upload_tick. destruct (collect_status_read task now m) as [Hc _].
  destruct (collect_status task now m) as [o m']. cbn [fst] in *. rewrite Hc. clear Hc o.
  unfold read_status, status_of. rewrite Hg. set (e := to_unsigned (2 ^ 64 - 1) _). split; intros H.
  - rewrite to_unsigned_exact by lia. rewrite (proj2 (Z.eqb_neq p 0)) by lia. cbn [andb fmap option_fmap option_map].
    eexists. split; [reflexivity|]. by apply power_in_form.
  - assert (to_unsigned (2 ^ 32 - 1) (to_f64 p) = 0) as ->.
    { destruct (Z.eq_dec p 0) as [->|]; [done|]. apply to_unsigned_negative. lia. }
    intros q. destruct (_ && _); [done|]. intros [= <-]. cbn [rq_body].
    change "0"%string with (pretty 0). by apply power_in_form.
Qed.

(** *** The schema at start-up *)

Section schema.
Context {P SqlError : Type} `{Hdb : !Timescale.Database P SqlError}.

Lemma run_statements_accepted stmts (w : Timescale.StorageWriter P) :
  (∀ stmt args p, stmt ∈ stmts → (Timescale.execute stmt args p).1 = None) → (Timescale.run_statements stmts w).1 = Ok ().
Proof.
  intros Hok. revert w. induction stmts as [|s stmts IH]; intros w; [done|]. cbn [Timescale.run_statements].
  unfold mbind, prog_bind, Timescale.run_query. pose proof (Hok s [] (Timescale.pool w) ltac:(list_in)) as H.
  destruct (Timescale.execute s [] (Timescale.pool w)) as [o p]. cbn in H. rewrite H. apply IH.
  intros stmt args p' Hin. apply Hok. by apply list_elem_of_further.
Qed.

Lemma run_statements_refused stmts stmt (w : Timescale.StorageWriter P) :
  stmt ∈ stmts → (∀ args p, (Timescale.execute stmt args p).1 ≠ None) → ∃ e, (Timescale.run_statements stmts w).1 = Err (Sqlx e).
Proof.
  intros Hin Hno. revert w. induction stmts as [|s stmts IH]; intros w; [by apply not_elem_of_nil in Hin|].
  cbn [Timescale.run_statements]. unfold mbind, prog_bind, Timescale.run_query. specialize (Hno [] (Timescale.pool w)) as Hw.
  apply elem_of_cons in Hin as [<-|Hin].
  - by destruct (Timescale.execute stmt [] (Timescale.pool w)) as [[e|] p]; [exists e|].
  - destruct (Timescale.execute s [] (Timescale.pool w)) as [[e|] p]; [by exists e|]. by apply IH.
Qed.
End schema.

(* ------------------------------------------------------------------ *)
(** ** Properties                                                      *)
(* ------------------------------------------------------------------ *)

(** C31. Uploaders read what the poll loop writes.  For a configured PVOutput
    system whose device slot some inverter entry owns, the labels the uploader
    reads are those under which the first such entry's task records the
    readings of one of its targets; and a target of an entry, when no earlier
    entry owns its slot, is the one that a system of its slot uploads. *)
Theorem uploader_reads_polled_device (cfg : DaemonConfig) (pv : PvoutputCfg) (sys : PvoutputSystem) (init_susy init_serial : Z) :
  let labels_of inv t := mkDeviceLabels (i_slot inv) (Mqtt.slot (tg_id t)) in
  let targets inv := targets_of inv (initial_identity inv) init_susy init_serial in
  (∀ inv, find (owns (pv_slot sys)) (inverters cfg) = Some inv →
     inv ∈ inverters cfg ∧ ∃ t, t ∈ targets inv ∧ task_labels (uploader_task cfg pv sys) = labels_of inv t) ∧
  (∀ pre inv post t, inverters cfg = pre ++ inv :: post → t ∈ targets inv → Mqtt.slot (tg_id t) = pv_slot sys →
     Forall (λ i, owns (pv_slot sys) i = false) pre → task_labels (uploader_task cfg pv sys) = labels_of inv t) ∧
  (find (owns (pv_slot sys)) (inverters cfg) = None →
     ∀ inv t, inv ∈ inverters cfg → t ∈ targets inv → task_labels (uploader_task cfg pv sys) ≠ labels_of inv t).
Proof.
  intros labels_of targets. assert (Hl : ∀ slot', owner_slot cfg (pv_slot sys) = slot' →
    task_labels (uploader_task cfg pv sys) = mkDeviceLabels slot' (pv_slot sys)) by by intros ? <-.
  unfold owner_slot in Hl. refine (conj _ (conj _ _)).
  - intros inv Hf. rewrite Hf in Hl. destruct (find_first _ _ _ Hf) as [Hin Ho]. split; [done|].
    destruct (owns_target _ _ (initial_identity inv) init_susy init_serial Ho) as (t & Ht & E); [done|].
    exists t. split; [done|]. unfold labels_of. rewrite E. by apply Hl.
  - intros pre inv post t Hcfg Ht E Hpre. unfold labels_of. rewrite E. apply Hl.
    pose proof (target_owned inv (initial_identity inv) init_susy init_serial t ltac:(done) Ht) as Ho. rewrite E in Ho.
    rewrite Hcfg. clear Hcfg. induction Hpre as [|i pre Hi Hpre IH]; cbn; [by rewrite Ho|by rewrite Hi].
  - intros Hf inv t Hin Ht H. rewrite Hf in Hl. specialize (Hl _ eq_refl). rewrite H in Hl. injection Hl as E1 E2.
    pose proof (target_owned inv (initial_identity inv) init_susy init_serial t ltac:(done) Ht) as Ho. rewrite E2 in Ho.
    apply list_elem_of_In in Hin. by rewrite (find_none _ _ Hf inv Hin) in Ho.
Qed.

(** C8. From the wire to the broker, the metrics, the archive and the upload:
    when the session of a task is logged in and the reply to its next packet is
    among the next sixteen frames, and that reply holds spot records the last
    of which with the power's LRI carries [p], then polling the target for its
    power succeeds, consumes the frames up to the reply, publishes exactly the
    text of [p] on the target's power topic, sets its gauge to [p], archives
    it under the time of day, and the next request of an uploader with these
    labels posts [p] in its form; a power that is not positive is posted as
    zero, if anything is posted. *)
Theorem power_frame_reaches_all_sinks {T C ClientError Sink SinkError} `{Htransport : TransportLive T} `{Hclient : !MqttClient C ClientError}
    `{Hsink : !ReadingSink Sink SinkError} `{Hlaws : !SinkLaws Sink SinkError} (utc : nat → DateTime)
    (cfg : InverterCfg) (t : target) (task : UploaderTask) (now : DateTime) (w : world T C Sink)
    (sk : list (list Z)) (b : list Z) (rep : L2Reply) (rest : list (list Z)) (prefix tail : list Z) (rs : list spot) (p : Z) :
  let s := w_session w in
  let id := tg_id t in
  let topic := state_prefix (pub_cfg (w_publisher w)) +:+ "/" +:+ Mqtt.slot id +:+ "/" +:+ "ac_power" in
  state s = LoggedIn → live (transport s) (sk ++ b :: rest) → (length sk < 16)%nat →
  Forall (λ b, l2_match (pcktid_succ (pcktid s)) b = None) sk → l2_match (pcktid_succ (pcktid s)) b = Some rep →
  r_body rep = reply spot_bytes prefix rs tail → length prefix = 12%nat → Forall spot_ok rs → (length tail < 20)%nat →
  last_of (has_lri lri.SPOT_PAC_TOTAL) spot_i32 rs = Some p →
  task_labels task = mkDeviceLabels (i_slot cfg) (Mqtt.slot id) → time_ok now →
  wp (query_target utc cfg t [Query.SpotAcTotalPower]) w (λ res w',
    res = Ok Polled ∧ live (transport (w_session w')) rest ∧
    requests (w_publisher w') = requests (w_publisher w) ++ [mkMessage topic AtMostOnce false (Text (pretty p))] ∧
    gauge_value ac_power_watts (task_labels task) (w_metrics w') = to_f64 p ∧
    (∀ sink, w_archiver w = Some sink →
       w_archiver w' = Some (sink_write (utc (w_instants w)) (Mqtt.slot id) (serial id) "ac_power" (to_f64 p) sink).2) ∧
    let rq := (upload_tick task now (w_metrics w')).1 in
    (0 < p → ∃ q, rq = Some q ∧ ["v2"; pretty p] ∈ form_fields (rq_body q)) ∧
    (p <= 0 → ∀ q, rq = Some q → ["v2"; "0"] ∈ form_fields (rq_body q))).
Proof.
  intros s id topic Hst Hlive Hsk Hno Hb Hbody Hprefix Hrs Htail Hp Hlbl Ht. cbn [query_target].
  destruct (healthy_query_run Query.SpotAcTotalPower (tg_susy t) (tg_serial t) s sk b rep rest Hst Hlive Hsk Hno Hb) as (s' & Hq & Hl).
  apply wp_bind. unfold wp at 1, on_session. fold s. rewrite Hq. cbn [fst snd].
  destruct (query_result_does (T:=T) (C:=C) utc Query.SpotAcTotalPower (r_body rep) id (task_labels task)) as (es & Hes & Hdo).
  cbn [query_effects] in Hes. rewrite Hbody, (total_power_spec prefix tail rs Hprefix Hrs Htail) in Hes.
  cbn [mbind outcome_bind pac_total_w] in Hes. rewrite Hp in Hes. injection Hes as <-.
  unfold id in Hlbl. rewrite <-Hlbl. apply wp_bind. eapply wp_mono; [apply Hdo|]. intros r w' [-> [[_ Hreq] Hm Ha Hs _ _]].
  cbn [archived from_option foldl gauge_step] in Hm. apply wp_ret. split; [done|]. split; [by rewrite Hs|]. split; [exact Hreq|].
  assert (Hg : gauge_value ac_power_watts (task_labels task) (w_metrics w') = to_f64 p) by (rewrite Hm; apply gauge_value_set).
  split; [exact Hg|]. split; [|apply upload_of_power; [exact Hg|by eapply last_i32_bound|exact Ht]].
  intros sink Hsome. apply (f_equal fst) in Ha. cbn [fst] in Ha. rewrite Ha. cbn. by rewrite Hsome.
Qed.

(** C33. The last will reaches the announced topic exactly for an inverter
    without a repeater: for a single device it is the availability topic under
    which the task announces it; for the devices behind a repeater it is the
    availability topic of none of them, unless one has the repeater's own slot.
    The client ids of two inverters are the same exactly when their slots
    are. *)
Theorem last_will_topics (cfg : DaemonConfig) (inv inv' : InverterCfg) (init_susy init_serial : Z) :
  (∀ t, t ∈ targets_of inv (initial_identity inv) init_susy init_serial →
     (lwt_topic cfg inv = availability_topic (publisher_config cfg inv) (tg_id t) ↔ devices inv = [] ∨ Mqtt.slot (tg_id t) = i_slot inv)) ∧
  o_last_will (mqtt_options (publisher_config cfg inv) (Some (lwt_topic cfg inv))) =
    Some (mkMessage (lwt_topic cfg inv) AtLeastOnce true (Text "offline")) ∧
  (o_client_id (mqtt_options (publisher_config cfg inv) None) = o_client_id (mqtt_options (publisher_config cfg inv') None) ↔
     i_slot inv = i_slot inv').
Proof.
  refine (conj _ (conj eq_refl _)).
  - intros t Ht. split.
    + intros H%lwt_topic_inj. by right.
    + intros [Hd|E]; [|by apply lwt_topic_single]. apply lwt_topic_single. unfold targets_of in Ht. rewrite Hd in Ht.
      by apply list_elem_of_singleton in Ht as ->.
  - cbn. split; [by intros H%append_inj_l%append_inj_l|by intros ->].
Qed.

(** C32. Start-up.  It fails exactly when the configuration cannot be read, is
    not accepted, or has a bad metrics address, and then names which; the
    archive never makes it fail.  Otherwise one task per inverter entry is
    started, in order, each with its own connected publisher; the archive is
    the TimescaleDB sink when a url is given and every schema statement is
    accepted, none when the connection or a statement is refused (the CSV
    directory is not a fallback), the CSV files of the directory when only
    that is given, and none otherwise; uploaders exist only with the feature. *)
Theorem start_up_contract {C P SqlError SocketAddr V : Type} `{Hdb : !Timescale.Database P SqlError} `{Hyaml : !Yaml V}
    (new_client : MqttOptions → nat → C) (open_pool : string → option P) (parse_addr : string → option SocketAddr)
    (parse_duration : string → option Z) (parse : string → option V) (feature : bool) (disk : Csv.disk) (yaml : option string) :
  let start := start_daemon new_client open_pool parse_addr parse_duration parse feature disk in
  let archiver := build_archiver open_pool disk in
  start None = Err ReadConfig ∧
  (∀ src, from_yaml parse_duration parse src = None → start (Some src) = Err BadConfig) ∧
  (∀ src cfg, from_yaml parse_duration parse src = Some cfg →
     (parse_addr (metrics_addr cfg) = None → start (Some src) = Err BadMetricsAddr) ∧
     (∀ addr, parse_addr (metrics_addr cfg) = Some addr → ∃ d,
        start (Some src) = Ok d ∧ dm_metrics_addr d = addr ∧ dm_archiver d = archiver (archive cfg) ∧
        map (λ t, t.1.1.1) (dm_tasks d) = inverters cfg ∧
        Forall (λ t, requests t.1.2 = [] ∧ pub_cfg t.1.2 = publisher_config cfg t.1.1.1 ∧ t.1.1.2 = local_bt_of cfg) (dm_tasks d) ∧
        length (dm_uploaders d) = (if feature then from_option (λ pv, length (systems pv)) 0 (pvoutput cfg) else 0)%nat)) ∧
  (∀ dir url p, open_pool url = Some p →
     (∀ stmt args p, stmt ∈ Timescale.statements Timescale.CREATE_SCHEMA → (Timescale.execute stmt args p).1 = None) →
     ∃ w, archiver (Some (mkArchiveCfg dir (Some url))) = Some (TimescaleArchive w)) ∧
  (∀ dir url, (open_pool url = None ∨
     ∃ stmt, stmt ∈ Timescale.statements Timescale.CREATE_SCHEMA ∧ ∀ args p, (Timescale.execute stmt args p).1 ≠ None) →
     archiver (Some (mkArchiveCfg dir (Some url))) = None) ∧
  (∀ dir, archiver (Some (mkArchiveCfg dir None)) = (λ d, CsvArchive (Csv.mkCsvSink d disk)) <$> dir) ∧ archiver None = None.
Proof.
  intros start archiver. refine (conj eq_refl (conj _ (conj _ (conj _ (conj _ (conj _ eq_refl)))))).
  - intros src H. unfold start, start_daemon. cbn [ok_or mbind outcome_bind]. by rewrite H.
  - intros src cfg H. unfold start, start_daemon. cbn [ok_or mbind outcome_bind]. rewrite H. cbn [ok_or mbind outcome_bind]. split.
    + intros Ha. by rewrite Ha.
    + intros addr Ha. rewrite Ha. cbn [ok_or mbind outcome_bind]. eexists. split; [reflexivity|]. cbn. split; [done|]. split; [done|].
      split; [rewrite map_map; apply map_id|]. split; [apply Forall_map, Forall_true; by intros inv|].
      unfold uploader_tasks. destruct feature; [|done]. destruct (pvoutput cfg); [|done]. cbn. apply length_map.
  - intros dir url p Hp Hok. unfold archiver, build_archiver, connect_writer. cbn [timescale_url]. rewrite Hp.
    cbn [fmap option_fmap option_map]. pose proof (run_statements_accepted (Timescale.statements Timescale.CREATE_SCHEMA) (Timescale.mkWriter p) Hok) as H.
    unfold Timescale.init_schema. destruct (Timescale.run_statements _ _) as [r w]. cbn in H. rewrite H. by exists w.
  - intros dir url Hno. unfold archiver, build_archiver, connect_writer. cbn [timescale_url].
    destruct (open_pool url) as [p|]; [|done]. destruct Hno as [|(stmt & Hin & Hno)]; [done|].
    cbn [fmap option_fmap option_map]. destruct (run_statements_refused _ stmt (Timescale.mkWriter p) Hin Hno) as [e He].
    unfold Timescale.init_schema. destruct (Timescale.run_statements _ _) as [r w]. cbn in He. by rewrite He.
  - intros [d|]; reflexivity.
Qed.

(** The probe: on any transport that keeps its promises it never panics; a
    bad address ends it before connecting; when it succeeds it has printed the
    serial the session learnt in its handshake, and the session it leaves is
    closed, after at most one logoff as its last frame. *)
Theorem probe_contract {T} `{TransportLaws T} (connect : list Z → option (list Z) → string + T) (random now_epoch timeout_ms : Z)
    (mac password : string) (local : option string) :
  (∀ bt l t, connect bt l = inr t → transport_ok t) →
  let r := run_probe connect random now_epoch mac password local timeout_ms in
  r ≠ Panic ∧
  (r = Err BadMac ↔ Mac.parse_bt_mac (bytes_of mac) = None) ∧
  (∀ out s, r = Ok (out, s) → state s = Disconnected ∧ out = snippet mac (inverter_serial s) ∧
     ∃ bt l t, Mac.parse_bt_mac (bytes_of mac) = Some bt ∧ connect bt (Some l) = inr t ∧
       ∃ fs last, sent_log (transport s) = sent_log t ++ fs ++ last ∧ length fs = 5%nat ∧ (length last ≤ 1)%nat).
Proof.
  intros Hok r. unfold r, run_probe. destruct (Mac.parse_bt_mac (bytes_of mac)) as [bt|] eqn:Hmac; [|by split; [|split]].
  set (l := default _ _). destruct (connect bt (Some l)) as [e|t] eqn:Hc; [by split; [|split]|].
  set (s0 := new_session _ _ _). pose proof (handshake_spec now_epoch s0 (Hok _ _ _ Hc)) as Hh. unfold wp in Hh.
  destruct (handshake_and_logon now_epoch s0) as [o s1]. cbn [fst snd] in Hh.
  destruct Hh as (Hcfg & _ & net & bt' & k & cs & Htr & _ & _ & _ & Hr).
  destruct o as [[]|e|]; [|by split; [|split]|done]. split; [done|]. split; [done|]. intros out s [= <- <-].
  pose proof (graceful_close_spec s1 (tr_ok _ _ _ _ Htr)) as Hg. unfold wp in Hg.
  destruct (graceful_close s1) as [o2 s2]. cbn [fst snd] in *.
  destruct Hg as (_ & Hst & _ & _ & _ & Hser & _ & fs2 & Htr2 & Hfs2). split; [exact Hst|]. split; [by rewrite Hser|].
  exists bt, l, t. split; [done|]. split; [done|]. destruct Hr as (_ & -> & _).
  eexists _, fs2. rewrite (tr_sent _ _ _ _ Htr2), (tr_sent _ _ _ _ Htr), <-app_assoc. split; [reflexivity|].
  split; [reflexivity|]. destruct Hfs2 as [->|[-> _]]; cbn; lia.
Qed.

(* ------------------------------------------------------------------ *)
(** ** Concrete instances                                              *)
(* ------------------------------------------------------------------ *)

(** A logged-in session whose next frame is the answer to a power query. *)
Definition power_frame : list Z := fake_reply 9 0 0 4 power_body.
Definition polling_session : Session Mock.MockTransport :=
  mkSession (Mock.queue_replies [power_frame] Mock.new) test_cfg LoggedIn 900123456 3 101 2120121246.
Definition polling_world : world Mock.MockTransport nat Csv.CsvSink := set_session polling_session (world0 Mock.new).
Definition zolder_target : target := mkTarget zolder 101 2120121246.
Definition single_task : UploaderTask := mkUploaderTask "abc" 12345 "zolder" "zolder" (secs 300).

Lemma polling_ok : transport_ok (transport polling_session).
Proof. change (Forall bytes (Mock.replies (transport polling_session))). by_decide. Qed.

Lemma power_frame_reaches_all_sinks_witness :
  wp (query_target (Hclient := room_client) (λ _, noon) cfg0 zolder_target [Query.SpotAcTotalPower]) polling_world (λ res w',
    res = Ok Polled ∧ requests (w_publisher w') = [mkMessage "hass-sma/zolder/ac_power" AtMostOnce false (Text "1234")] ∧
    ∃ q, (upload_tick single_task noon (w_metrics w')).1 = Some q ∧ ["v2"; "1234"] ∈ form_fields (rq_body q)).
Proof.
  eapply wp_mono; [apply (power_frame_reaches_all_sinks (Hclient := room_client) (λ _, noon) cfg0 zolder_target single_task noon polling_world
    [] power_frame (mkL2Reply 4 0 101 2120121246 power_body) [] prefix0 [] spots0 1234)|].
  - reflexivity.
  - split; [exact polling_ok|]. split; vm_compute; reflexivity.
  - simpl. lia.
  - constructor.
  - vm_compute. reflexivity.
  - reflexivity.
  - reflexivity.
  - repeat constructor; by vm_compute.
  - simpl. lia.
  - vm_compute. reflexivity.
  - reflexivity.
  - repeat constructor; by vm_compute.
  - cbv beta. intros r w' (-> & _ & Hreq & _ & _ & Hup & _). split; [reflexivity|]. split; [exact Hreq|]. apply Hup. lia.
Defined.

(** A repeater with two devices and a stand-alone inverter. *)
Definition repeater : InverterCfg :=
  mkInverterCfg "repeater" "00:80:25:21:32:35" "0000" (secs 5) "unknown" "unknown" true 0 (secs 60)
    [mkDeviceCfg "zolder" 2120121246 None "unknown"; mkDeviceCfg "garage" 2120121383 None "unknown"] false.
Definition two_inverters : DaemonConfig :=
  mkDaemonConfig (mkMqttCfg "core-mosquitto" 1883 None None "hass-sma-rs" "homeassistant" "hass-sma")
    [repeater; mkInverterCfg "schuur" "00:80:25:21:32:36" "0000" (secs 5) "unknown" "unknown" false 0 (secs 60) [] false]
    None (secs 15) "0.0.0.0:9090" (Some (mkArchiveCfg (Some "/share") None))
    (Some (mkPvoutputCfg "abc" [mkPvoutputSystem "garage" 1; mkPvoutputSystem "attic" 2] (secs 300))).
Definition pv0 : PvoutputCfg := default (mkPvoutputCfg "" [] 0) (pvoutput two_inverters).

Lemma uploader_reads_polled_device_witness :
  (∃ t, t ∈ targets_of repeater (initial_identity repeater) 101 7 ∧
    task_labels (uploader_task two_inverters pv0 (mkPvoutputSystem "garage" 1)) = mkDeviceLabels "repeater" (Mqtt.slot (tg_id t))) ∧
  ¬ (task_labels (uploader_task two_inverters pv0 (mkPvoutputSystem "attic" 2)) = mkDeviceLabels "repeater" "zolder").
Proof.
  split.
  - destruct (uploader_reads_polled_device two_inverters pv0 (mkPvoutputSystem "garage" 1) 101 7) as (H & _ & _).
    destruct (H repeater) as (_ & t & Ht & E); [vm_compute; reflexivity|]. exists t. split; [exact Ht|exact E].
  - destruct (uploader_reads_polled_device two_inverters pv0 (mkPvoutputSystem "attic" 2) 101 7) as (_ & _ & H).
    apply (H ltac:(vm_compute; reflexivity) repeater (mkTarget (mkIdentity "zolder" 2120121246 "unknown" "unknown" SolarInverter) 101 2120121246));
      apply list_elem_of_here.
Defined.

Lemma last_will_topics_witness :
  lwt_topic two_inverters repeater = "hass-sma/repeater/availability" ∧
  ¬ (lwt_topic two_inverters repeater
     = availability_topic (publisher_config two_inverters repeater) (mkIdentity "zolder" 2120121246 "unknown" "unknown" SolarInverter)).
Proof.
  split; [vm_compute; reflexivity|]. destruct (last_will_topics two_inverters repeater repeater 101 7) as (H & _ & _).
  specialize (H (mkTarget (mkIdentity "zolder" 2120121246 "unknown" "unknown" SolarInverter) 101 2120121246) ltac:(vm_compute; list_in)).
  intros E. apply H in E as [E|E]; [discriminate E|]. vm_compute in E. discriminate E.
Defined.

(** A database that takes every statement, one that refuses the extension. *)
Definition willing : Timescale.Database nat () := λ _ _ n, (None, S n).
Definition plain_postgres : Timescale.Database nat () := λ stmt _ n,
  (if String.eqb stmt "CREATE EXTENSION IF NOT EXISTS timescaledb" then Some () else None, S n).

Lemma start_up_contract_witness :
  (∃ w, build_archiver (Hdb := willing) (λ _, Some 0%nat) (Csv.mkDisk ∅ []) (Some (mkArchiveCfg (Some "/share") (Some "postgres://"))) = Some (TimescaleArchive w)) ∧
  build_archiver (Hdb := plain_postgres) (λ _, Some 0%nat) (Csv.mkDisk ∅ []) (Some (mkArchiveCfg (Some "/share") (Some "postgres://"))) = None.
Proof.
  split.
  - destruct (start_up_contract (Hdb := willing) (λ _ _, tt) (λ _, Some 0%nat) (λ _, Some tt) ns_of (λ _, Some TNull) true (Csv.mkDisk ∅ []) None)
      as (_ & _ & _ & H & _). by apply (H (Some "/share") "postgres://" 0%nat).
  - destruct (start_up_contract (Hdb := plain_postgres) (λ _ _, tt) (λ _, Some 0%nat) (λ _, Some tt) ns_of (λ _, Some TNull) true (Csv.mkDisk ∅ []) None)
      as (_ & _ & _ & _ & H & _). apply (H (Some "/share") "postgres://"). right.
    exists "CREATE EXTENSION IF NOT EXISTS timescaledb". split; [vm_compute; list_in|]. intros args p. vm_compute. discriminate.
Defined.

(** The probe of the scripted inverter. *)
Definition outcome_serial (r : outcome ProbeError (list string * Session Mock.MockTransport)) : option Z :=
  match r with Ok (_, s) => Some (inverter_serial s) | _ => None end.
Definition probe_says (r : outcome ProbeError (list string * Session Mock.MockTransport)) (line : string) : Prop :=
  r ≠ Panic ∧ match r with Ok (out, s) => state s = Disconnected ∧ line ∈ out | _ => False end.

Lemma probe_contract_witness :
  probe_says (run_probe (λ _ _, inr (transport ex_session)) 123456 1700000000 "FF:EE:DD:CC:BB:AA" "0000" None 1000)
    "        app_serial: 2120121246".
Proof.
  assert (Hok : ∀ (bt : list Z) (l : option (list Z)) t, inr (A := string) (transport ex_session) = inr t → transport_ok t)
    by (intros bt l t [= <-]; exact ex_session_ok).
  pose proof (probe_contract (λ _ _, inr (transport ex_session)) 123456 1700000000 1000 "FF:EE:DD:CC:BB:AA" "0000" None Hok) as H.
  assert (Hs : outcome_serial (run_probe (λ _ _, inr (transport ex_session)) 123456 1700000000 "FF:EE:DD:CC:BB:AA" "0000" None 1000)
    = Some 2120121246) by (vm_compute; reflexivity).
  cbv zeta in H. revert H Hs. generalize (run_probe (λ _ _, inr (transport ex_session)) 123456 1700000000 "FF:EE:DD:CC:BB:AA" "0000" None 1000).
  intros r (Hp & _ & Hout) Hs. split; [exact Hp|]. destruct r as [[out s]|e|]; [|discriminate Hs|discriminate Hs].
  destruct (Hout out s eq_refl) as (Hst & -> & _). split; [exact Hst|]. injection Hs as ->. apply (bool_decide_unpack _). vm_compute. exact I.
Defined.
