(* ===== verification/System.v ===== *)
(** * The running system (crates/daemon/src/main.rs, pvoutput_uploader.rs)

    What [main] started runs concurrently: inverter tasks that write the
    metrics and the archive, uploaders that read the metrics.  A schedule is
    any order of their operations on the shared state (a registry update, an
    archive write under the sink's lock); it need not be complete, because
    Ctrl-C aborts the tasks, here between two such operations.  Theorems: the tasks do not
    interfere; an upload shows values of the task that polls its device; the
    shared CSV archive holds exactly the rows of each device's own task. *)
From Stdlib Require Import String Ascii SpecFloat Sorted.
From stdpp Require Import gmap pretty.
From S2P Require Import Prelude Text Constants Transport Commands Session Values Storage Mqtt Metrics Config Daemon DaemonProps Tasks Pvoutput.
Import Csv.

Local Open Scope string_scope.
Local Open Scope list_scope.
Local Open Scope Z_scope.

(* ------------------------------------------------------------------ *)
(** ** Schedules                                                       *)
(* ------------------------------------------------------------------ *)

(** A process is the list of events it has still to perform.  A schedule picks
    one process after the other: [schedule ps tr ps'] goes from [ps] to [ps']
    by the events of [tr], each with the number of its process. *)
Inductive schedule : list (list event) → list (nat * event) → list (list event) → Prop :=
  | schedule_stop ps : schedule ps [] ps
  | schedule_step ps i e rest tr ps' :
      ps !! i = Some (e :: rest) → schedule (<[i := rest]> ps) tr ps' → schedule ps ((i, e) :: tr) ps'.

(** The events of one process in a trace. *)
Definition done_by (i : nat) (tr : list (nat * event)) : list event :=
  omap (λ x, if decide (x.1 = i) then Some x.2 else None) tr.

Lemma done_by_elem i tr e : e ∈ done_by i tr ↔ (i, e) ∈ tr.
Proof.
  unfold done_by. rewrite list_elem_of_omap. split.
  - intros ([j e'] & Hin & Hd). cbn in Hd. case_decide; [|done]. by simplify_eq.
  - intros Hin. exists (i, e). split; [done|]. cbn. by rewrite decide_True.
Qed.

(** Each process performs its events in its own order. *)
Lemma schedule_own ps tr ps' i l :
  schedule ps tr ps' → ps !! i = Some l → ∃ l', ps' !! i = Some l' ∧ l = done_by i tr ++ l'.
Proof.
  intros H. revert l. induction H as [ps|ps j e rest tr ps' Hj H IH]; intros l Hl; [by exists l|].
  destruct (decide (j = i)) as [->|Hne].
  - rewrite Hj in Hl. injection Hl as <-.
    destruct (IH rest) as (l' & Hl' & ->); [apply list_lookup_insert_eq; by eapply lookup_lt_Some|].
    exists l'. split; [done|]. cbn. by rewrite decide_True.
  - destruct (IH l) as (l' & Hl' & ->); [by rewrite list_lookup_insert_ne|]. exists l'. split; [done|].
    cbn. by rewrite decide_False.
Qed.

Lemma schedule_elem ps tr ps' i e : schedule ps tr ps' → (i, e) ∈ tr → ∃ l, ps !! i = Some l ∧ e ∈ l.
Proof.
  intros H Hin. induction H as [ps|ps j e' rest tr ps' Hj H IH]; [by apply not_elem_of_nil in Hin|].
  apply elem_of_cons in Hin as [[= -> ->]|Hin]; [exists (e' :: rest); split; [done|list_in]|].
  destruct (IH Hin) as (l & Hl & He). destruct (decide (j = i)) as [->|Hne].
  - rewrite list_lookup_insert_eq in Hl by (by eapply lookup_lt_Some). injection Hl as <-.
    exists (e' :: rest). split; [done|by apply list_elem_of_further].
  - rewrite list_lookup_insert_ne in Hl by done. by exists l.
Qed.

(** Whoever performs all events of a kind performs them as if alone. *)
Lemma filter_owner (P : event → Prop) `{!∀ e, Decision (P e)} i tr :
  (∀ j e, (j, e) ∈ tr → P e → j = i) → filter P tr.*2 = filter P (done_by i tr).
Proof.
  induction tr as [|[j e] tr IH]; intros Hown; [done|]. cbn [fmap list_fmap snd done_by omap list_omap fst].
  rewrite filter_cons, IH by (intros ? ? ? ?; eapply Hown; [by apply list_elem_of_further|done]). fold (done_by i tr).
  destruct (decide (P e)) as [He|He].
  - rewrite (Hown j e), decide_True by (list_in || done). by rewrite filter_cons_True.
  - case_decide; [by rewrite filter_cons_False|done].
Qed.

(* ------------------------------------------------------------------ *)
(** ** Looking at a part of the shared state                           *)
(* ------------------------------------------------------------------ *)

(** A part of the shared state that only [relevant] events change, and change
    by what the part is. *)
Section look.
Context {Sink SinkError X : Type} `{Hsink : !ReadingSink Sink SinkError}.
Context (look : shared Sink → X) (relevant : event → Prop) `{!∀ e, Decision (relevant e)}.
Context (Hother : ∀ h e, ¬ relevant e → look (perform h e) = look h).
Context (Hsame : ∀ h h' e, relevant e → look h = look h' → look (perform h e) = look (perform h' e)).

Lemma look_filter evs h h' : look h = look h' → look (performs h evs) = look (performs h' (filter relevant evs)).
Proof.
  revert h h'. induction evs as [|e evs IH]; intros h h' Hl; [done|]. rewrite filter_cons. unfold performs in *.
  case_decide; cbn [foldl]; apply IH; [by apply Hsame|by rewrite Hother].
Qed.

Lemma look_owner i tr h :
  (∀ j e, (j, e) ∈ tr → relevant e → j = i) → look (performs h tr.*2) = look (performs h (done_by i tr)).
Proof.
  intros Hown. rewrite (look_filter tr.*2 h h eq_refl), (filter_owner relevant i) by done. symmetry. by apply look_filter.
Qed.
End look.

Definition sets_gauge (f : gauge_family) (l : DeviceLabels) (e : event) : Prop :=
  match e with Sets f' l' _ => (f', l') = (f, l) | _ => False end.
Definition counts (f : counter_family) (l : InverterLabels) (e : event) : Prop :=
  match e with Counts f' l' => (f', l') = (f, l) | _ => False end.
Definition sets_int (f : int_gauge_family) (l : InverterLabels) (e : event) : Prop :=
  match e with SetsInt f' l' _ => (f', l') = (f, l) | _ => False end.
#[export] Instance sets_gauge_dec f l e : Decision (sets_gauge f l e).
Proof. destruct e; cbn; apply _. Defined.
#[export] Instance counts_dec f l e : Decision (counts f l e).
Proof. destruct e; cbn; apply _. Defined.
#[export] Instance sets_int_dec f l e : Decision (sets_int f l e).
Proof. destruct e; cbn; apply _. Defined.

Section parts.
Context {Sink SinkError : Type} `{Hsink : !ReadingSink Sink SinkError}.
Implicit Types h : shared Sink.

Lemma gauge_other f l h e : ¬ sets_gauge f l e → gauge_value f l (sh_metrics (perform h e)) = gauge_value f l (sh_metrics h).
Proof. destruct e; cbn [sets_gauge perform]; intros Hn; try done; [by apply gauge_value_set_ne|apply gauge_value_get]. Qed.
Lemma gauge_same f l h h' e :
  sets_gauge f l e → gauge_value f l (sh_metrics h) = gauge_value f l (sh_metrics h') →
  gauge_value f l (sh_metrics (perform h e)) = gauge_value f l (sh_metrics (perform h' e)).
Proof. destruct e; cbn [sets_gauge]; try done. intros [= -> ->] _. cbn [perform on_registry sh_metrics]. by rewrite !gauge_value_set. Qed.

Lemma counter_other f l h e : ¬ counts f l e → counter_value f l (sh_metrics (perform h e)) = counter_value f l (sh_metrics h).
Proof. destruct e; cbn [counts perform]; intros Hn; try done. by apply counter_value_inc_ne. Qed.
Lemma counter_same f l h h' e :
  counts f l e → counter_value f l (sh_metrics h) = counter_value f l (sh_metrics h') →
  counter_value f l (sh_metrics (perform h e)) = counter_value f l (sh_metrics (perform h' e)).
Proof. destruct e; cbn [counts]; try done. intros [= -> ->] Hl. cbn [perform on_registry sh_metrics]. by rewrite !counter_value_inc, Hl. Qed.

Lemma int_other f l h e : ¬ sets_int f l e → int_gauges (sh_metrics (perform h e)) !! (f, l) = int_gauges (sh_metrics h) !! (f, l).
Proof. destruct e; cbn [sets_int perform]; intros Hn; try done. cbn. by rewrite lookup_insert_ne. Qed.
Lemma int_same f l h h' e :
  sets_int f l e → int_gauges (sh_metrics h) !! (f, l) = int_gauges (sh_metrics h') !! (f, l) →
  int_gauges (sh_metrics (perform h e)) !! (f, l) = int_gauges (sh_metrics (perform h' e)) !! (f, l).
Proof. destruct e; cbn [sets_int]; try done. intros [= -> ->] _. cbn. by rewrite !lookup_insert_eq. Qed.
End parts.

(* ------------------------------------------------------------------ *)
(** ** The processes of the daemon                                     *)
(* ------------------------------------------------------------------ *)

(** A run of an inverter task: its configuration, what its clocks show, how
    its connect attempts end, and its own variables as it starts. *)
Record job (T C Sink : Type) : Type := mkJob {
  j_cfg : InverterCfg;
  j_instants : nat → Z;
  j_utc : nat → DateTime;
  j_time_text : Z → string;
  j_rounds : nat;
  j_local_bt : option (list Z);
  j_timeout : Z;
  j_app_serial : Z;
  j_attempts : list (string + T);
  j_world : world T C Sink
}.
Arguments mkJob {T C Sink}. Arguments j_cfg {T C Sink}. Arguments j_instants {T C Sink}. Arguments j_utc {T C Sink}.
Arguments j_time_text {T C Sink}. Arguments j_rounds {T C Sink}. Arguments j_local_bt {T C Sink}. Arguments j_timeout {T C Sink}.
Arguments j_app_serial {T C Sink}. Arguments j_attempts {T C Sink}. Arguments j_world {T C Sink}.

(** The reads of one tick of an uploader. *)
Definition tick_reads (task : UploaderTask) : list event :=
  map (λ f, Reads f (task_labels task)) [ac_power_watts; energy_today_wh; ac_voltage_l1; inverter_temperature_c].

Definition is_read (e : event) : Prop := match e with Reads _ _ => True | _ => False end.

Section system.
Context {T C ClientError Sink SinkError : Type} `{Htransport : Transport T} `{Hclient : !MqttClient C ClientError}
  `{Hsink : !ReadingSink Sink SinkError} `{Hlaws : !SinkLaws Sink SinkError}.
Implicit Types (j : job T C Sink) (h : shared Sink).

(** The task alone, on this shared state. *)
Definition run_job j h : outcome Empty_set (option (list (option Z))) * world T C Sink :=
  run_inverter (j_instants j) (j_utc j) (j_time_text j) (j_rounds j) (j_cfg j) (j_local_bt j) (j_timeout j) (j_app_serial j)
    (j_attempts j) (with_shared h (j_world j)).

(** The events of a job, with an archive or without one: whatever the shared
    state is, its run performs them. *)
Definition job_events (archive : bool) j (evs : list event) : Prop :=
  Forall (own_event (j_utc j) (j_cfg j)) evs ∧
  ∃ r w, ∀ h, has_archive (sh_archive h) = archive → run_job j h = (r, with_shared (performs h evs) w).

Lemma job_has_events j h : ∃ evs, job_events (has_archive (sh_archive h)) j evs.
Proof.
  destruct (emits_run_inverter (j_instants j) (j_utc j) (j_time_text j) (j_cfg j) (j_rounds j) (j_local_bt j) (j_timeout j)
    (j_app_serial j) (j_attempts j) (with_shared h (j_world j))) as (evs & Ho & _ & Hr).
  exists evs. split; [done|]. eexists _, _. intros h' Hh. exact (Hr h' Hh).
Qed.

Lemma jobs_have_events (jobs : list (job T C Sink)) h : ∃ evss, Forall2 (job_events (has_archive (sh_archive h))) jobs evss.
Proof.
  induction jobs as [|j jobs [evss IH]]; [by exists []|]. destruct (job_has_events j h) as [evs He].
  exists (evs :: evss). by constructor.
Qed.

(** What runs: the jobs, and the readers. *)
Definition processes (archive : bool) (jobs : list (job T C Sink)) (readers procs : list (list event)) : Prop :=
  ∃ evss, Forall2 (job_events archive) jobs evss ∧ procs = evss ++ readers ∧ Forall (Forall is_read) readers.

Lemma process_of_job archive jobs readers procs i j :
  processes archive jobs readers procs → jobs !! i = Some j → ∃ evs, procs !! i = Some evs ∧ job_events archive j evs.
Proof.
  intros (evss & Hev & -> & _) Hj. destruct (Forall2_lookup_l _ _ _ _ _ Hev Hj) as (evs & Hl & He).
  exists evs. split; [|done]. by apply lookup_app_l_Some.
Qed.

(** An event that writes comes from a job, and is its own. *)
Lemma writer_is_job archive jobs readers procs tr rest k e :
  processes archive jobs readers procs → schedule procs tr rest → (k, e) ∈ tr → ¬ is_read e →
  ∃ j, jobs !! k = Some j ∧ own_event (j_utc j) (j_cfg j) e.
Proof.
  intros (evss & Hev & -> & Hrd) Hs Hin Hne. destruct (schedule_elem _ _ _ _ _ Hs Hin) as (l & Hl & He).
  apply lookup_app_Some in Hl as [Hl|[_ Hl]].
  - destruct (Forall2_lookup_r _ _ _ _ _ Hev Hl) as (j & Hj & Ho & _). exists j. split; [done|]. by eapply Forall_forall in Ho.
  - eapply Forall_lookup_1 in Hrd; [|exact Hl]. by eapply Forall_forall in Hrd.
Qed.

Lemma same_slot_same_job (jobs : list (job T C Sink)) i k j j' :
  NoDup (map (λ j, i_slot (j_cfg j)) jobs) → jobs !! i = Some j → jobs !! k = Some j' →
  i_slot (j_cfg j') = i_slot (j_cfg j) → k = i.
Proof.
  intros Hnd Hi Hk E. eapply NoDup_lookup; [exact Hnd| |]; rewrite list_lookup_fmap.
  - by rewrite Hk.
  - by rewrite Hi, E.
Qed.

(** The slot a metric event carries decides whose it is. *)
Definition event_slot (e : event) : option string :=
  match e with
  | Counts _ l | SetsInt _ l _ => Some (il_slot l)
  | Sets _ l _ => Some (dl_slot l)
  | _ => None
  end.

Lemma metric_owner archive jobs readers procs tr rest i j k e :
  NoDup (map (λ j, i_slot (j_cfg j)) jobs) → processes archive jobs readers procs → schedule procs tr rest →
  jobs !! i = Some j → (k, e) ∈ tr → event_slot e = Some (i_slot (j_cfg j)) → k = i.
Proof.
  intros Hnd Hp Hs Hj Hin Hslot. destruct (writer_is_job _ _ _ _ _ _ _ _ Hp Hs Hin) as (j' & Hj' & Ho); [destruct e; cbn in *; naive_solver|].
  eapply same_slot_same_job; [done..|]. destruct e; cbn in Ho, Hslot; [| |destruct Ho|..]; congruence.
Qed.
End system.

(* ------------------------------------------------------------------ *)
(** ** Lemmas: gauges by their last update, archives by their rows     *)
(* ------------------------------------------------------------------ *)

(** The last value these events set a gauge to. *)
Definition last_set (f : gauge_family) (l : DeviceLabels) (evs : list event) : option f64 :=
  last (omap (λ e, match e with Sets f' l' v => if decide ((f', l') = (f, l)) then Some v else None | _ => None end) evs).

Lemma gauge_last_set {Sink SinkError} `{Hsink : !ReadingSink Sink SinkError} f l evs (h : shared Sink) :
  gauge_value f l (sh_metrics (performs h evs)) = default (gauge_value f l (sh_metrics h)) (last_set f l evs).
Proof.
  induction evs as [|e evs IH] using rev_ind; [done|]. rewrite performs_app. unfold last_set in *. rewrite omap_app. cbn [omap list_omap].
  destruct (decide (sets_gauge f l e)) as [He|He].
  - destruct e; try done. cbn in He. rewrite decide_True by done. injection He as -> ->. rewrite last_snoc.
    unfold performs at 1. cbn [foldl perform on_registry sh_metrics]. by rewrite gauge_value_set.
  - rewrite (gauge_other f l (performs h evs) e He : gauge_value f l (sh_metrics (performs (performs h evs) [e])) = _), IH.
    assert ((match e with Sets f' l' v => if decide ((f', l') = (f, l)) then Some v else None | _ => None end) = None) as ->.
    { destruct e; try done. cbn in He. by rewrite decide_False. }
    by rewrite app_nil_r.
Qed.

(** The rows of the archive among the events. *)
Definition rows (evs : list event) : list entry :=
  omap (λ e, match e with Writes now slot serial metric v => Some (mkEntry now slot serial metric v) | _ => None end) evs.

Lemma archive_logs {SqlError} r evs (m : MetricsRegistry) s pre :
  logs r pre s → ∃ s', sh_archive (performs (Hsink := csv_sink (SqlError := SqlError)) (mkShared (Some s) m) evs) = Some s' ∧
    logs r (pre ++ rows evs) s'.
Proof.
  revert m s pre. induction evs as [|e evs IH]; intros m s pre Hl; [exists s; by rewrite app_nil_r|].
  destruct e; unfold performs in *; cbn [foldl perform on_registry sh_archive sh_metrics rows omap list_omap fmap option_fmap option_map].
  all: try by apply IH.
  pose proof (logs_append (SqlError := SqlError) r pre (mkEntry now slot serial metric v) s Hl) as Hw.
  unfold wp in Hw. cbn [e_time e_slot e_serial e_metric e_value] in Hw. destruct Hw as [_ Hl'].
  destruct (IH m _ _ Hl') as (s' & Hs' & Hl2). exists s'. split; [exact Hs'|]. by rewrite <-app_assoc in Hl2.
Qed.

Definition row_of (slot : string) (t : DateTime) (e : event) : Prop :=
  match e with Writes now slot' _ _ _ => slot' = slot ∧ same_day now t | _ => False end.
#[export] Instance row_of_dec slot t e : Decision (row_of slot t e).
Proof. destruct e; cbn; apply _. Defined.

Lemma filter_rows slot t evs :
  filter (λ e, e_slot e = slot ∧ same_day (e_time e) t) (rows evs) = rows (filter (row_of slot t) evs).
Proof.
  induction evs as [|e evs IH]; [done|]. rewrite filter_cons. destruct e; cbn [rows omap list_omap row_of]; fold (rows evs).
  1-4: rewrite decide_False by tauto; exact IH.
  rewrite filter_cons, IH. cbn [e_slot e_time]. by repeat case_decide.
Qed.

(** What a process reads, in order. *)
Fixpoint readings {Sink SinkError} `{Hsink : !ReadingSink Sink SinkError} (h : shared Sink) (k : nat) (tr : list (nat * event)) : list f64 :=
  match tr with
  | [] => []
  | (i, e) :: tr =>
      (if decide (i = k) then match e with Reads f l => [gauge_value f l (sh_metrics h)] | _ => [] end else [])
      ++ readings (perform h e) k tr
  end.

(** The status of a tick, from its four readings. *)
Definition tick_status (now : DateTime) (vs : list f64) : option Status :=
  match vs with [p; e; v; t] => status_of now p e v t | _ => None end.

Lemma StronglySorted_cons_map {A} (x : A) (ts : list (list A)) :
  StronglySorted prefix ts → StronglySorted prefix (map (cons x) ts).
Proof.
  induction 1 as [|t ts _ IH Ht]; [constructor|]. cbn [map]. constructor; [done|]. apply Forall_map.
  eapply Forall_impl; [exact Ht|]. intros t' H. by apply prefix_cons.
Qed.

(** Each reading is the gauge at some moment, the moments in order. *)
Lemma readings_at {Sink SinkError} `{Hsink : !ReadingSink Sink SinkError} (h : shared Sink) k l tr fs :
  done_by k tr = map (λ f, Reads f l) fs →
  ∃ ts, length ts = length fs ∧ Forall (λ t, t `prefix_of` tr) ts ∧ StronglySorted prefix ts ∧
    readings h k tr = zip_with (λ t f, gauge_value f l (sh_metrics (performs h t.*2))) ts fs.
Proof.
  revert h fs. induction tr as [|[j e] tr IH]; intros h fs Hd.
  - destruct fs; [|done]. exists []. repeat constructor.
  - cbn [done_by omap list_omap fst snd] in Hd. fold (done_by k tr) in Hd. cbn [readings].
    assert (Hmap : ∀ fs ts, zip_with (λ t f, gauge_value f l (sh_metrics (performs (perform h e) t.*2))) ts fs
      = zip_with (λ t f, gauge_value f l (sh_metrics (performs h t.*2))) (map (cons (j, e)) ts) fs).
    { intros fs0 ts0. revert fs0. induction ts0 as [|t ts0 IHt]; intros [|f fs0]; try done. cbn. by rewrite IHt. }
    assert (Hpre : ∀ ts, Forall (λ t, t `prefix_of` tr) ts → Forall (λ t, t `prefix_of` (j, e) :: tr) (map (cons (j, e)) ts)).
    { intros ts Ht. apply Forall_map. eapply Forall_impl; [exact Ht|]. intros t H. by apply prefix_cons. }
    case_decide as Hj.
    + destruct fs as [|f fs]; [done|]. cbn [map] in Hd. injection Hd as -> Hd.
      destruct (IH (perform h (Reads f l)) fs Hd) as (ts & Hlen & Hp & Hs & Hr).
      exists ([] :: map (cons (j, Reads f l)) ts). cbn [length]. rewrite length_map, Hlen. split; [done|].
      split; [constructor; [apply prefix_nil|by apply Hpre]|]. split.
      { constructor; [by apply StronglySorted_cons_map|]. apply Forall_map, Forall_true. intros t. apply prefix_nil. }
      rewrite Hr, Hmap. done.
    + destruct (IH (perform h e) fs Hd) as (ts & Hlen & Hp & Hs & Hr). exists (map (cons (j, e)) ts).
      rewrite length_map. split; [done|]. split; [by apply Hpre|]. split; [by apply StronglySorted_cons_map|]. by rewrite Hr, Hmap.
Qed.

(** Undisturbed, the tick is [collect_status]. *)
Lemma tick_alone {Sink SinkError} `{Hsink : !ReadingSink Sink SinkError} (h : shared Sink) k task now :
  tick_status now (readings h k (map (pair k) (tick_reads task))) = (collect_status task now (sh_metrics h)).1.
Proof.
  cbn [map tick_reads readings]. repeat (rewrite decide_True by done). cbn [app perform on_registry sh_metrics tick_status].
  by rewrite (proj1 (collect_status_read _ _ _)), !gauge_value_get.
Qed.

(* ------------------------------------------------------------------ *)
(** ** Properties                                                      *)
(* ------------------------------------------------------------------ *)

(** C5. The tasks of different inverters do not interfere.  Whatever the
    shared state is, a run of an inverter task performs the same list of events
    on it; and after any schedule of the tasks and the uploaders (complete, or
    cut off after any operation by Ctrl-C or a panic), the gauges, counters and times of an
    inverter's slot are those its own events so far leave when performed alone;
    once it is done, those of its run alone. *)
Theorem tasks_do_not_interfere {T C ClientError Sink SinkError} `{Htransport : Transport T} `{Hclient : !MqttClient C ClientError}
    `{Hsink : !ReadingSink Sink SinkError} `{Hlaws : !SinkLaws Sink SinkError} (jobs : list (job T C Sink)) (h : shared Sink) :
  NoDup (map (λ j, i_slot (j_cfg j)) jobs) →
  let archive := has_archive (sh_archive h) in
  (∃ procs, processes archive jobs [] procs) ∧
  ∀ readers procs tr rest, processes archive jobs readers procs → schedule procs tr rest →
  ∀ i j, jobs !! i = Some j →
    let slot := i_slot (j_cfg j) in
    let together := sh_metrics (performs h tr.*2) in
    let alone := sh_metrics (performs h (done_by i tr)) in
    (∀ f d, gauge_value f (mkDeviceLabels slot d) together = gauge_value f (mkDeviceLabels slot d) alone) ∧
    (∀ f, counter_value f (mkInverterLabels slot) together = counter_value f (mkInverterLabels slot) alone) ∧
    (∀ f, int_gauges together !! (f, mkInverterLabels slot) = int_gauges alone !! (f, mkInverterLabels slot)) ∧
    (rest !! i = Some [] → alone = w_metrics (run_job j h).2).
Proof.
  intros Hnd archive. split.
  { destruct (jobs_have_events jobs h) as [evss He]. exists (evss ++ []), evss. by split. }
  intros readers procs tr rest Hp Hs i j Hj slot together alone. unfold together, alone.
  assert (Hown : ∀ k e, (k, e) ∈ tr → event_slot e = Some slot → k = i) by (intros; by eapply metric_owner).
  assert (Hpart : ∀ X (look : shared Sink → X) (relevant : event → Prop) `{!∀ e, Decision (relevant e)},
    (∀ h e, ¬ relevant e → look (perform h e) = look h) →
    (∀ h h' e, relevant e → look h = look h' → look (perform h e) = look (perform h' e)) →
    (∀ e, relevant e → event_slot e = Some slot) → look (performs h tr.*2) = look (performs h (done_by i tr))).
  { intros X look relevant Hdec Hother Hsame Hslot. apply (look_owner look relevant); [done..|]. eauto. }
  split; [|split; [|split]].
  - intros f d. apply (Hpart _ (λ h, gauge_value f _ (sh_metrics h)) (sets_gauge f (mkDeviceLabels slot d)) _); eauto using gauge_other, gauge_same.
    intros []; try done. by intros [= -> ->].
  - intros f. apply (Hpart _ (λ h, counter_value f _ (sh_metrics h)) (counts f (mkInverterLabels slot)) _); eauto using counter_other, counter_same.
    intros []; try done. by intros [= -> ->].
  - intros f. apply (Hpart _ (λ h, int_gauges (sh_metrics h) !! _) (sets_int f (mkInverterLabels slot)) _); eauto using int_other, int_same.
    intros []; try done. by intros [= -> ->].
  - intros Hrest. destruct (process_of_job _ _ _ _ _ _ Hp Hj) as (evs & Hl & _ & r & w & Hrun).
    destruct (schedule_own _ _ _ _ _ Hs Hl) as (l' & Hl' & ->). rewrite Hrest in Hl'. injection Hl' as <-.
    rewrite (Hrun h eq_refl), app_nil_r. done.
Qed.

(** C9. An upload shows what the task that polls the device has read.  A tick
    of an uploader reads four gauges one after the other while the tasks run;
    in any schedule, each of the four values is the last one that the task of
    the uploader's slot has set that gauge to at some moment, or the one it had
    at first, the four moments in order; no other task can alter it.  A tick
    nothing runs between is [collect_status]. *)
Theorem uploads_show_polled_values {T C ClientError Sink SinkError} `{Htransport : Transport T} `{Hclient : !MqttClient C ClientError}
    `{Hsink : !ReadingSink Sink SinkError} `{Hlaws : !SinkLaws Sink SinkError} (jobs : list (job T C Sink)) (h : shared Sink)
    (readers procs : list (list event)) (tr : list (nat * event)) (rest : list (list event)) (i k : nat) (j : job T C Sink)
    (task : UploaderTask) (now : DateTime) :
  let lbl := task_labels task in
  NoDup (map (λ j, i_slot (j_cfg j)) jobs) → processes (has_archive (sh_archive h)) jobs readers procs → schedule procs tr rest →
  jobs !! i = Some j → device_slot task = i_slot (j_cfg j) →
  procs !! k = Some (tick_reads task) → rest !! k = Some [] →
  (∃ ts, length ts = 4%nat ∧ Forall (λ t, t `prefix_of` tr) ts ∧ StronglySorted prefix ts ∧
     tick_status now (readings h k tr)
     = tick_status now (zip_with (λ t f, default (gauge_value f lbl (sh_metrics h)) (last_set f lbl (done_by i t))) ts
         [ac_power_watts; energy_today_wh; ac_voltage_l1; inverter_temperature_c])) ∧
  tick_status now (readings h k (map (pair k) (tick_reads task))) = (collect_status task now (sh_metrics h)).1.
Proof.
  intros lbl Hnd Hp Hs Hj Hslot Hk Hrest. split; [|apply tick_alone].
  destruct (schedule_own _ _ _ _ _ Hs Hk) as (l' & Hl' & Htick). rewrite Hrest in Hl'. injection Hl' as <-.
  rewrite app_nil_r in Htick. unfold tick_reads in Htick.
  destruct (readings_at h k lbl tr _ (eq_sym Htick)) as (ts & Hlen & Hpre & Hsort & ->).
  exists ts. split; [exact Hlen|]. split; [exact Hpre|]. split; [exact Hsort|]. f_equal.
  assert (Hv : ∀ t f, t `prefix_of` tr → gauge_value f lbl (sh_metrics (performs h t.*2))
    = default (gauge_value f lbl (sh_metrics h)) (last_set f lbl (done_by i t))).
  { intros t f [u ->]. rewrite <-gauge_last_set.
    apply (look_owner (λ h, gauge_value f lbl (sh_metrics h)) (sets_gauge f lbl)).
    - intros h' e. apply gauge_other.
    - intros h1 h2 e. apply gauge_same.
    - intros k' e Hin Hr. eapply (metric_owner _ _ _ _ _ _ _ _ _ e Hnd Hp Hs Hj); [apply elem_of_app; by left|].
      destruct e; try done. injection Hr as -> ->. cbn. by rewrite Hslot. }
  clear -Hv Hpre. generalize [ac_power_watts; energy_today_wh; ac_voltage_l1; inverter_temperature_c].
  induction Hpre as [|t ts Ht _ IH]; intros [|f fs]; try done. cbn. by rewrite Hv, IH.
Qed.

(** C10. The CSV archive all tasks share holds, for every device and day, the
    rows of the device's own task, all of them, in its order, under one header,
    in any schedule of the tasks, on an empty directory and a disk that does not
    fail; provided that no slot is a device of two inverters. *)
Theorem shared_archive_reads_back {T C ClientError SqlError} `{Htransport : Transport T} `{Hclient : !MqttClient C ClientError}
    (jobs : list (job T C CsvSink)) (readers procs : list (list event)) (tr : list (nat * event)) (rest : list (list event))
    (r : string) (m : MetricsRegistry) :
  let h := mkShared (Some (mkCsvSink r (mkDisk ∅ []))) m in
  (∀ i i' j j' slot, jobs !! i = Some j → jobs !! i' = Some j' →
     slot ∈ device_slots (j_cfg j) → slot ∈ device_slots (j_cfg j') → i = i') →
  (∀ j slot n, j ∈ jobs → slot ∈ device_slots (j_cfg j) →
     slot_ok slot ∧ time_ok (j_utc j n) ∧ plain (to_rfc3339 (j_utc j n))) →
  processes (SinkError := StorageError SqlError) true jobs readers procs → schedule procs tr rest →
  ∃ sink, sh_archive (performs (Hsink := csv_sink (SqlError := SqlError)) h tr.*2) = Some sink ∧
  ∀ i j slot t, jobs !! i = Some j → slot ∈ device_slots (j_cfg j) → time_ok t →
    let log := filter (λ e, e_slot e = slot ∧ same_day (e_time e) t) (rows (done_by i tr)) in
    let file := contents (fs sink) !! filename_for r slot t in
    (log = [] → file = None) ∧ (log ≠ [] → ∃ c, file = Some c ∧ read_csv c = map fields_of log).
Proof.
  intros h Hdisj Hok Hp Hs.
  assert (Hrows : Forall entry_ok (rows tr.*2)).
  { apply Forall_forall. intros x (e & Hin & He)%list_elem_of_omap. apply list_elem_of_fmap in Hin as ([k e'] & -> & Hin).
    destruct e' as [| | | |now slot serial metric v]; try done. injection He as <-.
    destruct (writer_is_job _ _ _ _ _ _ _ _ Hp Hs Hin) as (j & Hj & Hslot & [n ->] & Hm); [by intros []|].
    destruct (Hok j slot n) as (? & ? & ?); [by eapply list_elem_of_lookup_2|done|].
    split; [done|]. split; [|done]. cbn. clear -Hm. revert metric Hm. apply Forall_forall.
    apply (bool_decide_unpack _). vm_compute. exact I. }
  assert (H0 : logs r [] (mkCsvSink r (mkDisk ∅ []))) by by split.
  destruct (archive_logs (SqlError := SqlError) r tr.*2 m _ [] H0) as (sink & Hsink & (_ & _ & Hl)). cbn [app] in Hl.
  exists sink. split; [exact Hsink|]. intros i j slot t Hj Hslot Ht log file.
  destruct (Hok j slot 0%nat) as (Hso & _ & _); [by eapply list_elem_of_lookup_2|done|].
  assert (Hown : ∀ k e, (k, e) ∈ tr → row_of slot t e → k = i).
  { intros k e Hin Hr. destruct e; try done. destruct Hr as [-> _].
    destruct (writer_is_job _ _ _ _ _ _ _ _ Hp Hs Hin) as (j' & Hj' & Hsl & _); [by intros []|]. by eapply Hdisj. }
  specialize (Hl (filename_for r slot t)). unfold content_is in Hl.
  rewrite log_of_file, filter_rows, (filter_owner (row_of slot t) i), <-filter_rows in Hl by done.
  fold log in Hl. unfold file. rewrite Hl. destruct log as [|e l] eqn:El; [done|]. split; [done|]. intros _. eexists. split; [done|].
  apply read_rendered. rewrite <-El. unfold log. rewrite filter_rows, <-(filter_owner (row_of slot t) i tr), <-filter_rows by done.
  apply Forall_forall. intros x [_ Hx]%list_elem_of_filter. by eapply Forall_forall in Hx.
Qed.

(* ------------------------------------------------------------------ *)
(** ** Concrete instances                                              *)
(* ------------------------------------------------------------------ *)

(** Every system has a complete schedule: one process after the other. *)
Lemma complete_schedule ps : ∃ tr, schedule ps tr (map (λ _, []) ps).
Proof.
  assert (Hrun : ∀ done l rest tr ps', schedule (done ++ [] :: rest) tr ps' →
    schedule (done ++ l :: rest) (map (pair (length done)) l ++ tr) ps').
  { intros dn l rest tr ps' H. induction l as [|e l IH]; [done|]. cbn [map app]. eapply schedule_step.
    - by rewrite list_lookup_middle.
    - rewrite insert_app_r_alt, Nat.sub_diag by done. exact IH. }
  assert (Hall : ∀ dn rest, Forall (.= []) dn → ∃ tr, schedule (dn ++ rest) tr (map (λ _, []) (dn ++ rest))).
  { intros dn rest. revert dn. induction rest as [|l rest IH]; intros dn Hd.
    - exists []. rewrite app_nil_r. assert (map (λ _, []) dn = dn) as -> by (induction Hd as [|? ? ->]; cbn; congruence). constructor.
    - destruct (IH (dn ++ [[]])) as [tr Htr]; [apply Forall_app; by repeat constructor|]. rewrite <-app_assoc in Htr. cbn [app] in Htr.
      eexists. rewrite map_app in Htr |- *. cbn [map] in Htr |- *. apply Hrun. exact Htr. }
  destruct (Hall [] ps) as [tr Htr]; [constructor|]. by exists tr.
Qed.

(** Two inverters, each answering one power query before its task panics. *)
Definition garage_cfg : InverterCfg :=
  mkInverterCfg "garage" "00:80:25:21:32:36" "0000" (secs 5) "unknown" "unknown" false 0 (secs 60) [] false.
Definition producing_transport : Mock.MockTransport :=
  Mock.queue_replies
    ([fake_hello; fake_topology; fake_init_reply; fake_logon_reply]
     ++ map (λ pkt, fake_reply 9 0 0 pkt (if pkt =? 8 then power_body else replicate 12 0)) (seqZ 4 16)) Mock.new.
Definition job_of (cfg : InverterCfg) (t : Mock.MockTransport) : job Mock.MockTransport nat CsvSink :=
  mkJob cfg (λ _, 0) (λ _, noon) (λ _, "then") 5 (Some test_local) 15000 900123456 [inr t] (world0 Mock.new).
Definition two_jobs : list (job Mock.MockTransport nat CsvSink) := [job_of cfg0 producing_transport; job_of garage_cfg healthy_transport].
Definition fresh : shared CsvSink := mkShared (Some (mkCsvSink "/share" (mkDisk ∅ []))) MetricsRegistry_new.

Lemma two_jobs_slots : NoDup (map (λ j, i_slot (j_cfg j)) two_jobs).
Proof. apply (bool_decide_unpack _). vm_compute. exact I. Qed.

Lemma two_jobs_schedule readers : Forall (Forall is_read) readers →
  ∃ procs tr, processes (Hclient := room_client) true two_jobs readers procs ∧ schedule procs tr (map (λ _, []) procs) ∧
    length procs = (2 + length readers)%nat ∧ drop 2 procs = readers.
Proof.
  intros Hr. destruct (jobs_have_events (Hclient := room_client) two_jobs fresh) as [evss He].
  destruct (complete_schedule (evss ++ readers)) as [tr Htr]. exists (evss ++ readers), tr.
  assert (Hlen : length evss = 2%nat) by (symmetry; exact (Forall2_length _ _ _ He)).
  split; [by exists evss|]. split; [exact Htr|]. rewrite length_app, Hlen. split; [done|]. by rewrite <-Hlen, drop_app_length.
Qed.

Lemma tasks_do_not_interfere_witness :
  ∃ procs tr, processes (Hclient := room_client) true two_jobs [] procs ∧ schedule procs tr (map (λ _, []) procs) ∧
    gauge_value ac_power_watts (mkDeviceLabels "zolder" "zolder") (sh_metrics (performs fresh tr.*2)) = to_f64 1234 ∧
    counter_value polls_total (mkInverterLabels "garage") (sh_metrics (performs fresh tr.*2)) = 1.
Proof.
  destruct (two_jobs_schedule [] (Forall_nil_2 _)) as (procs & tr & Hp & Hs & Hlen & _). exists procs, tr.
  split; [exact Hp|]. split; [exact Hs|].
  destruct (tasks_do_not_interfere (Hclient := room_client) two_jobs fresh two_jobs_slots) as [_ H].
  destruct procs as [|p0 [|p1 [|]]]; try discriminate Hlen.
  destruct (H [] _ tr _ Hp Hs 0%nat _ eq_refl) as (Hg & _ & _ & Ha).
  destruct (H [] _ tr _ Hp Hs 1%nat _ eq_refl) as (_ & Hc & _ & Hb).
  specialize (Ha eq_refl). specialize (Hb eq_refl). split.
  - rewrite Hg, Ha. vm_compute. reflexivity.
  - rewrite Hc, Hb. vm_compute. reflexivity.
Defined.

(** The uploader of the first inverter beside them. *)
Definition zolder_uploader : UploaderTask := mkUploaderTask "abc" 12345 "zolder" "zolder" (secs 300).

Lemma uploads_show_polled_values_witness :
  ∃ procs tr, processes (Hclient := room_client) true two_jobs [tick_reads zolder_uploader] procs ∧
    schedule procs tr (map (λ _, []) procs) ∧
    ∃ ts, length ts = 4%nat ∧ tick_status april (readings fresh 2 tr)
      = tick_status april (zip_with (λ t f, default (S754_zero false) (last_set f (mkDeviceLabels "zolder" "zolder") (done_by 0 t))) ts
          [ac_power_watts; energy_today_wh; ac_voltage_l1; inverter_temperature_c]).
Proof.
  destruct (two_jobs_schedule [tick_reads zolder_uploader]) as (procs & tr & Hp & Hs & Hlen & Hd); [by repeat constructor|].
  exists procs, tr. split; [exact Hp|]. split; [exact Hs|].
  destruct procs as [|p0 [|p1 [|p2 [|]]]]; try discriminate Hlen. injection Hd as ->.
  destruct (uploads_show_polled_values (Hclient := room_client) two_jobs fresh _ _ _ _ 0 2 (job_of cfg0 producing_transport)
    zolder_uploader april two_jobs_slots Hp Hs) as [(ts & H1 & _ & _ & H2) _]; try reflexivity.
  exists ts. split; [exact H1|exact H2].
Defined.

Lemma shared_archive_reads_back_witness :
  ∃ procs tr sink, processes (Hclient := room_client) true two_jobs [] procs ∧ schedule procs tr (map (λ _, []) procs) ∧
    sh_archive (performs fresh tr.*2) = Some sink ∧
    let log := filter (λ e, e_slot e = "zolder" ∧ same_day (e_time e) noon) (rows (done_by 0 tr)) in
    log ≠ [] → ∃ c, contents (fs sink) !! "/share/zolder-2026-04-19.csv" = Some c ∧ read_csv c = map fields_of log.
Proof.
  destruct (two_jobs_schedule [] (Forall_nil_2 _)) as (procs & tr & Hp & Hs & _).
  destruct (shared_archive_reads_back (Hclient := room_client) (SqlError := Empty_set) two_jobs [] procs tr (map (λ _, []) procs)
    "/share" MetricsRegistry_new) as (sink & Hsink & H).
  - intros [|[|i]] [|[|i']] j j' slot [= <-] [= <-]; try reflexivity; cbn; intros Ha Hb; exfalso;
      apply list_elem_of_singleton in Ha as ->; apply list_elem_of_singleton in Hb; discriminate Hb.
  - intros j slot n Hj Hslot. unfold two_jobs in Hj. apply elem_of_cons in Hj as [->|Hj]; [|apply list_elem_of_singleton in Hj as ->];
      apply list_elem_of_singleton in Hslot as ->; (split; [reflexivity|]; split; [repeat split; cbn; lia|split; reflexivity]).
  - exact Hp.
  - exact Hs.
  - exists procs, tr, sink. split; [exact Hp|]. split; [exact Hs|]. split; [exact Hsink|].
    destruct (H 0%nat (job_of cfg0 producing_transport) "zolder" noon eq_refl) as [_ Hr];
      [cbn; list_in|repeat split; cbn; lia|exact Hr].
Defined.
