(* ===== verification/WireTests.v ===== *)
(** * Unit tests of the wire crates (sma-bt-protocol, bluez-transport)

    The [#[test]] functions of these crates, run on the models: each is a
    boolean that the source's assertions make up, and evaluates to true.  They
    tie the definitions the theorems are about to what the repository expects of
    its code. *)
From Stdlib Require Import String Ascii.
From S2P Require Import Prelude Text Constants Fcs Frame Packet Framer Transport Commands.
Import Query Auth.

Local Open Scope string_scope.
Local Open Scope list_scope.
Local Open Scope Z_scope.

(** [assert_eq!] and [Result::unwrap], [Option::unwrap] in a test. *)
Declare Scope test_scope.
Delimit Scope test_scope with test.
Notation "x ≟ y" := (bool_decide (x = y)) (at level 70) : test_scope.
Local Open Scope test_scope.
Definition unwrap {E A} (o : outcome E A) (test : A → bool) : bool := match o with Ok a => test a | _ => false end.
Definition unwrap_opt {A} (o : option A) (test : A → bool) : bool := match o with Some a => test a | None => false end.

(** [x[a..b]] *)
Abbreviation sub l a b := (firstn (b - a) (skipn a l)).

(* ------------------------------------------------------------------ *)
(** ** fcs.rs                                                          *)
(* ------------------------------------------------------------------ *)

Definition known_ppp_vector : bool := compute (bytes_of "123456789") ≟ 0x906E.
Definition empty_is_zero : bool := compute [] ≟ 0.
Definition known_sbf_table_row_zero : bool :=
  (nth 0 FCS_TAB 1 ≟ 0x0000) && (nth 1 FCS_TAB 0 ≟ 0x1189) && (nth 2 FCS_TAB 0 ≟ 0x2312) && (nth 255 FCS_TAB 0 ≟ 0x0F78).

(* ------------------------------------------------------------------ *)
(** ** frame.rs                                                        *)
(* ------------------------------------------------------------------ *)

Definition stuff_roundtrip_plain : bool :=
  let data := [0x01; 0x02; 0x03] in
  let s := stuff data in
  (s ≟ data) && (unstuff s ≟ Ok data).
Definition stuff_escapes_control_bytes : bool :=
  let data := [0x7E; 0x7D; 0x11; 0x12; 0x13; 0x42] in
  let s := stuff data in
  (s ≟ [0x7D; 0x5E; 0x7D; 0x5D; 0x7D; 0x31; 0x7D; 0x32; 0x7D; 0x33; 0x42]) && (unstuff s ≟ Ok data).
Definition unstuff_truncated_escape_errors : bool := unstuff [0x7D] ≟ Err TruncatedEscape.
Definition empty_frame_too_short : bool := match parse [] with Err (TooShort _ _) => true | _ => false end.
Definition builder_parse_roundtrip_simple : bool :=
  let local := [0x11; 0x22; 0x33; 0x44; 0x55; 0x66] in
  let dest := [0xAA; 0xBB; 0xCC; 0xDD; 0xEE; 0xFF] in
  let payload0 := [0xFF; 0x03; 0x60; 0x65; 0x01; 0x02; 0x03; 0x04] in
  let wire := build (extend (new_builder local dest 0x0001) payload0) in
  unwrap (parse wire) (λ parsed,
    (local_bt parsed ≟ local) && (dest_bt parsed ≟ dest) && (control parsed ≟ 0x0001) && (payload parsed ≟ payload0)).
Definition header_checksum_detected : bool :=
  let wire := build (extend (new_builder (replicate 6 0) (replicate 6 0) 0) [0xFF; 0x03; 0x60; 0x65]) in
  match parse (alter (Z.lxor 0x01) 3%nat wire) with Err (HeaderChecksum _ _) => true | _ => false end.

(* ------------------------------------------------------------------ *)
(** ** packet.rs                                                       *)
(* ------------------------------------------------------------------ *)

Definition encode_contains_signature_at_offset_0 : bool :=
  firstn 4 (encode_l2 (hdr_query 1 0x12345678 0x007D 0xDEADBEEF) []) ≟ [0xFF; 0x03; 0x60; 0x65].
Definition encode_decode_roundtrip : bool :=
  let hdr := mkL2Header 0x0E 0xA0 ANY_SUSY_ID ANY_SERIAL 0x0100 APP_SUSY_ID 900123456 0 0x0042 in
  let body := [0x0C; 0x04; 0xFD; 0xFF; 0x00; 0x00; 0x00; 0x00] in
  unwrap (decode_l2 (E := Empty_set) (encode_l2 hdr body)) (λ o, unwrap_opt o (λ '(decoded, rest),
    (longwords decoded ≟ longwords hdr) && (ctrl decoded ≟ ctrl hdr) && (dst_susy_id decoded ≟ dst_susy_id hdr) &&
    (dst_serial decoded ≟ dst_serial hdr) && (ctrl2 decoded ≟ ctrl2 hdr) && (app_susy_id decoded ≟ app_susy_id hdr) &&
    (app_serial decoded ≟ app_serial hdr) && (pkt_id decoded ≟ pkt_id hdr) && (rest ≟ body))).
Definition decode_rejects_wrong_signature : bool :=
  decode_l2 (E := Empty_set) ([0xAA; 0xBB; 0xCC; 0xDD] ++ replicate 24 0) ≟ Ok None.
Definition decode_short_is_none : bool := decode_l2 (E := Empty_set) (replicate 10 0) ≟ Ok None.

(* ------------------------------------------------------------------ *)
(** ** commands.rs, auth.rs                                            *)
(* ------------------------------------------------------------------ *)

Definition spot_ac_total_power_has_correct_opcode : bool := opcode SpotAcTotalPower ≟ (0x51000200, 0x00263F00, 0x00263FFF).
Definition query_body_shape : bool :=
  let body := build_query_body SpotAcTotalPower 0x0042 900000000 0x007D 0xDEADBEEF in
  let cmd_slice := skipn 28 body in
  (length body ≟ (28 + 12)%nat) && (sub cmd_slice 0 4 ≟ le_encode 4 0x51000200) &&
  (sub cmd_slice 4 8 ≟ le_encode 4 0x00263F00) && (sub cmd_slice 8 12 ≟ le_encode 4 0x00263FFF).
Definition event_log_body_shape : bool :=
  let body := build_event_log_body 0x0099 900000000 0x007D 0xDEADBEEF 1700000000 1700086400 in
  let cmd_slice := skipn 28 body in
  (length body ≟ (28 + 12)%nat) && (sub cmd_slice 0 4 ≟ le_encode 4 0x70100200) &&
  (sub cmd_slice 4 8 ≟ le_encode 4 1700000000) && (sub cmd_slice 8 12 ≟ le_encode 4 1700086400) && (nth 5 body 0 ≟ 0xE0).

Definition empty_password_user_group : bool := encode_password [] User ≟ replicate 12 0x88.
Definition empty_password_installer_group : bool := encode_password [] Installer ≟ replicate 12 0xBB.
Definition default_0000_password : bool :=
  let enc := encode_password (bytes_of "0000") User in
  (firstn 4 enc ≟ [0xB8; 0xB8; 0xB8; 0xB8]) && (skipn 4 enc ≟ replicate 8 0x88).
Definition password_truncated_to_12 : bool :=
  let enc := encode_password (bytes_of "abcdefghijklmno") User in
  (nth 0 enc 0 ≟ (97 + 0x88) mod 256) && (nth 11 enc 0 ≟ (108 + 0x88) mod 256).
Definition logon_body_structure : bool :=
  let body := build_logon_body (bytes_of "0000") User 0x0001 900100200 1700000000 in
  let cmd := skipn 28 body in
  (firstn 4 body ≟ [0xFF; 0x03; 0x60; 0x65]) && (nth 4 body 0 ≟ 0x0E) && (nth 5 body 0 ≟ 0xA0) &&
  (sub cmd 0 4 ≟ [0x0C; 0x04; 0xFD; 0xFF]) && (sub cmd 4 8 ≟ le_encode 4 (code User)) && (sub cmd 8 12 ≟ le_encode 4 0x00000384) &&
  (sub cmd 12 16 ≟ le_encode 4 1700000000) && (sub cmd 16 20 ≟ replicate 4 0) && (sub cmd 20 24 ≟ [0xB8; 0xB8; 0xB8; 0xB8]) &&
  (sub cmd 24 32 ≟ replicate 8 0x88).

Lemma protocol_unit_tests_pass :
  forallb id [known_ppp_vector; empty_is_zero; known_sbf_table_row_zero; stuff_roundtrip_plain; stuff_escapes_control_bytes;
    unstuff_truncated_escape_errors; empty_frame_too_short; builder_parse_roundtrip_simple; header_checksum_detected;
    encode_contains_signature_at_offset_0; encode_decode_roundtrip; decode_rejects_wrong_signature; decode_short_is_none;
    spot_ac_total_power_has_correct_opcode; query_body_shape; event_log_body_shape; empty_password_user_group;
    empty_password_installer_group; default_0000_password; password_truncated_to_12; logon_body_structure] = true.
Proof. vm_compute. reflexivity. Qed.

(* ------------------------------------------------------------------ *)
(** ** framer.rs                                                       *)
(* ------------------------------------------------------------------ *)

(** The header both helpers build: delimiter, length, checksum, 14 zeros. *)
Definition shaped_header (total : Z) : list Z :=
  let len_lo := Z.land total 0xFF in
  let len_hi := Z.land (Z.shiftr total 8) 0xFF in
  let hdr_cks := Z.lxor (Z.lxor FRAME_DELIMITER len_lo) len_hi in
  [FRAME_DELIMITER; len_lo; len_hi; hdr_cks] ++ replicate 14 0.
Definition l1_frame (payload : list Z) : list Z := shaped_header (18 + zlen payload) ++ payload.
Definition l2_shaped (body : list Z) : list Z := shaped_header (18 + zlen body + 1) ++ body ++ [FRAME_DELIMITER].

(** [r.push(chunk)] for each chunk, then [n] times [r.pop_frame()]. *)
Definition pushed (chunks : list (list Z)) : outcome Empty_set FrameReader := foldM push FrameReader_new chunks.
Fixpoint popped (n : nat) (r : FrameReader) : list (option (list Z)) * FrameReader :=
  match n with
  | O => ([], r)
  | S n => let '(f, r) := pop_frame r in let '(fs, r) := popped n r in (f :: fs, r)
  end.

Definition l1_only_frame_no_trailing_delimiter : bool :=
  let frame := l1_frame [0xDE; 0xAD; 0xBE; 0xEF] in
  unwrap (pushed [frame]) (λ r, let '(got, r) := popped 1 r in (got ≟ [Some frame]) && negb (has_frame r)).
Definition two_back_to_back_l1_frames_split_correctly : bool :=
  let f1 := l1_frame [0xAA] in
  let f2 := l1_frame [0xBB; 0xCC] in
  unwrap (pushed [f1 ++ f2]) (λ r, let '(got, r) := popped 2 r in (got ≟ [Some f1; Some f2]) && negb (has_frame r)).
Definition l2_shaped_frame_with_trailing_delimiter : bool :=
  let frame := l2_shaped [0xFF; 0x03; 0x60; 0x65; 0x12; 0x34] in
  unwrap (pushed [frame]) (λ r, (popped 1 r).1 ≟ [Some frame]).
Definition bytes_before_first_delimiter_dropped : bool :=
  let frame := l1_frame [0x01; 0x02] in
  unwrap (pushed [[0x00; 0x11; 0x22] ++ frame]) (λ r, (popped 1 r).1 ≟ [Some frame]).
Definition partial_frame_held_until_complete : bool :=
  let frame := l1_frame [0x01; 0x02; 0x03; 0x04] in
  unwrap (pushed [firstn 5 frame]) (λ r,
    negb (has_frame r) && unwrap (push r (skipn 5 frame)) (λ r, (popped 1 r).1 ≟ [Some frame])).
Definition bad_header_checksum_resyncs : bool :=
  let real := l1_frame [0xAB] in
  unwrap (pushed [[FRAME_DELIMITER; 0x00; 0x00; 0xFF] ++ real]) (λ r, (popped 1 r).1 ≟ [Some real]).

(* ------------------------------------------------------------------ *)
(** ** mock.rs, rfcomm.rs                                              *)
(* ------------------------------------------------------------------ *)

Definition scripted_replies : bool :=
  let t := Mock.queue_reply [0x7E; 0xBB; 0x7E] (Mock.queue_reply [0x7E; 0xAA; 0x7E] Mock.new) in
  let '(r1, t) := Mock.mock_send [0x7E; 0x01; 0x7E] t in
  let '(r2, t) := Mock.mock_recv 0 t in
  let '(r3, t) := Mock.mock_recv 0 t in
  let '(r4, t) := Mock.mock_recv 0 t in
  (r1 ≟ Ok 3) && (r2 ≟ Ok [0x7E; 0xAA; 0x7E]) && (r3 ≟ Ok [0x7E; 0xBB; 0x7E]) && (r4 ≟ Err MockExhausted) &&
  (Mock.sent_frames t ≟ [[0x7E; 0x01; 0x7E]]).
Definition close_makes_further_ops_error : bool :=
  let '(r1, t) := Mock.mock_close Mock.new in
  (r1 ≟ Ok ()) && ((Mock.mock_send [] t).1 ≟ Err Closed) && ((Mock.mock_recv 0 t).1 ≟ Err Closed).

Definition mac_parse_roundtrip : bool :=
  unwrap_opt (Mac.parse_bt_mac (bytes_of "00:80:25:21:32:35")) (λ mac,
    (mac ≟ [0x35; 0x32; 0x21; 0x25; 0x80; 0x00]) && (Mac.format_bt_mac mac ≟ bytes_of "00:80:25:21:32:35")).
Definition bad_mac_rejected : bool :=
  (Mac.parse_bt_mac (bytes_of "not:a:mac") ≟ None) && (Mac.parse_bt_mac (bytes_of "00:11:22:33:44") ≟ None).

Lemma transport_unit_tests_pass :
  forallb id [l1_only_frame_no_trailing_delimiter; two_back_to_back_l1_frames_split_correctly;
    l2_shaped_frame_with_trailing_delimiter; bytes_before_first_delimiter_dropped; partial_frame_held_until_complete;
    bad_header_checksum_resyncs; scripted_replies; close_makes_further_ops_error; mac_parse_roundtrip; bad_mac_rejected] = true.
Proof. vm_compute. reflexivity. Qed.

(* ------------------------------------------------------------------ *)
(** ** tests/captured_frames.rs                                        *)
(* ------------------------------------------------------------------ *)

(** [hex_line_to_bytes]: two hexadecimal digits for each byte. *)
Fixpoint hex_line_to_bytes (line : list Z) : option (list Z) :=
  match line with
  | [] => Some []
  | 32 :: line => hex_line_to_bytes line
  | a :: b :: line => x ← Mac.u8_from_hex [a; b]; xs ← hex_line_to_bytes line; Some (x :: xs)
  | _ => None
  end.

Definition frame_builder_matches_captured_discovery_packet : bool :=
  let b := new_with_kind L1Only (replicate 6 0) [1; 0; 0; 0; 0; 0] 0x0201 in
  let wire := build (extend b (bytes_of "ver" ++ [13; 10])) in
  hex_line_to_bytes (bytes_of "7e 17 00 69 00 00 00 00 00 00 01 00 00 00 00 00 01 02 76 65 72 0d 0a") ≟ Some wire.

Definition l2_frame_has_separator_and_roundtrips : bool :=
  let local := [0x74; 0x37; 0x5a; 0x1a; 0x42; 0x04] in
  let dest := replicate 6 0xFF in
  let payload0 := [0xFF; 0x03; 0x60; 0x65; 0x09; 0xA0; 0xFF; 0xFF; 0xFF; 0xFF; 0xFF; 0xFF; 0x00; 0x00; 0x7E; 0x00; 0x50; 0xFB; 0x2D;
    0x3B; 0x00; 0x00; 0x00; 0x00; 0x00; 0x00] in
  let wire := build (extend (new_builder local dest 0x0001) payload0) in
  let stuffed_region := sub wire 19 (length wire - 1) in
  (nth 0 wire 0 ≟ 0x7E) && (nth 18 wire 0 ≟ 0x7E) && (last wire ≟ Some 0x7E) &&
  existsb (λ w, w ≟ (0x7D, 0x5E)) (zip stuffed_region (tail stuffed_region)) &&
  unwrap (parse wire) (λ parsed,
    (kind parsed ≟ L2Wrapped) && (local_bt parsed ≟ local) && (dest_bt parsed ≟ dest) && (control parsed ≟ 0x0001) &&
    (payload parsed ≟ payload0)).

(** How a captured line is classified: parsed as a frame, parsed as an L2-only
    blob, too short, or failed. *)
Inductive capture_class : Type := L1Valid | L2OnlyBlob | Truncated | Failed.
Definition classify (line : string) : capture_class :=
  match hex_line_to_bytes (bytes_of line) with
  | None => Failed
  | Some raw =>
      if decide (length raw < 5)%nat then Truncated
      else if (nth 0 raw 0 =? 0x7E) && (sub raw 1 5 ≟ [0xFF; 0x03; 0x60; 0x65]) then
        match parse_l2_only_blob raw with Ok _ => L2OnlyBlob | _ => Failed end
      else match parse raw with Ok _ => L1Valid | _ => Failed end
  end.

Lemma captured_unit_tests_pass :
  forallb id [frame_builder_matches_captured_discovery_packet; l2_frame_has_separator_and_roundtrips] = true.
Proof. vm_compute. reflexivity. Qed.

(** The first captured frames, src/tests/fixtures/captured/0000-send.hex to
    0023: a whole logon of the reference client and its first queries. *)
Definition captured : list string := [
  "7e 17 00 69 00 00 00 00 00 00 01 00 00 00 00 00 01 02 76 65 72 0d 0a";
  "7e 1f 00 61 35 32 21 25 80 00 00 00 00 00 00 00 02 00 00 04 70 00 02 00 00 00 00 01 00 00 00";
  "7e 1f 00 61 00 00 00 00 00 00 35 32 21 25 80 00 02 00 00 04 70 00 02 00 00 00 00 01 00 00 00";
  "7e 1f 00 61 35 32 21 25 80 00 00 00 00 00 00 00 0a 00 35 32 21 25 80 00 01 74 37 5a 1a 42 04";
  "7e 32 00 4c 35 32 21 25 80 00 00 00 00 00 00 00 05 00 ca 87 21 25 80 00 01 01 27 11 1e 25 80 00 01 01 35 32 21 25 80 00 01 01 74 37 5a 1a 42 04 02 01";
  "7e 3f 00 41 74 37 5a 1a 42 04 ff ff ff ff ff ff 01 00 7e ff 03 60 65 09 a0 ff ff ff ff ff ff 00 00 7d 5d 00 50 fb 2d 3b 00 00 00 00 00 00 02 80 00 02 00 00 00 00 00 00 00 00 00 00 3f 19 7e";
  "7e ff 03 60 65 13 90 7d 00 50 fb 2d 3b 00 00 83 00 9e 7b 5e 7e 00 00 00 00 00 00 02 80 01 02 00 00 00 00 00 00 00 00 00 00 00 03 00 00 00 ff 00 00 d8 67 00 20 01 00 83 00 9e 7b 5e 7e 00 00 0a 00 0c 00 00 00 00 00 00 00 03 00 00 00 01 01 00 00 ae 8f 7e";
  "7e ff 03 60 65 13 80 7d 00 50 fb 2d 3b 00 00 66 00 75 10 22 0a 00 00 00 00 00 00 02 80 01 02 00 00 00 00 00 00 00 00 00 00 00 00 00 00 00 ff 00 00 00 00 00 00 01 00 66 00 00 00 00 00 00 00 28 00 0a 00 00 00 00 00 00 00 00 00 00 00 00 00 00 00 46 27 7e";
  "7e ff 03 60 65 13 90 7d 00 50 fb 2d 3b 00 00 83 00 27 7c 5e 7e 00 00 00 00 00 00 02 80 01 02 00 00 00 00 00 00 00 00 00 00 00 03 00 00 00 ff 00 00 d8 67 00 20 01 00 83 00 27 7c 5e 7e 00 00 0a 00 0c 00 00 00 00 00 00 00 03 00 00 00 01 01 00 00 36 f6 7e";
  "7e 3b 00 45 74 37 5a 1a 42 04 ff ff ff ff ff ff 01 00 7e ff 03 60 65 08 a0 ff ff ff ff ff ff 00 03 7d 5d 00 50 fb 2d 3b 00 03 00 00 00 00 03 80 0e 01 fd ff ff ff ff ff bd 26 7e";
  "7e 14 00 6a 74 37 5a 1a 42 04 ca 87 21 25 80 00 03 00 05 00";
  "7e 18 00 66 ca 87 21 25 80 00 74 37 5a 1a 42 04 04 00 05 00 00 00 ae 00";
  "7e 53 00 2d 74 37 5a 1a 42 04 ff ff ff ff ff ff 01 00 7e ff 03 60 65 0e a0 ff ff ff ff ff ff 00 01 7d 5d 00 50 fb 2d 3b 00 01 00 00 00 00 04 80 0c 04 fd ff 07 00 00 00 84 03 00 00 6c 88 e2 69 00 00 00 00 fb e2 bc f3 f5 d3 dc 00 d7 ec d0 d6 dd 08 7e";
  "7e ff 03 60 65 0e d0 7d 00 50 fb 2d 3b 00 01 83 00 9e 7b 5e 7e 00 01 00 00 00 00 04 80 0d 04 fd ff 07 00 00 00 84 03 00 00 6c 88 e2 69 00 00 00 00 fb e2 bc f3 f5 d3 dc 00 d7 ec d0 d6 d0 ba 7e";
  "7e ff 03 60 65 0b 80 7d 00 50 fb 2d 3b 00 01 66 00 75 10 22 0a 00 01 00 00 00 00 04 80 0d 04 fd ff 07 00 00 00 84 03 00 00 6c 88 e2 69 00 00 00 00 bd 17 7e";
  "7e ff 03 60 65 0e d0 7d 00 50 fb 2d 3b 00 01 83 00 27 7c 5e 7e 00 01 00 00 00 00 04 80 0d 04 fd ff 07 00 00 00 84 03 00 00 6c 88 e2 69 00 00 00 00 fb e2 bc f3 f5 d3 dc 00 d7 ec d0 d6 4c e5 7e";
  "7e 3f 00 41 74 37 5a 1a 42 04 ff ff ff ff ff ff 01 00 7e ff 03 60 65 09 a0 66 00 75 10 22 0a 00 00 7d 5d 00 50 fb 2d 3b 00 00 00 00 00 00 05 80 00 02 00 58 00 34 82 00 ff 34 82 00 2e fe 7e";
  "7e ff 03 60 65 13 80 7d 00 50 fb 2d 3b 00 00 66 00 75 10 22 0a 00 00 00 00 00 00 05 80 01 02 00 58 00 00 00 00 00 00 00 00 80 34 82 00 6d 88 e2 69 00 00 00 00 00 00 00 00 00 00 00 00 00 00 00 00 04 68 12 12 04 68 12 12 00 00 00 00 00 00 00 00 03 57 7e";
  "7e 40 00 3e 74 37 5a 1a 42 04 ff ff ff ff ff ff 01 00 7e ff 03 60 65 09 a0 83 00 27 7c 5e 7d 5e 00 00 7d 5d 00 50 fb 2d 3b 00 00 00 00 00 00 06 80 00 02 00 58 00 34 82 00 ff 34 82 00 3f f9 7e";
  "7e ff 03 60 65 13 90 7d 00 50 fb 2d 3b 00 a0 83 00 27 7c 5e 7e 00 00 00 00 00 00 06 80 01 02 00 58 05 00 00 00 05 00 00 00 01 34 82 00 06 b0 26 69 00 00 00 00 00 00 00 00 fe ff ff ff fe ff ff ff 04 06 30 02 04 06 30 02 00 00 00 00 00 00 00 00 9a e4 7e";
  "7e 40 00 3e 74 37 5a 1a 42 04 ff ff ff ff ff ff 01 00 7e ff 03 60 65 09 a0 83 00 9e 7b 5e 7d 5e 00 00 7d 5d 00 50 fb 2d 3b 00 00 00 00 00 00 07 80 00 02 00 58 00 34 82 00 ff 34 82 00 59 a8 7e";
  "7e ff 03 60 65 13 90 7d 00 50 fb 2d 3b 00 a0 83 00 9e 7b 5e 7e 00 00 00 00 00 00 07 80 01 02 00 58 05 00 00 00 05 00 00 00 01 34 82 00 43 b2 26 69 00 00 00 00 00 00 00 00 fe ff ff ff fe ff ff ff 04 06 30 02 04 06 30 02 00 00 00 00 00 00 00 00 fa c2 7e";
  "7e 3f 00 41 74 37 5a 1a 42 04 ff ff ff ff ff ff 01 00 7e ff 03 60 65 09 a0 66 00 75 10 22 0a 00 00 7d 5d 00 50 fb 2d 3b 00 00 00 00 00 00 08 80 00 02 00 58 00 1e 82 00 ff 20 82 00 3e f0 7e";
  "7e ff 03 60 65 27 80 7d 00 50 fb 2d 3b 00 00 66 00 75 10 22 0a 00 00 00 00 00 00 08 80 01 02 00 58 00 00 00 00 02 00 00 00 80 1e 82 10 6e 88 e2 69 53 4e 3a 20 30 31 37 30 30 30 34 35 39 37 20 20 20 20 20 20 20 20 20 20 00 00 00 00 00 00 00 00 80 1f 82 08 6e 88 e2 69 c0 1f 00 01 fe ff ff 00 00 00 00 00 00 00 00 00 00 00 00 00 00 00 00 00 00 00 00 00 00 00 00 00 80 20 82 08 6e 88 e2 69 ea 03 00 01 fe ff ff 00 00 00 00 00 00 00 00 00 00 00 00 00 00 00 00 00 00 00 00 00 00 00 00 00 4f a0 7e"].

(** The test, on the first lines of the fixture files. *)
Definition all_captured_frames_parse (lines : list string) : bool :=
  let classes := map classify (filter (λ line, line ≠ "") lines) in
  forallb (λ c, match c with Failed => false | _ => true end) classes &&
  existsb (λ c, match c with L1Valid | L2OnlyBlob => true | _ => false end) classes.

Lemma captured_frames_test_passes :
  all_captured_frames_parse captured = true ∧ map classify (firstn 9 captured) = replicate 6 L1Valid ++ replicate 3 L2OnlyBlob.
Proof. vm_compute. done. Qed.
