(* ===== verification/FuzzTests.v ===== *)
(** * The property tests of sma-bt-protocol (tests/fuzz_frame_parse.rs)

    The generators are the arguments of the theorem; what the tests check for
    random inputs is proved for all of them. *)
From S2P Require Import Prelude Fcs Constants Frame.

Local Open Scope list_scope.
Local Open Scope Z_scope.

(** [arb_l1only_frame], [arb_l2wrapped_frame]: the frame of a payload; the
    latter overwrites the first four bytes with the signature. *)
Definition arb_l1only_frame (local dest : list Z) (control : Z) (payload : list Z) : list Z :=
  build (extend (new_with_kind L1Only local dest control) payload).
Definition arb_l2wrapped_frame (local dest : list Z) (control : Z) (payload : list Z) : list Z :=
  let pl := [0xFF; 0x03; 0x60; 0x65] ++ drop 4 payload in
  build (extend (new_builder local dest control) pl).

(** The bodies of the tests: the frame parses, as a frame of this kind; the
    input after the test's change. *)
Definition parses_as (k : FrameKind) (raw : list Z) : Prop := ∃ f, parse raw = Ok f ∧ kind f = k.
Definition length_field_mutation (raw : list Z) (flip_idx : nat) (flip_val : Z) : list Z :=
  if decide (flip_idx < length raw)%nat then <[flip_idx := flip_val]> raw else raw.
Definition truncation (raw : list Z) (truncate_to : nat) : list Z := take (Nat.min truncate_to (length raw)) raw.
Definition header_checksum_mutation (raw : list Z) (bad_cks : Z) : list Z :=
  match raw !! 3%nat with Some cks => if cks =? bad_cks then raw else <[3%nat := bad_cks]> raw | None => raw end.

(** One byte among the first four of a built frame is another: the parser
    says which test failed. *)
Lemma header_byte_caught fb i v :
  builder_ok fb → (i < 4)%nat → is_u8 v → build fb !! i ≠ Some v →
  i = 0%nat ∧ parse (<[i := v]> (build fb)) = Err (MissingStart v) ∨
  ∃ got expected, got ≠ expected ∧ parse (<[i := v]> (build fb)) = Err (HeaderChecksum got expected).
Proof.
  intros Hok Hi Hv Hne. pose proof (build_bytes fb Hok) as Hb.
  assert (Hshape : ∃ n rest, build fb = l1_header n (fb_local_bt fb) (fb_dest_bt fb) (fb_control fb) ++ rest)
    by (unfold build, build_l1_only, build_l2_wrapped; destruct (fb_kind fb); eexists _, _; reflexivity).
  destruct Hshape as (n & rest & Hshape). rewrite Hshape in *. clear Hshape.
  destruct Hok as ((?&?&?&?&?&?&->)%addr_open & (?&?&?&?&?&?&->)%addr_open & _).
  apply bytes_app in Hb as [_ Hrest]. unfold l1_header in *. cbn [app] in *.
  destruct i as [|[|[|[|i]]]]; try lia; cbn [insert list_insert list_lookup lookup] in *; rewrite parse_eq by done.
  { left. split; [done|]. by rewrite (proj2 (Z.eqb_neq _ _)) by congruence. }
  all: right; rewrite Z.eqb_refl; cbn [negb].
  all: match goal with |- context [negb (?x =? ?y)] => enough (Hc : x ≠ y) by (rewrite (proj2 (Z.eqb_neq _ _) Hc); by eexists _, _) end.
  - intros E%lxor_inj_l. rewrite !(Z.lxor_comm FRAME_DELIMITER) in E. apply lxor_inj_l in E. congruence.
  - intros E. rewrite !(Z.lxor_comm (Z.lxor _ _)) in E. apply lxor_inj_l in E. congruence.
  - congruence.
Qed.

(** A frame that passes for a reply is not parsed as an L1-only frame. *)
Lemma l1only_kind fb : builder_ok fb → fb_kind fb = L1Only → starts_l2 (fb_payload fb) → ¬ parses_as L1Only (build fb).
Proof.
  intros (Hl & Hd & Hc & Hb) Hk Hs (f & Hf & Hkind). revert Hf. unfold build, build_l1_only. rewrite Hk, parse_header by done.
  unfold parse_rest. case_match; [done|]. destruct (sig_class _) eqn:Hsig; [|by apply sig_class_None in Hsig].
  destruct (l2_rest _); [|done..]. cbn. by intros [= <-].
Qed.

Lemma truncated_bytes raw t : bytes raw → bytes (truncation raw t).
Proof. apply bytes_take. Qed.
Lemma mutated_bytes raw i v : bytes raw → is_u8 v → bytes (length_field_mutation raw i v).
Proof. intros Hr Hv. unfold length_field_mutation. case_decide; [|done]. by apply Forall_insert. Qed.

(* ------------------------------------------------------------------ *)
(** ** Property                                                        *)
(* ------------------------------------------------------------------ *)

(** C22. The property tests of the parser, for every input.  A built L1-only
    frame parses as one, unless its payload starts like a layer-2 packet; a built
    layer-2 frame of the generator's sizes always parses as one; the parser does not
    panic on any bytes, on a frame with a changed length byte, on a truncated
    frame; and a changed length byte or header checksum is reported as a
    header checksum error. *)
Theorem fuzz_tests_hold (local dest : list Z) (control : Z) (payload : list Z) :
  addr_ok local → addr_ok dest → is_u16 control → bytes payload →
  let l1 := arb_l1only_frame local dest control payload in
  let l2 := arb_l2wrapped_frame local dest control payload in
  ((length payload < 200)%nat → parses_as L1Only l1 ↔ ¬ starts_l2 payload) ∧
  ((4 ≤ length payload < 300)%nat → parses_as L2Wrapped l2) ∧
  (∀ raw, bytes raw → no_panic (parse raw)) ∧
  (∀ flip_idx v, is_u8 v → no_panic (parse (length_field_mutation l1 flip_idx v))) ∧
  (∀ t, no_panic (parse (truncation l2 t))) ∧
  (∀ flip_idx v, (1 ≤ flip_idx < 3)%nat → is_u8 v → l1 !! flip_idx ≠ Some v →
     ∃ got expected, got ≠ expected ∧ parse (length_field_mutation l1 flip_idx v) = Err (HeaderChecksum got expected)) ∧
  (∀ v, is_u8 v → l1 !! 3%nat ≠ Some v →
     ∃ got expected, got ≠ expected ∧ parse (header_checksum_mutation l1 v) = Err (HeaderChecksum got expected)).
Proof.
  intros Hl Hd Hc Hp l1 l2.
  set (f1 := extend (new_with_kind L1Only local dest control) payload).
  set (f2 := extend (new_builder local dest control) (L2_SIG ++ drop 4 payload)).
  assert (H1 : builder_ok f1) by done.
  assert (H2 : builder_ok f2) by (refine (conj Hl (conj Hd (conj Hc _))); apply (bytes_app_2 L2_SIG (drop 4 payload)); [by_decide|by apply bytes_drop]).
  assert (Hlen : (18 ≤ length l1)%nat) by (unfold l1, arb_l1only_frame; rewrite build_length by done; cbn; lia).
  assert (Hcaught : ∀ i v, (1 ≤ i < 4)%nat → is_u8 v → l1 !! i ≠ Some v →
    ∃ got expected, got ≠ expected ∧ parse (<[i := v]> l1) = Err (HeaderChecksum got expected)).
  { intros i v Hi Hv Hne. destruct (header_byte_caught f1 i v) as [[-> _]|H]; [done|lia|done|done|lia|exact H]. }
  repeat split.
  - intros Hk Hs. by apply (l1only_kind f1) in Hk.
  - intros Hs. exists (built_frame f1). split; [|done]. unfold l1, arb_l1only_frame. fold f1. rewrite parse_build_l1 by done.
    rewrite (proj2 (Z.ltb_lt _ _)); [done|]. rewrite build_length by done. cbn. lia.
  - intros [_ Hn]. exists (built_frame f2). split; [|done]. change (parse (build f2) = Ok (built_frame f2)).
    rewrite parse_build_l2 by (try done; apply (prefix_app_r _ L2_SIG); done).
    rewrite (proj2 (Z.ltb_lt _ _)); [done|]. rewrite build_length by done. cbn [fb_kind f2 extend new_builder new_with_kind].
    pose proof (stuff_length (fb_payload f2 ++ fcs_trailer (fb_payload f2))) as Hs.
    change (fb_payload f2) with (L2_SIG ++ drop 4 payload) in *.
    rewrite !length_app, fcs_trailer_length, length_drop in Hs. change (length L2_SIG) with 4%nat in Hs. cbn [fb_kind f2 extend new_builder new_with_kind]. lia.
  - intros raw Hr. by apply no_panic_parse.
  - intros i v Hv. apply no_panic_parse, mutated_bytes; [by apply build_bytes|done].
  - intros t. apply no_panic_parse, truncated_bytes. by apply build_bytes.
  - intros i v Hi Hv Hne. unfold length_field_mutation. rewrite decide_True by lia. apply Hcaught; [lia|done..].
  - intros v Hv Hne. unfold header_checksum_mutation. destruct (l1 !! 3%nat) as [c|] eqn:E; [|apply lookup_ge_None in E; lia].
    rewrite (proj2 (Z.eqb_neq _ _)) by congruence. apply Hcaught; [lia|done|congruence].
Qed.

(** A payload of the generator that the first test fails on: it starts with
    the layer-2 signature; and a length byte changed in another frame. *)
Lemma fuzz_tests_hold_witness :
  ¬ parses_as L1Only (arb_l1only_frame (replicate 6 0) (replicate 6 0) 1 [0xFF; 0x03; 0x60; 0x65; 0x2A]) ∧
  ∃ got expected, got ≠ expected ∧
    parse (length_field_mutation (arb_l1only_frame (replicate 6 0) (replicate 6 0) 1 [1; 2; 3]) 2 7) = Err (HeaderChecksum got expected).
Proof.
  split.
  - destruct (fuzz_tests_hold (replicate 6 0) (replicate 6 0) 1 [0xFF; 0x03; 0x60; 0x65; 0x2A]) as (H & _); [by_decide..|].
    intros Hp. apply (proj1 (H ltac:(simpl; lia)) Hp). left. by_decide.
  - destruct (fuzz_tests_hold (replicate 6 0) (replicate 6 0) 1 [1; 2; 3]) as (_ & _ & _ & _ & _ & H & _); [by_decide..|].
    apply (H 2%nat 7); [lia|by_decide|vm_compute; discriminate].
Defined.
