(* ===== verification/ClientTests.v ===== *)
(** * Unit and session tests of inverter-client

    The inline tests of values.rs and session.rs and the scripted sessions of
    tests/mock_session.rs, run on the models; boolean definitions in the style
    of WireTests.v. *)
From Stdlib Require Import String Ascii SpecFloat.
From S2P Require Import Prelude Text Constants Frame Packet Transport Commands Session Values WireTests.
Import Query Auth.

Local Open Scope string_scope.
Local Open Scope list_scope.
Local Open Scope Z_scope.
Local Open Scope test_scope.

#[export] Instance InverterReadings_eq_dec : EqDecision InverterReadings.
Proof. solve_decision. Defined.

(* ------------------------------------------------------------------ *)
(** ** values.rs                                                       *)
(* ------------------------------------------------------------------ *)

(** The [f32] literal with [d] as denominator: both numbers are exact, so the
    quotient is the literal correctly rounded. *)
Definition literal (n d : Z) : f32 := f32_div (to_f32 n) d.
(** [(x - y).abs() < eps] *)
Definition close_to (x y eps : f32) : bool := SFltb (SFabs (SFsub 24 128 x y)) eps.

(** [rec[off..off + n]] overwritten. *)
Definition put (off : nat) (bs rec : list Z) : list Z := firstn off rec ++ bs ++ skipn (off + length bs) rec.
Definition put_u32 (off : nat) (v : Z) : list Z → list Z := put off (le_encode 4 v).

Definition build_28_record (code dt value : Z) : list Z :=
  put_u32 24 I32_NAN (put_u32 20 I32_NAN (put_u32 16 value (put_u32 12 I32_NAN (put_u32 8 I32_NAN
    (put_u32 4 dt (put_u32 0 code (replicate 28 0))))))).
Definition build_16_record (code dt value : Z) : list Z :=
  put 8 (le_encode 8 value) (put_u32 4 dt (put_u32 0 code (replicate 16 0))).
Definition with_prefix (records : list Z) : list Z := [0x01; 0x02; 0x00; 0x51; 0; 0; 0; 0; 0; 0; 0; 0] ++ records.

Definition parse_single_power_record : bool :=
  let rec := build_28_record 0x00263F01 0x12345678 1234 in
  unwrap (parse_spot_ac_total_power (with_prefix rec)) (λ r,
    (pac_total_w r ≟ Some 1234) && (timestamp r ≟ Some 0x12345678)).
Definition nan_value_yields_none : bool :=
  let rec := build_28_record 0x00263F01 0x12345678 I32_NAN in
  unwrap (parse_spot_ac_total_power (with_prefix rec)) (λ r, (pac_total_w r ≟ None) && (timestamp r ≟ Some 0x12345678)).
Definition empty_body_yields_default : bool :=
  unwrap (parse_spot_ac_total_power []) (λ r, r ≟ mkReadings None None None None).
Definition unknown_lri_ignored : bool :=
  let rec := build_28_record 0x00FF0001 0 999 in
  unwrap (parse_spot_ac_total_power (with_prefix rec)) (λ r, pac_total_w r ≟ None).
Definition parse_energy_production_both_counters : bool :=
  let records := build_16_record 0x00260101 0 39866198 ++ build_16_record 0x00262201 0 10788 in
  unwrap (parse_energy_production (with_prefix records)) (λ '(today, total), (today ≟ Some 10788) && (total ≟ Some 39866198)).
Definition parse_inverter_temperature_celsius : bool :=
  let rec := build_28_record 0x00237701 0 3724 in
  unwrap (parse_inverter_temperature (with_prefix rec)) (λ o, unwrap_opt o (λ t, close_to t (literal 3724 100) (literal 1 1000))).
Definition parse_grid_frequency_hz : bool :=
  let rec := build_28_record 0x00465701 0 4998 in
  unwrap (parse_grid_frequency (with_prefix rec)) (λ o, unwrap_opt o (λ f, close_to f (literal 4998 100) (literal 1 1000))).
Definition parse_software_version_string : bool :=
  let rec := put 24 [0x04; 0x06; 0x30; 0x02] (put_u32 0 0x00823401 (replicate 28 0)) in
  unwrap (parse_software_version (with_prefix rec)) (λ o, unwrap_opt o (λ v, v ≟ "02.30.06.R")).
Definition parse_type_label_returns_raw_u32 : bool :=
  let rec := put_u32 16 0x00FFFFFE (put_u32 12 0x01002370 (put_u32 8 0x000000FF (put_u32 4 0 (put_u32 0 0x00821E01 (replicate 40 0))))) in
  unwrap (parse_type_label_raw (with_prefix rec)) (λ tag, tag ≟ Some 9072).
Definition parse_event_log_yields_records : bool :=
  let body := replicate (12 + 24 * 3) 0 in
  let body := put_u32 24 0x00801234 (put_u32 20 0x00000131 (put_u32 16 1700000000 (put_u32 12 42 body))) in
  let body := put_u32 44 0x00000133 (put_u32 40 1700000060 (put_u32 36 43 body)) in
  unwrap (parse_event_log_records body) (λ recs,
    (length recs ≟ 2%nat) &&
    unwrap_opt (recs !! 0%nat) (λ e, (entry_id e ≟ 42) && (tag e ≟ 305) && (text e ≟ Some "MPP search")) &&
    unwrap_opt (recs !! 1%nat) (λ e, (tag e ≟ 307) && (text e ≟ Some "Normal operation"))).
Definition parse_cosphi_decodes_scaled_thousandths : bool :=
  let rec := put_u32 16 987 (put_u32 0 0x00474801 (replicate 28 0)) in
  unwrap (parse_cosphi (with_prefix rec)) (λ o, unwrap_opt o (λ cp, close_to cp (literal 987 1000) (literal 1 1000000))).
Definition parse_cosphi_absolute_value_for_leading_pf : bool :=
  let rec := put_u32 16 (-850) (put_u32 0 0x00474801 (replicate 28 0)) in
  unwrap (parse_cosphi (with_prefix rec)) (λ o, unwrap_opt o (λ cp, close_to cp (literal 850 1000) (literal 1 1000000))).
Definition parse_single_watts_record_filters_by_lri_range : bool :=
  let r1 := put_u32 16 999 (put_u32 0 0x00112201 (replicate 28 0)) in
  let r2 := put_u32 16 3000 (put_u32 0 0x00411E01 (replicate 28 0)) in
  let body := replicate 12 0 ++ r1 ++ r2 in
  unwrap (parse_single_watts_record body 0x00411E00 0x00411E19) (λ out, out ≟ Some 3000).
Definition parse_single_watts_reads_min_slot_when_current_is_zero : bool :=
  let rec := put_u32 20 3000 (put_u32 12 3000 (put_u32 8 3000 (put_u32 0 0x00411F01 (replicate 28 0)))) in
  unwrap (parse_single_watts_record (with_prefix rec) 0x00411F00 0x00411F19) (λ out, out ≟ Some 3000).
Definition event_tag_text_sparse_lookup : bool :=
  (event_tag_text 307 ≟ Some "Normal operation") && (event_tag_text 401 ≟ Some "Insulation resistance fault") &&
  (event_tag_text 65535 ≟ None).
Definition parse_event_log_handles_empty_body : bool :=
  unwrap (parse_event_log_records []) (λ recs, length recs ≟ 0%nat) &&
  unwrap (parse_event_log_records (replicate 8 0)) (λ recs, length recs ≟ 0%nat).
Definition real_nighttime_nan_body_returns_none : bool :=
  let body := [
    0x01; 0x02; 0x00; 0x51; 0x00; 0x00; 0x00; 0x00; 0x00; 0x00; 0x00; 0x00; 0x01; 0x3f;
    0x26; 0x40; 0x84; 0x7f; 0xe2; 0x69; 0x00; 0x00; 0x00; 0x80; 0x00; 0x00; 0x00; 0x80;
    0x00; 0x00; 0x00; 0x80; 0x00; 0x00; 0x00; 0x80; 0x01; 0x00; 0x00; 0x00] in
  unwrap (parse_spot_ac_total_power body) (λ r, (pac_total_w r ≟ None) && (timestamp r ≟ Some 0x69e27f84)).

Lemma values_unit_tests_pass :
  forallb id [parse_single_power_record; nan_value_yields_none; empty_body_yields_default; unknown_lri_ignored;
    parse_energy_production_both_counters; parse_inverter_temperature_celsius; parse_grid_frequency_hz;
    parse_software_version_string; parse_type_label_returns_raw_u32; parse_event_log_yields_records;
    parse_cosphi_decodes_scaled_thousandths; parse_cosphi_absolute_value_for_leading_pf;
    parse_single_watts_record_filters_by_lri_range; parse_single_watts_reads_min_slot_when_current_is_zero;
    event_tag_text_sparse_lookup; parse_event_log_handles_empty_body; real_nighttime_nan_body_returns_none] = true.
Proof. vm_compute. reflexivity. Qed.

(* ------------------------------------------------------------------ *)
(** ** session.rs                                                      *)
(* ------------------------------------------------------------------ *)

Definition handshake_phases : list string := ["hello"; "init"; "topology"; "logon"].

Definition silent_during_query_phase_is_per_device_not_fatal : bool := negb (is_session_fatal (Silent "query")).
Definition silent_during_event_log_phase_is_per_device_not_fatal : bool := negb (is_session_fatal (Silent "event-log")).
Definition silent_during_handshake_phases_is_session_fatal : bool :=
  forallb (λ phase, is_session_fatal (Silent phase)) handshake_phases.
Definition protocol_during_query_phase_is_per_device_not_fatal : bool := negb (is_session_fatal (Protocol "query")).
Definition protocol_during_handshake_phases_is_session_fatal : bool :=
  forallb (λ phase, is_session_fatal (Protocol phase)) handshake_phases.
Definition logon_failed_is_session_fatal : bool := is_session_fatal (LogonFailed 0x0001).
Definition firmware_too_old_is_session_fatal : bool := is_session_fatal (FirmwareTooOld 1).
Definition transport_io_error_is_session_fatal : bool := is_session_fatal (TransportErr (Io 32)).
Definition transport_timeout_at_session_level_is_fatal : bool := is_session_fatal (TransportErr (Timeout 15000)).
Definition parse_error_is_session_fatal : bool :=
  match parse [0x7E; 0xFF; 0x03] with Err e => is_session_fatal (Parse e) | _ => false end.

Lemma session_unit_tests_pass :
  forallb id [silent_during_query_phase_is_per_device_not_fatal; silent_during_event_log_phase_is_per_device_not_fatal;
    silent_during_handshake_phases_is_session_fatal; protocol_during_query_phase_is_per_device_not_fatal;
    protocol_during_handshake_phases_is_session_fatal; logon_failed_is_session_fatal; firmware_too_old_is_session_fatal;
    transport_io_error_is_session_fatal; transport_timeout_at_session_level_is_fatal; parse_error_is_session_fatal] = true.
Proof. vm_compute. reflexivity. Qed.

(* ------------------------------------------------------------------ *)
(** ** tests/mock_session.rs                                           *)
(* ------------------------------------------------------------------ *)

(** [fake_hello], [fake_topology], [fake_init_reply], [fake_logon_reply] are
    those of Session.v; a record of 1234 W after the 12 bytes of prefix. *)
Definition power_record : list Z :=
  put_u32 24 I32_NAN (put_u32 20 I32_NAN (put_u32 16 1234 (put_u32 12 I32_NAN (put_u32 8 I32_NAN
    (put_u32 4 0x12345678 (put_u32 0 0x00263F01 (replicate 28 0))))))).
Definition reply_from (susy serial ctrl pkt : Z) (body : list Z) : list Z :=
  build (extend (new_builder test_inverter test_local 0x0001)
    (encode_l2 (mkL2Header 0x09 ctrl APP_SUSY_ID 900123456 0 susy serial 0 pkt) body)).
Definition fake_query_reply (pkt : Z) : list Z := reply_from 101 2120121246 0xA0 pkt (replicate 12 0 ++ power_record).

Definition scripted : list (list Z) := [fake_hello; fake_topology; fake_init_reply; fake_logon_reply].

(** A session after [handshake_and_logon().await.expect(..)]. *)
Definition logged_on (replies : list (list Z)) (test : Session Mock.MockTransport → bool) : bool :=
  let '(r, s) := handshake_and_logon 1700000000 (test_session (scripted ++ replies)) in (r ≟ Ok ()) && test s.
Definition sent_by (s : Session Mock.MockTransport) : list (list Z) := Mock.sent_frames (transport s).

Definition full_session_happy_path : bool :=
  let replies := [fake_query_reply 4] in
  (state (test_session (scripted ++ replies)) ≟ Disconnected) &&
  logged_on replies (λ s,
    (state s ≟ LoggedIn) && (inverter_susy_id s ≟ 101) && (inverter_serial s ≟ 2120121246) &&
    let '(raw, s) := query SpotAcTotalPower s in
    unwrap raw (λ raw, unwrap (parse_spot_ac_total_power raw) (λ r,
      (pac_total_w r ≟ Some 1234) && (timestamp r ≟ Some 0x12345678))) &&
    let '(r, s) := close s in (r ≟ Ok ()) && (state s ≟ Disconnected)).

Definition logon_failure_is_typed : bool :=
  let replies := [fake_hello; fake_topology; fake_init_reply; fake_reply 0x0E 0x0100 0x0100 3 (replicate 12 0)] in
  let cfg := mkSessionConfig test_inverter test_local (bytes_of "wrong") User 1000 false in
  let session := new_session (Mock.queue_replies replies Mock.new) cfg 123456 in
  (handshake_and_logon 1700000000 session).1 ≟ Err (LogonFailed 0x0100).

(** [w] is one of the windows of [l]. *)
Fixpoint has_window (w l : list Z) : bool :=
  (firstn (length w) l ≟ w) || match l with [] => false | _ :: l => has_window w l end.

Definition graceful_close_emits_logoff : bool :=
  logged_on [] (λ s,
    (state s ≟ LoggedIn) &&
    let pre_close_count := length (sent_by s) in
    let '(r, s) := graceful_close s in
    (r ≟ Ok ()) && (length (sent_by s) ≟ (pre_close_count + 1)%nat) && (state s ≟ Disconnected) &&
    unwrap_opt (last (sent_by s)) (λ logoff,
      has_window (le_encode 4 BT_L2_SIGNATURE) logoff && (firstn 6 (skipn 10 logoff) ≟ replicate 6 0xFF))).

(** The destination serial of a frame that carries a layer-2 packet. *)
Definition find_dst_serial (f : list Z) : option Z :=
  match parse f with
  | Ok frame =>
      if kind frame ≟ L2Wrapped then
        match decode_l2 (E := Empty_set) (payload frame) with Ok (Some (hdr, _)) => Some (dst_serial hdr) | _ => None end
      else None
  | _ => None
  end.

Definition mis_multi_device_routes_each_serial : bool :=
  let body := replicate 12 0 ++ power_record in
  logged_on [reply_from 131 2120121246 0xA0 4 body; reply_from 131 2120121383 0xA0 5 body] (λ s,
    let '(body_a, s) := query_for_device 131 2120121246 SpotAcTotalPower s in
    let '(body_b, s) := query_for_device 131 2120121383 SpotAcTotalPower s in
    unwrap body_a (λ body, unwrap (parse_spot_ac_total_power body) (λ r, pac_total_w r ≟ Some 1234)) &&
    unwrap body_b (λ body, unwrap (parse_spot_ac_total_power body) (λ r, pac_total_w r ≟ Some 1234)) &&
    bool_decide (6 ≤ length (sent_by s))%nat &&
    existsb (λ o, o ≟ Some 2120121246) (map find_dst_serial (sent_by s)) &&
    existsb (λ o, o ≟ Some 2120121383) (map find_dst_serial (sent_by s))).

Definition event_log_query_single_fragment_roundtrip : bool :=
  let body := put_u32 20 0x00000133 (put_u32 16 1700000000 (put_u32 12 42 (replicate (12 + 24) 0))) in
  logged_on [reply_from 131 2120121246 0xE0 4 body; reply_from 131 2120121246 0xE0 4 (replicate 12 0)] (λ s,
    let '(aggregated, s) := query_event_log_for_device 131 2120121246 1700000000 1700086400 s in
    unwrap aggregated (λ aggregated, unwrap (parse_event_log_records aggregated) (λ recs,
      bool_decide (length recs ≠ 0%nat) && existsb (λ r, tag r ≟ 307) recs))).

Definition graceful_close_safe_when_not_logged_in : bool :=
  let session := test_session [] in
  (state session ≟ Disconnected) &&
  let '(r, session) := graceful_close session in (r ≟ Ok ()) && (length (sent_by session) ≟ 0%nat).

Lemma mock_session_tests_pass :
  forallb id [full_session_happy_path; logon_failure_is_typed; graceful_close_emits_logoff;
    mis_multi_device_routes_each_serial; event_log_query_single_fragment_roundtrip;
    graceful_close_safe_when_not_logged_in] = true.
Proof. vm_compute. reflexivity. Qed.
