(* ===== verification/AppTests.v ===== *)
(** * Unit tests of mqtt-discovery, storage, telemetry and the daemon

    The inline tests of catalog.rs, client.rs, csv_sink.rs, writer.rs,
    metrics.rs, server.rs, config.rs and pvoutput.rs, run on the models;
    boolean definitions in the style of WireTests.v.  What the tests leave to a
    library (YAML, humantime, the text exposition) is instantiated with the part of it
    that the test's own input needs, or, for the exposition, any text that names
    what is registered and carries the labels of every series. *)
From Stdlib Require Import String Ascii SpecFloat.
From stdpp Require Import gmap finite.
From S2P Require Import Prelude Text Constants Storage Metrics Config Mqtt Pvoutput WireTests.

Local Open Scope string_scope.
Local Open Scope list_scope.
Local Open Scope Z_scope.
Local Open Scope test_scope.

(** [hay.contains(needle)] *)
Definition contains (hay needle : string) : bool := match String.index 0 needle hay with Some _ => true | None => false end.

(* ------------------------------------------------------------------ *)
(** ** mqtt-discovery: catalog.rs, client.rs                           *)
(* ------------------------------------------------------------------ *)

(** [dedup] leaves a list as long as it was when no key comes twice. *)
Definition catalog_keys_are_unique : bool :=
  let keys := map sc_key sensor_catalog in length (remove_dups keys) ≟ length keys.
Definition all_entries_have_non_empty_name : bool :=
  forallb (λ s, negb (sc_name s ≟ "") && negb (sc_key s ≟ "") && negb (icon s ≟ "")) sensor_catalog.
Definition discovery_topic_shape : bool :=
  let cfg := MqttClientConfig_default in
  let inv := mkIdentity "zolder" 2120121246 "SB 3000HF-30" "02.30.06.R" SolarInverter in
  unwrap_opt (sensor_catalog !! 0%nat) (λ s,
    (discovery_topic cfg inv s ≟ "homeassistant/sensor/sbfspot_zolder_ac_power/config") &&
    (state_topic cfg inv s ≟ "hass-sma/zolder/ac_power")).

Lemma discovery_unit_tests_pass :
  forallb id [catalog_keys_are_unique; all_entries_have_non_empty_name; discovery_topic_shape] = true.
Proof. vm_compute. reflexivity. Qed.

(* ------------------------------------------------------------------ *)
(** ** storage: csv_sink.rs, writer.rs                                 *)
(* ------------------------------------------------------------------ *)

Section csv_tests.
(** [TempDir], [Utc::now]: any root, any time. *)
Context (tmp : string) (t t1 t2 : DateTime).
Abbreviation append := (Csv.append (SqlError := Empty_set)).

(** A sink in an empty directory, on a disk that does not fail. *)
Definition fresh_sink : Csv.CsvSink := Csv.mkCsvSink tmp (Csv.mkDisk ∅ []).

Definition appends_header_and_rows : bool :=
  let '(r1, sink) := append t "zolder" 2120121246 "ac_power" (to_f64 641) fresh_sink in
  let '(r2, sink) := append t "zolder" 2120121246 "ac_power" (to_f64 655) sink in
  unwrap r1 (λ _, true) && unwrap r2 (λ _, true) &&
  unwrap_opt (Csv.contents (Csv.fs sink) !! Csv.filename_for (Csv.root sink) "zolder" t) (λ content,
    let lines := split_at "010" content in
    (nth 0 lines "" ≟ "time,serial,metric,value") && contains (nth 1 lines "") "ac_power,641" &&
    contains (nth 2 lines "") "ac_power,655").

(** [unwrap] of each write; the entries of the directory. *)
Definition different_days_different_files : bool :=
  let '(r1, sink) := append t1 "x" 1 "a" (to_f64 1) fresh_sink in
  let '(r2, sink) := append t2 "x" 1 "a" (to_f64 2) sink in
  unwrap r1 (λ _, true) && unwrap r2 (λ _, true) && (size (Csv.contents (Csv.fs sink)) ≟ 2%nat).
End csv_tests.

Definition schema_is_nonempty : bool :=
  forallb (contains Timescale.CREATE_SCHEMA) ["CREATE TABLE"; "hypertable"; "add_retention_policy"; "hourly_avg"].

Lemma storage_unit_tests_pass :
  forallb id [appends_header_and_rows "/tmp/a" noon;
    different_days_different_files "/tmp/a" (mkTime 1776513600000000000 2026 4 18 12 0 "2026-04-18T12:00:00+00:00")
      (mkTime 1776600000000000000 2026 4 19 12 0 "2026-04-19T12:00:00+00:00"); schema_is_nonempty] = true.
Proof. vm_compute. reflexivity. Qed.

(* ------------------------------------------------------------------ *)
(** ** telemetry: metrics.rs, server.rs                                *)
(* ------------------------------------------------------------------ *)

(** [k="v"] *)
Definition label (k v : string) : string := k +:+ "=" +:+ String "034" (v +:+ String "034" "").

Section metrics_tests.
(** The text exposition. *)
Context (text : list (string * string) → MetricsRegistry → string).

Definition encode_includes_all_families : bool :=
  let m := MetricsRegistry_new in
  let m := inc_counter polls_total (mkInverterLabels "zolder") m in
  let m := set_gauge ac_power_watts (same "zolder") (f64_div (to_f64 12345) 100) m in
  let text := encode text m in
  contains text "sma_polls_total" && contains text "sma_poll_errors_total" && contains text "sma_bt_reconnects_total" &&
  contains text "sma_ac_power_watts" && contains text (label "slot" "zolder").

Definition mis_labels_are_per_device : bool :=
  let m := MetricsRegistry_new in
  let m := inc_counter polls_total (mkInverterLabels "repeater") m in
  let m := set_gauge ac_power_watts (mkDeviceLabels "repeater" "zolder") (to_f64 1500) m in
  let m := set_gauge ac_power_watts (mkDeviceLabels "repeater" "garage") (to_f64 1800) m in
  let text := encode text m in
  contains text (label "slot" "repeater" +:+ "," +:+ label "device" "zolder") &&
  contains text (label "slot" "repeater" +:+ "," +:+ label "device" "garage") && contains text "1500" && contains text "1800".

Definition server_returns_metrics_on_path : bool :=
  let metrics := inc_counter polls_total (mkInverterLabels "test") MetricsRegistry_new in
  match accept_loop text [inr [("/metrics", metrics)]] with
  | ([[resp]], None) =>
      (status resp ≟ 200) && contains (body resp) "sma_polls_total" && contains (body resp) (label "slot" "test")
  | _ => false
  end.

Definition health_endpoint : bool :=
  match accept_loop text [inr [("/health", MetricsRegistry_new)]] with
  | ([[resp]], None) => (status resp ≟ 200) && (body resp ≟ "ok")
  | _ => false
  end.

(** What an exposition has: the name of everything registered, the labels of
    every series of a counter and the labels and value of every series of a gauge. *)
Definition exposes : Prop :=
  (∀ names m n, n ∈ map fst names → contains (text names m) n = true) ∧
  (∀ names m f l v, counters m !! (f, l) = Some v → contains (text names m) (label "slot" (il_slot l)) = true) ∧
  (∀ names m f l v, gauges m !! (f, l) = Some v →
    contains (text names m) (label "slot" (dl_slot l) +:+ "," +:+ label "device" (device l)) = true ∧
    contains (text names m) (show_f64 v) = true).

Lemma telemetry_unit_tests_pass : exposes →
  forallb id [encode_includes_all_families; mis_labels_are_per_device; server_returns_metrics_on_path; health_endpoint] = true.
Proof.
  intros (Hname & Hcounter & Hgauge). cbn [forallb]. unfold id. rewrite !andb_true_iff. repeat split.
  - unfold encode_includes_all_families, encode. rewrite !andb_true_iff. repeat split; try (apply Hname; list_in).
    eapply (Hcounter _ _ polls_total (mkInverterLabels "zolder")). vm_compute. reflexivity.
  - unfold mis_labels_are_per_device, encode. rewrite !andb_true_iff.
    assert (Hg : ∀ d v, gauges
      (set_gauge ac_power_watts (mkDeviceLabels "repeater" "garage") (to_f64 1800)
        (set_gauge ac_power_watts (mkDeviceLabels "repeater" "zolder") (to_f64 1500)
          (inc_counter polls_total (mkInverterLabels "repeater") MetricsRegistry_new)))
      !! (ac_power_watts, mkDeviceLabels "repeater" d) = Some v → _) by (intros d v; apply (Hgauge registered)).
    destruct (Hg "zolder" (to_f64 1500)) as [H1 H2]; [vm_compute; reflexivity|].
    destruct (Hg "garage" (to_f64 1800)) as [H3 H4]; [vm_compute; reflexivity|]. auto.
  - unfold server_returns_metrics_on_path. cbn [accept_loop serve_connection map fst snd]. unfold handle, encode. cbn.
    rewrite !andb_true_iff. repeat split; [apply Hname; list_in|].
    eapply (Hcounter _ _ polls_total (mkInverterLabels "test")). vm_compute. reflexivity.
Qed.
End metrics_tests.

(** Such a text: the names, then a line for each series. *)
Definition exposition (names : list (string * string)) (m : MetricsRegistry) : string :=
  join " " (map fst names) +:+ " " +:+
  join " " (map (λ '((f, l), _), label "slot" (il_slot l)) (map_to_list (counters m)) ++
    map (λ '((f, l), v), label "slot" (dl_slot l) +:+ "," +:+ label "device" (device l) +:+ " " +:+ show_f64 v) (map_to_list (gauges m))).
Lemma telemetry_tests_run :
  forallb id [encode_includes_all_families exposition; mis_labels_are_per_device exposition;
    server_returns_metrics_on_path exposition; health_endpoint exposition] = true.
Proof. vm_compute. reflexivity. Qed.

(* ------------------------------------------------------------------ *)
(** ** daemon: config.rs                                               *)
(* ------------------------------------------------------------------ *)

(** The durations of the tests: a number of seconds or minutes. *)
Definition humantime (s : string) : option Z :=
  let n := String.substring 0 (String.length s - 1) s in
  match String.get (String.length s - 1) s with
  | Some "s"%char => secs <$> dec_value n 0
  | Some "m"%char => (λ m, secs (60 * m)) <$> dec_value n 0
  | _ => None
  end.
(** A test document, as serde_yaml parses it. *)
Definition config_of (doc : tree) : option DaemonConfig := from_yaml humantime (λ _, Some doc) "".

Definition YAML : tree :=
  TMap [("mqtt", TMap [("host", TStr "core-mosquitto"); ("user", TStr "sbfspot"); ("password", TStr "hunter2")]);
    ("inverters", TSeq [TMap [("slot", TStr "zolder"); ("bt_address", TStr "00:80:25:21:32:35"); ("password", TStr "0000");
       ("poll_interval", TStr "5s"); ("model", TStr "SB 3000HF-30"); ("firmware", TStr "02.30.06.R")]]);
    ("local_bt_address", TStr "04:42:1A:5A:37:74")].

Definition parses_minimal_yaml : bool :=
  unwrap_opt (config_of YAML) (λ cfg,
    (mc_host (mqtt cfg) ≟ "core-mosquitto") && (mc_port (mqtt cfg) ≟ 1883) && (length (inverters cfg) ≟ 1%nat) &&
    unwrap_opt (inverters cfg !! 0%nat) (λ inv, (i_slot inv ≟ "zolder") && (i_poll_interval inv ≟ secs 5)) &&
    (local_bt_address cfg ≟ Some "04:42:1A:5A:37:74")).

Definition parses_mis_devices_list : bool :=
  let yaml :=
    TMap [("mqtt", TMap [("host", TStr "core-mosquitto")]);
      ("inverters", TSeq [TMap [("slot", TStr "repeater"); ("bt_address", TStr "00:80:25:21:32:35"); ("password", TStr "0000");
        ("devices", TSeq [
          TMap [("slot", TStr "zolder"); ("app_serial", TInt 2120121246); ("model", TStr "SB 3000HF-30")];
          TMap [("slot", TStr "garage"); ("app_serial", TInt 2120121383); ("password", TStr "9999"); ("model", TStr "SB 2000HF-30")]])]])] in
  unwrap_opt (config_of yaml) (λ cfg, unwrap_opt (inverters cfg !! 0%nat) (λ inv,
    (length (devices inv) ≟ 2%nat) &&
    unwrap_opt (devices inv !! 0%nat) (λ d, (d_slot d ≟ "zolder") && (d_app_serial d ≟ 2120121246) && (d_password d ≟ None)) &&
    unwrap_opt (devices inv !! 1%nat) (λ d, (d_slot d ≟ "garage") && (d_app_serial d ≟ 2120121383) && (d_password d ≟ Some "9999")))).

Definition devices_defaults_to_empty : bool :=
  unwrap_opt (config_of YAML) (λ cfg, unwrap_opt (inverters cfg !! 0%nat) (λ inv, length (devices inv) ≟ 0%nat)).

Definition defaults_when_optional_absent : bool :=
  let minimal := TMap [("mqtt", TMap [("host", TStr "core-mosquitto")]); ("inverters", TSeq [])] in
  unwrap_opt (config_of minimal) (λ cfg,
    (mc_client_id (mqtt cfg) ≟ "hass-sma-rs") && (mc_discovery_prefix (mqtt cfg) ≟ "homeassistant") &&
    (rfcomm_timeout cfg ≟ secs 15) && (local_bt_address cfg ≟ None)).

Lemma config_unit_tests_pass :
  forallb id [parses_minimal_yaml; parses_mis_devices_list; devices_defaults_to_empty; defaults_when_optional_absent] = true.
Proof. vm_compute. reflexivity. Qed.

(* ------------------------------------------------------------------ *)
(** ** daemon: pvoutput.rs                                             *)
(* ------------------------------------------------------------------ *)

(** [Utc.with_ymd_and_hms(2026, 4, 19, h, m, 0)], as far as a status reads it. *)
Definition on_april_19 (h m : Z) : DateTime := mkTime 0 2026 4 19 h m "".

Definition body_minimal_shape : bool :=
  build_status_body (mkStatus (on_april_19 13 30) (Some 9876) (Some 2500) None None) ≟ "d=20260419&t=13%3A30&v1=9876&v2=2500".
Definition body_includes_temp_and_voltage : bool :=
  let temp := f32_div (to_f32 247) 10 in
  let volt := f32_div (to_f32 23012) 100 in
  build_status_body (mkStatus (on_april_19 9 5) (Some 420) (Some 180) (Some temp) (Some volt))
    ≟ "d=20260419&t=09%3A05&v1=420&v2=180&v5=24.7&v6=230.1".
Definition body_omits_absent_fields : bool :=
  build_status_body (mkStatus (on_april_19 0 0) None None None None) ≟ "d=20260419&t=00%3A00".
Definition urlencode_colon_is_percent_3a : bool :=
  (urlencode (bytes_of "12:30") ≟ "12%3A30") && (urlencode (bytes_of "abc-def_ghi.jkl~") ≟ "abc-def_ghi.jkl~").
Definition status_at_coerces_u64_to_u32 : bool :=
  let ts := on_april_19 12 0 in
  let s := status_at ts (Some 12345) (Some 300) None None in
  let s' := status_at ts (Some 18446744073709551615) (Some 300) None None in
  (st_energy_today_wh s ≟ Some 12345) && (st_energy_today_wh s' ≟ None).

Definition cfg_yaml : tree :=
  TMap [("api_key", TStr "abc123def456");
    ("systems", TSeq [TMap [("slot", TStr "zolder"); ("system_id", TInt 12345)]; TMap [("slot", TStr "garage"); ("system_id", TInt 67890)]]);
    ("upload_interval", TStr "5m")].
(** [humantime_serde] writes 300 seconds as [5m]. *)
Definition cfg_roundtrips_through_serde_yaml : bool :=
  unwrap_opt (de_pvoutput humantime cfg_yaml) (λ cfg,
    (api_key cfg ≟ "abc123def456") && (length (systems cfg) ≟ 2%nat) &&
    unwrap_opt (systems cfg !! 0%nat) (λ s, (pv_slot s ≟ "zolder") && (system_id s ≟ 12345)) &&
    unwrap_opt (systems cfg !! 1%nat) (λ s, pv_slot s ≟ "garage") && (upload_interval cfg ≟ secs 300) &&
    unwrap_opt (de_pvoutput humantime (ser_pvoutput (V := tree) (λ _, "5m") cfg)) (λ cfg2,
      (api_key cfg ≟ api_key cfg2) && (length (systems cfg) ≟ length (systems cfg2)))).
Definition cfg_defaults_upload_interval_to_5min : bool :=
  let yaml := TMap [("api_key", TStr "xxx"); ("systems", TSeq [TMap [("slot", TStr "zolder"); ("system_id", TInt 100)]])] in
  unwrap_opt (de_pvoutput humantime yaml) (λ cfg, upload_interval cfg ≟ secs 300).
Definition cfg_accepts_zero_systems : bool :=
  unwrap_opt (de_pvoutput humantime (TMap [("api_key", TStr "xxx")])) (λ cfg, length (systems cfg) ≟ 0%nat).

Lemma pvoutput_unit_tests_pass :
  forallb id [body_minimal_shape; body_includes_temp_and_voltage; body_omits_absent_fields; urlencode_colon_is_percent_3a;
    status_at_coerces_u64_to_u32; cfg_roundtrips_through_serde_yaml; cfg_defaults_upload_interval_to_5min;
    cfg_accepts_zero_systems] = true.
Proof. vm_compute. reflexivity. Qed.
